(* ===== verification/_CoqProject ===== *)
-Q . S2P
Prelude.v
GoStrings.v
GoTime.v
GoNet.v
Headers.v
CacheControl.v
LruCache.v
Balancer.v
BalancerConc.v
Sha256.v
Metrics.v
GoMux.v
Queue.v
Log.v
Proxy.v
ProxyFacts.v
ProxyProps.v
ProxyRetention.v
Config.v
Server.v
Middleware.v
Upstream.v
UpstreamMain.v
System.v
