(* ===== verification/Prelude.v ===== *)
(** * FCReverseProxy: a verification development

    The repository is an HTTP reverse proxy in Go: a caching, load-balancing proxy
    with an admission queue ([src/internal/proxy]), its metrics and logs
    ([src/internal/metrics], [src/internal/log]), its configuration
    ([src/internal/config]), an example upstream server ([src/internal/upstream]), and
    the two programs that run them ([src/cmd]).  This library models all of it but
    tests, dashboards and deployment files.

    ** The parts and how they interact

    A request reaches the proxy's program, whose endpoints ([Server]) pass everything
    but [/metrics] and [/healthz] to [ServeHTTP] ([Proxy]).  It asks the balancer for a
    preview of the target ([Balancer]), computes the cache key ([CacheControl],
    [Headers], [Sha256]) and looks it up ([LruCache]).  A fresh entry is served as a
    HIT.  Otherwise the balancer selects a target, the queue admits the request
    ([Queue]), and the upstream path rewrites it, performs the round trip, answers,
    measures ([Metrics]), logs ([Log]) and stores what may be stored.  Behind the proxy
    an example server ([Upstream]) runs its handlers inside two wrappers
    ([Middleware]); [System] puts the two together.  [Config] makes the settings from a
    file, and [Server] the proxy from the settings.

    ** Files

    - [Prelude]: machine integers, results, the state monad of the handlers, traces of
      steps and what all of them lead to, lemmas on lists.
    - [GoStrings], [GoTime], [GoNet], [GoMux]: what the project uses of Go's standard
      library, algorithm by algorithm where the result matters (trimming, case mapping,
      number and duration parsing with overflow, header maps, response writers, path
      cleaning, request routing).
    - [Headers]: [proxy/headers.go].  [CacheControl], [LruCache]: the two halves of
      [proxy/cache.go].  [Sha256]: the hash used for keys.
    - [Balancer]: [proxy/balancer.go], [proxy/healthChecker.go]; [BalancerConc]: the same
      least-connections balancer as interleaved atomic steps.
    - [Queue]: [proxy/queue.go] as interleaved channel and atomic operations.
    - [Proxy]: [proxy/proxy.go] and [proxy/requestId.go]; [ProxyFacts] and [ProxyProps]:
      its lemmas and its theorems; [ProxyRetention]: stored responses among other requests.
    - [Metrics]: [metrics/metrics.go].  [Log]: [log/logHelpers.go], [log/logProxy.go].
      [Middleware]: [log/logUpstream.go].
    - [Config]: [config/config.go].  [Server]: [cmd/server/main.go], [cmd/server/tls.go].
    - [Upstream]: [upstream/server.go].  [UpstreamMain]: [cmd/upstream/main.go].
    - [System]: proxy and servers as one system; no source of its own.

    Definitions carry the names of the source where they can.  A struct is a record, a
    method a function that returns the new state, a handler a computation in the state
    monad [M].  [Cache] and [Balancer] are classes, like the interfaces of the source,
    with their promises in [CacheLaws] and [BalancerLaws]; the theorems about the proxy
    are proved from the promises, and the two balancers and the LRU cache are instances.
    [Writer] is the response writer as an interface, which the recording writer of the
    logging wrapper implements again.

    ** What is shown

    - Proxy: a request without a HIT is forwarded once, rewritten, and answered with the
      upstream's response; a HIT is served from the cache with its age; a stored response
      is served again until it expires, unless too many others came between; the cache
      only ever holds clean responses; connection counters and in-flight gauges settle;
      no response is counted twice, and only unreadable bodies and refusals of the queue
      escape the count; failures are answered 502, 408 or 503; requests that may not use
      the cache leave it alone.
    - System: an item read through the proxy is the server's, and stays what the client
      reads for ten seconds, whatever is written meanwhile.
    - Cache: refinement of a bounded recency list, retention, eviction.  Cacheability:
      round trip of parsing; injectivity of keys on clean parts.
    - Balancers: fairness and failover of round robin, least load of least connections,
      conservation of reservations under every interleaving, and its limits.
    - Queue: bounds under every interleaving, termination, service of every admitted
      request on every run without cancellations and timeouts ([inevitably]), and the loss
      of slots by which it can wedge.
    - Configuration and start: what loads and what does not, well-formedness of what was
      loaded, and that the started proxy satisfies what the theorems on requests suppose.
    - Program: the endpoints; when HTTPS is started and which files change.
    - Server: every method on items, creation and reading back, the wrappers'
      transparency (and the byte they lose from long bodies), one measurement per request.
    - Log: which lines are printed and pushed for each call, and with which labels.

    ** Fuel and bounds

    Two loops run on fuel: [parse_groups] of [GoTime], with the length of the input,
    which each group shortens ([parse_groups_fuel] shows that more changes nothing), and
    [chunks] of [Sha256], with the length of the message, of which every chunk takes
    some.  All other recursion is structural, or over a list of steps given by a
    schedule; the scans of the balancers are bounded by the number of targets, as in the
    source.  [int], [int64] and [time.Duration] wrap at 64 bits and [uint64] modulo
    [2^64]; a theorem that needs a counter not to have wrapped says so.  An instant is a
    count of nanoseconds without bound.

    ** Parameters

    What is not the project's code is an argument: round trips, probes, the clock and the
    client's cancellation ([Env]); Unicode's tables ([Unicode]); [http.ParseTime];
    [url.Parse], the YAML and JSON libraries, the file system; [URL.RequestURI], the
    protocol version and the [%q] verb ([Format]); the exporter of [/metrics], redirects
    and the answer to an asterisk request; key and certificate generation, which may
    fail; the operating system's choice of addresses.

    ** Not modelled

    - The transport: connections, time-outs, retries, the fields Go's client and server
      add (User-Agent, Accept-Encoding, Date, Content-Length), trailers, compression and
      protocol upgrades.  A body is read as a whole or fails.  Listening and signals.
    - Panics: target URLs are not nil, and header values are what the parser admits.
    - Pointer aliasing of cached responses: an entry is a value; the source never writes
      to one it has stored.  The two clock readings of the Expires rule are taken whether
      or not the rule is reached.
    - In [Proxy] the queue is its outcome; its steps, timers and metrics are in [Queue].
      One request runs without interruption in [Proxy]; interleavings are modelled where
      state is shared without a lock, in [Queue] and [BalancerConc].
    - [ServeMux] is given for patterns without method, host or wildcard, on paths that
      need no escaping; requests carry no RawPath.
    - The contents of a generated certificate, file modes, the socket options of a server.
    - Documentation, dashboards, container files and the tests of the repository. *)
From stdpp Require Export base tactics numbers option list gmap strings fin_maps sorting.
From Stdlib Require Export ZArith Lia ZifyBool ZifyN ZifyNat Ascii.
From Stdlib Require String.

#[global] Open Scope Z_scope.
#[export] Set Warnings "-clear-no-such-hyp".

(** ** Machine integers

    Go's [int] (on the 64-bit targets the project builds for), [int64] and
    [time.Duration] are two's-complement 64-bit integers; [uint64] wraps modulo
    [2^64].  They are kept as [Z], with the wrap-around of each arithmetic
    operation written out. *)

Definition two63 : Z := 9223372036854775808.
Definition two64 : Z := 18446744073709551616.
Definition max_i64 : Z := two63 - 1.

Definition wrap_u64 (z : Z) : Z := z mod two64.
Definition wrap_i64 (z : Z) : Z := (z + two63) mod two64 - two63.

Definition in_u64 (z : Z) : Prop := 0 <= z < two64.
Definition in_i64 (z : Z) : Prop := - two63 <= z < two63.

Ltac unfold_ints :=
  unfold in_u64, in_i64, wrap_u64, wrap_i64, max_i64, two63, two64 in *.

Lemma wrap_u64_range z : in_u64 (wrap_u64 z).
Proof. unfold_ints. apply Z.mod_pos_bound. lia. Qed.

Lemma wrap_i64_range z : in_i64 (wrap_i64 z).
Proof.
  unfold_ints.
  pose proof (Z.mod_pos_bound (z + 9223372036854775808) 18446744073709551616). lia.
Qed.

Lemma wrap_u64_small z : in_u64 z -> wrap_u64 z = z.
Proof. unfold_ints. intros. by apply Z.mod_small. Qed.

Lemma wrap_i64_small z : in_i64 z -> wrap_i64 z = z.
Proof. unfold_ints. intros. rewrite Z.mod_small; lia. Qed.

Lemma wrap_u64_add_l a b : wrap_u64 (wrap_u64 a + b) = wrap_u64 (a + b).
Proof. unfold wrap_u64. by rewrite Zplus_mod_idemp_l. Qed.

Lemma wrap_i64_add_l a b : wrap_i64 (wrap_i64 a + b) = wrap_i64 (a + b).
Proof.
  unfold wrap_i64.
  replace ((a + two63) mod two64 - two63 + b + two63)
    with ((a + two63) mod two64 + b) by lia.
  rewrite Zplus_mod_idemp_l. do 2 f_equal. lia.
Qed.

Lemma wrap_i64_sub_add a b : wrap_i64 (wrap_i64 (a - b) + b) = wrap_i64 a.
Proof. rewrite wrap_i64_add_l. f_equal. lia. Qed.

Create HintDb go_ints.
#[export] Hint Resolve wrap_u64_range wrap_i64_range wrap_u64_small wrap_i64_small : go_ints.

(** ** Results of fallible Go calls

    A Go function returning [(T, error)] is modelled by [result T E]. *)

Inductive result (A E : Type) : Type :=
| Ok (a : A)
| Err (e : E).
Arguments Ok {A E} a.
Arguments Err {A E} e.

Definition is_ok {A E} (r : result A E) : bool :=
  match r with Ok _ => true | Err _ => false end.

Declare Scope go_scope.
Delimit Scope go_scope with go.

Notation "x <-? c ;; k" :=
  (match c with Ok x => k | Err e => Err e end)
  (at level 100, c at next level, right associativity) : go_scope.

(** ** A state monad

    Handlers that read and change a state are written in it. *)

Definition M (W A : Type) : Type := W -> A * W.
Definition ret {W A} (x : A) : M W A := fun w => (x, w).
Definition bind {W A D} (m : M W A) (k : A -> M W D) : M W D :=
  fun w => let '(x, w') := m w in k x w'.

Declare Scope handler_scope.
Delimit Scope handler_scope with handler.
Notation "'let!' x := m 'in' k" := (bind m (fun x => k))
  (at level 10, x name, m at level 100, k at level 200) : handler_scope.
Notation "m ;;; k" := (bind m (fun _ => k)) (at level 100, right associativity) : handler_scope.

(** ** Reachability

    Concurrent components are given as a step relation; [reachable] is its
    reflexive-transitive closure from the initial states, and an invariant is
    proved once per step. *)

Section Reachability.
Context {S : Type} (init : S -> Prop) (step : S -> S -> Prop).

Inductive reachable : S -> Prop :=
| reach_init s : init s -> reachable s
| reach_step s s' : reachable s -> step s s' -> reachable s'.

Lemma reachable_invariant (I : S -> Prop) :
  (forall s, init s -> I s) ->
  (forall s s', I s -> step s s' -> I s') ->
  forall s, reachable s -> I s.
Proof. intros Hi Hs s. induction 1; eauto. Qed.

Inductive steps : S -> S -> Prop :=
| steps_refl s : steps s s
| steps_cons s1 s2 s3 : step s1 s2 -> steps s2 s3 -> steps s1 s3.

Lemma reachable_steps s s' : reachable s -> steps s s' -> reachable s'.
Proof. intros Hr Hs. induction Hs; eauto using reach_step. Qed.
(** Every run from the state meets [goal]: the goal holds, or there is a step and all
    steps lead to states of which the same is true. *)
Inductive inevitably (goal : S -> Prop) : S -> Prop :=
| inev_now s : goal s -> inevitably goal s
| inev_later s : (exists s', step s s') -> (forall s', step s s' -> inevitably goal s') ->
    inevitably goal s.

(** A relation that decreases a rank and can always go on outside of [goal] meets it,
    inside an invariant. *)
Lemma inevitably_intro (I : S -> Prop) (done : S -> bool) (rank : S -> nat) :
  (forall s s', I s -> step s s' -> I s') ->
  (forall s s', step s s' -> (rank s' < rank s)%nat) ->
  (forall s, I s -> done s = false -> exists s', step s s') ->
  forall s, I s -> inevitably (fun s' => I s' /\ done s' = true) s.
Proof.
  intros Hinv Hrank Hprog s. induction s as [s IH] using (Nat.measure_induction _ rank).
  intros Hs. destruct (done s) eqn:Hd; [by apply inev_now|].
  apply inev_later; [by apply Hprog|]. intros s' Hstep. eauto.
Qed.

Lemma inevitably_weaken (goal goal' : S -> Prop) s :
  (forall s', goal s' -> goal' s') -> inevitably goal s -> inevitably goal' s.
Proof. intros Hw. induction 1; [by apply inev_now, Hw|by apply inev_later]. Qed.

(** Some run meets what every run does. *)
Lemma inevitably_run goal s : inevitably goal s -> exists s', steps s s' /\ goal s'.
Proof.
  induction 1 as [s Hs|s [s1 Hs1] _ IH]; [by exists s; split; [constructor|]|].
  destruct (IH s1 Hs1) as (s' & Hrun & Hg). exists s'. split; [by econstructor|done].
Qed.

End Reachability.

#[export] Hint Constructors reachable steps : core.

(** ** Lists *)

Lemma NoDup_app_comm {A} (l k : list A) : NoDup (l ++ k) -> NoDup (k ++ l).
Proof. by rewrite (Permutation_app_comm l k). Qed.

Lemma Forall_rev_iff {A} (P : A -> Prop) l : Forall P (rev l) <-> Forall P l.
Proof. rewrite !Forall_forall. setoid_rewrite list_elem_of_In. by setoid_rewrite <- in_rev. Qed.

Lemma length_removelast {A} (l : list A) : length (removelast l) = pred (length l).
Proof.
  induction l as [|x l IH]; [done|]. destruct l as [|y l]; [done|].
  change (removelast (x :: y :: l)) with (x :: removelast (y :: l)). cbn [length] in *. lia.
Qed.

Section Filter.
Context {A : Type}.
Implicit Types l : list A.

Lemma filter_ext_in (P Q : A -> Prop) `{!forall x, Decision (P x), !forall x, Decision (Q x)} l :
  (forall x, x ∈ l -> P x <-> Q x) -> filter P l = filter Q l.
Proof.
  induction l as [|x l IH]; intros Hall; [done|]. rewrite !filter_cons.
  rewrite IH by (intros; apply Hall; by right).
  assert (Hx : P x <-> Q x) by (apply Hall; by left).
  destruct (decide (P x)), (decide (Q x)); tauto.
Qed.

Lemma filter_id (P : A -> Prop) `{!forall x, Decision (P x)} l :
  (forall x, x ∈ l -> P x) -> filter P l = l.
Proof.
  induction l as [|x l IH]; intros Hall; [done|].
  rewrite filter_cons, decide_True by (apply Hall; by left).
  f_equal. apply IH. intros; apply Hall; by right.
Qed.

Lemma filter_fmap {B} (f : B -> A) (P : A -> Prop) `{!forall x, Decision (P x)} (l : list B) :
  filter P (f <$> l) = f <$> filter (fun b => P (f b)) l.
Proof.
  induction l as [|x l IH]; [done|]. cbn [fmap list_fmap]. rewrite !filter_cons, IH.
  by destruct (decide (P (f x))).
Qed.

Lemma filter_length_le (P : A -> Prop) `{!forall x, Decision (P x)} l :
  (length (filter P l) <= length l)%nat.
Proof.
  induction l as [|x l IH]; [done|]. rewrite filter_cons. case_decide; cbn; lia.
Qed.

Lemma filter_length_lt (P : A -> Prop) `{!forall x, Decision (P x)} l x :
  x ∈ l -> ~ P x -> (length (filter P l) < length l)%nat.
Proof.
  intros Hx HP. induction l as [|y l IH]; [by apply not_elem_of_nil in Hx|].
  rewrite filter_cons. apply elem_of_cons in Hx as [->|Hx].
  - rewrite decide_False by done. pose proof (filter_length_le P l). cbn. lia.
  - specialize (IH Hx). case_decide; cbn; lia.
Qed.
End Filter.

(** ** Counting *)

Section Count.
Context {A : Type}.
Implicit Types (P Q : A -> bool) (l : list A).

Definition count_if P l : Z := foldr (fun x n => Z.b2z (P x) + n) 0 l.

Lemma count_if_cons P x l : count_if P (x :: l) = Z.b2z (P x) + count_if P l.
Proof. done. Qed.

Lemma count_if_bound P l : 0 <= count_if P l <= Z.of_nat (length l).
Proof.
  induction l as [|x l IH]; [done|]. rewrite count_if_cons. destruct (P x); cbn [Z.b2z length]; lia.
Qed.

Lemma count_if_insert P l i x y :
  l !! i = Some x -> count_if P (<[i := y]> l) = count_if P l - Z.b2z (P x) + Z.b2z (P y).
Proof.
  revert i. induction l as [|z l IH]; intros [|i] Hi; try done.
  - injection Hi as ->. cbn [insert list_insert]. rewrite !count_if_cons. lia.
  - change (<[S i := y]> (z :: l)) with (z :: <[i := y]> l). rewrite !count_if_cons, (IH i Hi). lia.
Qed.

Lemma count_if_replicate P n x : P x = false -> count_if P (replicate n x) = 0.
Proof.
  intros Hx. induction n as [|n IH]; [done|]. cbn [replicate]. rewrite count_if_cons, Hx, IH. done.
Qed.

Lemma count_if_pos P l i x : l !! i = Some x -> P x = true -> 0 < count_if P l.
Proof.
  revert i. induction l as [|z l IH]; intros [|i] Hi HP; try done; rewrite count_if_cons.
  - injection Hi as ->. rewrite HP. pose proof (count_if_bound P l). cbn [Z.b2z]. lia.
  - specialize (IH i Hi HP). destruct (P z); cbn [Z.b2z]; lia.
Qed.

Lemma count_if_zero P l : count_if P l = 0 <-> Forall (fun x => P x = false) l.
Proof.
  induction l as [|x l IH]; [done|]. rewrite count_if_cons, Forall_cons, <- IH.
  pose proof (count_if_bound P l). destruct (P x); cbn [Z.b2z]; intuition (done || lia).
Qed.

Lemma count_if_le P Q l :
  (forall x, x ∈ l -> P x = true -> Q x = true) -> count_if P l <= count_if Q l.
Proof.
  induction l as [|x l IH]; intros HPQ; [done|]. rewrite !count_if_cons.
  assert (count_if P l <= count_if Q l) by (apply IH; intros; apply HPQ; [by right|done]).
  destruct (P x) eqn:HP; [rewrite (HPQ x (list_elem_of_here _ _) HP)|destruct (Q x)]; cbn [Z.b2z]; lia.
Qed.

Lemma count_if_disjoint P Q R l :
  (forall x, x ∈ l -> Z.b2z (P x) + Z.b2z (Q x) <= Z.b2z (R x)) ->
  count_if P l + count_if Q l <= count_if R l.
Proof.
  induction l as [|x l IH]; intros HPQ; [done|]. rewrite !count_if_cons.
  pose proof (HPQ x (list_elem_of_here _ _)).
  assert (count_if P l + count_if Q l <= count_if R l) by (apply IH; intros; apply HPQ; by right).
  lia.
Qed.

Lemma count_if_ext P Q l : (forall x, x ∈ l -> P x = Q x) -> count_if P l = count_if Q l.
Proof.
  intros HPQ. apply Z.le_antisymm; apply count_if_le; intros x Hx; by rewrite (HPQ x Hx).
Qed.

Lemma count_if_witness P l : 0 < count_if P l -> exists i x, l !! i = Some x /\ P x = true.
Proof.
  induction l as [|x l IH]; [by cbn|]. rewrite count_if_cons. destruct (P x) eqn:HP; intros Hc.
  - by exists 0%nat, x.
  - destruct (IH Hc) as (i & y & Hi & Hy). by exists (S i), y.
Qed.

Lemma count_if_app P l k : count_if P (l ++ k) = count_if P l + count_if P k.
Proof. induction l as [|x l IH]; [done|]. cbn [app]. rewrite !count_if_cons, IH. lia. Qed.
End Count.
#[global] Arguments count_if {A} P l : simpl never.
