(* ===== verification/GoStrings.v ===== *)
(** * The Go [strings], [strconv] and [sort] functions the project calls

    A Go string is a sequence of bytes: [string] here, with [bytes]/[str]
    moving to and from [list ascii].  The case-mapping functions have Go's
    structure: an exact ASCII path, and a path for strings with non-ASCII bytes
    that consults Unicode tables, which are the operations of the class
    [Unicode].  [TrimSpace] is exact for all of Unicode's white space. *)
From S2P Require Import Prelude.
From stdpp Require Import pretty.
#[local] Open Scope Z_scope.

(** ** Bytes *)

Definition bytes (s : string) : list ascii := String.list_ascii_of_string s.
Definition str (l : list ascii) : string := String.string_of_list_ascii l.

Lemma append_cons c a b : String c a +:+ b = String c (a +:+ b).
Proof. done. Qed.
Lemma str_bytes s : str (bytes s) = s.
Proof. apply String.string_of_list_ascii_of_string. Qed.
Lemma bytes_str l : bytes (str l) = l.
Proof. apply String.list_ascii_of_string_of_list_ascii. Qed.
Lemma bytes_app a b : bytes (a +:+ b) = bytes a ++ bytes b.
Proof.
  unfold bytes. induction a as [|c a IH]; [done|].
  rewrite append_cons. cbn. by rewrite IH.
Qed.
Lemma str_app a b : str (a ++ b) = str a +:+ str b.
Proof.
  unfold str. induction a as [|c a IH]; [done|].
  cbn. by rewrite append_cons, IH.
Qed.
Lemma bytes_inj a b : bytes a = bytes b -> a = b.
Proof. intros H. by rewrite <- (str_bytes a), <- (str_bytes b), H. Qed.
Lemma str_inj a b : str a = str b -> a = b.
Proof. intros H. by rewrite <- (bytes_str a), <- (bytes_str b), H. Qed.
Lemma bytes_nil s : bytes s = [] <-> s = "".
Proof. split; [|by intros ->]. intros H. by apply bytes_inj. Qed.
Lemma append_assoc (a b c : string) : (a +:+ b) +:+ c = a +:+ b +:+ c.
Proof. apply bytes_inj. by rewrite !bytes_app, app_assoc. Qed.
Lemma append_nil_r (a : string) : a +:+ "" = a.
Proof. apply bytes_inj. by rewrite bytes_app, app_nil_r. Qed.
Lemma append_inj_l (a b c : string) : a +:+ b = a +:+ c -> b = c.
Proof.
  intros H%(f_equal bytes). rewrite !bytes_app in H.
  by apply app_inv_head, bytes_inj in H.
Qed.
Lemma append_inj_r (a b c : string) : b +:+ a = c +:+ a -> b = c.
Proof.
  intros H%(f_equal bytes). rewrite !bytes_app in H.
  by apply app_inv_tail, bytes_inj in H.
Qed.

Create Rewrite HintDb go_str.
#[export] Hint Rewrite str_bytes bytes_str bytes_app str_app append_assoc append_nil_r : go_str.

Definition str_len (s : string) : Z := Z.of_nat (length (bytes s)).

(** Byte values, for comparisons with character codes. *)
Definition code (c : ascii) : N := N_of_ascii c.
Definition byte (n : N) : ascii := ascii_of_N n.
Definition between (lo hi : N) (c : ascii) : bool := ((lo <=? code c) && (code c <=? hi))%N.

Definition is_digit (c : ascii) : bool := between 48 57 c.
Definition is_upper (c : ascii) : bool := between 65 90 c.
Definition is_lower (c : ascii) : bool := between 97 122 c.
Definition is_ascii_byte (c : ascii) : bool := (code c <? 128)%N.
Definition is_ascii (s : string) : bool := forallb is_ascii_byte (bytes s).

(** ** White space: [unicode.IsSpace] on the UTF-8 encoding

    U+0009-000D, U+0020 are one byte; U+0085, U+00A0 two bytes; U+1680,
    U+2000-200A, U+2028, U+2029, U+202F, U+205F, U+3000 three bytes. *)
Definition space1 (a : ascii) : bool := between 9 13 a || (code a =? 32)%N.
Definition space2 (a b : ascii) : bool :=
  (code a =? 194)%N && ((code b =? 133)%N || (code b =? 160)%N).
Definition space3 (a b c : ascii) : bool :=
  let a := code a in let b := code b in let c := code c in
  (((a =? 225) && (b =? 154) && (c =? 128))
   || ((a =? 226) && (b =? 128)
       && (((128 <=? c) && (c <=? 138)) || (c =? 168) || (c =? 169) || (c =? 175)))
   || ((a =? 226) && (b =? 129) && (c =? 159))
   || ((a =? 227) && (b =? 128) && (c =? 128)))%N.

(** Drops white-space runes from the front; [s2]/[s3] recognise the multi-byte
    ones (in reading order for [TrimLeft], reversed for [TrimRight]). *)
Fixpoint trim_front (s2 : ascii -> ascii -> bool) (s3 : ascii -> ascii -> ascii -> bool)
    (l : list ascii) : list ascii :=
  match l with
  | [] => []
  | a :: l1 =>
      if space1 a then trim_front s2 s3 l1 else
      match l1 with
      | [] => l
      | b :: l2 =>
          if s2 a b then trim_front s2 s3 l2 else
          match l2 with
          | [] => l
          | c :: l3 => if s3 a b c then trim_front s2 s3 l3 else l
          end
      end
  end.

Definition trim_left_b (l : list ascii) : list ascii := trim_front space2 space3 l.
Definition trim_right_b (l : list ascii) : list ascii :=
  rev (trim_front (fun a b => space2 b a) (fun a b c => space3 c b a) (rev l)).

(** [strings.TrimSpace] *)
Definition TrimSpace (s : string) : string := str (trim_right_b (trim_left_b (bytes s))).

(** [strings.Trim(s, cutset)], [strings.TrimRight(s, cutset)] for ASCII cutsets. *)
Definition in_cutset (cut : string) (c : ascii) : bool :=
  existsb (fun d => Ascii.eqb c d) (bytes cut).
Fixpoint drop_while {A} (p : A -> bool) (l : list A) : list A :=
  match l with
  | [] => []
  | x :: l' => if p x then drop_while p l' else l
  end.
Definition drop_while_end {A} (p : A -> bool) (l : list A) : list A :=
  rev (drop_while p (rev l)).
Definition Trim (s cut : string) : string :=
  str (drop_while_end (in_cutset cut) (drop_while (in_cutset cut) (bytes s))).
Definition TrimRight (s cut : string) : string :=
  str (drop_while_end (in_cutset cut) (bytes s)).

(** ** Prefixes, suffixes, containment *)
Fixpoint prefix_b (p l : list ascii) : bool :=
  match p, l with
  | [], _ => true
  | a :: p', b :: l' => Ascii.eqb a b && prefix_b p' l'
  | _ :: _, [] => false
  end.
Definition HasPrefix (s p : string) : bool := prefix_b (bytes p) (bytes s).
Definition HasSuffix (s p : string) : bool := prefix_b (rev (bytes p)) (rev (bytes s)).
Definition TrimPrefix (s p : string) : string :=
  if HasPrefix s p then str (drop (length (bytes p)) (bytes s)) else s.
Fixpoint contains_b (sub l : list ascii) : bool :=
  prefix_b sub l || match l with [] => false | _ :: l' => contains_b sub l' end.
Definition Contains (s sub : string) : bool := contains_b (bytes sub) (bytes s).

(** ** Splitting and joining *)
Fixpoint split_b (sep : ascii) (l : list ascii) : list (list ascii) :=
  match l with
  | [] => [[]]
  | c :: l' =>
      if Ascii.eqb c sep then [] :: split_b sep l'
      else match split_b sep l' with
           | [] => [[c]]
           | w :: ws => (c :: w) :: ws
           end
  end.
(** [strings.Split(s, sep)] for a one-byte [sep]. *)
Definition Split (s : string) (sep : ascii) : list string := str <$> split_b sep (bytes s).

(** The bytes before and after the first [sep], if there is one. *)
Fixpoint cut_b (sep : ascii) (l : list ascii) : option (list ascii * list ascii) :=
  match l with
  | [] => None
  | c :: l' =>
      if Ascii.eqb c sep then Some ([], l')
      else match cut_b sep l' with
           | Some (x, y) => Some (c :: x, y)
           | None => None
           end
  end.
(** [strings.SplitN(s, sep, 2)] for a one-byte [sep]. *)
Definition SplitN2 (s : string) (sep : ascii) : list string :=
  match cut_b sep (bytes s) with
  | Some (x, y) => [str x; str y]
  | None => [s]
  end.

Fixpoint Join (l : list string) (sep : string) : string :=
  match l with
  | [] => ""
  | [s] => s
  | s :: l' => s +:+ sep +:+ Join l' sep
  end.

(** ** Case mapping *)

(** What Go's Unicode tables contribute for strings with non-ASCII bytes. *)
Class Unicode := {
  map_lower : string -> string;
  map_upper : string -> string;
  fold_equal : string -> string -> bool;
}.

(** Instance for strings that carry no cased character outside ASCII. *)
Definition lower_byte (c : ascii) : ascii := if is_upper c then byte (code c + 32) else c.
Definition upper_byte (c : ascii) : ascii := if is_lower c then byte (code c - 32) else c.
Definition ascii_lower (s : string) : string := str (lower_byte <$> bytes s).
Definition ascii_upper (s : string) : string := str (upper_byte <$> bytes s).

Definition ascii_only : Unicode := {|
  map_lower := ascii_lower;
  map_upper := ascii_upper;
  fold_equal := fun a b => bool_decide (ascii_lower a = ascii_lower b);
|}.

Section Case.
Context `{U : Unicode}.

Definition ToLower (s : string) : string :=
  if is_ascii s then ascii_lower s else map_lower s.
Definition ToUpper (s : string) : string :=
  if is_ascii s then ascii_upper s else map_upper s.
Definition EqualFold (s t : string) : bool :=
  if is_ascii s && is_ascii t then bool_decide (ascii_lower s = ascii_lower t)
  else fold_equal s t.
End Case.

(** ** Decimal numbers *)

(** [strconv.Itoa], [strconv.FormatInt(_, 10)], the [%d] verb. *)
Definition Itoa (z : Z) : string := pretty z.

(** The value of a run of decimal digits, most significant first. *)
Definition digit_val (c : ascii) : Z := Z.of_N (code c) - 48.
Definition digits_val (l : list ascii) : Z :=
  foldl (fun acc c => acc * 10 + digit_val c) 0 l.

(** [strconv.Atoi]: optional sign, at least one digit, within [int]. *)
Definition Atoi (s : string) : option Z :=
  let '(neg, ds) :=
    match bytes s with
    | c :: l => if Ascii.eqb c "-"%char then (true, l)
                else if Ascii.eqb c "+"%char then (false, l) else (false, c :: l)
    | [] => (false, [])
    end in
  if bool_decide (ds = []) || negb (forallb is_digit ds) then None
  else let v := if (neg : bool) then - digits_val ds else digits_val ds in
       if (- two63 <=? v) && (v <? two63) then Some v else None.

(** [sort.Strings] *)
Definition sort_strings (l : list string) : list string := merge_sort strings.String.le l.

(** ** Facts: trimming *)

Ltac trim_cases :=
  repeat match goal with
    | |- context [if ?b then _ else _] => destruct b eqn:?
    | |- context [match ?l with [] => _ | _ :: _ => _ end] => destruct l
    end.

Section TrimFront.
Context (s2 : ascii -> ascii -> bool) (s3 : ascii -> ascii -> ascii -> bool).

Lemma trim_front_suffix l : exists p, l = p ++ trim_front s2 s3 l.
Proof.
  induction l as [l IH] using (induction_ltof1 _ length). unfold ltof in IH.
  destruct l as [|a l1]; [by exists []|]. cbn [trim_front].
  destruct (space1 a).
  { destruct (IH l1) as [p Hp]; [cbn; lia|]. exists (a :: p). cbn. congruence. }
  destruct l1 as [|b l2]; [by exists []|]. destruct (s2 a b).
  { destruct (IH l2) as [p Hp]; [cbn; lia|]. exists (a :: b :: p). cbn. congruence. }
  destruct l2 as [|c l3]; [by exists []|]. destruct (s3 a b c); [|by exists []].
  destruct (IH l3) as [p Hp]; [cbn; lia|]. exists (a :: b :: c :: p). cbn. congruence.
Qed.

Lemma trim_front_idem l : trim_front s2 s3 (trim_front s2 s3 l) = trim_front s2 s3 l.
Proof.
  induction l as [l IH] using (induction_ltof1 _ length). unfold ltof in IH.
  destruct l as [|a l1]; [done|]. cbn [trim_front].
  destruct (space1 a) eqn:?; [apply IH; cbn; lia|].
  destruct l1 as [|b l2]; [cbn; by rewrite Heqb|].
  destruct (s2 a b) eqn:?; [apply IH; cbn; lia|].
  destruct l2 as [|c l3]; [cbn; by rewrite Heqb, Heqb0|].
  destruct (s3 a b c) eqn:?; [apply IH; cbn; lia|].
  cbn. by rewrite Heqb, Heqb0, Heqb1.
Qed.

Lemma trim_front_prefix p q :
  trim_front s2 s3 (p ++ q) = p ++ q -> trim_front s2 s3 p = p.
Proof.
  assert (Hlt : forall a k l, trim_front s2 s3 k = a :: l -> (length k < S (length l))%nat -> False).
  { intros a k l Heq Hlen. destruct (trim_front_suffix k) as [r Hr].
    rewrite Heq in Hr. subst k. rewrite length_app in Hlen. cbn in Hlen. lia. }
  destruct p as [|a p1]; [done|]. cbn [app trim_front]. intros H.
  destruct (space1 a) eqn:?; [exfalso; eapply Hlt; [exact H|lia]|].
  destruct p1 as [|b p2]; [done|]. cbn [app] in H.
  destruct (s2 a b) eqn:?; [exfalso; eapply Hlt; [exact H|cbn; lia]|].
  destruct p2 as [|c p3]; [done|]. cbn [app] in H.
  destruct (s3 a b c) eqn:?; [exfalso; eapply Hlt; [exact H|cbn; lia]|done].
Qed.

Lemma trim_front_ascii a l :
  (forall b, s2 a b = false) -> (forall b c, s3 a b c = false) ->
  space1 a = false -> trim_front s2 s3 (a :: l) = a :: l.
Proof. intros H2 H3 H1. cbn. rewrite H1. repeat case_match; congruence. Qed.
End TrimFront.

Lemma TrimSpace_idem s : TrimSpace (TrimSpace s) = TrimSpace s.
Proof.
  unfold TrimSpace. rewrite bytes_str. f_equal.
  set (l := trim_left_b (bytes s)).
  assert (Hl : trim_left_b l = l) by apply trim_front_idem.
  assert (Hp : exists q, l = trim_right_b l ++ q).
  { unfold trim_right_b. set (r := trim_front _ _ (rev l)).
    destruct (trim_front_suffix (fun a b => space2 b a) (fun a b c => space3 c b a) (rev l))
      as [p Hp]. fold r in Hp. exists (rev p).
    by rewrite <- rev_app_distr, <- Hp, rev_involutive. }
  destruct Hp as [q Hq].
  assert (Hpre : trim_left_b (trim_right_b l) = trim_right_b l).
  { apply (trim_front_prefix _ _ _ q). by rewrite <- Hq. }
  rewrite Hpre. unfold trim_right_b. by rewrite rev_involutive, trim_front_idem.
Qed.

(** A byte that neither starts nor ends a white-space rune. *)
Definition plain_byte (c : ascii) : bool := is_ascii_byte c && negb (space1 c).

Lemma plain_byte_spec c :
  plain_byte c = true -> (code c < 128)%N /\ space1 c = false.
Proof.
  unfold plain_byte, is_ascii_byte. rewrite andb_true_iff, negb_true_iff, N.ltb_lt. done.
Qed.

(** Trimming leaves a string alone whose first and last bytes are plain. *)
Lemma TrimSpace_plain s a b l :
  bytes s = a :: l -> last (a :: l) = Some b ->
  plain_byte a = true -> plain_byte b = true -> TrimSpace s = s.
Proof.
  intros Hs Hlast [Ha Ha1]%plain_byte_spec [Hb Hb1]%plain_byte_spec. unfold TrimSpace. rewrite Hs.
  unfold trim_left_b. rewrite trim_front_ascii; [|..|done].
  - apply last_Some in Hlast as [k Hk]. rewrite Hk. unfold trim_right_b.
    rewrite rev_app_distr. cbn [rev app].
    rewrite trim_front_ascii; [|..|done].
    + cbn. rewrite rev_involutive. by rewrite <- Hk, <- Hs, str_bytes.
    + intros c. cbv beta. unfold space2. lia.
    + intros c d. cbv beta. unfold space3. lia.
  - intros c. cbv beta. unfold space2. lia.
  - intros c d. cbv beta. unfold space3. lia.
Qed.

Lemma TrimSpace_all_plain s : forallb plain_byte (bytes s) = true -> TrimSpace s = s.
Proof.
  intros H. destruct (bytes s) as [|a l] eqn:Hs.
  - apply bytes_nil in Hs. by subst.
  - destruct (last (a :: l)) as [b|] eqn:Hl; [|by apply last_None in Hl].
    rewrite forallb_forall in H.
    eapply TrimSpace_plain; eauto; apply H, list_elem_of_In; [set_solver|].
    apply last_Some in Hl as [k ->]. set_solver.
Qed.

(** ** Facts: decimal numbers *)

Lemma Itoa_inj a b : Itoa a = Itoa b -> a = b.
Proof. apply pretty_Z_inj. Qed.

Lemma digits_val_app l k :
  digits_val (l ++ k) = foldl (fun acc c => acc * 10 + digit_val c) (digits_val l) k.
Proof. unfold digits_val. apply foldl_app. Qed.

Lemma foldl_digits acc l :
  foldl (fun a c => a * 10 + digit_val c) acc l = acc * 10 ^ Z.of_nat (length l) + digits_val l.
Proof.
  revert acc. unfold digits_val. induction l as [|c l IH]; intros acc; [cbn; lia|].
  cbn [foldl length]. rewrite IH, (IH (0 * 10 + digit_val c)).
  rewrite Nat2Z.inj_succ, Z.pow_succ_r by lia. lia.
Qed.

Lemma digit_val_range c : is_digit c = true -> 0 <= digit_val c < 10.
Proof. unfold is_digit, between, digit_val. lia. Qed.

Lemma digits_val_nonneg l : forallb is_digit l = true -> 0 <= digits_val l.
Proof.
  unfold digits_val. assert (Hgen : forall acc, 0 <= acc -> forallb is_digit l = true ->
    0 <= foldl (fun a c => a * 10 + digit_val c) acc l); [|by apply Hgen].
  induction l as [|c l IH]; intros acc Hacc Hl; [done|]. cbn in *.
  apply andb_true_iff in Hl as [Hc Hl]. apply digit_val_range in Hc. apply IH; [lia|done].
Qed.

Lemma pretty_N_char_digit x :
  (x < 10)%N -> is_digit (pretty_N_char x) = true /\ digit_val (pretty_N_char x) = Z.of_N x.
Proof.
  intros H. assert (x = 0 \/ x = 1 \/ x = 2 \/ x = 3 \/ x = 4 \/ x = 5 \/ x = 6 \/ x = 7
    \/ x = 8 \/ x = 9)%N as Hx by lia.
  destruct_or! Hx; subst x; done.
Qed.

Lemma str_len_cons c s : str_len (String c s) = 1 + str_len s.
Proof. unfold str_len, bytes. cbn [String.list_ascii_of_string length]. lia. Qed.

Lemma str_len_nonneg s : 0 <= str_len s.
Proof. unfold str_len. lia. Qed.

Lemma pretty_N_go_digits x s :
  forallb is_digit (bytes s) = true ->
  forallb is_digit (bytes (pretty_N_go x s)) = true
  /\ digits_val (bytes (pretty_N_go x s))
     = Z.of_N x * 10 ^ str_len s + digits_val (bytes s)
  /\ (str_len s <= str_len (pretty_N_go x s)).
Proof.
  revert s. induction (N.lt_wf_0 x) as [x _ IH]; intros s Hs.
  destruct (decide (x = 0)%N) as [->|Hx]; [rewrite pretty_N_go_0; cbn; split; [done|lia]|].
  rewrite pretty_N_go_step by lia.
  destruct (pretty_N_char_digit (x `mod` 10)) as [Hd Hv]; [apply N.mod_lt; lia|].
  destruct (IH (x `div` 10)%N) with (s := String (pretty_N_char (x `mod` 10)) s)
    as (IH1 & IH2 & IH3); [apply N.div_lt; lia|cbn; by rewrite Hd|].
  rewrite str_len_cons in IH2, IH3.
  split; [done|]. split; [|lia].
  rewrite IH2, Z.pow_add_r by (pose proof (str_len_nonneg s); lia).
  change (digits_val (bytes (String (pretty_N_char (x `mod` 10)) s)))
    with (foldl (fun a c => a * 10 + digit_val c) (0 * 10 + digit_val (pretty_N_char (x `mod` 10))) (bytes s)).
  rewrite foldl_digits, Hv. fold (str_len s).
  pose proof (N.div_mod x 10). nia.
Qed.

Lemma Itoa_digits n :
  0 <= n ->
  forallb is_digit (bytes (Itoa n)) = true
  /\ digits_val (bytes (Itoa n)) = n /\ bytes (Itoa n) <> [].
Proof.
  intros Hn. destruct n as [|p|p]; [done| |lia].
  change (Itoa (Z.pos p)) with (if decide (N.pos p = 0%N) then "0" else pretty_N_go (N.pos p) "").
  rewrite decide_False by lia.
  pose proof (pretty_N_go_digits (N.pos p) "" eq_refl) as (H1 & H2 & _).
  change (str_len "") with 0 in H2. change (digits_val (bytes "")) with 0 in H2.
  split; [done|]. split; [lia|].
  intros H0. rewrite H0 in H2. change (digits_val []) with 0 in H2. lia.
Qed.

Lemma is_digit_plain c : is_digit c = true -> plain_byte c = true.
Proof. unfold is_digit, plain_byte, is_ascii_byte, space1, between. lia. Qed.

Lemma forallb_impl {A} (p q : A -> bool) l :
  (forall x, p x = true -> q x = true) -> forallb p l = true -> forallb q l = true.
Proof. rewrite !forallb_forall. eauto. Qed.

Lemma Atoi_Itoa n : 0 <= n < two63 -> Atoi (Itoa n) = Some n.
Proof.
  intros Hn. destruct (Itoa_digits n) as (Hd & Hv & Hne); [lia|]. unfold Atoi.
  destruct (bytes (Itoa n)) as [|c l] eqn:Hb; [done|].
  assert (Hc : is_digit c = true) by (cbn in Hd; lia).
  destruct (Ascii.eqb_spec c "-"%char) as [->|_]; [done|].
  destruct (Ascii.eqb_spec c "+"%char) as [->|_]; [done|].
  cbn [orb]. rewrite Hd, bool_decide_false by done. cbn [orb negb]. rewrite Hv.
  unfold_ints. case_match; [done|lia].
Qed.

(** ** Facts: splitting and joining *)

Lemma split_b_nonempty sep l : split_b sep l <> [].
Proof.
  destruct l as [|c l]; cbn; [done|].
  destruct (Ascii.eqb c sep); [done|]. by destruct (split_b sep l).
Qed.

Lemma split_b_word sep w l :
  sep ∉ w -> split_b sep (w ++ sep :: l) = w :: split_b sep l.
Proof.
  induction w as [|c w IH]; intros Hw; cbn.
  - by rewrite Ascii.eqb_refl.
  - destruct (Ascii.eqb_spec c sep) as [->|_]; [set_solver|].
    rewrite IH by set_solver. done.
Qed.

Lemma split_b_last sep w : sep ∉ w -> split_b sep w = [w].
Proof.
  induction w as [|c w IH]; intros Hw; cbn; [done|].
  destruct (Ascii.eqb_spec c sep) as [->|_]; [set_solver|].
  by rewrite IH by set_solver.
Qed.

Lemma split_b_no_sep sep l : Forall (fun w => sep ∉ w) (split_b sep l).
Proof.
  induction l as [|c l IH]; cbn; [by repeat constructor; set_solver|].
  destruct (Ascii.eqb_spec c sep) as [->|Hne].
  - constructor; [set_solver|done].
  - destruct (split_b sep l) as [|w ws] eqn:Hs; [by destruct (split_b_nonempty sep l)|].
    apply Forall_cons in IH as [Hw Hws]. constructor; [|done]. rewrite not_elem_of_cons. done.
Qed.

Lemma Split_Join l (sep : ascii) :
  l <> [] -> Forall (fun s => sep ∉ bytes s) l ->
  Split (Join l (String sep "")) sep = l.
Proof.
  intros Hne Hall. unfold Split.
  induction l as [|s [|s' l] IH]; [done|..]; inversion_clear Hall as [|? ? Hs Hrest].
  - cbn. rewrite split_b_last by done. cbn. by rewrite str_bytes.
  - change (Join (s :: s' :: l) (String sep "")) with (s +:+ String sep "" +:+ Join (s' :: l) (String sep "")).
    rewrite !bytes_app. change (bytes (String sep "")) with [sep]. cbn [app].
    rewrite split_b_word by done. cbn [fmap list_fmap]. rewrite str_bytes. f_equal.
    by apply IH.
Qed.

Lemma Join_cons_cons w w' ws sep :
  Join (w :: w' :: ws) sep = w +:+ sep +:+ Join (w' :: ws) sep.
Proof. done. Qed.

Lemma Join_Split s (sep : ascii) : Join (Split s sep) (String sep "") = s.
Proof.
  unfold Split. transitivity (str (bytes s)); [|apply str_bytes].
  induction (bytes s) as [|c l IH]; [done|]. cbn [split_b].
  destruct (split_b sep l) as [|w ws] eqn:Hs; [by destruct (split_b_nonempty sep l)|].
  change (str (c :: l)) with (String c (str l)). rewrite <- IH.
  destruct (Ascii.eqb_spec c sep) as [->|_]; [done|].
  destruct ws as [|w' ws']; done.
Qed.

Lemma cut_b_app sep x y : sep ∉ x -> cut_b sep (x ++ sep :: y) = Some (x, y).
Proof.
  induction x as [|c x IH]; intros Hx; cbn.
  - by rewrite Ascii.eqb_refl.
  - destruct (Ascii.eqb_spec c sep) as [->|_]; [set_solver|].
    by rewrite IH by set_solver.
Qed.

Lemma cut_b_none sep l : sep ∉ l -> cut_b sep l = None.
Proof.
  induction l as [|c l IH]; intros Hl; cbn; [done|].
  destruct (Ascii.eqb_spec c sep) as [->|_]; [set_solver|].
  by rewrite IH by set_solver.
Qed.
