(* ===== verification/GoTime.v ===== *)
(** * Go's [time] package as the project uses it

    A [time.Duration] is a 64-bit count of nanoseconds; an instant
    ([time.Time]) is the integer count of nanoseconds since a fixed origin.
    [ParseDuration] follows the standard library's algorithm step by step, the
    64-bit overflow checks and the [float64] arithmetic of fractional parts
    included ([SpecFloat] at precision 53, exponent bound 1024). *)
From S2P Require Import Prelude GoStrings.
From Stdlib Require Import SpecFloat.
#[local] Open Scope Z_scope.

Definition nanosecond : Z := 1.
Definition microsecond : Z := 1000.
Definition millisecond : Z := 1000000.
Definition second : Z := 1000000000.
Definition minute : Z := 60 * second.
Definition hour : Z := 60 * minute.

(** [t.After(u)], [t.Add(d)], [t.Sub(u)]. *)
Definition After (t u : Z) : bool := u <? t.

(** [t.Sub(u)] saturates at the range of [Duration]. *)
Definition Sub (t u : Z) : Z :=
  let d := t - u in
  if d <? - two63 then - two63 else if max_i64 <? d then max_i64 else d.

(** ** [float64] *)
Definition f64_of_Z (z : Z) : spec_float := binary_normalize 53 1024 z 0 false.
Definition f64_mul (a b : spec_float) : spec_float := SFmul 53 1024 a b.
Definition f64_div (a b : spec_float) : spec_float := SFdiv 53 1024 a b.
Definition f64_add (a b : spec_float) : spec_float := SFadd 53 1024 a b.

(** Truncation toward zero, the conversion Go's [uint64(x)]/[int(x)] performs
    for values in range. *)
Definition f64_trunc (x : spec_float) : Z :=
  match x with
  | S754_finite s m e =>
      let v := if 0 <=? e then Z.pos m * 2 ^ e else Z.pos m / 2 ^ (- e) in
      if s then - v else v
  | _ => 0
  end.

(** [d.Seconds()]: [float64(d / 1e9) + float64(d % 1e9) / 1e9]. *)
Definition Seconds (d : Z) : spec_float :=
  f64_add (f64_of_Z (Z.quot d second)) (f64_div (f64_of_Z (Z.rem d second)) (f64_of_Z second)).

(** ** [time.ParseDuration] *)

(** [leadingInt]: the value of the leading digits, and the rest; [None] when a
    digit would take the value past [2^63]. *)
Fixpoint leading_int (x : Z) (l : list ascii) : option (Z * list ascii) :=
  match l with
  | c :: l' =>
      if is_digit c then
        if two63 / 10 <? x then None
        else let y := x * 10 + digit_val c in
             if two63 <? y then None else leading_int y l'
      else Some (x, l)
  | [] => Some (x, [])
  end.

(** [leadingFraction]: the digits of a fraction as a number and its scale;
    digits past the precision of [int64] are skipped. *)
Fixpoint leading_fraction (x : Z) (scale : spec_float) (overflow : bool) (l : list ascii)
    : Z * spec_float * list ascii :=
  match l with
  | c :: l' =>
      if is_digit c then
        if overflow then leading_fraction x scale true l'
        else if (two63 - 1) / 10 <? x then leading_fraction x scale true l'
        else let y := x * 10 + digit_val c in
             if two63 <? y then leading_fraction x scale true l'
             else leading_fraction y (f64_mul scale (f64_of_Z 10)) false l'
      else (x, scale, l)
  | [] => (x, scale, [])
  end.

(** The unit: everything up to the next digit or period. *)
Definition unit_stop (c : ascii) : bool := Ascii.eqb c "."%char || is_digit c.
Fixpoint take_unit (l : list ascii) : list ascii * list ascii :=
  match l with
  | c :: l' => if unit_stop c then ([], l)
               else let '(u, r) := take_unit l' in (c :: u, r)
  | [] => ([], [])
  end.

Definition unit_map (u : string) : option Z :=
  if bool_decide (u = "ns") then Some nanosecond
  else if bool_decide (u = "us") then Some microsecond
  else if bool_decide (u = str [byte 194; byte 181; "s"%char]) then Some microsecond (* U+00B5 *)
  else if bool_decide (u = str [byte 206; byte 188; "s"%char]) then Some microsecond (* U+03BC *)
  else if bool_decide (u = "ms") then Some millisecond
  else if bool_decide (u = "s") then Some second
  else if bool_decide (u = "m") then Some minute
  else if bool_decide (u = "h") then Some hour
  else None.

(** One [number unit] group: its value in nanoseconds and the rest of the input. *)
Definition parse_group (l : list ascii) : option (Z * list ascii) :=
  match l with
  | [] => None
  | c :: _ =>
      if negb (unit_stop c) then None else
      match leading_int 0 l with
      | None => None
      | Some (v, l1) =>
          let pre := negb (length l1 =? length l)%nat in
          let '(f, scale, l2, post) :=
            match l1 with
            | d :: l1' =>
                if Ascii.eqb d "."%char then
                  let '(f, scale, l2) := leading_fraction 0 (f64_of_Z 1) false l1' in
                  (f, scale, l2, negb (length l2 =? length l1')%nat)
                else (0, f64_of_Z 1, l1, false)
            | [] => (0, f64_of_Z 1, l1, false)
            end in
          if negb pre && negb post then None else
          let '(u, l3) := take_unit l2 in
          if bool_decide (u = []) then None else
          match unit_map (str u) with
          | None => None
          | Some unit =>
              if two63 / unit <? v then None else
              let v := wrap_u64 (v * unit) in
              let v := if 0 <? f
                       then wrap_u64 (v + f64_trunc (f64_mul (f64_of_Z f) (f64_div (f64_of_Z unit) scale)))
                       else v in
              if (0 <? f) && (two63 <? v) then None else Some (v, l3)
          end
      end
  end.

(** The loop [for s != ""]; [fuel] bounds the groups, and [parse_groups_fuel]
    shows that the length of the input is enough. *)
Fixpoint parse_groups (fuel : nat) (d : Z) (l : list ascii) : option Z :=
  match l with
  | [] => Some d
  | _ =>
      match fuel with
      | O => None
      | S fuel' =>
          match parse_group l with
          | None => None
          | Some (v, l') =>
              let d := wrap_u64 (d + v) in
              if two63 <? d then None else parse_groups fuel' d l'
          end
      end
  end.

Definition ParseDuration (s : string) : option Z :=
  let l := bytes s in
  let '(neg, l) :=
    match l with
    | c :: l' => if Ascii.eqb c "-"%char then (true, l')
                 else if Ascii.eqb c "+"%char then (false, l') else (false, l)
    | [] => (false, l)
    end in
  if bool_decide (l = ["0"%char]) then Some 0
  else if bool_decide (l = []) then None
  else match parse_groups (length l) 0 l with
       | None => None
       | Some d =>
           if (neg : bool) then Some (wrap_i64 (- wrap_i64 d))
           else if max_i64 <? d then None else Some d
       end.

Example ParseDuration_ex1 : ParseDuration "1h15m30.918s" = Some 4530918000000.
Proof. vm_compute. done. Qed.
Example ParseDuration_ex2 : ParseDuration "-1.5h" = Some (-5400000000000).
Proof. vm_compute. done. Qed.
Example ParseDuration_ex3 : ParseDuration "9223372036s" = Some 9223372036000000000.
Proof. vm_compute. done. Qed.
Example ParseDuration_ex4 : ParseDuration "9223372037s" = None.
Proof. vm_compute. done. Qed.
Example ParseDuration_ex5 : ParseDuration "5" = None.
Proof. vm_compute. done. Qed.

(** ** Facts *)

Lemma leading_int_digits x ds rest :
  0 <= x -> forallb is_digit ds = true ->
  (forall c r, rest = c :: r -> is_digit c = false) ->
  x * 10 ^ Z.of_nat (length ds) + digits_val ds < two63 ->
  leading_int x (ds ++ rest) = Some (x * 10 ^ Z.of_nat (length ds) + digits_val ds, rest).
Proof.
  revert x. induction ds as [|c ds IH]; intros x Hx Hd Hrest Hlt; cbn [length app leading_int].
  - destruct rest as [|c r]; cbn; [do 2 f_equal; unfold digits_val; cbn; lia|].
    rewrite (Hrest c r) by done. do 2 f_equal. unfold digits_val; cbn; lia.
  - cbn in Hd. apply andb_true_iff in Hd as [Hc Hd]. rewrite Hc.
    assert (Hv : digits_val (c :: ds) = digit_val c * 10 ^ Z.of_nat (length ds) + digits_val ds).
    { unfold digits_val at 1. cbn [foldl]. rewrite foldl_digits. lia. }
    cbn [length] in *.
    assert (Hp : 10 ^ Z.of_nat (S (length ds)) = 10 * 10 ^ Z.of_nat (length ds)).
    { by rewrite Nat2Z.inj_succ, Z.pow_succ_r by lia. }
    assert (0 < 10 ^ Z.of_nat (length ds)) by (apply Z.pow_pos_nonneg; lia).
    assert (0 <= digit_val c < 10) by (unfold is_digit, between, digit_val in *; lia).
    pose proof (digits_val_nonneg ds Hd).
    rewrite Hv, Hp in *. cbv zeta.
    assert (x * 10 + digit_val c < two63) by nia.
    assert (x <= two63 / 10) by (apply Z.div_le_lower_bound; lia).
    destruct (Z.ltb_spec (two63 / 10) x); [lia|].
    destruct (Z.ltb_spec two63 (x * 10 + digit_val c)); [lia|].
    rewrite IH; [do 2 f_equal; lia|lia|done|done|nia].
Qed.

Lemma take_unit_length l : (length (take_unit l).1 + length (take_unit l).2 = length l)%nat.
Proof.
  induction l as [|c l IH]; cbn; [done|]. destruct (unit_stop c); [done|].
  destruct (take_unit l) as [u r]. cbn in *. lia.
Qed.

Lemma leading_int_length x l v r : leading_int x l = Some (v, r) -> (length r <= length l)%nat.
Proof.
  revert x. induction l as [|c l IH]; intros x; cbn.
  - intros [= _ <-]. done.
  - repeat case_match; try done; intros H'; [apply IH in H'; lia|].
    injection H' as _ <-. done.
Qed.

Lemma leading_fraction_length x sc o l :
  (length (leading_fraction x sc o l).2 <= length l)%nat.
Proof.
  revert x sc o. induction l as [|c l IH]; intros x sc o; cbn; [done|].
  repeat case_match; cbn; try lia; etransitivity; try apply IH; lia.
Qed.

(** Each group consumes input, so the length of the input is fuel enough. *)
Lemma parse_group_consumes l v r : parse_group l = Some (v, r) -> (length r < length l)%nat.
Proof.
  unfold parse_group. destruct l as [|c l]; [done|]. case_match; [done|].
  destruct (leading_int 0 (c :: l)) as [[w l1]|] eqn:Hli; [|done].
  apply leading_int_length in Hli.
  match goal with |- (let '(_, _) := ?m in _) = _ -> _ =>
    destruct m as [[[f scale] l2] post] eqn:Hm end.
  assert (Hl2 : (length l2 <= length l1)%nat).
  { destruct l1 as [|d l1']; [by simplify_eq/=|]. case_match; [|by simplify_eq/=].
    pose proof (leading_fraction_length 0 (f64_of_Z 1) false l1').
    destruct (leading_fraction 0 (f64_of_Z 1) false l1') as [[f' s'] l2'].
    simplify_eq/=. lia. }
  destruct (negb _ && negb post); [done|]. pose proof (take_unit_length l2) as Hu.
  destruct (take_unit l2) as [u l3]. cbn in Hu.
  case_bool_decide as Hnil; [done|]. destruct u as [|? u]; [done|]. cbn in Hu.
  repeat case_match; try done; intros [= _ <-]; lia.
Qed.

(** With at least as much fuel as input, the loop's answer does not depend on
    the fuel: [None] is a parse error and never a lack of fuel. *)
Lemma parse_groups_fuel f1 f2 d l :
  (length l <= f1)%nat -> (length l <= f2)%nat ->
  parse_groups f1 d l = parse_groups f2 d l.
Proof.
  revert f2 d l. induction f1 as [|f1 IH]; intros f2 d l H1 H2.
  - destruct l; [by destruct f2|cbn in H1; lia].
  - destruct l as [|c l]; [by destruct f2|]. destruct f2 as [|f2]; [cbn in H2; lia|].
    cbn [parse_groups]. destruct (parse_group (c :: l)) as [[v l']|] eqn:Hg; [|done].
    apply parse_group_consumes in Hg. case_match; [done|]. apply IH; lia.
Qed.

Lemma parse_group_seconds ds :
  ds <> [] -> forallb is_digit ds = true -> digits_val ds * second < two63 ->
  parse_group (ds ++ ["s"%char]) = Some (digits_val ds * second, []).
Proof.
  intros Hne Hd Hlt. pose proof (digits_val_nonneg ds Hd) as Hnn.
  unfold parse_group. destruct ds as [|c ds]; [done|]. cbn [app].
  assert (Hc : is_digit c = true) by (cbn in Hd; lia).
  rewrite (orb_true_intro _ _ (or_intror Hc) : unit_stop c = true). cbn [negb].
  change (c :: ds ++ ["s"%char]) with ((c :: ds) ++ ["s"%char]).
  rewrite leading_int_digits; [|lia|done|by intros ? ? [= <- _]|unfold second in *; lia].
  rewrite Z.mul_0_l, Z.add_0_l. cbn [length app].
  destruct (Nat.eqb_spec 1 (S (length (ds ++ ["s"%char])))) as [He|_].
  { rewrite length_app in He. cbn in He. lia. }
  cbn -[two63 wrap_u64 digits_val second Z.mul Z.div unit_map].
  change (is_digit "s") with false. cbv iota beta. rewrite bool_decide_false by done.
  change (unit_map (str ["s"%char])) with (Some second). cbv iota.
  destruct (Z.ltb_spec (two63 / second) (digits_val (c :: ds))) as [Hov|_].
  { assert (digits_val (c :: ds) <= two63 / second) by (apply Z.div_le_lower_bound; unfold second in *; lia). lia. }
  rewrite wrap_u64_small; [done|]. unfold second in *. unfold_ints. lia.
Qed.

(** A count of seconds, written in decimal and suffixed with ["s"], parses to
    that many seconds as long as the nanoseconds fit in 63 bits. *)
Lemma ParseDuration_seconds n :
  0 <= n -> n * second < two63 -> ParseDuration (Itoa n +:+ "s") = Some (n * second).
Proof.
  intros Hn Hlt. destruct (Itoa_digits n Hn) as (Hd & Hv & Hne).
  unfold ParseDuration. rewrite bytes_app. change (bytes "s") with ["s"%char].
  destruct (bytes (Itoa n)) as [|c ds] eqn:Hb; [done|]. cbn [app].
  assert (Hc : is_digit c = true) by (cbn in Hd; lia).
  destruct (Ascii.eqb_spec c "-"%char) as [->|_]; [done|].
  destruct (Ascii.eqb_spec c "+"%char) as [->|_]; [done|].
  rewrite bool_decide_false by (destruct ds; done). rewrite bool_decide_false by done.
  change (c :: ds ++ ["s"%char]) with ((c :: ds) ++ ["s"%char]).
  cbn [length parse_groups app].
  change (c :: ds ++ ["s"%char]) with ((c :: ds) ++ ["s"%char]).
  rewrite parse_group_seconds by (rewrite ?Hv; done || lia). cbv beta iota zeta.
  rewrite Hv, Z.add_0_l, wrap_u64_small by (unfold second in *; unfold_ints; lia).
  destruct (Z.ltb_spec two63 (n * second)); [lia|].
  destruct (length (ds ++ ["s"%char])); cbn [parse_groups];
    (destruct (Z.ltb_spec max_i64 (n * second)); [unfold_ints; lia|done]).
Qed.

(** ** [Duration.String] *)

(** [fmtFrac]: the [prec] low decimal digits of [v] as a fraction, trailing zeros
    and an empty fraction left out. *)
Definition fmtFrac (v prec : Z) : string :=
  let digits := bytes (Itoa (10 ^ prec + v mod 10 ^ prec)) in
  let frac := drop_while_end (fun c => Ascii.eqb c "0"%char) (drop 1 digits) in
  if bool_decide (frac = []) then "" else "." +:+ str frac.

Definition fmtScaled (u prec : Z) : string := Itoa (u / 10 ^ prec) +:+ fmtFrac u prec.

(** The micro sign is U+00B5, two bytes of UTF-8. *)
Definition micro_s : string := str [byte 194; byte 181] +:+ "s".

Definition DurationString (d : Z) : string :=
  let u := Z.abs d in
  let body :=
    if u <? second then
      if u =? 0 then "0s"
      else if u <? microsecond then Itoa u +:+ "ns"
      else if u <? millisecond then fmtScaled u 3 +:+ micro_s
      else fmtScaled u 6 +:+ "ms"
    else
      let s := u / second in
      let secs := Itoa (s mod 60) +:+ fmtFrac u 9 +:+ "s" in
      let m := s / 60 in
      if m =? 0 then secs
      else
        let mins := Itoa (m mod 60) +:+ "m" +:+ secs in
        let h := m / 60 in
        if h =? 0 then mins else Itoa h +:+ "h" +:+ mins in
  if d <? 0 then "-" +:+ body else body.

Example DurationString_ex1 : DurationString 1500000000 = "1.5s". Proof. vm_compute. reflexivity. Qed.
Example DurationString_ex2 : DurationString (2 * hour + 45 * minute + 3 * millisecond) = "2h45m0.003s".
Proof. vm_compute. reflexivity. Qed.
Example DurationString_ex3 : DurationString (-1100000) = "-1.1ms". Proof. vm_compute. reflexivity. Qed.
