(* ===== verification/GoNet.v ===== *)
(** * Go's [net], [net/url] and [net/http] as the project uses them

    URLs, header maps with canonical keys, requests and response writers.
    Transport, DNS and sockets are not here: what an upstream answers is a
    parameter of the components that ask it. *)
From S2P Require Import Prelude GoStrings.
#[local] Open Scope Z_scope.

(** ** [net/url] *)
Record URL := mkURL {
  Scheme : string;
  Host : string;      (* host or host:port *)
  Path : string;      (* decoded path *)
  RawQuery : string;  (* encoded query, without '?' *)
}.

#[export] Instance URL_eq_dec : EqDecision URL.
Proof. solve_decision. Defined.

(** The bytes before and after the last [c], if there is one. *)
Definition cut_last_b (c : ascii) (l : list ascii) : option (list ascii * list ascii) :=
  match cut_b c (rev l) with
  | Some (x, y) => Some (rev y, rev x)
  | None => None
  end.

(** [url.splitHostPort]: a trailing [":digits"] (possibly no digit) is the port,
    and the brackets of an IPv6 literal are dropped. *)
Definition url_split_host_port (hostPort : string) : string * string :=
  let '(host, port) :=
    match cut_last_b ":"%char (bytes hostPort) with
    | Some (h, p) => if forallb is_digit p then (str h, str p) else (hostPort, "")
    | None => (hostPort, "")
    end in
  let host := if HasPrefix host "[" && HasSuffix host "]"
              then str (drop 1 (removelast (bytes host))) else host in
  (host, port).
Definition Hostname (u : URL) : string := (url_split_host_port (Host u)).1.
Definition Port (u : URL) : string := (url_split_host_port (Host u)).2.

(** ** [net.SplitHostPort] *)
Definition SplitHostPort (hostport : string) : option (string * string) :=
  let l := bytes hostport in
  match cut_last_b ":"%char l with
  | None => None                                             (* missing port *)
  | Some (before, port) =>
      match l with
      | c :: l' =>
          if Ascii.eqb c "["%char then
            match cut_b "]"%char l with
            | None => None                                   (* missing ']' *)
            | Some (h, rest) =>
                (* the closing bracket is followed by the last colon *)
                if bool_decide (h ++ ["]"%char] = before) then
                  let host := drop 1 h in
                  if bool_decide ("["%char ∈ l') || bool_decide ("]"%char ∈ rest) then None
                  else Some (str host, str port)
                else None
            end
          else if bool_decide (":"%char ∈ before) then None   (* too many colons *)
          else if bool_decide ("["%char ∈ l) || bool_decide ("]"%char ∈ l) then None
          else Some (str before, str port)
      | [] => None
      end
  end.

(** [net.JoinHostPort]: hosts with a colon are bracketed. *)
Definition JoinHostPort (host port : string) : string :=
  if Contains host ":" then "[" +:+ host +:+ "]:" +:+ port else host +:+ ":" +:+ port.

(** ** Header maps *)

Abbreviation Header := (gmap string (list string)).

(** [httpguts.validHeaderFieldByte]: the token characters of RFC 7230. *)
Definition valid_header_byte (c : ascii) : bool :=
  is_digit c || is_upper c || is_lower c
  || in_cutset "!#$%&'*+-.^_`|~" c.

Fixpoint canon_bytes (upper : bool) (l : list ascii) : list ascii :=
  match l with
  | [] => []
  | c :: l' => let c' := if upper then upper_byte c else lower_byte c in
               c' :: canon_bytes (Ascii.eqb c' "-"%char) l'
  end.

(** [textproto.CanonicalMIMEHeaderKey]: a name with a byte that is not a token
    character is left alone. *)
Definition CanonicalHeaderKey (s : string) : string :=
  if forallb valid_header_byte (bytes s) then str (canon_bytes true (bytes s)) else s.

Definition hGet (h : Header) (k : string) : string :=
  match h !! CanonicalHeaderKey k with
  | Some (v :: _) => v
  | _ => ""
  end.
Definition hSet (h : Header) (k v : string) : Header := <[CanonicalHeaderKey k := [v]]> h.
Definition hAdd (h : Header) (k v : string) : Header :=
  <[CanonicalHeaderKey k := default [] (h !! CanonicalHeaderKey k) ++ [v]]> h.
Definition hDel (h : Header) (k : string) : Header := delete (CanonicalHeaderKey k) h.

(** ** Requests *)

(** A body yet to be read: absent, a stream of bytes, or a stream whose read
    fails. *)
Inductive Body :=
| NoBody
| BodyBytes (b : string)
| BodyFails.

(** The values the proxy stores in a request's context. *)
Record Ctx := mkCtx {
  ctx_start : option Z;        (* startTimeCtxKey *)
  ctx_key : option string;     (* cacheKeyCtxKey *)
  ctx_target : option URL;     (* upstreamTargetCtxKey *)
}.
Definition emptyCtx : Ctx := mkCtx None None None.

Record Request := mkRequest {
  Method : string;
  rURL : URL;
  rHost : string;
  rHeader : Header;
  rBody : Body;
  RemoteAddr : string;
  rTLS : bool;
  rCtx : Ctx;
}.

Definition set_url (u : URL) (r : Request) : Request :=
  mkRequest (Method r) u (rHost r) (rHeader r) (rBody r) (RemoteAddr r) (rTLS r) (rCtx r).
Definition set_host (h : string) (r : Request) : Request :=
  mkRequest (Method r) (rURL r) h (rHeader r) (rBody r) (RemoteAddr r) (rTLS r) (rCtx r).
Definition set_header (h : Header) (r : Request) : Request :=
  mkRequest (Method r) (rURL r) (rHost r) h (rBody r) (RemoteAddr r) (rTLS r) (rCtx r).
Definition set_body (b : Body) (r : Request) : Request :=
  mkRequest (Method r) (rURL r) (rHost r) (rHeader r) b (RemoteAddr r) (rTLS r) (rCtx r).
Definition set_ctx (c : Ctx) (r : Request) : Request :=
  mkRequest (Method r) (rURL r) (rHost r) (rHeader r) (rBody r) (RemoteAddr r) (rTLS r) c.

Definition reqGet (r : Request) (k : string) : string := hGet (rHeader r) k.
Definition reqSet (r : Request) (k v : string) : Request := set_header (hSet (rHeader r) k v) r.

(** ** Response writers

    What a handler did to its [http.ResponseWriter]: the header map, the status
    line with the header as it was when the status was sent, and the bytes
    written.  Only the first final status counts. *)
Record ResponseWriter := mkW {
  wHeader : Header;
  wStatus : option Z;
  wSent : Header;
  wBody : string;
}.
Definition newWriter : ResponseWriter := mkW ∅ None ∅ "".

Definition wSet (k v : string) (w : ResponseWriter) : ResponseWriter :=
  mkW (hSet (wHeader w) k v) (wStatus w) (wSent w) (wBody w).
Definition wWithHeader (h : Header) (w : ResponseWriter) : ResponseWriter :=
  mkW h (wStatus w) (wSent w) (wBody w).

Definition informational (code : Z) : bool :=
  (100 <=? code) && (code <=? 199) && negb (code =? 101).
Definition WriteHeader (code : Z) (w : ResponseWriter) : ResponseWriter :=
  match wStatus w with
  | Some _ => w
  | None => if informational code then w
            else mkW (wHeader w) (Some code) (wHeader w) (wBody w)
  end.
Definition Write (b : string) (w : ResponseWriter) : ResponseWriter :=
  let w := match wStatus w with Some _ => w | None => WriteHeader 200 w end in
  mkW (wHeader w) (wStatus w) (wSent w) (wBody w +:+ b).

Definition newline : string := String (byte 10) "".

(** [http.Error] *)
Definition httpError (msg : string) (code : Z) (w : ResponseWriter) : ResponseWriter :=
  let h := hDel (wHeader w) "Content-Length" in
  let h := hSet h "Content-Type" "text/plain; charset=utf-8" in
  let h := hSet h "X-Content-Type-Options" "nosniff" in
  Write (msg +:+ newline) (WriteHeader code (wWithHeader h w)).
Definition NotFound (w : ResponseWriter) : ResponseWriter :=
  httpError "404 page not found" 404 w.

(** ** Facts about canonical header keys *)

Lemma upper_byte_valid c : valid_header_byte c = true -> valid_header_byte (upper_byte c) = true.
Proof.
  destruct c as [[] [] [] [] [] [] [] []]; vm_compute; done.
Qed.
Lemma lower_byte_valid c : valid_header_byte c = true -> valid_header_byte (lower_byte c) = true.
Proof.
  destruct c as [[] [] [] [] [] [] [] []]; vm_compute; done.
Qed.
Lemma upper_byte_idem c : upper_byte (upper_byte c) = upper_byte c.
Proof. destruct c as [[] [] [] [] [] [] [] []]; vm_compute; done. Qed.
Lemma lower_byte_idem c : lower_byte (lower_byte c) = lower_byte c.
Proof. destruct c as [[] [] [] [] [] [] [] []]; vm_compute; done. Qed.

Lemma canon_bytes_valid u l :
  forallb valid_header_byte l = true -> forallb valid_header_byte (canon_bytes u l) = true.
Proof.
  revert u. induction l as [|c l IH]; intros u; cbn; [done|].
  rewrite !andb_true_iff. intros [Hc Hl]. split; [|auto].
  destruct u; auto using upper_byte_valid, lower_byte_valid.
Qed.

Lemma canon_bytes_idem u l : canon_bytes u (canon_bytes u l) = canon_bytes u l.
Proof.
  revert u. induction l as [|c l IH]; intros u; cbn; [done|].
  assert (Hc : (if u then upper_byte (if u then upper_byte c else lower_byte c)
                else lower_byte (if u then upper_byte c else lower_byte c))
               = if u then upper_byte c else lower_byte c)
    by (destruct u; auto using upper_byte_idem, lower_byte_idem).
  by rewrite Hc, IH.
Qed.

Lemma CanonicalHeaderKey_idem s : CanonicalHeaderKey (CanonicalHeaderKey s) = CanonicalHeaderKey s.
Proof.
  unfold CanonicalHeaderKey. destruct (forallb valid_header_byte (bytes s)) eqn:Hv.
  - by rewrite bytes_str, canon_bytes_valid, canon_bytes_idem.
  - by rewrite Hv.
Qed.

(** A header map all of whose keys are canonical, which is what the HTTP parser
    and the [Header] methods produce. *)
Definition canonical (h : Header) : Prop := forall k, is_Some (h !! k) -> CanonicalHeaderKey k = k.

Lemma canonical_empty : canonical ∅.
Proof. intros k [v Hv]. by rewrite lookup_empty in Hv. Qed.
Lemma canonical_insert h k v : canonical h -> canonical (<[CanonicalHeaderKey k := v]> h).
Proof.
  intros Hh k' Hk'. destruct (decide (CanonicalHeaderKey k = k')) as [<-|Hne].
  - apply CanonicalHeaderKey_idem.
  - rewrite lookup_insert_ne in Hk' by done. auto.
Qed.
Lemma canonical_delete h k : canonical h -> canonical (hDel h k).
Proof.
  intros Hh k' [v Hv]. apply Hh. unfold hDel in Hv.
  apply lookup_delete_Some in Hv as [_ Hv]. eauto.
Qed.
Lemma canonical_hSet h k v : canonical h -> canonical (hSet h k v).
Proof. apply canonical_insert. Qed.
Lemma canonical_hAdd h k v : canonical h -> canonical (hAdd h k v).
Proof. apply canonical_insert. Qed.
Create HintDb go_net.
#[export] Hint Resolve canonical_empty canonical_hSet canonical_hAdd canonical_delete : go_net.

Lemma hGet_hSet h k v : hGet (hSet h k v) k = v.
Proof. unfold hGet, hSet. by rewrite lookup_insert_eq. Qed.
Lemma hGet_hSet_ne h k k' v :
  CanonicalHeaderKey k <> CanonicalHeaderKey k' -> hGet (hSet h k v) k' = hGet h k'.
Proof. intros Hne. unfold hGet, hSet. by rewrite lookup_insert_ne. Qed.
Lemma hGet_hDel_ne h k k' :
  CanonicalHeaderKey k <> CanonicalHeaderKey k' -> hGet (hDel h k) k' = hGet h k'.
Proof. intros Hne. unfold hGet, hDel. by rewrite lookup_delete_ne. Qed.
