(* ===== verification/Headers.v ===== *)
(** * Header helpers: [internal/proxy/headers.go]

    Copying and sanitising header maps, joining paths, the method allowlist.
    A Go map is iterated in an unspecified order; [copy_entries] takes the order
    as its argument, and [copyHeader] is it on one order.  [copyHeader_order]
    shows that the order does not matter for canonical headers. *)
From S2P Require Import Prelude GoStrings GoNet.
#[local] Open Scope Z_scope.

(** [hopHeaders] of [cache.go]. *)
Definition hopHeaders : list string :=
  ["Connection"; "Keep-Alive"; "Proxy-Authenticate"; "Proxy-Authorization";
   "Te"; "Trailers"; "Transfer-Encoding"; "Upgrade"].

Definition schemeOf (req : Request) : string :=
  if rTLS req then "https"
  else let sch := reqGet req "X-Forwarded-Proto" in
       if bool_decide (sch <> "") then sch else "http".

Definition add_values (dst : Header) (k : string) (vv : list string) : Header :=
  foldl (fun d v => hAdd d k v) dst vv.
Definition copy_entries (dst : Header) (entries : list (string * list string)) : Header :=
  foldl (fun d e => add_values d e.1 e.2) dst entries.
Definition copyHeader (dst src : Header) : Header := copy_entries dst (map_to_list src).

Definition sanitizeResponseHeaders (headers : Header) : Header :=
  foldl hDel (copy_entries ∅ (map_to_list headers)) hopHeaders.

(** The fields of an [http.Response] the cacheability test reads. *)
Record Response := mkResponse { StatusCode : Z; respHeader : Header }.
Definition respWithBody (status : Z) (header : Header) : Response := mkResponse status header.

Definition singleJoiningSlash (a b : string) : string :=
  let aslash := HasSuffix a "/" in
  let bslash := HasPrefix b "/" in
  if aslash && bslash then a +:+ str (drop 1 (bytes b))
  else if negb aslash && negb bslash then a +:+ "/" +:+ b
  else a +:+ b.

(** The field [allowedMethods]: [None] is Go's nil map, which allows all. *)
Definition Allowed : Type := option (gset string).

Definition SetAllowedMethods `{Unicode} (methods : list string) : Allowed :=
  match methods with
  | [] => None
  | _ => Some (foldl (fun allowed method => {[ToUpper (TrimSpace method)]} ∪ allowed) ∅ methods)
  end.

Definition listAllowedMethods (a : Allowed) : list string :=
  match a with
  | None => []
  | Some allowed => sort_strings (elements allowed)
  end.

(** ** Facts: copying *)

(** What copying [src] into [dst] amounts to, key by key. *)
Definition header_union (dst src : Header) : Header :=
  merge (fun d s => match s with
                    | Some (v :: vv) => Some (default [] d ++ v :: vv)
                    | _ => d
                    end) dst src.

Lemma lookup_header_union dst src k :
  header_union dst src !! k =
  match src !! k with Some (v :: vv) => Some (default [] (dst !! k) ++ v :: vv) | _ => dst !! k end.
Proof.
  unfold header_union. rewrite lookup_merge.
  destruct (dst !! k), (src !! k) as [[|]|]; done.
Qed.

Lemma add_values_lookup dst k vv k' :
  add_values dst k vv !! k' =
  if decide (vv <> [] /\ CanonicalHeaderKey k = k')
  then Some (default [] (dst !! k') ++ vv) else dst !! k'.
Proof.
  unfold add_values. revert dst. induction vv as [|v vv IH]; intros dst; cbn.
  { by rewrite decide_False by naive_solver. }
  rewrite IH. unfold hAdd. destruct (decide (CanonicalHeaderKey k = k')) as [<-|Hne].
  - rewrite lookup_insert_eq. rewrite (decide_True (P := v :: vv <> [] /\ _)) by done.
    case_decide as Hd; cbn; [by rewrite <- app_assoc|].
    assert (vv = []) as -> by (destruct vv; naive_solver). done.
  - rewrite !decide_False by naive_solver. by rewrite lookup_insert_ne.
Qed.

(** Copying the entries of a canonical map, in whatever order the map iteration
    yields them, is the key-wise concatenation. *)
Lemma copy_entries_union dst src entries :
  canonical src -> entries ≡ₚ map_to_list src ->
  copy_entries dst entries = header_union dst src.
Proof.
  revert dst src. induction entries as [|[k vv] entries IH]; intros dst src Hc Hp.
  { symmetry in Hp. apply Permutation_nil_r, map_to_list_empty_iff in Hp. subst src.
    apply map_eq. intros k. by rewrite lookup_header_union, lookup_empty. }
  assert (Hk : src !! k = Some vv).
  { apply elem_of_map_to_list. rewrite <- Hp. set_solver. }
  assert (Hcan : CanonicalHeaderKey k = k) by eauto.
  rewrite <- (insert_id src k vv Hk), <- insert_delete_eq, map_to_list_insert in Hp
    by apply lookup_delete_eq.
  apply Permutation_cons_inv in Hp. cbn [copy_entries foldl fst snd].
  fold (copy_entries (add_values dst k vv) entries).
  rewrite (IH _ (delete k src)); [|by intros k' [? [_ ?]%lookup_delete_Some]; eauto|done].
  apply map_eq. intros k'. rewrite !lookup_header_union, add_values_lookup.
  destruct (decide (k = k')) as [<-|Hne].
  - rewrite lookup_delete_eq, Hk. destruct vv; [by rewrite decide_False by naive_solver|].
    by rewrite decide_True by done.
  - rewrite lookup_delete_ne by done. by rewrite decide_False by naive_solver.
Qed.

Lemma copyHeader_union dst src : canonical src -> copyHeader dst src = header_union dst src.
Proof. intros Hc. by apply copy_entries_union. Qed.

Lemma copy_entries_canonical dst entries : canonical dst -> canonical (copy_entries dst entries).
Proof.
  revert dst. induction entries as [|[k vv] entries IH]; intros dst Hd; [done|].
  cbn. apply IH. unfold add_values. revert dst Hd.
  induction vv as [|v vv IHv]; intros dst Hd; cbn; [done|]. apply IHv. by apply canonical_hAdd.
Qed.

Lemma foldl_hDel_lookup h ks k :
  foldl hDel h ks !! k = if decide (k ∈ CanonicalHeaderKey <$> ks) then None else h !! k.
Proof.
  revert h. induction ks as [|k0 ks IH]; intros h; cbn.
  { by rewrite decide_False by set_solver. }
  rewrite IH. unfold hDel. destruct (decide (CanonicalHeaderKey k0 = k)) as [->|Hne].
  - rewrite lookup_delete_eq, (decide_True (P := k ∈ k :: _)) by set_solver. by case_decide.
  - rewrite lookup_delete_ne by done.
    destruct (decide (k ∈ CanonicalHeaderKey <$> ks)) as [Hin|Hin].
    + by rewrite decide_True by set_solver.
    + by rewrite decide_False by set_solver.
Qed.

(** Hop-by-hop names in canonical form. *)
Definition hop (k : string) : Prop := k ∈ CanonicalHeaderKey <$> hopHeaders.
#[export] Instance hop_dec k : Decision (hop k).
Proof. unfold hop. apply _. Defined.

Lemma sanitize_lookup h k :
  canonical h ->
  sanitizeResponseHeaders h !! k =
  if decide (hop k) then None else match h !! k with Some [] => None | o => o end.
Proof.
  intros Hc. unfold sanitizeResponseHeaders.
  change (copy_entries ∅ (map_to_list h)) with (copyHeader ∅ h).
  rewrite copyHeader_union, foldl_hDel_lookup by done.
  destruct (decide (hop k)); [by rewrite decide_True|]. rewrite decide_False by done.
  rewrite lookup_header_union, lookup_empty. destruct (h !! k) as [[|]|]; done.
Qed.

Lemma sanitize_hop h k : hop k -> sanitizeResponseHeaders h !! k = None.
Proof.
  intros Hk. unfold sanitizeResponseHeaders. rewrite foldl_hDel_lookup.
  by rewrite decide_True by done.
Qed.

Lemma foldl_hDel_canonical h ks : canonical h -> canonical (foldl hDel h ks).
Proof. revert h. induction ks; intros h Hh; cbn; [done|]. auto using canonical_delete. Qed.

Lemma sanitize_canonical h : canonical (sanitizeResponseHeaders h).
Proof. apply foldl_hDel_canonical, copy_entries_canonical, canonical_empty. Qed.

(** ** Facts: paths *)

Lemma HasPrefix_spec s p : HasPrefix s p = true <-> exists r, s = p +:+ r.
Proof.
  unfold HasPrefix. split.
  - intros H. assert (exists r, bytes s = bytes p ++ r) as [r Hr].
    { revert H. generalize (bytes s) as l. induction (bytes p) as [|a q IH]; intros l; cbn; [eauto|].
      destruct l as [|b l]; [done|]. rewrite andb_true_iff. intros [->%Ascii.eqb_eq H].
      apply IH in H as [r ->]. eauto. }
    exists (str r). apply bytes_inj. by rewrite bytes_app, bytes_str.
  - intros [r ->]. rewrite bytes_app. induction (bytes p) as [|a q IH]; [done|].
    cbn. by rewrite Ascii.eqb_refl.
Qed.

(** ** Facts: the allowlist *)

Lemma elem_of_foldl_union {A B} `{Countable B} (f : A -> B) (l : list A) (s : gset B) x :
  x ∈ foldl (fun acc a => {[f a]} ∪ acc) s l <-> x ∈ s \/ exists a, a ∈ l /\ f a = x.
Proof.
  revert s. induction l as [|a l IH]; intros s; cbn.
  - split; [by left|]. intros [?|(? & []%not_elem_of_nil & _)]. done.
  - rewrite IH. set_solver.
Qed.

Lemma sort_strings_perm l : sort_strings l ≡ₚ l.
Proof. apply merge_sort_Permutation. Qed.
Lemma sort_strings_sorted l : StronglySorted strings.String.le (sort_strings l).
Proof. apply StronglySorted_merge_sort; apply _. Qed.

(** ** Properties *)

(** Copying a header does not depend on the order in which Go iterates over the
    map: every order gives, under each key, the values that were there followed by
    those of the source. *)
Theorem copyHeader_order (dst src : Header) (entries : list (string * list string)) :
  canonical src -> entries ≡ₚ map_to_list src ->
  copy_entries dst entries = copyHeader dst src
  /\ forall k, copy_entries dst entries !! k =
       match src !! k with
       | Some (v :: vv) => Some (default [] (dst !! k) ++ v :: vv)
       | _ => dst !! k
       end.
Proof.
  intros Hc Hp. rewrite copyHeader_union by done. rewrite (copy_entries_union dst src entries) by done.
  split; [done|]. apply lookup_header_union.
Qed.

Lemma copyHeader_order_witness :
  let src : Header := {["A" := ["1"; "2"]; "B" := ["3"]]} in
  copy_entries {["A" := ["0"]]} [("B", ["3"]); ("A", ["1"; "2"])] !! "A" = Some ["0"; "1"; "2"].
Proof.
  cbv zeta.
  refine (eq_trans (proj2 (copyHeader_order {["A" := ["0"]]} {["A" := ["1"; "2"]; "B" := ["3"]]}
    [("B", ["3"]); ("A", ["1"; "2"])] _ _) "A") _).
  - apply (canonical_insert _ "A"), (canonical_insert _ "B"), canonical_empty.
  - vm_compute. apply Permutation_swap || reflexivity.
  - reflexivity.
Defined.

(** The allowlist holds exactly the given methods, trimmed and in upper case, none
    meaning that all are allowed; the Allow header lists them once each, in order. *)
Theorem allowlist_normalised `{Unicode} (methods : list string) :
  match SetAllowedMethods methods with
  | None => methods = [] /\ listAllowedMethods None = []
  | Some allowed =>
      (forall m, m ∈ allowed <-> exists x, x ∈ methods /\ ToUpper (TrimSpace x) = m)
      /\ (forall m, m ∈ listAllowedMethods (Some allowed) <-> m ∈ allowed)
      /\ NoDup (listAllowedMethods (Some allowed))
      /\ StronglySorted strings.String.le (listAllowedMethods (Some allowed))
  end.
Proof.
  unfold SetAllowedMethods. destruct methods as [|x methods]; [done|].
  set (allowed := foldl _ _ _). split_and!.
  - intros m. subst allowed. rewrite elem_of_foldl_union. set_solver.
  - intros m. cbn [listAllowedMethods]. by rewrite sort_strings_perm, elem_of_elements.
  - cbn [listAllowedMethods]. rewrite sort_strings_perm. apply NoDup_elements.
  - apply sort_strings_sorted.
Qed.
