(* ===== verification/CacheControl.v ===== *)
(** * Cacheability and cache keys: the HTTP helpers of [internal/proxy/cache.go]

    Parsing of [Cache-Control], the request and response cacheability tests, the
    default TTL cell, and the construction of cache keys.  Go's Unicode tables
    ([Unicode]) and [http.ParseTime] are parameters. *)
From S2P Require Import Prelude GoStrings GoTime GoNet Headers.
#[local] Open Scope Z_scope.

(** ** The default TTL

    [defaultCacheTTL] is an [atomic.Value]; [None] is the never-stored cell. *)
Definition TTLCell : Type := option Z.
Definition defaultCacheTTL_init : TTLCell := Some (60 * second).

Definition SetDefaultCacheTTL (d : Z) : TTLCell :=
  Some (if d <=? 0 then 60 * second else d).

Definition getDefaultCacheTTL (cell : TTLCell) : Z :=
  match cell with
  | Some d => d
  | None => 60 * second
  end.

(** The cutset of [strings.Trim(keyValue[1], ...)]: a double quote and a space. *)
Definition quote_space : string := str [byte 34; byte 32].

Section CacheControl.
Context `{U : Unicode}.
(** [http.ParseTime]: an HTTP date as an instant. *)
Variable ParseTime : string -> option Z.

(** ** [parseCacheControl] *)

(** The loop body: one comma-separated segment. *)
Definition parse_segment (directives : gmap string string) (segment : string)
    : gmap string string :=
  let segment := TrimSpace segment in
  if bool_decide (segment = "") then directives
  else
    let keyValue := SplitN2 segment "="%char in
    let key := ToLower (TrimSpace (default "" (keyValue !! 0%nat))) in
    if (length keyValue =? 2)%nat
    then <[key := Trim (default "" (keyValue !! 1%nat)) quote_space]> directives
    else <[key := ""]> directives.

Definition parseCacheControl (headerValue : string) : gmap string string :=
  if bool_decide (headerValue = "") then ∅
  else foldl parse_segment ∅ (Split headerValue ","%char).

Definition has (m : gmap string string) (k : string) : bool := bool_decide (is_Some (m !! k)).

(** ** Requests *)
Definition isCacheableRequest (req : Request) : bool :=
  let cacheControl := parseCacheControl (reqGet req "Cache-Control") in
  if has cacheControl "no-store" then false
  else if has cacheControl "no-cache" then false
  else if bool_decide (reqGet req "Authorization" <> "") && negb (has cacheControl "public")
       then false
       else true.

Definition clientNoCache (req : Request) : bool :=
  let directives := parseCacheControl (reqGet req "Cache-Control") in
  if has directives "no-cache" then true
  else if has directives "no-store" then true
  else if EqualFold (reqGet req "Pragma") "no-cache" then true
  else false.

(** ** Responses

    [now1] and [now2] are the two readings of the clock on the [Expires] path. *)
Definition cacheable_status (code : Z) : bool :=
  bool_decide (code ∈ [200; 203; 204; 300; 301; 404; 410]).

(** [time.ParseDuration(v + "s")] on a directive that may be absent. *)
Definition directive_seconds (m : gmap string string) (k : string) : option Z :=
  match m !! k with
  | Some v => ParseDuration (v +:+ "s")
  | None => None
  end.

Definition expires_ttl (expires : string) (now1 now2 : Z) : option Z :=
  if bool_decide (expires <> "") then
    match ParseTime expires with
    | Some expiryTime => if After expiryTime now1 then Some (Sub expiryTime now2) else None
    | None => None
    end
  else None.

Definition isCacheableResponse (cell : TTLCell) (now1 now2 : Z) (response : Response) : Z * bool :=
  if negb (cacheable_status (StatusCode response)) then (0, false)
  else
    let cacheControl := parseCacheControl (hGet (respHeader response) "Cache-Control") in
    if has cacheControl "no-store" then (0, false)
    else
      match directive_seconds cacheControl "s-maxage" with
      | Some d => (d, true)
      | None =>
          match directive_seconds cacheControl "max-age" with
          | Some d => (d, true)
          | None =>
              match expires_ttl (hGet (respHeader response) "Expires") now1 now2 with
              | Some d => (d, true)
              | None => (getDefaultCacheTTL cell, true)
              end
          end
      end.
End CacheControl.

(** ** Cache keys *)
Definition buildCacheKey (req : Request) : string :=
  Method req +:+ " " +:+ Scheme (rURL req) +:+ "://" +:+ rHost req
  +:+ singleJoiningSlash "" (Path (rURL req))
  +:+ (if bool_decide (RawQuery (rURL req) <> "") then "?" +:+ RawQuery (rURL req) else "")
  +:+ "|a=" +:+ TrimSpace (reqGet req "Accept")
  +:+ "|ae=" +:+ TrimSpace (reqGet req "Accept-Encoding").

(** ** Facts: directives *)

Section DirectiveFacts.
Context `{U : Unicode}.

(** The directive name a trimmed, non-empty segment carries. *)
Definition segment_key (segment : string) : string :=
  ToLower (TrimSpace (default "" (SplitN2 (TrimSpace segment) "="%char !! 0%nat))).
Definition segment_val (segment : string) : string :=
  match SplitN2 (TrimSpace segment) "="%char with
  | [_; v] => Trim v quote_space
  | _ => ""
  end.

Lemma SplitN2_length s sep : length (SplitN2 s sep) = 2%nat \/ length (SplitN2 s sep) = 1%nat.
Proof. unfold SplitN2. destruct (cut_b sep (bytes s)) as [[x y]|]; auto. Qed.

Lemma parse_segment_eq m segment :
  parse_segment m segment =
  if bool_decide (TrimSpace segment = "") then m
  else <[segment_key segment := segment_val segment]> m.
Proof.
  unfold parse_segment, segment_key, segment_val. case_bool_decide; [done|].
  unfold SplitN2. destruct (cut_b "="%char (bytes (TrimSpace segment))) as [[x y]|]; done.
Qed.

(** The segments that carry a directive. *)
Definition live (segment : string) : bool := negb (bool_decide (TrimSpace segment = "")).

Lemma foldl_parse_segment m segs :
  foldl parse_segment m segs =
  foldl (fun d s => <[segment_key s := segment_val s]> d) m (filter live segs).
Proof.
  revert m. induction segs as [|s segs IH]; intros m; [done|]. cbn [foldl].
  rewrite IH, parse_segment_eq, filter_cons.
  assert (Hl : live s = negb (bool_decide (TrimSpace s = ""))) by done.
  destruct (bool_decide (TrimSpace s = "")); cbn [negb] in Hl.
  - rewrite decide_False; [done|]. rewrite Hl. auto.
  - rewrite decide_True; [done|]. by rewrite Hl.
Qed.

Lemma foldl_insert_dom {A} (f g : A -> string) (m : gmap string string) l k :
  is_Some (foldl (fun d s => <[f s := g s]> d) m l !! k)
  <-> is_Some (m !! k) \/ exists s, s ∈ l /\ f s = k.
Proof.
  revert m. induction l as [|s l IH]; intros m; cbn.
  - split; [by left|]. intros [?|(? & []%not_elem_of_nil & _)]. done.
  - rewrite IH, lookup_insert_is_Some'. setoid_rewrite elem_of_cons. naive_solver.
Qed.

(** A directive is found exactly when some comma-separated, non-blank segment
    of the header names it, whatever its position, value, case and spacing. *)
Lemma parseCacheControl_has hv k :
  has (parseCacheControl hv) k = true
  <-> exists s, s ∈ Split hv ","%char /\ TrimSpace s <> "" /\ segment_key s = k.
Proof.
  unfold has, parseCacheControl. rewrite bool_decide_eq_true. case_bool_decide as He.
  - subst hv. rewrite lookup_empty. split; [by intros []|].
    intros (s & Hs & Hne & _). cbn in Hs. apply list_elem_of_singleton in Hs as ->. done.
  - rewrite foldl_parse_segment, foldl_insert_dom, lookup_empty.
    split.
    + intros [[]|(s & [Hl Hs]%list_elem_of_filter & Hk)]; [done|].
      exists s. unfold live in Hl. case_bool_decide; naive_solver.
    + intros (s & Hs & Hne & Hk). right. exists s. split; [|done].
      apply list_elem_of_filter. unfold live. by rewrite bool_decide_false.
Qed.

(** A later directive of the same name wins. *)
Lemma foldl_insert_last {A} (f g : A -> string) (m : gmap string string) l s :
  foldl (fun d s => <[f s := g s]> d) m (l ++ [s]) !! f s = Some (g s).
Proof. rewrite foldl_app. cbn. apply lookup_insert_eq. Qed.
End DirectiveFacts.

(** ** Rendering directives, for the round trip *)

Record directive := mkDirective {
  d_name : string;
  d_value : option string;
  d_quoted : bool;       (* whether the value is written between quotes *)
}.

Definition render_directive (d : directive) : string :=
  match d_value d with
  | None => d_name d
  | Some v => d_name d +:+ "=" +:+
              (if d_quoted d then str [byte 34] +:+ v +:+ str [byte 34] else v)
  end.
Definition render_cache_control (ds : list directive) : string :=
  Join (render_directive <$> ds) ", ".

(** Bytes a name or a value may use: printable ASCII other than the
    separators; names are lower case and not empty. *)
Definition word_byte (c : ascii) : bool :=
  between 33 126 c && negb (Ascii.eqb c ","%char) && negb (Ascii.eqb c "="%char)
  && negb (code c =? 34)%N.
Definition name_byte (c : ascii) : bool := word_byte c && negb (is_upper c).

Definition wf_directive (d : directive) : bool :=
  negb (bool_decide (d_name d = "")) && forallb name_byte (bytes (d_name d))
  && match d_value d with Some v => forallb word_byte (bytes v) | None => true end.

Lemma word_byte_spec c :
  word_byte c = true ->
  plain_byte c = true /\ c <> ","%char /\ c <> "="%char /\ in_cutset quote_space c = false.
Proof. destruct c as [[] [] [] [] [] [] [] []]; vm_compute; done. Qed.
Lemma name_byte_word c : name_byte c = true -> word_byte c = true.
Proof. unfold name_byte. lia. Qed.
Lemma name_byte_lower c : name_byte c = true -> lower_byte c = c /\ is_ascii_byte c = true.
Proof. destruct c as [[] [] [] [] [] [] [] []]; vm_compute; done. Qed.

Lemma Trim_quoted v (q : bool) :
  forallb word_byte (bytes v) = true ->
  Trim (if q then str [byte 34] +:+ v +:+ str [byte 34] else v) quote_space = v.
Proof.
  intros Hv. unfold Trim.
  set (p := in_cutset quote_space).
  assert (Hq : p (byte 34) = true) by done.
  assert (Hall : forall c, c ∈ bytes v -> p c = false).
  { intros c Hc%list_elem_of_In. rewrite forallb_forall in Hv. apply Hv in Hc.
    apply word_byte_spec in Hc. tauto. }
  clearbody p.
  assert (Hin : forall l, (forall c, c ∈ l -> p c = false) -> drop_while p l = l).
  { intros [|c l] Hl; cbn; [done|]. by rewrite Hl by set_solver. }
  assert (Hrev : drop_while p (rev (bytes v)) = rev (bytes v)).
  { apply Hin. intros c Hc%list_elem_of_In%in_rev%list_elem_of_In. auto. }
  apply bytes_inj. rewrite bytes_str. unfold drop_while_end. destruct q.
  - rewrite !bytes_app, !bytes_str. cbn [app drop_while]. rewrite Hq.
    destruct (bytes v) as [|c l] eqn:Hb; [cbn [app drop_while]; by rewrite Hq|].
    rewrite <- Hb in *. assert (Hd : drop_while p (bytes v ++ [byte 34]) = bytes v ++ [byte 34]).
    { rewrite Hb. cbn. rewrite Hall by (rewrite Hb; set_solver). done. }
    rewrite Hd, rev_app_distr. cbn [rev app drop_while]. by rewrite Hq, Hrev, rev_involutive.
  - by rewrite (Hin _ Hall), Hrev, rev_involutive.
Qed.

Lemma TrimSpace_space s : TrimSpace (String " " s) = TrimSpace s.
Proof. done. Qed.

Section RenderFacts.
Context `{U : Unicode}.

Lemma ToLower_name s : forallb name_byte (bytes s) = true -> ToLower s = s.
Proof.
  intros Hs. assert (Hall : forall c, c ∈ bytes s -> lower_byte c = c /\ is_ascii_byte c = true).
  { intros c Hc%list_elem_of_In. rewrite forallb_forall in Hs. auto using name_byte_lower. }
  unfold ToLower, is_ascii. replace (forallb is_ascii_byte (bytes s)) with true.
  - unfold ascii_lower. rewrite <- (str_bytes s) at 2. f_equal.
    transitivity (id <$> bytes s); [|apply list_fmap_id].
    apply list_fmap_ext. intros i c Hi%list_elem_of_lookup_2. by apply Hall.
  - symmetry. apply forallb_forall. intros c Hc%list_elem_of_In. by apply Hall.
Qed.

Lemma not_in_word l c :
  word_byte c = false -> forallb word_byte l = true -> c ∉ l.
Proof. rewrite forallb_forall. intros Hc Hl Hin%list_elem_of_In%Hl. congruence. Qed.

Lemma wf_directive_inv d :
  wf_directive d = true ->
  d_name d <> "" /\ forallb name_byte (bytes (d_name d)) = true
  /\ forallb word_byte (bytes (d_name d)) = true
  /\ (forall v, d_value d = Some v -> forallb word_byte (bytes v) = true).
Proof.
  unfold wf_directive. rewrite !andb_true_iff, negb_true_iff, bool_decide_eq_false.
  intros [[Hne Hn] Hv]. split_and!; eauto using forallb_impl, name_byte_word.
  intros v Hd. by rewrite Hd in Hv.
Qed.

Lemma render_bytes_plain d :
  wf_directive d = true ->
  (exists c l, bytes (render_directive d) = c :: l /\ plain_byte c = true)
  /\ (exists c k, bytes (render_directive d) = k ++ [c] /\ plain_byte c = true)
  /\ ","%char ∉ bytes (render_directive d).
Proof.
  intros (Hne & _ & Hw & Hv)%wf_directive_inv.
  assert (Hends : forall s, s <> "" -> forallb word_byte (bytes s) = true ->
    (exists c l, bytes s = c :: l /\ plain_byte c = true)
    /\ (exists c k, bytes s = k ++ [c] /\ plain_byte c = true)).
  { intros s Hs Hall. rewrite forallb_forall in Hall. split.
    - destruct (bytes s) as [|c l] eqn:Hb; [by apply bytes_nil in Hb|].
      exists c, l. split; [done|]. apply word_byte_spec, Hall. by left.
    - destruct (bytes s) as [|c l _] eqn:Hb using rev_ind; [by apply bytes_nil in Hb|].
      exists c, l. split; [done|]. apply word_byte_spec, Hall, in_or_app. right. by left. }
  destruct (Hends _ Hne Hw) as [(c & l & Hc & Hp) (c' & k & Hc' & Hp')].
  unfold render_directive. destruct (d_value d) as [v|] eqn:Hd.
  - specialize (Hv v eq_refl). rewrite !bytes_app. split_and!.
    + exists c. rewrite Hc. eexists. split; [cbn; reflexivity|done].
    + destruct (d_quoted d).
      * exists (byte 34), (bytes (d_name d) ++ bytes "=" ++ byte 34 :: bytes v).
        rewrite !bytes_app. cbn. rewrite <- app_assoc. done.
      * destruct (decide (v = "")) as [->|Hv'].
        -- exists "="%char, (bytes (d_name d)). done.
        -- destruct (Hends v Hv' Hv) as [_ (e & m & He & Hpe)].
           exists e, (bytes (d_name d) ++ bytes "=" ++ m). rewrite He, !app_assoc. done.
    + pose proof (not_in_word _ ","%char eq_refl Hw). pose proof (not_in_word _ ","%char eq_refl Hv).
      destruct (d_quoted d); rewrite ?bytes_app, ?bytes_str;
        change (bytes "=") with ["="%char]; rewrite ?elem_of_app, ?list_elem_of_singleton;
        intros Hin; destruct_or!; done.
  - split_and!; [eauto..|]. by apply not_in_word.
Qed.
End RenderFacts.

Section RoundTrip.
Context `{U : Unicode}.

Lemma render_TrimSpace d : wf_directive d = true -> TrimSpace (render_directive d) = render_directive d.
Proof.
  intros ((c & l & Hc & Hp) & (e & k & He & Hpe) & _)%render_bytes_plain.
  eapply TrimSpace_plain; eauto. rewrite <- Hc, He. by rewrite last_snoc.
Qed.

Lemma render_SplitN2 d :
  wf_directive d = true ->
  SplitN2 (render_directive d) "="%char =
  match d_value d with
  | None => [d_name d]
  | Some v => [d_name d; if d_quoted d then str [byte 34] +:+ v +:+ str [byte 34] else v]
  end.
Proof.
  intros (_ & _ & Hw & Hv)%wf_directive_inv. unfold SplitN2, render_directive.
  pose proof (not_in_word _ "="%char eq_refl Hw) as Hnot.
  destruct (d_value d) as [v|].
  - rewrite !bytes_app. change (bytes "=") with ["="%char]. cbn [app].
    rewrite cut_b_app by done. by rewrite !str_bytes.
  - by rewrite cut_b_none.
Qed.

Lemma parse_render_segment m d :
  wf_directive d = true ->
  parse_segment m (render_directive d) = <[d_name d := default "" (d_value d)]> m.
Proof.
  intros Hwf. pose proof (wf_directive_inv d Hwf) as (Hne & Hn & Hw & Hv).
  rewrite parse_segment_eq, bool_decide_false.
  2: { rewrite render_TrimSpace by done. intros H0.
       destruct (render_bytes_plain d Hwf) as [(c & l & Hc & _) _]. by rewrite H0 in Hc. }
  unfold segment_key, segment_val. rewrite render_TrimSpace, render_SplitN2 by done.
  assert (Hname : ToLower (TrimSpace (d_name d)) = d_name d).
  { rewrite TrimSpace_all_plain; [by apply ToLower_name|].
    eapply forallb_impl; [|exact Hw]. intros c Hc. by apply word_byte_spec. }
  destruct (d_value d) as [v|].
  - change (default "" ([d_name d; _] !! 0%nat)) with (d_name d). rewrite Hname.
    by rewrite Trim_quoted by auto.
  - change (default "" ([d_name d] !! 0%nat)) with (d_name d). by rewrite Hname.
Qed.

Lemma parse_segment_space m s : parse_segment m (String " " s) = parse_segment m s.
Proof. unfold parse_segment. by rewrite TrimSpace_space. Qed.

Lemma Join_comma_space s l : Join (s :: l) ", " = Join (s :: (String " " <$> l)) ",".
Proof.
  revert s. induction l as [|t l IH]; intros s; [done|].
  change (s +:+ ", " +:+ Join (t :: l) ", " = s +:+ "," +:+ Join (String " " t :: (String " " <$> l)) ",").
  rewrite IH. by destruct l.
Qed.

Lemma parse_render ds :
  forallb wf_directive ds = true ->
  parseCacheControl (render_cache_control ds)
  = foldl (fun m d => <[d_name d := default "" (d_value d)]> m) ∅ ds.
Proof.
  intros Hwf. destruct ds as [|d ds]; [done|].
  unfold parseCacheControl, render_cache_control. cbn [fmap list_fmap].
  rewrite Join_comma_space.
  assert (Hsplit : Split (Join (render_directive d :: (String " " <$> (render_directive <$> ds))) ",") ","%char
    = render_directive d :: (String " " <$> (render_directive <$> ds))).
  { apply Split_Join; [done|].
    rewrite forallb_forall in Hwf. constructor.
    - apply render_bytes_plain, Hwf. by left.
    - apply Forall_fmap, Forall_fmap, Forall_forall. intros d' Hd'%list_elem_of_In. cbn.
      rewrite not_elem_of_cons. split; [done|]. apply render_bytes_plain, Hwf. by right. }
  rewrite bool_decide_false.
  2: { intros H0. rewrite H0 in Hsplit. cbn in Hsplit. apply (f_equal head) in Hsplit. cbn in Hsplit.
       injection Hsplit as Hsplit. cbn in Hwf. apply andb_true_iff in Hwf as [Hwf _].
       destruct (render_bytes_plain d Hwf) as [(c & l & Hc & _) _]. by rewrite <- Hsplit in Hc. }
  rewrite Hsplit. cbn [foldl]. cbn in Hwf. apply andb_true_iff in Hwf as [Hd Hds].
  rewrite parse_render_segment by done. clear Hsplit.
  generalize (<[d_name d := default "" (d_value d)]> (∅ : gmap string string)) as m.
  induction ds as [|d' ds IH]; intros m; [done|].
  cbn [forallb] in Hds. apply andb_true_iff in Hds as [Hd' Hds]. cbn [fmap list_fmap foldl].
  rewrite parse_segment_space, parse_render_segment by done. by apply IH.
Qed.
End RoundTrip.

(** ** Facts: keys *)

Lemma cut_unique {A} (sep : A) x x' y y' :
  sep ∉ x -> sep ∉ x' -> x ++ sep :: y = x' ++ sep :: y' -> x = x' /\ y = y'.
Proof.
  revert x'. induction x as [|a x IH]; intros [|b x'] Hx Hx'; cbn.
  - by intros [= ->].
  - intros [= -> _]. set_solver.
  - intros [= -> _]. set_solver.
  - intros [= -> H]. destruct (IH x') as [-> ->]; set_solver.
Qed.

(** As [cut_unique], on strings, for a separator at the head of the rests. *)
Lemma str_cut_unique (sep : ascii) x x' y y' :
  sep ∉ bytes x -> sep ∉ bytes x' ->
  x +:+ String sep y = x' +:+ String sep y' -> x = x' /\ y = y'.
Proof.
  intros Hx Hx' H%(f_equal bytes). rewrite !bytes_app in H.
  change (bytes (String sep y)) with (sep :: bytes y) in H.
  change (bytes (String sep y')) with (sep :: bytes y') in H.
  apply cut_unique in H as [H1%bytes_inj H2%bytes_inj]; done.
Qed.

(** A key is unambiguous for a request whose parts keep out of each other's
    delimiters. *)
Definition key_clean (r : Request) : bool :=
  bool_decide (" "%char ∉ bytes (Method r))
  && bool_decide (":"%char ∉ bytes (Scheme (rURL r)))
  && bool_decide ("/"%char ∉ bytes (rHost r))
  && bool_decide ("?"%char ∉ bytes (Path (rURL r)))
  && bool_decide ("|"%char ∉ bytes (Path (rURL r)))
  && bool_decide ("|"%char ∉ bytes (RawQuery (rURL r)))
  && bool_decide ("|"%char ∉ bytes (TrimSpace (reqGet r "Accept"))).

Lemma joined_path p : exists p', singleJoiningSlash "" p = String "/" p' /\ (bytes p' = bytes p \/ bytes p = "/"%char :: bytes p').
Proof.
  unfold singleJoiningSlash. change (HasSuffix "" "/") with false. cbn [andb negb].
  destruct (HasPrefix p "/") eqn:Hp; cbn [negb].
  - apply HasPrefix_spec in Hp as [r ->]. exists r. split; [done|]. right. done.
  - exists p. split; [done|]. by left.
Qed.

(** The tail of a key after the path. *)
Definition key_query (q : string) : string := if bool_decide (q <> "") then "?" +:+ q else "".

Lemma key_query_ne q : q <> "" -> key_query q = String "?" q.
Proof. intros Hq. unfold key_query. by rewrite bool_decide_true. Qed.

Lemma in_app_query p q : "?"%char ∈ bytes (p +:+ String "?" q).
Proof. rewrite bytes_app. apply elem_of_app. right. left. Qed.

Lemma key_query_cut p p' q q' :
  "?"%char ∉ bytes p -> "?"%char ∉ bytes p' ->
  p +:+ key_query q = p' +:+ key_query q' -> p = p' /\ q = q'.
Proof.
  intros Hp Hp'.
  destruct (decide (q = "")) as [->|Hq], (decide (q' = "")) as [->|Hq'];
    rewrite ?(key_query_ne q), ?(key_query_ne q') by done;
    change (key_query "") with ""; rewrite ?append_nil_r; intros H.
  - done.
  - subst p. by destruct Hp; apply in_app_query.
  - subst p'. by destruct Hp'; apply in_app_query.
  - by apply (str_cut_unique "?"%char) in H.
Qed.

Lemma buildCacheKey_shape r :
  buildCacheKey r =
  Method r +:+ String " " (Scheme (rURL r) +:+ String ":" ("//" +:+ rHost r
  +:+ (singleJoiningSlash "" (Path (rURL r)) +:+ key_query (RawQuery (rURL r)))
  +:+ String "|" ("a=" +:+ TrimSpace (reqGet r "Accept")
  +:+ String "|" ("ae=" +:+ TrimSpace (reqGet r "Accept-Encoding"))))).
Proof. unfold buildCacheKey. rewrite !append_assoc. done. Qed.

Lemma key_clean_inv r :
  key_clean r = true ->
  (" "%char ∉ bytes (Method r)) /\ (":"%char ∉ bytes (Scheme (rURL r)))
  /\ ("/"%char ∉ bytes (rHost r)) /\ ("?"%char ∉ bytes (Path (rURL r)))
  /\ ("|"%char ∉ bytes (Path (rURL r))) /\ ("|"%char ∉ bytes (RawQuery (rURL r)))
  /\ ("|"%char ∉ bytes (TrimSpace (reqGet r "Accept"))).
Proof. unfold key_clean. rewrite !andb_true_iff, !bool_decide_eq_true. tauto. Qed.

Lemma joined_path_clean c p :
  c <> "/"%char -> c ∉ bytes p -> c ∉ bytes (singleJoiningSlash "" p).
Proof.
  intros Hc Hp. destruct (joined_path p) as (p' & -> & Hp').
  change (bytes (String "/" p')) with ("/"%char :: bytes p').
  destruct Hp' as [Hp'|Hp']; rewrite ?Hp'; [|by rewrite <- Hp'].
  rewrite not_elem_of_cons. done.
Qed.

(** ** Properties *)

(** [C38] Printing a list of well-formed directives as a Cache-Control header and
    parsing it back gives exactly the directives' map, a later directive of a
    name overriding an earlier one, quotes removed. *)
Theorem parseCacheControl_roundtrip `{U : Unicode} (ds : list directive) :
  forallb wf_directive ds = true ->
  parseCacheControl (render_cache_control ds)
  = foldl (fun m d => <[d_name d := default "" (d_value d)]> m) ∅ ds.
Proof. apply parse_render. Qed.

Lemma parseCacheControl_roundtrip_witness :
  let ds := [mkDirective "public" None false; mkDirective "max-age" (Some "60") true] in
  forallb wf_directive ds = true
  /\ @parseCacheControl ascii_only (render_cache_control ds) = <["max-age" := "60"]> {["public" := ""]}.
Proof.
  split; [vm_compute; reflexivity|].
  exact (@parseCacheControl_roundtrip ascii_only
    [mkDirective "public" None false; mkDirective "max-age" (Some "60") true] eq_refl).
Defined.

(** The test both [ServeHTTP] and [serveUpstream] make of a request. *)
Definition request_eligible `{U : Unicode} (r : Request) : bool :=
  isCacheableRequest r && negb (clientNoCache r).

Lemma has_false `{U : Unicode} m k : has m k = false <-> ~ has m k = true.
Proof. by rewrite not_true_iff_false. Qed.

(** A request may use the cache exactly when no segment of its Cache-Control
    names no-store or no-cache, its Pragma is not no-cache, and it carries no
    Authorization unless some segment names public. *)
Theorem request_eligible_iff `{U : Unicode} (r : Request) :
  let segment k := exists s, s ∈ Split (reqGet r "Cache-Control") ","%char
                             /\ TrimSpace s <> "" /\ segment_key s = k in
  request_eligible r = true <->
  ~ segment "no-store" /\ ~ segment "no-cache"
  /\ (reqGet r "Authorization" = "" \/ segment "public")
  /\ EqualFold (reqGet r "Pragma") "no-cache" = false.
Proof.
  cbv zeta. rewrite <- !parseCacheControl_has. unfold request_eligible, isCacheableRequest, clientNoCache.
  destruct (decide (reqGet r "Authorization" = "")) as [Ha|Ha];
    [rewrite (bool_decide_false (reqGet r "Authorization" <> "")) by auto
    |rewrite bool_decide_true by done];
    destruct (has _ "no-store"), (has _ "no-cache"), (EqualFold _ _), (has _ "public");
    cbn; intuition congruence.
Qed.

(** A response of a cacheable status without no-store gets the number of
    seconds its s-maxage names, and without a usable s-maxage the seconds its
    max-age names, whatever Expires and the default TTL are, as long as the
    nanoseconds fit the 63 bits of a duration. *)
Theorem isCacheableResponse_seconds `{U : Unicode} ParseTime cell now1 now2 (resp : Response) n :
  cacheable_status (StatusCode resp) = true ->
  has (parseCacheControl (hGet (respHeader resp) "Cache-Control")) "no-store" = false ->
  0 <= n -> n * second < two63 ->
  let cc := parseCacheControl (hGet (respHeader resp) "Cache-Control") in
  cc !! "s-maxage" = Some (Itoa n)
  \/ directive_seconds cc "s-maxage" = None /\ cc !! "max-age" = Some (Itoa n) ->
  isCacheableResponse ParseTime cell now1 now2 resp = (n * second, true).
Proof.
  intros Hst Hns Hn Hlt cc Hcc. unfold isCacheableResponse. rewrite Hst, Hns. cbn [negb].
  fold cc. destruct Hcc as [Hs|[Hs Hm]].
  - unfold directive_seconds at 1. by rewrite Hs, ParseDuration_seconds.
  - rewrite Hs. unfold directive_seconds. by rewrite Hm, ParseDuration_seconds.
Qed.

Lemma isCacheableResponse_seconds_witness :
  @isCacheableResponse ascii_only (fun _ => None) defaultCacheTTL_init 0 0
    (mkResponse 200 {["Cache-Control" := ["public, max-age=60"]]}) = (60 * second, true).
Proof.
  apply (@isCacheableResponse_seconds ascii_only); [reflexivity|vm_compute; reflexivity|lia|reflexivity|].
  right. split; vm_compute; reflexivity.
Defined.

(** [C39] Requests with clean parts (no delimiter of the key inside a part) have
    equal keys only if they agree on method, scheme, host, path up to a leading
    slash, query, Accept and Accept-Encoding. *)
Theorem buildCacheKey_injective (r1 r2 : Request) :
  key_clean r1 = true -> key_clean r2 = true -> buildCacheKey r1 = buildCacheKey r2 ->
  Method r1 = Method r2 /\ Scheme (rURL r1) = Scheme (rURL r2) /\ rHost r1 = rHost r2
  /\ singleJoiningSlash "" (Path (rURL r1)) = singleJoiningSlash "" (Path (rURL r2))
  /\ RawQuery (rURL r1) = RawQuery (rURL r2)
  /\ TrimSpace (reqGet r1 "Accept") = TrimSpace (reqGet r2 "Accept")
  /\ TrimSpace (reqGet r1 "Accept-Encoding") = TrimSpace (reqGet r2 "Accept-Encoding").
Proof.
  intros (Hm1 & Hs1 & Hh1 & Hq1 & Hp1 & Hr1 & Ha1)%key_clean_inv
         (Hm2 & Hs2 & Hh2 & Hq2 & Hp2 & Hr2 & Ha2)%key_clean_inv.
  rewrite !buildCacheKey_shape. intros Hk.
  apply str_cut_unique in Hk as [HM Hk]; [|done..].
  apply str_cut_unique in Hk as [HS Hk]; [|done..].
  apply append_inj_l in Hk.
  pose proof (joined_path_clean "?" _ ltac:(done) Hq1) as Hjq1.
  pose proof (joined_path_clean "?" _ ltac:(done) Hq2) as Hjq2.
  pose proof (joined_path_clean "|" _ ltac:(done) Hp1) as Hjp1.
  pose proof (joined_path_clean "|" _ ltac:(done) Hp2) as Hjp2.
  destruct (joined_path (Path (rURL r1))) as (p1 & E1 & _).
  destruct (joined_path (Path (rURL r2))) as (p2 & E2 & _).
  rewrite E1, E2, !append_cons in Hk.
  apply str_cut_unique in Hk as [HH Hk]; [|done..].
  assert (Hbar : forall p q, "|"%char ∉ bytes (String "/" p) -> "|"%char ∉ bytes q ->
    "|"%char ∉ bytes (p +:+ key_query q)).
  { intros p q Hp Hq. change (bytes (String "/" p)) with ("/"%char :: bytes p) in Hp.
    rewrite bytes_app, not_elem_of_app. split; [set_solver|]. unfold key_query.
    case_bool_decide; [|set_solver]. change (bytes ("?" +:+ q)) with ("?"%char :: bytes q).
    rewrite not_elem_of_cons. done. }
  apply str_cut_unique in Hk as [HPQ Hk]; [|apply Hbar; by rewrite <- ?E1, <- ?E2..].
  apply (append_inj_l "a=") in Hk. apply str_cut_unique in Hk as [HA Hk]; [|done..].
  apply (append_inj_l "ae=") in Hk.
  assert (HPQ' : String "/" p1 +:+ key_query (RawQuery (rURL r1))
                 = String "/" p2 +:+ key_query (RawQuery (rURL r2)))
    by by rewrite !append_cons, HPQ.
  apply key_query_cut in HPQ' as [HP HQ]; [|by rewrite <- ?E1, <- ?E2..].
  split_and!; congruence.
Qed.

(** The request whose decoded path spells out path, question mark and query of
    [r], with no query of its own: what [%3F] in a path decodes to. *)
Definition query_in_path (r : Request) : Request :=
  let u := rURL r in
  set_url (mkURL (Scheme u) (Host u) (Path u +:+ "?" +:+ RawQuery u) "") r.

Lemma joined_path_app p q :
  singleJoiningSlash "" (p +:+ String "?" q) = singleJoiningSlash "" p +:+ String "?" q.
Proof.
  unfold singleJoiningSlash. change (HasSuffix "" "/") with false. cbn [andb negb].
  assert (Hp : HasPrefix (p +:+ String "?" q) "/" = HasPrefix p "/").
  { unfold HasPrefix. rewrite bytes_app. by destruct (bytes p). }
  rewrite Hp. destruct (HasPrefix p "/"); cbn [negb]; [done|]. by rewrite !append_assoc.
Qed.

(** The key does not escape its parts: a request with a query shares its key
    with a different request, the one that has the same text inside its decoded
    path ([/a?x=1] against [/a%3Fx=1]). *)
Theorem buildCacheKey_query_collision (r : Request) :
  RawQuery (rURL r) <> "" ->
  buildCacheKey (query_in_path r) = buildCacheKey r /\ rURL (query_in_path r) <> rURL r.
Proof.
  intros Hq. split.
  - rewrite !buildCacheKey_shape. do 5 f_equal. unfold query_in_path. cbn [rURL set_url Path RawQuery].
    change ("?" +:+ RawQuery (rURL r)) with (String "?" (RawQuery (rURL r))).
    rewrite joined_path_app, (key_query_ne (RawQuery (rURL r))) by done. change (key_query "") with "".
    by rewrite append_nil_r.
  - intros H. apply (f_equal RawQuery) in H. by rewrite <- H in Hq.
Qed.

Lemma buildCacheKey_query_collision_witness :
  let r := mkRequest "GET" (mkURL "http" "h" "/a" "x=1") "h" ∅ NoBody "" false emptyCtx in
  RawQuery (rURL r) <> "" /\ buildCacheKey (query_in_path r) = buildCacheKey r.
Proof.
  split; [discriminate|]. apply (buildCacheKey_query_collision
    (mkRequest "GET" (mkURL "http" "h" "/a" "x=1") "h" ∅ NoBody "" false emptyCtx)). discriminate.
Defined.

Lemma buildCacheKey_injective_witness :
  let r q := mkRequest "GET" (mkURL "http" "h" "/a" q) "h" ∅ NoBody "" false emptyCtx in
  key_clean (r "x=1") = true /\ key_clean (r "x=2") = true
  /\ buildCacheKey (r "x=1") <> buildCacheKey (r "x=2").
Proof.
  split; [reflexivity|]. split; [reflexivity|]. intros H.
  apply (buildCacheKey_injective
    (mkRequest "GET" (mkURL "http" "h" "/a" "x=1") "h" ∅ NoBody "" false emptyCtx)
    (mkRequest "GET" (mkURL "http" "h" "/a" "x=2") "h" ∅ NoBody "" false emptyCtx)) in H;
    [|reflexivity|reflexivity].
  destruct H as (_ & _ & _ & _ & H & _). discriminate H.
Defined.
