(* ===== verification/LruCache.v ===== *)
(** * The response cache: [internal/proxy/cache.go], lines 1-203

    [lruCache] is modelled with its three linked structures: the elements of the
    [container/list] (a heap from element identities to entries), the list order
    (front first), and the map from keys to elements.  Every method runs under the
    cache's mutex, so a method is one atomic step.  [now] is the clock reading a
    method takes.

    Module [Spec] is what the cache promises: one list of keyed responses, most
    recently used first, cut at the capacity.  The class [Cache] is the Go
    interface, [CacheLaws] the promise about it that the proxy's proofs use, and
    [lruCache] is an instance. *)
From S2P Require Import Prelude GoStrings GoTime GoNet CacheControl.
#[local] Open Scope Z_scope.

(** ** Data *)

Record CachedResponse := mkCached {
  cr_status : Z;          (* StatusCode *)
  cr_header : Header;     (* Header *)
  cr_body : string;       (* Body *)
  cr_storedAt : Z;        (* StoredAt *)
  cr_expiresAt : Z;       (* ExpiresAt *)
  cr_requestID : string;  (* RequestID *)
}.

Record CacheStats := mkStats {
  Entries : Z;            (* int *)
  Hits : Z;               (* uint64, as are the rest *)
  Misses : Z;
  Stores : Z;
  Evictions : Z;
}.

Record lruEntry := mkEntry { e_key : string; e_val : CachedResponse }.

(** An element of the list, by identity: Go's pointer to [list.Element]. *)
Abbreviation element := positive.

Record lruCache := mkLru {
  heap : gmap element lruEntry;   (* the [Value] of each allocated element *)
  lruList : list element;         (* front (most recent) first *)
  items : gmap string element;
  maxEntries : Z;
  stats : CacheStats;
  next_element : element;         (* allocation *)
}.

(** ** The [Cache] interface *)

Class Cache (C : Type) := {
  Get : C -> Z -> string -> option CachedResponse * bool * bool * C;
  SetEntry : C -> TTLCell -> Z -> string -> CachedResponse -> Z -> C;
  Delete : C -> string -> C;
  Purge : C -> C;
  Stats : C -> CacheStats;
}.

(** ** [lruCache] *)

Definition zeroResponse : CachedResponse := mkCached 0 ∅ "" 0 0 "".

(** The entry an element's [Value] points to.  A Go pointer never dangles; the default is not
    reached from a well-formed cache ([lru_wf]). *)
Definition entry_of (cache : lruCache) (e : element) : lruEntry :=
  default (mkEntry "" zeroResponse) (heap cache !! e).

Definition setExpires (r : CachedResponse) (t : Z) : CachedResponse :=
  mkCached (cr_status r) (cr_header r) (cr_body r) (cr_storedAt r) t (cr_requestID r).

Definition with_list (l : list element) (c : lruCache) : lruCache :=
  mkLru (heap c) l (items c) (maxEntries c) (stats c) (next_element c).
Definition with_stats (s : CacheStats) (c : lruCache) : lruCache :=
  mkLru (heap c) (lruList c) (items c) (maxEntries c) s (next_element c).

(** [container/list]: [Remove] and [MoveToFront] act on the element itself and
    do nothing for an element of another list. *)
Definition list_Remove (e : element) (l : list element) : list element :=
  filter (fun x => x <> e) l.
Definition list_MoveToFront (e : element) (l : list element) : list element :=
  if decide (e ∈ l) then e :: list_Remove e l else l.
Definition Len (c : lruCache) : Z := Z.of_nat (length (lruList c)).

Definition NewLRUCache (maxEntries : Z) : lruCache :=
  let maxEntries := if maxEntries <=? 0 then 1024 else maxEntries in
  mkLru ∅ [] ∅ maxEntries (mkStats 0 0 0 0 0) 1%positive.

Definition incHits (s : CacheStats) : CacheStats :=
  mkStats (Entries s) (wrap_u64 (Hits s + 1)) (Misses s) (Stores s) (Evictions s).
Definition incMisses (s : CacheStats) : CacheStats :=
  mkStats (Entries s) (Hits s) (wrap_u64 (Misses s + 1)) (Stores s) (Evictions s).
Definition incStores (s : CacheStats) : CacheStats :=
  mkStats (Entries s) (Hits s) (Misses s) (wrap_u64 (Stores s + 1)) (Evictions s).
Definition incEvictions (s : CacheStats) : CacheStats :=
  mkStats (Entries s) (Hits s) (Misses s) (Stores s) (wrap_u64 (Evictions s + 1)).
Definition setEntries (n : Z) (s : CacheStats) : CacheStats :=
  mkStats n (Hits s) (Misses s) (Stores s) (Evictions s).

Definition lru_Get (cache : lruCache) (now : Z) (cacheKey : string)
    : option CachedResponse * bool * bool * lruCache :=
  match items cache !! cacheKey with
  | Some element =>
      let entry := entry_of cache element in
      let cache := with_list (list_MoveToFront element (lruList cache)) cache in
      if After now (cr_expiresAt (e_val entry))
      then (Some (e_val entry), true, true, cache)
      else (Some (e_val entry), true, false, with_stats (incHits (stats cache)) cache)
  | None => (None, false, false, with_stats (incMisses (stats cache)) cache)
  end.

Definition removeElement (cache : lruCache) (e : element) : lruCache :=
  let entry := entry_of cache e in
  mkLru (heap cache) (list_Remove e (lruList cache)) (delete (e_key entry) (items cache))
        (maxEntries cache) (incEvictions (stats cache)) (next_element cache).

Definition removeOldest (cache : lruCache) : lruCache :=
  match last (lruList cache) with
  | Some e => removeElement cache e
  | None => cache
  end.

Definition lru_Set (cache : lruCache) (cell : TTLCell) (now : Z) (cacheKey : string)
    (response : CachedResponse) (ttl : Z) : lruCache :=
  let ttl := if ttl <=? 0 then getDefaultCacheTTL cell else ttl in
  let response := setExpires response (now + ttl) in
  let cache :=
    match items cache !! cacheKey with
    | Some element =>
        let entry := entry_of cache element in
        mkLru (<[element := mkEntry (e_key entry) response]> (heap cache))
              (list_MoveToFront element (lruList cache)) (items cache) (maxEntries cache)
              (stats cache) (next_element cache)
    | None =>
        let e := next_element cache in
        let cache :=
          mkLru (<[e := mkEntry cacheKey response]> (heap cache)) (e :: lruList cache)
                (<[cacheKey := e]> (items cache)) (maxEntries cache)
                (incStores (stats cache)) (Pos.succ e) in
        if maxEntries cache <? Len cache then removeOldest cache else cache
    end in
  with_stats (setEntries (Len cache) (stats cache)) cache.

Definition lru_Delete (cache : lruCache) (cacheKey : string) : lruCache :=
  match items cache !! cacheKey with
  | Some element =>
      let cache := removeElement cache element in
      with_stats (setEntries (Len cache) (stats cache)) cache
  | None => cache
  end.

Definition lru_Purge (cache : lruCache) : lruCache :=
  mkLru (heap cache) [] ∅ (maxEntries cache) (setEntries 0 (stats cache)) (next_element cache).

Definition lru_Stats (cache : lruCache) : CacheStats := stats cache.

#[export] Instance lru_Cache : Cache lruCache := {|
  Get := lru_Get;
  SetEntry := lru_Set;
  Delete := lru_Delete;
  Purge := lru_Purge;
  Stats := lru_Stats;
|}.

(** ** What a cache promises *)

Module Spec.
(** Keyed responses, most recently used first. *)
Abbreviation t := (list (string * CachedResponse)).

Fixpoint find (k : string) (l : t) : option CachedResponse :=
  match l with
  | [] => None
  | (k', v) :: l' => if decide (k' = k) then Some v else find k l'
  end.
Definition remove (k : string) (l : t) : t := filter (fun p => p.1 <> k) l.

Definition get (now : Z) (k : string) (l : t) : option CachedResponse * bool * bool * t :=
  match find k l with
  | Some v => (Some v, true, After now (cr_expiresAt v), (k, v) :: remove k l)
  | None => (None, false, false, l)
  end.
(** Insert in front, and keep the [cap] most recent. *)
Definition set (cap : nat) (k : string) (v : CachedResponse) (l : t) : t :=
  take cap ((k, v) :: remove k l).
Definition ttl_of (cell : TTLCell) (ttl : Z) : Z :=
  if ttl <=? 0 then getDefaultCacheTTL cell else ttl.
End Spec.

Class CacheLaws (C : Type) `{Cache C} := {
  cache_ok : C -> Prop;
  cache_view : C -> Spec.t;
  cache_cap : C -> nat;
  cache_nodup c : cache_ok c -> NoDup (cache_view c).*1;
  cache_bound c : cache_ok c -> (length (cache_view c) <= cache_cap c)%nat;
  cache_cap_pos c : cache_ok c -> (0 < cache_cap c)%nat;
  law_get c now k : cache_ok c ->
    let '(r, c') := Get c now k in
    let '(r', l') := Spec.get now k (cache_view c) in
    r = r' /\ cache_view c' = l' /\ cache_ok c' /\ cache_cap c' = cache_cap c;
  law_set c cell now k v ttl : cache_ok c ->
    let c' := SetEntry c cell now k v ttl in
    cache_view c' = Spec.set (cache_cap c) k (setExpires v (now + Spec.ttl_of cell ttl)) (cache_view c)
    /\ cache_ok c' /\ cache_cap c' = cache_cap c;
  law_delete c k : cache_ok c ->
    cache_view (Delete c k) = Spec.remove k (cache_view c)
    /\ cache_ok (Delete c k) /\ cache_cap (Delete c k) = cache_cap c;
  law_purge c : cache_ok c ->
    cache_view (Purge c) = [] /\ cache_ok (Purge c) /\ cache_cap (Purge c) = cache_cap c;
  law_stats c : cache_ok c -> Entries (Stats c) = Z.of_nat (length (cache_view c));
}.

(** ** Well-formedness: list, map and heap describe the same entries *)

Record lru_wf (c : lruCache) : Prop := {
  wf_nodup : NoDup (lruList c);
  wf_list e : e ∈ lruList c ->
    exists en, heap c !! e = Some en /\ items c !! e_key en = Some e;
  wf_items k e : items c !! k = Some e ->
    e ∈ lruList c /\ exists en, heap c !! e = Some en /\ e_key en = k;
  wf_fresh e : is_Some (heap c !! e) -> (e < next_element c)%positive;
  wf_max : 0 < maxEntries c;
  wf_len : Len c <= maxEntries c;
  wf_entries : Entries (stats c) = Len c;
}.

(** The entries of a list of elements, and the abstraction to [Spec]. *)
Definition view_of (h : gmap element lruEntry) (l : list element) : Spec.t :=
  (fun e => let en := default (mkEntry "" zeroResponse) (h !! e) in (e_key en, e_val en)) <$> l.
Definition lru_view (c : lruCache) : Spec.t := view_of (heap c) (lruList c).
Definition lru_cap (c : lruCache) : nat := Z.to_nat (maxEntries c).

(** The part of well-formedness that concerns the linked structures. *)
Record linked (h : gmap element lruEntry) (l : list element) (m : gmap string element) : Prop := {
  lk_nodup : NoDup l;
  lk_list e : e ∈ l -> exists en, h !! e = Some en /\ m !! e_key en = Some e;
  lk_items k e : m !! k = Some e -> e ∈ l /\ exists en, h !! e = Some en /\ e_key en = k;
}.

Lemma lru_wf_linked c : lru_wf c -> linked (heap c) (lruList c) (items c).
Proof. intros []. by constructor. Qed.

Section Linked.
Context (h : gmap element lruEntry) (l : list element) (m : gmap string element).
Hypothesis HL : linked h l m.

Lemma linked_entry k e : m !! k = Some e ->
  exists v, h !! e = Some (mkEntry k v) /\ e ∈ l.
Proof. intros (He & [k' v] & Hh & <-)%(lk_items _ _ _ HL). eauto. Qed.

Lemma linked_key_inj e e' en en' :
  e ∈ l -> e' ∈ l -> h !! e = Some en -> h !! e' = Some en' ->
  e_key en = e_key en' -> e = e'.
Proof.
  intros (en1 & H1 & K1)%(lk_list _ _ _ HL) (en2 & H2 & K2)%(lk_list _ _ _ HL) ? ? ?.
  simplify_eq. congruence.
Qed.

Lemma linked_find k :
  Spec.find k (view_of h l) = match m !! k with
                              | Some e => Some (e_val (default (mkEntry "" zeroResponse) (h !! e)))
                              | None => None
                              end.
Proof.
  assert (Hgen : forall l', (forall e, e ∈ l' -> e ∈ l) ->
    (forall e, m !! k = Some e -> e ∈ l') ->
    Spec.find k (view_of h l') = match m !! k with
      | Some e => Some (e_val (default (mkEntry "" zeroResponse) (h !! e))) | None => None end);
    [|apply Hgen; [done|intros e He; by apply (lk_items _ _ _ HL) in He as [? _]]].
  induction l' as [|e l' IH]; intros Hsub Hm; cbn.
  { destruct (m !! k) as [e|]; [|done]. by destruct (not_elem_of_nil e (Hm e eq_refl)). }
  destruct (lk_list _ _ _ HL e) as (en & Hen & Hke); [set_solver|]. rewrite Hen. cbn.
  destruct (decide (e_key en = k)) as [<-|Hne].
  - by rewrite Hke, Hen.
  - apply IH; [set_solver|]. intros e' He'. specialize (Hm e' He').
    apply elem_of_cons in Hm as [->|Hm]; [|done].
    apply linked_entry in He' as (v & Hv & _). by simplify_eq.
Qed.

Lemma linked_remove k e :
  m !! k = Some e -> view_of h (list_Remove e l) = Spec.remove k (view_of h l).
Proof.
  intros Hk. destruct (linked_entry k e Hk) as (v & Hv & He).
  unfold list_Remove, Spec.remove, view_of. rewrite filter_fmap. f_equal.
  apply filter_ext_in. intros e' He'. cbn.
  destruct (lk_list _ _ _ HL e' He') as (en' & Hen' & Hke'). rewrite Hen'. cbn.
  split; intros Hne Heq; apply Hne; [|by subst; simplify_eq].
  eapply (linked_key_inj e' e); eauto.
Qed.

Lemma linked_remove_absent k :
  m !! k = None -> Spec.remove k (view_of h l) = view_of h l.
Proof.
  intros Hk. apply filter_id. intros p (e & -> & He)%list_elem_of_fmap.
  destruct (lk_list _ _ _ HL e He) as (en & Hen & Hke). cbn. rewrite Hen. cbn. congruence.
Qed.

Lemma linked_keys : NoDup (view_of h l).*1.
Proof.
  unfold view_of. rewrite <- list_fmap_compose. apply NoDup_fmap_2_strong; [|apply HL].
  intros e e' He He'. cbn.
  destruct (lk_list _ _ _ HL e He) as (en & Hen & _), (lk_list _ _ _ HL e' He') as (en' & Hen' & _).
  rewrite Hen, Hen'. cbn. eauto using linked_key_inj.
Qed.
End Linked.

Lemma elem_of_list_Remove e e' l : e' ∈ list_Remove e l <-> e' <> e /\ e' ∈ l.
Proof. unfold list_Remove. by rewrite list_elem_of_filter. Qed.

Lemma list_Remove_notin e l : e ∉ l -> list_Remove e l = l.
Proof. intros He. apply filter_id. set_solver. Qed.

Lemma list_Remove_split l1 e l2 : NoDup (l1 ++ e :: l2) -> list_Remove e (l1 ++ e :: l2) = l1 ++ l2.
Proof.
  intros (H1 & H2 & H3)%NoDup_app. apply NoDup_cons in H3 as [H3 _].
  unfold list_Remove. rewrite filter_app, filter_cons, decide_False by auto.
  rewrite !filter_id; [done|set_solver|set_solver].
Qed.

Lemma list_Remove_length e l : NoDup l -> e ∈ l -> S (length (list_Remove e l)) = length l.
Proof.
  intros Hnd (l1 & l2 & ->)%list_elem_of_split. rewrite list_Remove_split by done.
  rewrite !length_app. cbn. lia.
Qed.

Lemma NoDup_list_Remove e l : NoDup l -> NoDup (list_Remove e l).
Proof. apply NoDup_filter. Qed.

Lemma MoveToFront_in e l : e ∈ l -> list_MoveToFront e l = e :: list_Remove e l.
Proof. intros He. unfold list_MoveToFront. by rewrite decide_True. Qed.

Lemma MoveToFront_perm e l : NoDup l -> list_MoveToFront e l ≡ₚ l.
Proof.
  intros Hnd. unfold list_MoveToFront. case_decide as He; [|done].
  apply list_elem_of_split in He as (l1 & l2 & ->). rewrite list_Remove_split by done.
  apply Permutation_middle.
Qed.

Lemma view_of_ext h h' l :
  (forall e, e ∈ l -> h !! e = h' !! e) -> view_of h l = view_of h' l.
Proof.
  intros Hh. unfold view_of. apply list_fmap_ext. intros i e He%list_elem_of_lookup_2.
  by rewrite (Hh e He).
Qed.

Section LinkedSteps.
Context (h : gmap element lruEntry) (l : list element) (m : gmap string element).
Hypothesis HL : linked h l m.

Lemma linked_perm l' : l' ≡ₚ l -> linked h l' m.
Proof.
  intros Hp. destruct HL as [H1 H2 H3]. constructor.
  - by rewrite Hp.
  - intros e He. apply H2. by rewrite <- Hp.
  - intros k e [He Hk]%H3. split; [by rewrite Hp|done].
Qed.

Lemma linked_touch k e :
  m !! k = Some e ->
  linked h (list_MoveToFront e l) m
  /\ exists v, h !! e = Some (mkEntry k v)
     /\ view_of h (list_MoveToFront e l) = (k, v) :: Spec.remove k (view_of h l).
Proof.
  intros Hk. destruct (linked_entry _ _ _ HL k e Hk) as (v & Hv & He).
  split; [apply linked_perm, MoveToFront_perm, HL|].
  exists v. split; [done|]. rewrite MoveToFront_in by done.
  rewrite <- (linked_remove _ _ _ HL k e Hk). cbn. by rewrite Hv.
Qed.

Lemma linked_overwrite k e r :
  m !! k = Some e ->
  linked (<[e := mkEntry k r]> h) l m
  /\ view_of (<[e := mkEntry k r]> h) (list_MoveToFront e l)
     = (k, r) :: Spec.remove k (view_of h l).
Proof.
  intros Hk. destruct (linked_entry _ _ _ HL k e Hk) as (v & Hv & He). split.
  - constructor; [apply HL|..].
    + intros e' (en & Hen & Hm)%(lk_list _ _ _ HL). destruct (decide (e = e')) as [<-|Hne].
      * rewrite lookup_insert_eq. exists (mkEntry k r). done.
      * rewrite lookup_insert_ne by done. eauto.
    + intros k' e' (He' & en & Hen & Hkey)%(lk_items _ _ _ HL). split; [done|].
      destruct (decide (e = e')) as [<-|Hne].
      * rewrite lookup_insert_eq. exists (mkEntry k r). by simplify_eq.
      * rewrite lookup_insert_ne by done. eauto.
  - rewrite MoveToFront_in by done. rewrite <- (linked_remove _ _ _ HL k e Hk).
    change (view_of (<[e:=mkEntry k r]> h) (e :: list_Remove e l))
      with (let en := default (mkEntry "" zeroResponse) (<[e:=mkEntry k r]> h !! e) in
            (e_key en, e_val en) :: view_of (<[e:=mkEntry k r]> h) (list_Remove e l)).
    rewrite lookup_insert_eq. cbn. f_equal.
    apply view_of_ext. intros e' [Hne _]%elem_of_list_Remove. by rewrite lookup_insert_ne.
Qed.

Lemma linked_push k e r :
  m !! k = None -> h !! e = None ->
  linked (<[e := mkEntry k r]> h) (e :: l) (<[k := e]> m)
  /\ view_of (<[e := mkEntry k r]> h) (e :: l) = (k, r) :: view_of h l.
Proof.
  intros Hk He.
  assert (Hnew : e ∉ l). { intros (en & Hen & _)%(lk_list _ _ _ HL). congruence. }
  split.
  - constructor.
    + apply NoDup_cons. split; [done|apply HL].
    + intros e' [->|Hin]%elem_of_cons.
      * rewrite lookup_insert_eq. eexists. split; [done|]. cbn. by rewrite lookup_insert_eq.
      * rewrite lookup_insert_ne by (intros ->; done).
        apply (lk_list _ _ _ HL) in Hin as (en & Hen & Hm). exists en. split; [done|].
        rewrite lookup_insert_ne; [done|congruence].
    + intros k' e' [[<- <-]|[Hne (Hin & en & Hen & Hkey)%(lk_items _ _ _ HL)]]%lookup_insert_Some.
      * split; [by left|]. rewrite lookup_insert_eq. eauto.
      * split; [by right|]. rewrite lookup_insert_ne by (intros ->; done). eauto.
  - cbn. rewrite lookup_insert_eq. cbn. f_equal. apply view_of_ext.
    intros e' Hin. rewrite lookup_insert_ne; [done|]. by intros ->.
Qed.

Lemma linked_drop k e v :
  e ∈ l -> h !! e = Some (mkEntry k v) -> linked h (list_Remove e l) (delete k m).
Proof.
  intros He Hv. constructor; [apply NoDup_list_Remove, HL|..].
  - intros e' [Hne Hin]%elem_of_list_Remove.
    destruct (lk_list _ _ _ HL e' Hin) as (en & Hen & Hm). exists en. split; [done|].
    rewrite lookup_delete_ne; [done|]. intros ->. apply Hne.
    eapply (linked_key_inj _ _ _ HL e' e); eauto.
  - intros k' e' [Hne (Hin & en & Hen & Hkey)%(lk_items _ _ _ HL)]%lookup_delete_Some.
    split; [|eauto]. apply elem_of_list_Remove. split; [|done]. intros ->. by simplify_eq.
Qed.
End LinkedSteps.

(** ** The methods refine [Spec] and keep the cache well-formed *)

Lemma Len_with_list l c : Len (with_list l c) = Z.of_nat (length l).
Proof. done. Qed.

Lemma view_length h l : length (view_of h l) = length l.
Proof. apply length_fmap. Qed.

Ltac lru_simpl :=
  cbn [heap lruList items maxEntries stats next_element with_stats with_list from_option id
       e_key e_val setEntries Entries].

Lemma lru_wf_rebuild c h l m n st :
  linked h l m -> (forall e, is_Some (h !! e) -> (e < n)%positive) ->
  0 < maxEntries c -> Z.of_nat (length l) <= maxEntries c ->
  Entries st = Z.of_nat (length l) ->
  lru_wf (mkLru h l m (maxEntries c) st n).
Proof. intros [] ? ? ? ?. by constructor. Qed.

Lemma lru_Get_refines c now k :
  lru_wf c ->
  let '(r, c') := lru_Get c now k in
  let '(r', l') := Spec.get now k (lru_view c) in
  r = r' /\ lru_view c' = l' /\ lru_wf c' /\ lru_cap c' = lru_cap c.
Proof.
  intros Hwf. pose proof (lru_wf_linked c Hwf) as HL. unfold lru_Get, Spec.get, lru_view.
  rewrite (linked_find _ _ _ HL).
  destruct (items c !! k) as [e|] eqn:Hk.
  - destruct (linked_touch _ _ _ HL k e Hk) as (HL' & v & Hv & Hview).
    unfold entry_of. rewrite Hv. lru_simpl.
    pose proof (MoveToFront_perm e (lruList c) (wf_nodup _ Hwf)) as Hperm%Permutation_length.
    pose proof (wf_len _ Hwf). pose proof (wf_entries _ Hwf).
    unfold Len in *.
    cbn. destruct (After now (cr_expiresAt v)); split_and!; try done;
      apply lru_wf_rebuild; try apply Hwf; cbn; rewrite ?Hperm; done.
  - cbn. split_and!; try done. destruct Hwf. by constructor.
Qed.

Lemma Spec_remove_length k l : (length (Spec.remove k l) <= length l)%nat.
Proof. apply filter_length_le. Qed.

Lemma last_list_Remove e l :
  NoDup l -> last l = Some e -> list_Remove e l = take (pred (length l)) l.
Proof.
  intros Hnd (l' & ->)%last_Some. rewrite list_Remove_split by done.
  rewrite length_app, app_nil_r. cbn. replace (pred (length l' + 1)) with (length l') by lia.
  by rewrite take_app_length.
Qed.

Lemma lru_Set_refines c cell now k r ttl :
  lru_wf c ->
  let c' := lru_Set c cell now k r ttl in
  lru_view c' = Spec.set (lru_cap c) k (setExpires r (now + Spec.ttl_of cell ttl)) (lru_view c)
  /\ lru_wf c' /\ lru_cap c' = lru_cap c.
Proof.
  intros Hwf. pose proof (lru_wf_linked c Hwf) as HL.
  pose proof (wf_len _ Hwf) as Hlen. pose proof (wf_max _ Hwf) as Hmax. unfold Len in Hlen.
  unfold lru_Set. fold (Spec.ttl_of cell ttl). set (r' := setExpires r (now + Spec.ttl_of cell ttl)).
  unfold Spec.set, lru_cap, lru_view.
  destruct (items c !! k) as [e|] eqn:Hk.
  - destruct (linked_entry _ _ _ HL k e Hk) as (v & Hv & He).
    destruct (linked_overwrite _ _ _ HL k e r' Hk) as [HL' Hview].
    unfold entry_of. rewrite Hv. lru_simpl.
    pose proof (MoveToFront_perm e (lruList c) (wf_nodup _ Hwf)) as Hperm.
    rewrite Hview. split_and!; [|apply lru_wf_rebuild; lru_simpl|done].
    + rewrite take_ge; [done|]. rewrite <- Hview, view_length, Hperm. lia.
    + eapply linked_perm; [exact HL'|done].
    + intros e' [<-|[_ ?]]%lookup_insert_is_Some; [|by apply Hwf].
      apply Hwf. eauto.
    + done.
    + rewrite Hperm. done.
    + done.
  - set (e := next_element c).
    assert (Hfresh : heap c !! e = None).
    { destruct (heap c !! e) as [x|] eqn:Hx; [|done].
      assert (e < e)%positive by (apply (wf_fresh _ Hwf); eauto). lia. }
    destruct (linked_push _ _ _ HL k e r' Hk Hfresh) as [HL' Hview].
    assert (Hfr : forall e', is_Some (<[e:=mkEntry k r']> (heap c) !! e') -> (e' < Pos.succ e)%positive).
    { intros e' [->|[_ Hs]]%lookup_insert_is_Some; [lia|]. apply (wf_fresh _ Hwf) in Hs. lia. }
    rewrite (linked_remove_absent _ _ _ HL k Hk). rewrite <- Hview.
    unfold Len. lru_simpl.
    destruct (Z.ltb_spec (maxEntries c) (Z.of_nat (length (e :: lruList c)))) as [Hover|Hfit].
    + unfold removeOldest. cbn [lruList].
      destruct (last (e :: lruList c)) as [old|] eqn:Hold; [|by apply last_None in Hold].
      pose proof (last_list_Remove old _ (lk_nodup _ _ _ HL') Hold) as Hrem.
      assert (Hin : old ∈ e :: lruList c) by (apply last_Some_elem_of; done).
      destruct (lk_list _ _ _ HL' old Hin) as ([ko vo] & Hko & _).
      unfold removeElement, entry_of. cbn [heap lruList items maxEntries stats next_element].
      rewrite Hko. lru_simpl.
      assert (Hsz : length (list_Remove old (e :: lruList c)) = Z.to_nat (maxEntries c)).
      { pose proof (list_Remove_length old _ (lk_nodup _ _ _ HL') Hin). cbn [length] in *. lia. }
      split_and!; [|apply lru_wf_rebuild; lru_simpl|done].
      * lru_simpl. rewrite Hrem. unfold view_of. rewrite fmap_take.
        f_equal. cbn [length pred] in *. lia.
      * eapply linked_drop; eauto.
      * done.
      * done.
      * rewrite Hsz. lia.
      * done.
    + cbn [length] in Hfit. split_and!; [|apply lru_wf_rebuild; lru_simpl|done]; try done.
      lru_simpl. rewrite take_ge; [done|]. rewrite view_length. cbn [length]. lia.
Qed.

Lemma lru_Delete_refines c k :
  lru_wf c ->
  lru_view (lru_Delete c k) = Spec.remove k (lru_view c)
  /\ lru_wf (lru_Delete c k) /\ lru_cap (lru_Delete c k) = lru_cap c.
Proof.
  intros Hwf. pose proof (lru_wf_linked c Hwf) as HL.
  pose proof (wf_len _ Hwf) as Hlen. unfold Len in Hlen.
  unfold lru_Delete, lru_view. destruct (items c !! k) as [e|] eqn:Hk.
  - destruct (linked_entry _ _ _ HL k e Hk) as (v & Hv & He).
    pose proof (list_Remove_length e _ (wf_nodup _ Hwf) He).
    unfold removeElement, entry_of. rewrite Hv. lru_simpl.
    split_and!; [|apply lru_wf_rebuild; lru_simpl|done].
    + by apply (linked_remove _ _ _ HL).
    + by eapply linked_drop.
    + apply Hwf.
    + apply Hwf.
    + lia.
    + done.
  - split_and!; [|done..]. by rewrite (linked_remove_absent _ _ _ HL k Hk).
Qed.

Lemma linked_empty h : linked h [] ∅.
Proof.
  constructor; [constructor|by intros e ?%not_elem_of_nil|].
  intros k e He. by rewrite lookup_empty in He.
Qed.

Lemma lru_Purge_refines c :
  lru_wf c ->
  lru_view (lru_Purge c) = [] /\ lru_wf (lru_Purge c) /\ lru_cap (lru_Purge c) = lru_cap c.
Proof.
  intros Hwf. split_and!; [done| |done]. pose proof (wf_max _ Hwf).
  apply lru_wf_rebuild; [apply linked_empty|apply Hwf|done|cbn; lia|done].
Qed.

Lemma NewLRUCache_wf n : lru_wf (NewLRUCache n).
Proof.
  unfold NewLRUCache. constructor; cbn; try done.
  - constructor.
  - intros e He. by apply not_elem_of_nil in He.
  - intros e [v Hv]. by rewrite lookup_empty in Hv.
  - destruct (Z.leb_spec n 0); lia.
  - destruct (Z.leb_spec n 0); unfold Len; cbn; lia.
Qed.

#[export] Program Instance lru_CacheLaws : CacheLaws lruCache := {|
  cache_ok := lru_wf;
  cache_view := lru_view;
  cache_cap := lru_cap;
|}.
Next Obligation. intros c Hwf. eapply linked_keys, lru_wf_linked, Hwf. Qed.
Next Obligation.
  intros c Hwf. unfold lru_view, lru_cap. rewrite view_length.
  pose proof (wf_len _ Hwf). unfold Len in *. lia.
Qed.
Next Obligation. intros c Hwf. pose proof (wf_max _ Hwf). unfold lru_cap. lia. Qed.
Next Obligation. intros. by apply lru_Get_refines. Qed.
Next Obligation. intros. by apply lru_Set_refines. Qed.
Next Obligation. intros. by apply lru_Delete_refines. Qed.
Next Obligation. intros. by apply lru_Purge_refines. Qed.
Next Obligation.
  intros c Hwf. cbn. unfold lru_Stats, lru_view. rewrite view_length. apply Hwf.
Qed.

(** ** Sequences of calls *)

Inductive op :=
| OGet (now : Z) (k : string)
| OSet (cell : TTLCell) (now : Z) (k : string) (v : CachedResponse) (ttl : Z)
| ODelete (k : string)
| OPurge.

(** What the caller sees: the results of the [Get] calls. *)
Definition observation : Type := option CachedResponse * bool * bool.

Definition do_op `{Cache C} (o : op) (c : C) : list observation * C :=
  match o with
  | OGet now k => let '(r, c') := Get c now k in ([r], c')
  | OSet cell now k v ttl => ([], SetEntry c cell now k v ttl)
  | ODelete k => ([], Delete c k)
  | OPurge => ([], Purge c)
  end.
Fixpoint run_ops `{Cache C} (ops : list op) (c : C) : list observation * C :=
  match ops with
  | [] => ([], c)
  | o :: ops' => let '(r, c') := do_op o c in
                 let '(rs, c'') := run_ops ops' c' in (r ++ rs, c'')
  end.

Definition spec_op (cap : nat) (o : op) (l : Spec.t) : list observation * Spec.t :=
  match o with
  | OGet now k => let '(r, l') := Spec.get now k l in ([r], l')
  | OSet cell now k v ttl =>
      ([], Spec.set cap k (setExpires v (now + Spec.ttl_of cell ttl)) l)
  | ODelete k => ([], Spec.remove k l)
  | OPurge => ([], [])
  end.
Fixpoint spec_ops (cap : nat) (ops : list op) (l : Spec.t) : list observation * Spec.t :=
  match ops with
  | [] => ([], l)
  | o :: ops' => let '(r, l') := spec_op cap o l in
                 let '(rs, l'') := spec_ops cap ops' l' in (r ++ rs, l'')
  end.

Section Runs.
Context {C : Type} `{CacheLaws C}.

Lemma do_op_refines o (c : C) :
  cache_ok c ->
  (do_op o c).1 = (spec_op (cache_cap c) o (cache_view c)).1
  /\ cache_view (do_op o c).2 = (spec_op (cache_cap c) o (cache_view c)).2
  /\ cache_ok (do_op o c).2 /\ cache_cap (do_op o c).2 = cache_cap c.
Proof.
  intros Hok. destruct o as [now k|cell now k v ttl|k|]; cbn [do_op spec_op].
  - pose proof (law_get c now k Hok) as Hg. destruct (Get c now k) as [r c'].
    destruct (Spec.get now k (cache_view c)) as [r' l']. naive_solver.
  - by pose proof (law_set c cell now k v ttl Hok).
  - by pose proof (law_delete c k Hok).
  - by pose proof (law_purge c Hok).
Qed.

Lemma run_ops_refines ops (c : C) :
  cache_ok c ->
  (run_ops ops c).1 = (spec_ops (cache_cap c) ops (cache_view c)).1
  /\ cache_view (run_ops ops c).2 = (spec_ops (cache_cap c) ops (cache_view c)).2
  /\ cache_ok (run_ops ops c).2 /\ cache_cap (run_ops ops c).2 = cache_cap c.
Proof.
  revert c. induction ops as [|o ops IH]; intros c Hok; [done|].
  destruct (do_op_refines o c Hok) as (H1 & H2 & H3 & H4). cbn [run_ops spec_ops].
  destruct (do_op o c) as [r c'], (spec_op (cache_cap c) o (cache_view c)) as [r' l'].
  cbn [fst snd] in *. subst r' l'. destruct (IH c' H3) as (I1 & I2 & I3 & I4).
  rewrite H4 in *. destruct (run_ops ops c') as [rs c''], (spec_ops _ ops _) as [rs' l''].
  cbn [fst snd] in *. by subst.
Qed.
End Runs.

(** *** Recency: what [Spec] keeps *)

Lemma Spec_remove_app k l1 l2 : Spec.remove k (l1 ++ l2) = Spec.remove k l1 ++ Spec.remove k l2.
Proof. apply filter_app. Qed.
Lemma Spec_remove_cons_ne k k' v l :
  k' <> k -> Spec.remove k ((k', v) :: l) = (k', v) :: Spec.remove k l.
Proof. intros Hne. unfold Spec.remove. by rewrite filter_cons, decide_True by done. Qed.
Lemma Spec_remove_keys k k' l : k' ∈ (Spec.remove k l).*1 <-> k' <> k /\ k' ∈ l.*1.
Proof.
  unfold Spec.remove. rewrite !list_elem_of_fmap. setoid_rewrite list_elem_of_filter.
  split.
  - intros (p & -> & Hne & Hin). eauto.
  - intros (Hne & p & -> & Hin). exists p. done.
Qed.
Lemma Spec_remove_notin k l : k ∉ l.*1 -> Spec.remove k l = l.
Proof.
  intros Hk. apply filter_id. intros [k' v] Hin Heq. cbn in Heq. subst k'. apply Hk.
  apply list_elem_of_fmap. by exists (k, v).
Qed.
Lemma Spec_remove_cons_eq k v l : Spec.remove k ((k, v) :: l) = Spec.remove k l.
Proof. unfold Spec.remove. by rewrite filter_cons, decide_False by naive_solver. Qed.
Lemma Spec_remove_nodup k l : NoDup l.*1 -> NoDup (Spec.remove k l).*1.
Proof.
  induction l as [|[k' v] l IH]; [done|]. cbn [fmap list_fmap fst]. intros [Hk Hl]%NoDup_cons.
  destruct (decide (k' = k)) as [->|Hne].
  - rewrite Spec_remove_cons_eq. auto.
  - rewrite Spec_remove_cons_ne by done. cbn [fmap list_fmap fst]. apply NoDup_cons.
    split; [|auto]. rewrite Spec_remove_keys. naive_solver.
Qed.

Lemma Spec_find_in k v l : Spec.find k l = Some v -> (k, v) ∈ l.
Proof.
  induction l as [|[k' v'] l IH]; [done|]. cbn [Spec.find]. destruct (decide (k' = k)) as [->|Hne].
  - intros [= ->]. by left.
  - intros Hf. right. by apply IH.
Qed.

Lemma Spec_find_split k l1 v l2 : k ∉ l1.*1 -> Spec.find k (l1 ++ (k, v) :: l2) = Some v.
Proof.
  induction l1 as [|[k' v'] l1 IH]; cbn; [by rewrite decide_True|].
  intros [Hne Hl1]%not_elem_of_cons. rewrite decide_False by done. by apply IH.
Qed.

(** [k] sits behind keys of [T] only. *)
Definition recent (T : gset string) (k : string) (v : CachedResponse) (l : Spec.t) : Prop :=
  NoDup l.*1 /\ exists l1 l2, l = l1 ++ (k, v) :: l2 /\ forall k', k' ∈ l1.*1 -> k' ∈ T.

Lemma recent_find T k v l : recent T k v l -> Spec.find k l = Some v.
Proof.
  intros (Hnd & l1 & l2 & -> & HT). apply Spec_find_split.
  rewrite fmap_app, NoDup_app in Hnd. destruct Hnd as (_ & Hnd & _).
  intros Hk. apply (Hnd k Hk). set_solver.
Qed.

Lemma recent_front T k v l : NoDup l.*1 -> recent T k v ((k, v) :: Spec.remove k l).
Proof.
  intros Hnd. split.
  - cbn [fmap list_fmap fst]. apply NoDup_cons. split; [|by apply Spec_remove_nodup].
    rewrite Spec_remove_keys. naive_solver.
  - exists [], (Spec.remove k l). split; [done|]. intros k' Hk'. by apply not_elem_of_nil in Hk'.
Qed.

Lemma recent_remove T k v k' l :
  k' <> k -> recent T k v l -> recent T k v (Spec.remove k' l).
Proof.
  intros Hne (Hnd & l1 & l2 & -> & HT). split; [by apply Spec_remove_nodup|].
  exists (Spec.remove k' l1), (Spec.remove k' l2).
  rewrite Spec_remove_app, Spec_remove_cons_ne by done. split; [done|].
  intros k'' [_ ?]%Spec_remove_keys. auto.
Qed.

Lemma recent_push T k v k' v' l :
  k' <> k -> k' ∈ T -> recent T k v l -> recent T k v ((k', v') :: Spec.remove k' l).
Proof.
  intros Hne HT Hr. destruct (recent_remove T k v k' l Hne Hr) as (Hnd & l1 & l2 & Hl & HT1).
  split.
  - cbn [fmap list_fmap fst]. apply NoDup_cons. split; [|done]. rewrite Spec_remove_keys. naive_solver.
  - exists ((k', v') :: l1), l2. rewrite Hl. split; [done|].
    intros k'' [->|?]%elem_of_cons; auto.
Qed.

Lemma recent_take T k v cap l :
  (size T < cap)%nat -> recent T k v l -> recent T k v (take cap l).
Proof.
  intros Hsz (Hnd & l1 & l2 & -> & HT).
  assert (Hlen : (length l1 <= size T)%nat).
  { rewrite fmap_app, NoDup_app in Hnd. destruct Hnd as [Hnd _].
    rewrite <- (length_fmap fst l1), <- (size_list_to_set (C := gset string) l1.*1) by done.
    apply subseteq_size. intros k' Hk'. rewrite elem_of_list_to_set in Hk'. auto. }
  split.
  - rewrite fmap_take. eapply sublist_NoDup; [exact Hnd|apply sublist_take].
  - exists l1, (take (cap - S (length l1)) l2). split; [|done].
    rewrite take_app. rewrite (take_ge l1) by lia. f_equal.
    by replace (cap - length l1)%nat with (S (cap - S (length l1))) by lia.
Qed.

(** The operations that leave the entry of [k] to recency alone. *)
Definition op_spares (k : string) (o : op) : bool :=
  match o with
  | OGet _ _ => true
  | OSet _ _ k' _ _ | ODelete k' => bool_decide (k' <> k)
  | OPurge => false
  end.
Definition op_key (o : op) : gset string :=
  match o with
  | OGet _ k | OSet _ _ k _ _ => {[k]}
  | ODelete _ | OPurge => ∅
  end.
(** The keys other than [k] that a sequence of calls looks up or stores. *)
Definition touched (k : string) (ops : list op) : gset string :=
  (⋃ (op_key <$> ops)) ∖ {[k]}.

Lemma recent_op cap T k v o l :
  (size T < cap)%nat -> op_spares k o = true -> op_key o ∖ {[k]} ⊆ T ->
  recent T k v l -> recent T k v (spec_op cap o l).2.
Proof.
  intros Hsz Hsp Hkey Hr. destruct o as [now k'|cell now k' v' ttl|k'|]; cbn in *; try done.
  - unfold Spec.get. destruct (Spec.find k' l) as [w|] eqn:Hf; [|done]. cbn.
    destruct (decide (k' = k)) as [->|Hne].
    + rewrite (recent_find _ _ _ _ Hr) in Hf. injection Hf as ->.
      apply recent_front. by destruct Hr.
    + apply recent_push; [done|set_solver|done].
  - case_bool_decide; [|done]. unfold Spec.set. apply recent_take; [done|].
    apply recent_push; [done|set_solver|done].
  - case_bool_decide; [|done]. by apply recent_remove.
Qed.

Lemma recent_ops cap T k v ops l :
  (size T < cap)%nat -> forallb (op_spares k) ops = true -> touched k ops ⊆ T ->
  recent T k v l -> recent T k v (spec_ops cap ops l).2.
Proof.
  intros Hsz. revert l. induction ops as [|o ops IH]; intros l Hsp HT Hr; [done|].
  cbn in Hsp. apply andb_true_iff in Hsp as [Ho Hops]. unfold touched in HT. cbn in HT.
  cbn [spec_ops]. pose proof (recent_op cap T k v o l Hsz Ho ltac:(set_solver) Hr) as Hr'.
  destruct (spec_op cap o l) as [r l']. cbn [snd] in Hr'.
  specialize (IH l' Hops). destruct (spec_ops cap ops l') as [rs l'']. cbn [snd] in *.
  apply IH; [|done]. unfold touched. set_solver.
Qed.

(** ** Statistics *)

(** Inserts less removals, against the number of entries. *)
Definition balance (s : CacheStats) : Z := wrap_u64 (Stores s - Evictions s - Entries s).

Definition no_purge (o : op) : bool := match o with OPurge => false | _ => true end.

Lemma balance_shift a b n n' :
  a - b - n = n' -> wrap_u64 (wrap_u64 a - wrap_u64 b - n) = wrap_u64 n'.
Proof.
  intros <-. unfold wrap_u64. rewrite !(Zminus_mod _ n), (Zminus_mod (a mod two64)), !Zmod_mod.
  by rewrite <- (Zminus_mod a b).
Qed.

Lemma wrap_u64_id_mod z : wrap_u64 (wrap_u64 z) = wrap_u64 z.
Proof. unfold wrap_u64. apply Zmod_mod. Qed.

Lemma balance_step (st e n st' e' n' : Z) :
  wrap_u64 (st - e - n) = 0 -> st' - e' - n' = st - e - n ->
  wrap_u64 (wrap_u64 st' - wrap_u64 e' - n') = 0.
Proof.
  intros H0 Heq. rewrite <- H0. rewrite (balance_shift st' e' n' (st - e - n)) by lia. done.
Qed.

(** ** Properties of the cache *)

(** [C14] Any sequence of Get, Set, Delete and Purge calls on a new cache returns
    exactly what the recency list of [Spec] returns, and leaves a well-formed
    cache whose size is the Entries statistic and within the capacity (1024 for a
    non-positive argument). *)
Theorem lru_trace_refines (n : Z) (ops : list op) :
  let cap := if n <=? 0 then 1024 else n in
  let '(obs, c) := run_ops ops (NewLRUCache n) in
  obs = (spec_ops (Z.to_nat cap) ops []).1
  /\ lru_view c = (spec_ops (Z.to_nat cap) ops []).2
  /\ Entries (lru_Stats c) = Len c /\ Len c <= cap /\ lru_wf c.
Proof.
  cbv zeta. pose proof (run_ops_refines ops (NewLRUCache n) (NewLRUCache_wf n)) as (H1 & H2 & H3 & H4).
  assert (Hcap : cache_cap (NewLRUCache n) = Z.to_nat (if n <=? 0 then 1024 else n)) by done.
  rewrite Hcap in *. destruct (run_ops ops (NewLRUCache n)) as [obs c]. cbn [fst snd] in *.
  change (cache_view (NewLRUCache n)) with ([] : Spec.t) in *.
  change (cache_ok c) with (lru_wf c) in H3. change (cache_cap c) with (Z.to_nat (maxEntries c)) in H4.
  pose proof (wf_len _ H3). pose proof (wf_max _ H3).
  split_and!; [done|done|apply H3| |done].
  destruct (Z.leb_spec n 0); lia.
Qed.

(** [C15] LRU retention: after a Set, the entry is still there with the stored
    response as long as the calls since then do not delete, purge or overwrite it
    and look up or store fewer distinct other keys than the capacity. *)
Theorem lru_retention (c : lruCache) cell now k v ttl ops now' :
  lru_wf c ->
  forallb (op_spares k) ops = true ->
  Z.of_nat (size (touched k ops)) < maxEntries c ->
  let c' := (run_ops ops (lru_Set c cell now k v ttl)).2 in
  let v' := setExpires v (now + Spec.ttl_of cell ttl) in
  (lru_Get c' now' k).1 = (Some v', true, After now' (now + Spec.ttl_of cell ttl)).
Proof.
  intros Hwf Hops Hsz. cbv zeta. pose proof (wf_max _ Hwf) as Hmax.
  destruct (lru_Set_refines c cell now k v ttl Hwf) as (Hv1 & Hwf1 & Hc1).
  set (c1 := lru_Set c cell now k v ttl) in *.
  destruct (run_ops_refines (H0:=lru_CacheLaws) ops c1 Hwf1) as (_ & Hv2 & Hwf2 & Hc2).
  change (cache_cap c1) with (lru_cap c1) in *. rewrite Hc1 in *.
  pose proof (lru_Get_refines (run_ops ops c1).2 now' k Hwf2) as Hget.
  destruct (lru_Get (run_ops ops c1).2 now' k) as [r c3].
  change (lru_view (run_ops ops c1).2) with (cache_view (run_ops ops c1).2) in Hget.
  rewrite Hv2 in Hget. change (cache_view c1) with (lru_view c1) in Hget. rewrite Hv1 in Hget.
  set (v' := setExpires v (now + Spec.ttl_of cell ttl)) in *.
  assert (Hr : recent (touched k ops) k v' (spec_ops (lru_cap c) ops (Spec.set (lru_cap c) k v' (lru_view c))).2).
  { apply recent_ops; [unfold lru_cap; lia|done|done|].
    apply recent_take; [unfold lru_cap; lia|]. apply recent_front.
    eapply linked_keys, lru_wf_linked, Hwf. }
  unfold Spec.get in Hget. rewrite (recent_find _ _ _ _ Hr) in Hget. cbn in Hget. cbn.
  by destruct Hget as (-> & _).
Qed.

Definition sample_response : CachedResponse := mkCached 200 ∅ "hello" 0 0 "id".

Lemma lru_retention_witness :
  let ops := [OSet None 1 "b" sample_response 5; OGet 2 "a"; OSet None 3 "c" sample_response 5] in
  let c' := (run_ops ops (lru_Set (NewLRUCache 3) None 0 "a" sample_response 10)).2 in
  (lru_Get c' 7 "a").1 = (Some (setExpires sample_response 10), true, false).
Proof.
  cbv zeta.
  rewrite (lru_retention (NewLRUCache 3) None 0 "a" sample_response 10
    [OSet None 1 "b" sample_response 5; OGet 2 "a"; OSet None 3 "c" sample_response 5] 7).
  - reflexivity.
  - apply NewLRUCache_wf.
  - reflexivity.
  - vm_compute. reflexivity.
Defined.

(** Storing a key that is absent in a full cache evicts the least recently
    used entry and no other, and counts one eviction and one store. *)
Theorem lru_Set_evicts_oldest (c : lruCache) cell now k v ttl :
  lru_wf c -> Len c = maxEntries c -> items c !! k = None ->
  let c' := lru_Set c cell now k v ttl in
  (lru_view c').*1 = k :: removelast (lru_view c).*1
  /\ Stores (stats c') = wrap_u64 (Stores (stats c) + 1)
  /\ Evictions (stats c') = wrap_u64 (Evictions (stats c) + 1).
Proof.
  intros Hwf Hfull Hk. cbv zeta. pose proof (lru_wf_linked c Hwf) as HL. split.
  - destruct (lru_Set_refines c cell now k v ttl Hwf) as (-> & _ & _).
    unfold Spec.set, lru_view. rewrite (linked_remove_absent _ _ _ HL k Hk).
    assert (Hcap : lru_cap c = length (lruList c)) by (unfold lru_cap, Len in *; lia).
    rewrite Hcap. pose proof (wf_max _ Hwf) as Hmax.
    destruct (lruList c) as [|e l] eqn:Hl using rev_ind; [unfold Len in *; rewrite Hl in *; cbn in *; lia|].
    unfold view_of. rewrite length_app, Nat.add_comm. cbn [length Nat.add].
    cbn [take fmap list_fmap fst]. f_equal. rewrite !fmap_app. cbn.
    rewrite removelast_last. rewrite take_app_length'; [done|]. by rewrite length_fmap.
  - unfold lru_Set. rewrite Hk. unfold Len in *. lru_simpl.
    destruct (Z.ltb_spec (maxEntries c) (Z.of_nat (length (next_element c :: lruList c))));
      [|cbn [length] in *; lia].
    unfold removeOldest. lru_simpl.
    destruct (last (next_element c :: lruList c)) eqn:Hlast; [done|]. by apply last_None in Hlast.
Qed.

Definition two_of (c : lruCache) : lruCache :=
  lru_Set (lru_Set c None 0 "a" sample_response 1) None 0 "b" sample_response 1.

Lemma lru_Set_evicts_oldest_witness :
  (lru_view (lru_Set (two_of (NewLRUCache 2)) None 0 "c" sample_response 1)).*1 = ["c"; "b"].
Proof.
  destruct (lru_Set_evicts_oldest (two_of (NewLRUCache 2)) None 0 "c" sample_response 1) as (H & _ & _).
  - apply lru_Set_refines, lru_Set_refines, NewLRUCache_wf.
  - reflexivity.
  - reflexivity.
  - rewrite H. vm_compute. reflexivity.
Defined.

Lemma do_op_balance (o : op) (c : lruCache) :
  lru_wf c -> no_purge o = true -> balance (stats c) = 0 -> balance (stats (do_op o c).2) = 0.
Proof.
  intros Hwf Ho Hb. pose proof (lru_wf_linked c Hwf) as HL.
  unfold balance in *. pose proof (wf_entries _ Hwf) as Hent. unfold Len in Hent.
  destruct o as [now k|cell now k v ttl|k|]; cbn [do_op]; [..|done].
  - cbn. unfold lru_Get. repeat case_match; simplify_eq/=; done.
  - cbn [snd SetEntry lru_Cache]. unfold lru_Set, Len. destruct (items c !! k) as [e|] eqn:Hk.
    + lru_simpl. cbn [Stores Evictions setEntries Entries].
      rewrite (Permutation_length (MoveToFront_perm e (lruList c) (wf_nodup _ Hwf))).
      by rewrite <- Hent.
    + lru_simpl. destruct (Z.ltb_spec (maxEntries c) (Z.of_nat (length (next_element c :: lruList c)))).
      * unfold removeOldest. lru_simpl.
        destruct (last (next_element c :: lruList c)) as [old|] eqn:Hold; [|by apply last_None in Hold].
        unfold removeElement. lru_simpl. cbn [Stores Evictions setEntries Entries incEvictions incStores].
        apply (balance_step _ _ _ _ _ _ Hb).
        assert (Hnd : NoDup (next_element c :: lruList c)).
        { apply NoDup_cons. split; [|apply Hwf]. intros (en & Hen & _)%(wf_list _ Hwf).
          assert (next_element c < next_element c)%positive by (apply (wf_fresh _ Hwf); eauto). lia. }
        assert (Hin : old ∈ next_element c :: lruList c) by (by apply last_Some_elem_of).
        pose proof (list_Remove_length old _ Hnd Hin). cbn [length] in *. lia.
      * lru_simpl. cbn [Stores Evictions setEntries Entries incStores length].
        rewrite <- (wrap_u64_id_mod (Stores _ + 1)).
        unfold wrap_u64 in *. rewrite <- Hb. rewrite Hent.
        rewrite (Zminus_mod _ (Z.of_nat (S _))), (Zminus_mod _ (Evictions _)), !Zmod_mod.
        rewrite <- (Zminus_mod (_ + 1) (Evictions _)), <- (Zminus_mod _ (Z.of_nat (S _))).
        f_equal. lia.
  - cbn [snd Delete lru_Cache]. unfold lru_Delete. destruct (items c !! k) as [e|] eqn:Hk; [|done].
    destruct (linked_entry _ _ _ HL k e Hk) as (v & Hv & He).
    pose proof (list_Remove_length e _ (wf_nodup _ Hwf) He).
    unfold removeElement, Len. lru_simpl. cbn [Stores Evictions setEntries Entries incEvictions].
    unfold wrap_u64 in *. rewrite <- Hb, Hent.
    rewrite (Zminus_mod _ (Z.of_nat (length (list_Remove e _)))), (Zminus_mod (Stores _)), !Zmod_mod.
    rewrite <- (Zminus_mod (Stores _)), <- (Zminus_mod _ (Z.of_nat (length (list_Remove e _)))).
    f_equal. lia.
Qed.

(** Without Purge, the statistics balance: inserts minus removals is the
    number of entries (modulo 2^64).  Removals are the Evictions counter, which
    Delete increments as an LRU eviction does. *)
Theorem lru_stats_balance (n : Z) (ops : list op) :
  forallb no_purge ops = true ->
  let s := lru_Stats (run_ops ops (NewLRUCache n)).2 in
  wrap_u64 (Stores s - Evictions s) = wrap_u64 (Entries s).
Proof.
  intros Hops. cbv zeta. unfold lru_Stats.
  assert (Hgen : forall c, lru_wf c -> balance (stats c) = 0 ->
    balance (stats (run_ops ops c).2) = 0).
  { revert Hops. induction ops as [|o ops IH]; intros Hops c Hwf Hb; [done|].
    cbn in Hops. apply andb_true_iff in Hops as [Ho Hops].
    pose proof (do_op_balance o c Hwf Ho Hb). pose proof (do_op_refines (H0:=lru_CacheLaws) o c Hwf) as (_ & _ & Hwf' & _).
    cbn [run_ops]. destruct (do_op o c) as [r c']. cbn [snd] in *.
    specialize (IH Hops c' Hwf' H). by destruct (run_ops ops c'). }
  specialize (Hgen (NewLRUCache n) (NewLRUCache_wf n) ltac:(done)).
  set (s := stats _) in *. unfold balance, wrap_u64 in *.
  apply Z.mod_divide in Hgen as [q Hq]; [|done].
  replace (Stores s - Evictions s) with (Entries s + q * two64) by lia.
  apply Z_mod_plus_full.
Qed.

Lemma lru_stats_balance_witness :
  let s := lru_Stats (run_ops [OSet None 0 "a" sample_response 1; OSet None 0 "b" sample_response 1;
                               ODelete "a"] (NewLRUCache 2)).2 in
  wrap_u64 (Stores s - Evictions s) = 1 /\ Evictions s = 1.
Proof.
  split; [|vm_compute; reflexivity].
  rewrite (lru_stats_balance 2 [OSet None 0 "a" sample_response 1; OSet None 0 "b" sample_response 1;
                                ODelete "a"] eq_refl). vm_compute. reflexivity.
Defined.
