(* ===== verification/Balancer.v ===== *)
(** * Load balancers and health probes

    [internal/proxy/healthChecker.go] and [internal/proxy/balancer.go]: the two
    balancing strategies as state records with their operations, the
    [Balancer] interface they implement and what it promises.  Each operation
    runs without interruption here; interleaved calls of the least-connections
    balancer are in [BalancerConc].

    A probe is a parameter: [http_get n u] is the status of the [n]-th request
    of a call, to the URL [u], or [None] when the request fails. *)
From S2P Require Import Prelude GoStrings GoNet.
From stdpp Require Import list_numbers.
#[local] Open Scope Z_scope.

(** ** Health probes *)

Definition Probes : Type := nat -> URL -> option Z.

(** The absolute URL of the probe. *)
Definition healthURL (targetURL : URL) : URL :=
  mkURL (if bool_decide (Scheme targetURL = "") then "http" else Scheme targetURL)
        (Host targetURL) "/healthz" "".

Definition isTargetHealthy (http_get : URL -> option Z) (targetURL : URL) : bool :=
  match http_get (healthURL targetURL) with
  | None => false
  | Some statusCode => (200 <=? statusCode) && (statusCode <? 400)
  end.

(** ** The interface *)

(** [Acquire] returns the state and the release function. *)
Class Balancer (B : Type) := {
  Pick : Probes -> B -> bool -> option URL * B;
  Acquire : B -> URL -> B * (B -> B);
  Targets : B -> list URL;
  Strategy : B -> string;
}.

(** ** Round robin *)

Record roundRobinBalancer := mkRR {
  rr_targets : list URL;
  nextIndex : Z;               (* uint64, atomic *)
  rr_healthChecks : bool;
}.

Definition NewRoundRobinBalancer (upstreamTargets : list URL) (healthChecksEnabled : bool)
    : roundRobinBalancer :=
  mkRR upstreamTargets 0 healthChecksEnabled.

(** [b.targets[n % uint64(len(b.targets))]] *)
Definition rr_at (b : roundRobinBalancer) (n : Z) : option URL :=
  rr_targets b !! Z.to_nat (n mod Z.of_nat (length (rr_targets b))).

(** The probing loop, from iteration [i] on, with [left] iterations to go. *)
Fixpoint rr_scan (http_get : Probes) (b : roundRobinBalancer) (startIndex : Z)
    (i left : nat) : option URL :=
  match left with
  | O => None
  | S left' =>
      match rr_at b (wrap_u64 (startIndex + Z.of_nat i)) with
      | Some candidateTarget =>
          if isTargetHealthy (http_get i) candidateTarget then Some candidateTarget
          else rr_scan http_get b startIndex (S i) left'
      | None => None
      end
  end.

Definition rr_Pick (http_get : Probes) (b : roundRobinBalancer) (previewOnly : bool)
    : option URL * roundRobinBalancer :=
  if (length (rr_targets b) =? 0)%nat then (None, b)
  else if previewOnly then (rr_at b (nextIndex b), b)
  else
    let next := wrap_u64 (nextIndex b + 1) in
    let startIndex := wrap_u64 (next - 1) in
    let b' := mkRR (rr_targets b) next (rr_healthChecks b) in
    if negb (rr_healthChecks b) then (rr_at b startIndex, b')
    else (rr_scan http_get b startIndex 0 (length (rr_targets b)), b').

Definition rr_Acquire (b : roundRobinBalancer) (_ : URL)
    : roundRobinBalancer * (roundRobinBalancer -> roundRobinBalancer) :=
  (b, fun b => b).

#[export] Instance rr_Balancer : Balancer roundRobinBalancer := {|
  Pick := rr_Pick;
  Acquire := rr_Acquire;
  Targets := rr_targets;
  Strategy := fun _ => "round_robin";
|}.

(** ** Upstream identity *)

Definition default_port (scheme port : string) : string :=
  if bool_decide (port = "") then
    if bool_decide (scheme = "http") then "80"
    else if bool_decide (scheme = "https") then "443"
    else port
  else port.

Definition sameUpstream `{Unicode} (a b : option URL) : bool :=
  match a, b with
  | Some a, Some b =>
      let sa := ToLower (Scheme a) in
      let sb := ToLower (Scheme b) in
      let ha := ToLower (Hostname a) in
      let hb := ToLower (Hostname b) in
      let pa := default_port sa (Port a) in
      let pb := default_port sb (Port b) in
      bool_decide (sa = sb) && bool_decide (ha = hb) && bool_decide (pa = pb)
  | _, _ => false
  end.

(** ** Least connections *)

Record lcState := mkLcState {
  upstreamURL : URL;
  activeConnections : Z;      (* int64, atomic *)
  pendingSelections : Z;      (* int64, atomic *)
}.

Record leastConnectionsBalancer := mkLC {
  targetStates : list lcState;
  lc_healthChecks : bool;
}.

Definition NewLeastConnectionsBalancer (upstreamTargets : list URL) (healthChecksEnabled : bool)
    : leastConnectionsBalancer :=
  mkLC ((fun u => mkLcState u 0 0) <$> upstreamTargets) healthChecksEnabled.

Definition lc_load (includePending : bool) (st : lcState) : Z :=
  if includePending then wrap_i64 (activeConnections st + pendingSelections st)
  else activeConnections st.

(** One iteration of the scan: the minimum so far and the indices that have it. *)
Definition findCandidates_step (load : Z) (i : nat) (acc : Z * list nat) : Z * list nat :=
  let '(min, cands) := acc in
  if load <? min then (load, [i])
  else if load =? min then (min, cands ++ [i])
  else (min, cands).

Definition lc_skip (http_get : Probes) (b : leastConnectionsBalancer) (i : nat) (st : lcState) : bool :=
  lc_healthChecks b && negb (isTargetHealthy (http_get i) (upstreamURL st)).

Fixpoint findCandidates_loop (http_get : Probes) (b : leastConnectionsBalancer)
    (includePending : bool) (i : nat) (states : list lcState) (acc : Z * list nat) : Z * list nat :=
  match states with
  | [] => acc
  | st :: states' =>
      let acc' := if lc_skip http_get b i st then acc
                  else findCandidates_step (lc_load includePending st) i acc in
      findCandidates_loop http_get b includePending (S i) states' acc'
  end.

Definition findCandidates (http_get : Probes) (b : leastConnectionsBalancer) (includePending : bool)
    : list nat * bool :=
  let '(_, cands) :=
    findCandidates_loop http_get b includePending 0 (targetStates b) (max_i64, []) in
  (cands, (0 <? length cands)%nat).

Definition add_pending (d : Z) (st : lcState) : lcState :=
  mkLcState (upstreamURL st) (activeConnections st) (wrap_i64 (pendingSelections st + d)).
Definition add_active (d : Z) (st : lcState) : lcState :=
  mkLcState (upstreamURL st) (wrap_i64 (activeConnections st + d)) (pendingSelections st).
Definition on_state (i : nat) (f : lcState -> lcState) (b : leastConnectionsBalancer)
    : leastConnectionsBalancer :=
  mkLC (alter f i (targetStates b)) (lc_healthChecks b).

Definition url_at (b : leastConnectionsBalancer) (i : nat) : option URL :=
  upstreamURL <$> targetStates b !! i.

(** Uninterrupted, the compare-and-swap finds the value just loaded and the first
    turn of the loop returns. *)
Definition lc_Pick (http_get : Probes) (b : leastConnectionsBalancer) (previewOnly : bool)
    : option URL * leastConnectionsBalancer :=
  if (length (targetStates b) =? 0)%nat then (None, b)
  else if previewOnly then
    match findCandidates http_get b false with
    | (best :: _, true) => (url_at b best, b)
    | _ => (None, b)
    end
  else
    match findCandidates http_get b true with
    | (best :: _, true) => (url_at b best, on_state best (add_pending 1) b)
    | _ => if negb (lc_healthChecks b) then (url_at b 0, b) else (None, b)
    end.

(** The first state of the same upstream. *)
Fixpoint find_state `{Unicode} (targetURL : URL) (i : nat) (states : list lcState) : option nat :=
  match states with
  | [] => None
  | st :: states' =>
      if sameUpstream (Some (upstreamURL st)) (Some targetURL) then Some i
      else find_state targetURL (S i) states'
  end.

Definition lc_Acquire `{Unicode} (b : leastConnectionsBalancer) (targetURL : URL)
    : leastConnectionsBalancer * (leastConnectionsBalancer -> leastConnectionsBalancer) :=
  match find_state targetURL 0 (targetStates b) with
  | None => (b, fun b => b)
  | Some i => (on_state i (add_active 1) (on_state i (add_pending (-1)) b),
               on_state i (add_active (-1)))
  end.

#[export] Instance lc_Balancer `{Unicode} : Balancer leastConnectionsBalancer := {|
  Pick := lc_Pick;
  Acquire := lc_Acquire;
  Targets := fun b => upstreamURL <$> targetStates b;
  Strategy := fun _ => "least_connections";
|}.

(** ** The balancer a strategy name stands for *)

Inductive balancer :=
| RoundRobin (b : roundRobinBalancer)
| LeastConnections (b : leastConnectionsBalancer).

#[export] Instance any_Balancer `{Unicode} : Balancer balancer := {|
  Pick := fun http_get b previewOnly =>
    match b with
    | RoundRobin r => let '(u, r') := Pick http_get r previewOnly in (u, RoundRobin r')
    | LeastConnections l => let '(u, l') := Pick http_get l previewOnly in (u, LeastConnections l')
    end;
  Acquire := fun b u =>
    match b with
    | RoundRobin r =>
        let '(r', release) := Acquire r u in
        (RoundRobin r', fun b => match b with RoundRobin r => RoundRobin (release r) | _ => b end)
    | LeastConnections l =>
        let '(l', release) := Acquire l u in
        (LeastConnections l',
         fun b => match b with LeastConnections l => LeastConnections (release l) | _ => b end)
    end;
  Targets := fun b => match b with RoundRobin r => Targets r | LeastConnections l => Targets l end;
  Strategy := fun b => match b with RoundRobin r => Strategy r | LeastConnections l => Strategy l end;
|}.

Definition newBalancer `{Unicode} (strategy : string) (upstreamTargets : list URL)
    (healthChecksEnabled : bool) : balancer :=
  if bool_decide (ToLower (TrimSpace strategy)
                  ∈ ["least_conn"; "lc"; "least-connections"; "least_connections"])
  then LeastConnections (NewLeastConnectionsBalancer upstreamTargets healthChecksEnabled)
  else RoundRobin (NewRoundRobinBalancer upstreamTargets healthChecksEnabled).

(** ** Facts: round robin *)

(** Going [k] steps from [s] stays in the ring of [n] targets: either the counter
    does not wrap, or [n] divides [2^64] and the wrap is harmless. *)
Definition ring_ok (n : nat) (s : Z) (k : nat) : Prop :=
  s + Z.of_nat k <= two64 \/ two64 mod Z.of_nat n = 0.

Lemma wrap_mod n s k j :
  (0 < n)%nat -> 0 <= s -> (j < k)%nat -> ring_ok n s k ->
  wrap_u64 (s + Z.of_nat j) mod Z.of_nat n = (s + Z.of_nat j) mod Z.of_nat n.
Proof.
  intros Hn Hs Hj [Hle|Hdiv].
  - rewrite wrap_u64_small; [done|]. unfold in_u64. lia.
  - unfold wrap_u64. rewrite (Z.mod_eq (s + Z.of_nat j) two64) by (unfold two64; lia).
    apply Z.mod_divide in Hdiv as [q Hq]; [|lia]. rewrite Hq.
    set (t := (s + Z.of_nat j) / (q * Z.of_nat n)).
    replace (s + Z.of_nat j - q * Z.of_nat n * t)
      with (s + Z.of_nat j + (- (q * t)) * Z.of_nat n) by lia.
    apply Z_mod_plus_full.
Qed.

Lemma rr_at_rotate b s k j :
  (0 < length (rr_targets b))%nat -> 0 <= s -> (j < k)%nat ->
  ring_ok (length (rr_targets b)) s k ->
  rr_at b (wrap_u64 (s + Z.of_nat j)) =
  rotate (Z.to_nat s) (rr_targets b) !! (j mod length (rr_targets b))%nat.
Proof.
  intros Hn Hs Hj Hr. unfold rr_at. rewrite (wrap_mod _ _ k) by done.
  rewrite lookup_rotate_r by (apply Nat.mod_upper_bound; lia).
  f_equal. unfold rotate_nat_add.
  rewrite Nat2Z.inj_mod, Z2Nat.id by done.
  by rewrite Zplus_mod_idemp_r.
Qed.

(** [k] consecutive selections. *)
Fixpoint pick_many `{Balancer B} (gs : nat -> Probes) (k : nat) (b : B) : list (option URL) * B :=
  match k with
  | O => ([], b)
  | S k' => let '(u, b') := Pick (gs k) b false in
            let '(us, b'') := pick_many gs k' b' in (u :: us, b'')
  end.

Lemma wrap_u64_succ_pred s : in_u64 s -> wrap_u64 (wrap_u64 (s + 1) - 1) = s.
Proof.
  intros Hs. rewrite <- (wrap_u64_small s Hs) at 2. unfold wrap_u64.
  rewrite Zminus_mod_idemp_l. f_equal. lia.
Qed.

Lemma rr_pick_many gs k b :
  rr_healthChecks b = false -> rr_targets b <> [] -> in_u64 (nextIndex b) ->
  (pick_many gs k b).1 = (fun j => rr_at b (wrap_u64 (nextIndex b + Z.of_nat j))) <$> seq 0 k.
Proof.
  revert b. induction k as [|k IH]; intros b Hc Ht Hs; [done|].
  cbn [pick_many Pick rr_Balancer]. unfold rr_Pick. rewrite Hc. cbn [negb].
  destruct (Nat.eqb_spec (length (rr_targets b)) 0) as [Hz|_]; [by destruct (rr_targets b)|].
  rewrite wrap_u64_succ_pred by done.
  set (b' := mkRR (rr_targets b) (wrap_u64 (nextIndex b + 1)) false).
  specialize (IH b' eq_refl Ht (wrap_u64_range _)).
  destruct (pick_many gs k b') as [us b'']. cbn [fst] in *. rewrite IH.
  cbn [seq fmap list_fmap]. rewrite Z.add_0_r, wrap_u64_small by done. f_equal.
  rewrite <- seq_shift, <- list_fmap_compose. apply list_fmap_ext. intros i j _. cbn.
  unfold rr_at, b'. cbn. rewrite wrap_u64_add_l. do 4 f_equal. lia.
Qed.

(** A window of [k * n] positions of a ring of [n] elements. *)
Lemma ring_window {A} (l : list A) (k : nat) :
  (fun j => l !! (j mod length l)%nat) <$> seq 0 (k * length l) = Some <$> concat (replicate k l).
Proof.
  assert (Hone : forall base, (fun j => l !! (j mod length l)%nat) <$> seq (base * length l) (length l)
                              = Some <$> l).
  { intros base. apply list_eq. intros i. rewrite !list_lookup_fmap.
    destruct (decide (i < length l)%nat) as [Hi|Hi].
    - rewrite lookup_seq_lt by done. cbn.
      rewrite Nat.add_comm, Nat.Div0.mod_add, Nat.mod_small by done.
      destruct (lookup_lt_is_Some_2 l i Hi) as [x Hx]. by rewrite Hx.
    - rewrite lookup_seq_ge by lia. by rewrite (lookup_ge_None_2 l i) by lia. }
  cut (forall base, (fun j => l !! (j mod length l)%nat) <$> seq (base * length l) (k * length l)
                    = Some <$> concat (replicate k l)).
  { intros H. apply (H 0%nat). }
  induction k as [|k IH]; intros base; [done|].
  cbn [Nat.mul replicate concat]. rewrite seq_app, !fmap_app, Hone. f_equal.
  specialize (IH (S base)). cbn [Nat.mul] in IH. by rewrite Nat.add_comm in IH.
Qed.

Lemma concat_replicate_perm {A} (k : nat) (l l' : list A) :
  l ≡ₚ l' -> concat (replicate k l) ≡ₚ concat (replicate k l').
Proof. intros Hp. induction k as [|k IH]; [done|]. cbn. by apply Permutation_app. Qed.

Lemma rotate_perm {A} n (l : list A) : rotate n l ≡ₚ l.
Proof.
  unfold rotate. rewrite Permutation_app_comm. by rewrite take_drop.
Qed.

(** The probing loop returns the first healthy candidate. *)
Fixpoint first_healthy (http_get : Probes) (i : nat) (l : list URL) : option URL :=
  match l with
  | [] => None
  | u :: l' => if isTargetHealthy (http_get i) u then Some u else first_healthy http_get (S i) l'
  end.

Lemma rr_scan_first g b s i left :
  (forall j, (i <= j < i + left)%nat -> is_Some (rr_at b (wrap_u64 (s + Z.of_nat j)))) ->
  rr_scan g b s i left =
  first_healthy g i (omap (fun j => rr_at b (wrap_u64 (s + Z.of_nat j))) (seq i left)).
Proof.
  revert i. induction left as [|left IH]; intros i Hall; [done|]. cbn [rr_scan seq omap list_omap].
  destruct (Hall i ltac:(lia)) as [u Hu]. rewrite Hu. cbn [first_healthy].
  destruct (isTargetHealthy (g i) u); [done|]. apply IH. intros j Hj. apply Hall. lia.
Qed.

Lemma omap_Some_id {A} (l : list A) : omap id (Some <$> l) = l.
Proof. induction l; cbn; by f_equal. Qed.

Lemma omap_as_fmap {A B} (f : A -> option B) (l : list A) : omap f l = omap id (f <$> l).
Proof. induction l as [|x l IH]; cbn; [done|]. destruct (f x); cbn; by rewrite IH. Qed.

Lemma rr_order b s :
  rr_targets b <> [] -> 0 <= s -> ring_ok (length (rr_targets b)) s (length (rr_targets b)) ->
  (fun j => rr_at b (wrap_u64 (s + Z.of_nat j))) <$> seq 0 (length (rr_targets b))
  = Some <$> rotate (Z.to_nat s) (rr_targets b).
Proof.
  intros Ht Hs Hr.
  assert (0 < length (rr_targets b))%nat by (destruct (rr_targets b); [done|cbn; lia]).
  pose proof (ring_window (rotate (Z.to_nat s) (rr_targets b)) 1) as Hw.
  cbn [replicate concat] in Hw. rewrite app_nil_r, Nat.mul_1_l, length_rotate in Hw.
  rewrite <- Hw. apply list_fmap_ext. intros i j [-> Hj]%lookup_seq. cbn.
  by rewrite (rr_at_rotate _ _ (length (rr_targets b))) by (done || lia).
Qed.

(** ** Facts: least connections *)

(** The eligible states with their index and load, in order. *)
Fixpoint lc_eligible (g : Probes) (b : leastConnectionsBalancer) (incl : bool) (i : nat)
    (states : list lcState) : list (nat * Z) :=
  match states with
  | [] => []
  | st :: states' =>
      (if lc_skip g b i st then [] else [(i, lc_load incl st)])
      ++ lc_eligible g b incl (S i) states'
  end.

Definition min_load (m : Z) (el : list (nat * Z)) : Z := foldr (fun p acc => Z.min p.2 acc) m el.
Definition with_load (m : Z) (el : list (nat * Z)) : list nat := (filter (fun p => p.2 = m) el).*1.

Lemma findCandidates_loop_fold g b incl i states acc :
  findCandidates_loop g b incl i states acc =
  foldl (fun acc p => findCandidates_step p.2 p.1 acc) acc (lc_eligible g b incl i states).
Proof.
  revert i acc. induction states as [|st states IH]; intros i acc; [done|]. cbn.
  rewrite IH. by destruct (lc_skip g b i st).
Qed.

Lemma min_load_cons m p el : min_load m (p :: el) = Z.min p.2 (min_load m el).
Proof. done. Qed.

Lemma min_load_le m el : min_load m el <= m.
Proof. induction el as [|p el IH]; [done|]. rewrite min_load_cons. lia. Qed.

Lemma min_load_lower m el p : p ∈ el -> min_load m el <= p.2.
Proof.
  induction el as [|q el IH]; [by intros ?%not_elem_of_nil|].
  rewrite min_load_cons. intros [->|Hp]%elem_of_cons; [lia|]. specialize (IH Hp). lia.
Qed.

Lemma min_load_reached m el :
  min_load m el = m \/ exists p, p ∈ el /\ p.2 = min_load m el.
Proof.
  induction el as [|q el IH]; [by left|]. rewrite min_load_cons.
  destruct (Z.min_spec q.2 (min_load m el)) as [[_ ->]|[_ ->]].
  - right. exists q. split; [by left|done].
  - destruct IH as [IH|(p & Hp & Hq)]; [by left|]. right. exists p. split; [by right|done].
Qed.

Lemma min_load_swap m q el : min_load (Z.min q m) el = Z.min q (min_load m el).
Proof. induction el as [|p el IH]; [done|]. rewrite !min_load_cons, IH. lia. Qed.

Lemma scan_candidates el m c :
  foldl (fun acc p => findCandidates_step p.2 p.1 acc) (m, c) el =
  (min_load m el, (if bool_decide (min_load m el = m) then c else []) ++ with_load (min_load m el) el).
Proof.
  unfold with_load. revert m c. induction el as [|[i q] el IH]; intros m c.
  { cbn. rewrite bool_decide_true by done. by rewrite app_nil_r. }
  cbn [foldl fst snd]. unfold findCandidates_step at 2.
  assert (Hml : min_load m ((i, q) :: el) = Z.min q (min_load m el)) by done. rewrite Hml.
  pose proof (min_load_le m el) as Hle. rewrite filter_cons. cbn [snd].
  destruct (Z.ltb_spec q m) as [Hlt|Hge]; [|destruct (Z.eqb_spec q m) as [->|Hne]].
  - pose proof (min_load_swap m q el) as Hq. rewrite Z.min_l in Hq by lia. rewrite IH, Hq.
    rewrite (bool_decide_false (Z.min q (min_load m el) = m)) by lia.
    rewrite app_nil_l. destruct (decide (q = Z.min q (min_load m el))) as [He|He].
    + rewrite bool_decide_true by lia. done.
    + rewrite bool_decide_false by lia. done.
  - rewrite IH. rewrite Z.min_r by done. destruct (decide (m = min_load m el)) as [He|He].
    + rewrite !bool_decide_true by done. cbn. by rewrite <- app_assoc.
    + rewrite !bool_decide_false by done. done.
  - rewrite IH. rewrite Z.min_r by lia. rewrite decide_False by lia. done.
Qed.

Lemma findCandidates_eq g b incl :
  let el := lc_eligible g b incl 0 (targetStates b) in
  findCandidates g b incl = (with_load (min_load max_i64 el) el,
                             (0 <? length (with_load (min_load max_i64 el) el))%nat).
Proof.
  cbv zeta. unfold findCandidates. rewrite findCandidates_loop_fold, scan_candidates.
  by case_bool_decide.
Qed.

Lemma elem_of_eligible g b incl i states j l :
  (j, l) ∈ lc_eligible g b incl i states <->
  exists st, (i <= j)%nat /\ states !! (j - i)%nat = Some st
             /\ lc_skip g b j st = false /\ l = lc_load incl st.
Proof.
  revert i. induction states as [|st states IH]; intros i; cbn [lc_eligible].
  - rewrite elem_of_nil. split; [done|]. by intros (st & _ & ? & _).
  - rewrite elem_of_app, IH. split.
    + intros [Hin|(st' & Hle & Hst & Hs & Hl)].
      * destruct (lc_skip g b i st) eqn:Hs; [by apply not_elem_of_nil in Hin|].
        apply list_elem_of_singleton in Hin. simplify_eq. exists st.
        by rewrite Nat.sub_diag.
      * exists st'. split; [lia|]. replace (j - i)%nat with (S (j - S i))%nat by lia. done.
    + intros (st' & Hle & Hst & Hs & Hl). destruct (decide (j = i)) as [->|Hne].
      * left. rewrite Nat.sub_diag in Hst. simplify_eq/=. rewrite Hs. by left.
      * right. exists st'. split; [lia|].
        by replace (j - i)%nat with (S (j - S i))%nat in Hst by lia.
Qed.

Lemma eligible_sorted g b incl i states :
  StronglySorted (fun p q : nat * Z => (p.1 < q.1)%nat) (lc_eligible g b incl i states).
Proof.
  revert i. induction states as [|st states IH]; intros i; cbn; [constructor|].
  destruct (lc_skip g b i st); [apply IH|]. cbn. constructor; [apply IH|].
  apply Forall_forall. intros [j l] (st' & Hle & _)%elem_of_eligible. cbn. lia.
Qed.

(** The head of the candidates: least load, first index. *)
Lemma with_load_head el m best rest :
  StronglySorted (fun p q : nat * Z => (p.1 < q.1)%nat) el ->
  with_load m el = best :: rest ->
  (best, m) ∈ el /\ forall j, (j, m) ∈ el -> (best <= j)%nat.
Proof.
  unfold with_load. intros Hs. induction Hs as [|[i q] el Hs IH Hall]; [done|].
  rewrite filter_cons. cbn [snd]. destruct (decide (q = m)) as [->|Hne]; cbn.
  - intros [= -> _]. split; [by left|]. intros j [[= ->]|Hj]%elem_of_cons; [lia|].
    rewrite Forall_forall in Hall. specialize (Hall _ Hj). cbn in Hall. lia.
  - intros Hw. destruct (IH Hw) as [Hin Hmin]. split; [by right|].
    intros j [[= -> ->]|Hj]%elem_of_cons; [done|]. by apply Hmin.
Qed.

Lemma lc_load_max incl st : in_i64 (activeConnections st) -> lc_load incl st <= max_i64.
Proof.
  unfold lc_load. destruct incl.
  - intros _. pose proof (wrap_i64_range (activeConnections st + pendingSelections st)).
    unfold in_i64, max_i64 in *. lia.
  - unfold in_i64, max_i64. lia.
Qed.

(** The counters of a state fit their width. *)
Definition lc_ok (b : leastConnectionsBalancer) : Prop :=
  forall st, st ∈ targetStates b -> in_i64 (activeConnections st) /\ in_i64 (pendingSelections st).

(** The scan finds a candidate exactly when some state is eligible. *)
Lemma candidates_spec g b incl :
  lc_ok b ->
  match findCandidates g b incl with
  | (best :: _, ok) =>
      ok = true /\
      exists st, targetStates b !! best = Some st /\ lc_skip g b best st = false /\
        forall j st', targetStates b !! j = Some st' -> lc_skip g b j st' = false ->
          lc_load incl st <= lc_load incl st' /\
          ((j < best)%nat -> lc_load incl st < lc_load incl st')
  | ([], ok) => ok = false /\ forall j st, targetStates b !! j = Some st -> lc_skip g b j st = true
  end.
Proof.
  intros Hok. rewrite findCandidates_eq. set (el := lc_eligible g b incl 0 (targetStates b)).
  set (m := min_load max_i64 el).
  assert (Hel : forall j st, targetStates b !! j = Some st -> lc_skip g b j st = false ->
                (j, lc_load incl st) ∈ el).
  { intros j st Hj Hs. apply elem_of_eligible. exists st. rewrite Nat.sub_0_r. eauto with lia. }
  destruct (with_load m el) as [|best rest] eqn:Hw.
  - split; [done|]. intros j st Hj. destruct (lc_skip g b j st) eqn:Hs; [done|exfalso].
    pose proof (Hel j st Hj Hs) as Hin.
    assert (Hreach : exists p, p ∈ el /\ p.2 = m).
    { destruct (min_load_reached max_i64 el) as [Hm|(p & Hp & Hq)]; [|by exists p].
      exists (j, lc_load incl st). split; [done|]. cbn.
      pose proof (min_load_lower max_i64 el _ Hin). cbn in *.
      destruct (Hok st) as [Ha _]; [by eapply list_elem_of_lookup_2|].
      pose proof (lc_load_max incl st Ha). unfold m. lia. }
    destruct Hreach as (p & Hp & Hq).
    assert (Hnil : p.1 ∈ with_load m el).
    { apply list_elem_of_fmap. exists p. split; [done|]. by apply list_elem_of_filter. }
    rewrite Hw in Hnil. by apply not_elem_of_nil in Hnil.
  - split; [done|]. destruct (with_load_head el m best rest) as [Hin Hmin];
      [apply eligible_sorted|done|].
    pose proof Hin as (st & _ & Hst & Hs & Hl)%elem_of_eligible. rewrite Nat.sub_0_r in Hst.
    exists st. split_and!; [done|done|]. intros j st' Hj Hs'. pose proof (Hel j st' Hj Hs') as Hin'.
    pose proof (min_load_lower max_i64 el _ Hin') as Hlow. cbn in Hlow. rewrite <- Hl. split; [done|].
    intros Hlt. destruct (decide (lc_load incl st' = m)) as [He|He]; [|unfold m in *; lia].
    rewrite He in Hin'. specialize (Hmin j Hin'). lia.
Qed.

(** ** Facts: upstream identity *)

Lemma sameUpstream_refl `{Unicode} u : sameUpstream (Some u) (Some u) = true.
Proof. unfold sameUpstream. by rewrite !bool_decide_true. Qed.

(** [Acquire] finds the first target of the same upstream. *)
Lemma find_state_spec `{Unicode} u i states :
  match find_state u i states with
  | Some j => exists st, (i <= j)%nat /\ states !! (j - i)%nat = Some st
                         /\ sameUpstream (Some (upstreamURL st)) (Some u) = true
                         /\ forall k st', (k < j - i)%nat -> states !! k = Some st' ->
                              sameUpstream (Some (upstreamURL st')) (Some u) = false
  | None => forall st, st ∈ states -> sameUpstream (Some (upstreamURL st)) (Some u) = false
  end.
Proof.
  revert i. induction states as [|st states IH]; intros i; cbn [find_state].
  { by intros st ?%not_elem_of_nil. }
  destruct (sameUpstream (Some (upstreamURL st)) (Some u)) eqn:Hid.
  - exists st. rewrite Nat.sub_diag. split_and!; [done|done|done|]. intros k st' Hk. lia.
  - specialize (IH (S i)). destruct (find_state u (S i) states) as [j|].
    + destruct IH as (st' & Hle & Hst & Heq & Hall). exists st'.
      replace (j - i)%nat with (S (j - S i))%nat by lia.
      split_and!; [lia|done|done|]. intros [|k] st'' Hk Hl; [by injection Hl as <-|].
      apply (Hall k); [lia|done].
    + intros st' [->|Hin]%elem_of_cons; [done|by apply IH].
Qed.

(** ** What a balancer promises *)

(** [checks] tells whether probes are on, [in_flight] is the connection counter of each
    target and [reserved] the counter of its selections not yet acquired.  [steady] excludes the states from which a scan of the
    targets would cross the wrap-around of a cursor. *)
Class BalancerLaws (B : Type) `{Balancer B} := {
  bal_ok : B -> Prop;
  checks : B -> bool;
  in_flight : B -> list Z;
  reserved : B -> list Z;
  steady : B -> Prop;
  law_preview g b : (Pick g b true).2 = b;
  law_preview_some g b u : bal_ok b -> (Pick g b true).1 = Some u -> u ∈ Targets b;
  law_pick_state g b p : bal_ok b ->
    let b' := (Pick g b p).2 in
    bal_ok b' /\ checks b' = checks b /\ in_flight b' = in_flight b /\ Targets b' = Targets b;
  law_pick_some g b u : bal_ok b -> (Pick g b false).1 = Some u ->
    u ∈ Targets b /\ (checks b = true -> exists n, isTargetHealthy (g n) u = true);
  law_pick_none g b : bal_ok b -> steady b -> (Pick g b false).1 = None ->
    Targets b = [] \/
    (checks b = true /\ forall u, u ∈ Targets b -> exists n, isTargetHealthy (g n) u = false);
  law_pick_refused g b : bal_ok b -> (Pick g b false).1 = None -> reserved (Pick g b false).2 = reserved b;
  law_acquire b u : bal_ok b ->
    let '(b1, release) := Acquire b u in
    bal_ok b1 /\ checks b1 = checks b /\ Targets b1 = Targets b /\
    bal_ok (release b1) /\ checks (release b1) = checks b /\
    Targets (release b1) = Targets b /\ in_flight (release b1) = in_flight b;
}.

(** *** Round robin keeps them *)

Definition rr_ok (b : roundRobinBalancer) : Prop :=
  in_u64 (nextIndex b) /\ Z.of_nat (length (rr_targets b)) < two63.

Lemma rr_at_some b n : rr_targets b <> [] -> exists u, rr_at b n = Some u /\ u ∈ rr_targets b.
Proof.
  intros Ht. unfold rr_at.
  assert (Hn : (0 < length (rr_targets b))%nat) by (destruct (rr_targets b); [done|cbn; lia]).
  pose proof (Z.mod_pos_bound n (Z.of_nat (length (rr_targets b))) ltac:(lia)).
  destruct (lookup_lt_is_Some_2 (rr_targets b) (Z.to_nat (n mod Z.of_nat (length (rr_targets b)))))
    as [u Hu]; [lia|].
  exists u. split; [done|]. by eapply list_elem_of_lookup_2.
Qed.

Lemma rr_scan_some g b s i left u :
  rr_targets b <> [] -> rr_scan g b s i left = Some u ->
  u ∈ rr_targets b /\ exists n, isTargetHealthy (g n) u = true.
Proof.
  intros Ht. revert i. induction left as [|left IH]; intros i; cbn [rr_scan]; [done|].
  destruct (rr_at_some b (wrap_u64 (s + Z.of_nat i)) Ht) as (v & -> & Hv).
  destruct (isTargetHealthy (g i) v) eqn:Hh; [|apply IH]. intros [= ->]. eauto.
Qed.

Lemma rr_first_healthy g b :
  rr_ok b -> rr_healthChecks b = true -> rr_targets b <> [] ->
  ring_ok (length (rr_targets b)) (nextIndex b) (length (rr_targets b)) ->
  (rr_Pick g b false).1 = first_healthy g 0 (rotate (Z.to_nat (nextIndex b)) (rr_targets b)).
Proof.
  intros [Hs _] Hc Ht Hr. unfold rr_Pick. rewrite Hc. cbn [negb].
  destruct (Nat.eqb_spec (length (rr_targets b)) 0) as [Hz|_]; [by destruct (rr_targets b)|].
  rewrite wrap_u64_succ_pred by done. cbn [fst]. rewrite rr_scan_first.
  - rewrite omap_as_fmap, rr_order, omap_Some_id by (done || apply Hs). done.
  - intros j _. destruct (rr_at_some b (wrap_u64 (nextIndex b + Z.of_nat j)) Ht) as (u & -> & _). eauto.
Qed.

Lemma first_healthy_spec g i l :
  match first_healthy g i l with
  | Some u => exists j, l !! j = Some u /\ isTargetHealthy (g (i + j)%nat) u = true
                /\ forall k v, (k < j)%nat -> l !! k = Some v -> isTargetHealthy (g (i + k)%nat) v = false
  | None => forall k v, l !! k = Some v -> isTargetHealthy (g (i + k)%nat) v = false
  end.
Proof.
  revert i. induction l as [|u l IH]; intros i; cbn [first_healthy]; [done|].
  destruct (isTargetHealthy (g i) u) eqn:Hu.
  - exists 0%nat. rewrite Nat.add_0_r. split_and!; [done|done|]. intros k v Hk. lia.
  - specialize (IH (S i)). destruct (first_healthy g (S i) l) as [v|].
    + destruct IH as (j & Hj & Hh & Hall). exists (S j). rewrite Nat.add_succ_r.
      split_and!; [done|done|]. intros [|k] w Hk Hl.
      * injection Hl as <-. by rewrite Nat.add_0_r.
      * rewrite Nat.add_succ_r. apply (Hall k); [lia|done].
    + intros [|k] w Hl; [injection Hl as <-; by rewrite Nat.add_0_r|].
      rewrite Nat.add_succ_r. by apply (IH k).
Qed.

#[export] Program Instance rr_BalancerLaws : BalancerLaws roundRobinBalancer := {|
  bal_ok := rr_ok;
  checks := rr_healthChecks;
  in_flight := fun b => replicate (length (rr_targets b)) 0;
  reserved := fun b => replicate (length (rr_targets b)) 0;
  steady := fun b => ring_ok (length (rr_targets b)) (nextIndex b) (length (rr_targets b));
|}.
Next Obligation. intros g b. cbn. unfold rr_Pick. by destruct (_ =? _)%nat. Qed.
Next Obligation.
  intros g b u _. cbn. unfold rr_Pick.
  destruct (Nat.eqb_spec (length (rr_targets b)) 0) as [Hz|Hz]; [done|]. cbn. intros Hu.
  destruct (rr_at_some b (nextIndex b)) as (v & Hv & Hin); [by intros Ht; rewrite Ht in Hz|].
  rewrite Hu in Hv. by simplify_eq.
Qed.
Next Obligation.
  intros g b p [Hn Hl]. cbn. unfold rr_Pick. destruct (_ =? _)%nat; [done|].
  destruct p; [done|]. destruct (negb _); (split; [split; [apply wrap_u64_range|done]|done]).
Qed.
Next Obligation.
  intros g b u [Hn _]. cbn. unfold rr_Pick.
  destruct (Nat.eqb_spec (length (rr_targets b)) 0) as [Hz|Hz]; [done|].
  assert (Ht : rr_targets b <> []) by (by intros Ht; rewrite Ht in Hz).
  destruct (rr_healthChecks b) eqn:Hc; cbn.
  - intros Hu. apply rr_scan_some in Hu; naive_solver.
  - intros Hu. destruct (rr_at_some b (wrap_u64 (wrap_u64 (nextIndex b + 1) - 1)) Ht) as (v & Hv & Hin).
    rewrite Hu in Hv. by simplify_eq.
Qed.
Next Obligation.
  intros g b Hok Hr Hn. cbn in *. destruct (decide (rr_targets b = [])) as [Ht|Ht]; [by left|right].
  destruct (rr_healthChecks b) eqn:Hc.
  - split; [done|]. rewrite rr_first_healthy in Hn by done.
    pose proof (first_healthy_spec g 0 (rotate (Z.to_nat (nextIndex b)) (rr_targets b))) as Hf.
    rewrite Hn in Hf. intros u Hu. apply (elem_of_rotate _ (Z.to_nat (nextIndex b))) in Hu.
    apply list_elem_of_lookup in Hu as [k Hk]. eauto.
  - exfalso. unfold rr_Pick in Hn. rewrite Hc in Hn.
    destruct (Nat.eqb_spec (length (rr_targets b)) 0) as [Hz|_]; [by destruct (rr_targets b)|].
    cbn in Hn. destruct (rr_at_some b (wrap_u64 (wrap_u64 (nextIndex b + 1) - 1)) Ht) as (u & Hu & _).
    by rewrite Hn in Hu.
Qed.
Next Obligation.
  intros g b _ _. cbn. unfold rr_Pick. destruct (_ =? _)%nat; [done|]. by destruct (negb _).
Qed.
Next Obligation. by intros b u Hok. Qed.

(** *** Least connections keeps them *)

Lemma lookup_on_state i f b j :
  targetStates (on_state i f b) !! j =
  if decide (i = j) then f <$> targetStates b !! j else targetStates b !! j.
Proof.
  cbn. case_decide as Hij; [subst; apply list_lookup_alter_eq|by apply list_lookup_alter_ne].
Qed.

Lemma on_state_ok i f b :
  lc_ok b ->
  (forall st, in_i64 (activeConnections st) /\ in_i64 (pendingSelections st) ->
     in_i64 (activeConnections (f st)) /\ in_i64 (pendingSelections (f st))) ->
  lc_ok (on_state i f b).
Proof.
  intros Hok Hf st [j Hj]%list_elem_of_lookup. rewrite lookup_on_state in Hj.
  case_decide as Hij; [subst i|by eapply Hok, list_elem_of_lookup_2].
  destruct (targetStates b !! j) as [st0|] eqn:Hst; [|done].
  cbn in Hj. injection Hj as <-. by eapply Hf, Hok, list_elem_of_lookup_2.
Qed.

Lemma on_state_proj {A} (p : lcState -> A) i f b :
  (forall st, targetStates b !! i = Some st -> p (f st) = p st) ->
  p <$> targetStates (on_state i f b) = p <$> targetStates b.
Proof.
  intros Hp. apply list_eq. intros j. rewrite !list_lookup_fmap, lookup_on_state.
  case_decide as Hij; [subst i|done]. destruct (targetStates b !! j) eqn:Hj; [|done].
  cbn. by rewrite Hp.
Qed.

Lemma add_pending_ok d st :
  in_i64 (activeConnections st) /\ in_i64 (pendingSelections st) ->
  in_i64 (activeConnections (add_pending d st)) /\ in_i64 (pendingSelections (add_pending d st)).
Proof. intros [Ha _]. split; [done|apply wrap_i64_range]. Qed.
Lemma add_active_ok d st :
  in_i64 (activeConnections st) /\ in_i64 (pendingSelections st) ->
  in_i64 (activeConnections (add_active d st)) /\ in_i64 (pendingSelections (add_active d st)).
Proof. intros [_ Hp]. split; [apply wrap_i64_range|done]. Qed.
#[export] Hint Resolve on_state_ok add_pending_ok add_active_ok : go_ints.

(** What an uninterrupted [Pick] does, in one place. *)
Lemma lc_Pick_spec g b p :
  lc_ok b ->
  match lc_Pick g b p with
  | (Some u, b') =>
      exists i st, targetStates b !! i = Some st /\ upstreamURL st = u /\ lc_skip g b i st = false /\
        b' = (if p then b else on_state i (add_pending 1) b) /\
        forall j st', targetStates b !! j = Some st' -> lc_skip g b j st' = false ->
          lc_load (negb p) st <= lc_load (negb p) st' /\
          ((j < i)%nat -> lc_load (negb p) st < lc_load (negb p) st')
  | (None, b') => b' = b /\ forall j st, targetStates b !! j = Some st -> lc_skip g b j st = true
  end.
Proof.
  intros Hok. unfold lc_Pick.
  destruct (Nat.eqb_spec (length (targetStates b)) 0) as [Hz|Hz].
  { split; [done|]. intros j st Hj. apply length_zero_iff_nil in Hz. by rewrite Hz in Hj. }
  pose proof (candidates_spec g b (negb p) Hok) as Hc. destruct p; cbn [negb] in *.
  - destruct (findCandidates g b false) as [[|best rest] ok].
    + destruct Hc as [-> Hall]. done.
    + destruct Hc as (-> & st & Hst & Hs & Hmin). unfold url_at. rewrite Hst. cbn. eauto 10.
  - destruct (findCandidates g b true) as [[|best rest] ok].
    + destruct Hc as [-> Hall]. destruct (lc_healthChecks b) eqn:Hh; cbn [negb]; [done|].
      unfold url_at. destruct (targetStates b) as [|st0 states] eqn:Hts; [done|]. exfalso.
      specialize (Hall 0%nat st0 eq_refl). unfold lc_skip in Hall. by rewrite Hh in Hall.
    + destruct Hc as (-> & st & Hst & Hs & Hmin). unfold url_at. rewrite Hst. cbn. eauto 10.
Qed.

Section LCLaws.
Context `{U : Unicode}.

Lemma wrap_i64_succ_pred a : in_i64 a -> wrap_i64 (wrap_i64 (a + 1) + -1) = a.
Proof.
  intros Ha. rewrite wrap_i64_add_l. replace (a + 1 + -1) with a by lia. by apply wrap_i64_small.
Qed.

Lemma on_state_twice i f f' b : on_state i f (on_state i f' b) = on_state i (fun st => f (f' st)) b.
Proof.
  unfold on_state. cbn. f_equal. apply list_eq. intros j. destruct (decide (i = j)) as [<-|Hne].
  - rewrite !list_lookup_alter_eq. by destruct (targetStates b !! i).
  - by rewrite !list_lookup_alter_ne.
Qed.

#[export] Program Instance lc_BalancerLaws : BalancerLaws leastConnectionsBalancer := {|
  bal_ok := lc_ok;
  checks := lc_healthChecks;
  in_flight := fun b => activeConnections <$> targetStates b;
  reserved := fun b => pendingSelections <$> targetStates b;
  steady := fun _ => True;
|}.
Next Obligation.
  intros g b. cbn. unfold lc_Pick. destruct (_ =? _)%nat; [done|].
  by destruct (findCandidates g b false) as [[|] []].
Qed.
Next Obligation.
  intros g b u Hok Hu. cbn in *. pose proof (lc_Pick_spec g b true Hok) as Hp.
  destruct (lc_Pick g b true) as [r b']. cbn in Hu. subst r. destruct Hp as (i & st & Hst & <- & _).
  apply list_elem_of_fmap. exists st. split; [done|]. by eapply list_elem_of_lookup_2.
Qed.
Next Obligation.
  intros g b p Hok. cbn. pose proof (lc_Pick_spec g b p Hok) as Hp.
  destruct (lc_Pick g b p) as [[u|] b']; cbn [snd].
  - destruct Hp as (i & st & _ & _ & _ & -> & _). destruct p; [done|].
    split_and!; [eauto with go_ints|done|by apply on_state_proj..].
  - by destruct Hp as [-> _].
Qed.
Next Obligation.
  intros g b u Hok Hu. cbn in *. pose proof (lc_Pick_spec g b false Hok) as Hp.
  destruct (lc_Pick g b false) as [r b']. cbn in Hu. subst r.
  destruct Hp as (i & st & Hst & <- & Hs & _). split.
  - apply list_elem_of_fmap. exists st. split; [done|]. by eapply list_elem_of_lookup_2.
  - intros Hc. exists i. unfold lc_skip in Hs. rewrite Hc in Hs. by apply negb_false_iff in Hs.
Qed.
Next Obligation.
  intros g b Hok _ Hn. cbn in *. pose proof (lc_Pick_spec g b false Hok) as Hp.
  destruct (lc_Pick g b false) as [r b']. cbn in Hn. subst r. destruct Hp as [_ Hall].
  destruct (targetStates b) as [|st0 states] eqn:Hts; [by left|right].
  pose proof (Hall 0%nat st0 eq_refl) as H0. unfold lc_skip in *.
  apply andb_true_iff in H0 as [Hc _]. split; [done|].
  intros u (st & -> & Hin)%list_elem_of_fmap. apply list_elem_of_lookup in Hin as [j Hj].
  exists j. specialize (Hall j st Hj). rewrite Hc in Hall. by apply negb_true_iff in Hall.
Qed.
Next Obligation.
  intros g b Hok Hn. cbn in *. pose proof (lc_Pick_spec g b false Hok) as Hp.
  destruct (lc_Pick g b false) as [r b']. cbn in Hn. subst r. by destruct Hp as [-> _].
Qed.
Next Obligation.
  intros b u Hok. cbn. unfold lc_Acquire. pose proof (find_state_spec u 0 (targetStates b)) as Hf.
  destruct (find_state u 0 (targetStates b)) as [i|]; [|done].
  destruct Hf as (st & _ & Hst & _ & _). rewrite Nat.sub_0_r in Hst.
  pose proof (Hok st ltac:(by eapply list_elem_of_lookup_2)) as [Ha _].
  split_and!; [eauto 10 with go_ints|done| |eauto 10 with go_ints|done| |].
  - by rewrite !on_state_proj.
  - by rewrite !on_state_proj.
  - rewrite on_state_twice, !on_state_proj; [done|done|]. intros st' Hst'.
    rewrite lookup_on_state, decide_True, Hst in Hst' by done. injection Hst' as <-. cbn.
    by apply wrap_i64_succ_pred.
Qed.
End LCLaws.

(** *** And so does the balancer of either strategy *)

Section AnyLaws.
Context `{U : Unicode}.

#[export] Program Instance any_BalancerLaws : BalancerLaws balancer := {|
  bal_ok := fun b => match b with RoundRobin r => bal_ok r | LeastConnections l => bal_ok l end;
  checks := fun b => match b with RoundRobin r => checks r | LeastConnections l => checks l end;
  in_flight := fun b => match b with RoundRobin r => in_flight r | LeastConnections l => in_flight l end;
  reserved := fun b => match b with RoundRobin r => reserved r | LeastConnections l => reserved l end;
  steady := fun b => match b with RoundRobin r => steady r | LeastConnections l => steady l end;
|}.
Next Obligation.
  intros g [r|l]; cbn.
  - pose proof (law_preview g r) as Hl. cbn in Hl. by destruct (rr_Pick g r true); cbn in *; subst.
  - pose proof (law_preview g l) as Hl. cbn in Hl. by destruct (lc_Pick g l true); cbn in *; subst.
Qed.
Next Obligation.
  intros g [r|l] u Hok; cbn.
  - pose proof (law_preview_some g r u Hok) as Hl. cbn in Hl. by destruct (rr_Pick g r true).
  - pose proof (law_preview_some g l u Hok) as Hl. cbn in Hl. by destruct (lc_Pick g l true).
Qed.
Next Obligation.
  intros g [r|l] p Hok; cbn.
  - pose proof (law_pick_state g r p Hok) as Hl. cbn in Hl. by destruct (rr_Pick g r p).
  - pose proof (law_pick_state g l p Hok) as Hl. cbn in Hl. by destruct (lc_Pick g l p).
Qed.
Next Obligation.
  intros g [r|l] u Hok; cbn.
  - pose proof (law_pick_some g r u Hok) as Hl. cbn in Hl. by destruct (rr_Pick g r false).
  - pose proof (law_pick_some g l u Hok) as Hl. cbn in Hl. by destruct (lc_Pick g l false).
Qed.
Next Obligation.
  intros g [r|l] Hok Hs; cbn.
  - pose proof (law_pick_none g r Hok Hs) as Hl. cbn in Hl. by destruct (rr_Pick g r false).
  - pose proof (law_pick_none g l Hok Hs) as Hl. cbn in Hl. by destruct (lc_Pick g l false).
Qed.
Next Obligation.
  intros g [r|l] Hok; cbn.
  - pose proof (law_pick_refused g r Hok) as Hl. cbn in Hl. by destruct (rr_Pick g r false).
  - pose proof (law_pick_refused g l Hok) as Hl. cbn in Hl. by destruct (lc_Pick g l false).
Qed.
Next Obligation.
  intros [r|l] u Hok; cbn; [done|].
  pose proof (law_acquire l u Hok) as Hl. cbn in Hl. by destruct (lc_Acquire l u).
Qed.
End AnyLaws.

Lemma newBalancer_ok `{Unicode} strategy targets hc :
  Z.of_nat (length targets) < two63 -> bal_ok (newBalancer strategy targets hc).
Proof.
  intros Hl. unfold newBalancer. case_bool_decide; cbn.
  - intros st (u & -> & _)%list_elem_of_fmap. cbn. unfold in_i64. unfold two63. lia.
  - split; [|done]. cbn. unfold in_u64, two64. lia.
Qed.

Lemma newBalancer_steady `{Unicode} strategy targets hc :
  Z.of_nat (length targets) < two63 -> steady (newBalancer strategy targets hc).
Proof. intros Hl. unfold newBalancer. case_bool_decide; cbn; [done|]. left. cbn. unfold two63, two64 in *. lia. Qed.

Lemma newBalancer_Targets `{Unicode} strategy targets hc :
  Targets (newBalancer strategy targets hc) = targets.
Proof.
  unfold newBalancer. case_bool_decide; cbn; [|done].
  rewrite <- list_fmap_compose. by rewrite list_fmap_id.
Qed.

(** ** Properties of the balancers *)

(** [C31] Round robin is fair: without health checks, any [k * n] consecutive
    selections over [n] targets return every target exactly [k] times. *)
Theorem rr_fair (b : roundRobinBalancer) (gs : nat -> Probes) (k : nat) :
  rr_ok b -> rr_healthChecks b = false -> rr_targets b <> [] ->
  ring_ok (length (rr_targets b)) (nextIndex b) (k * length (rr_targets b)) ->
  (pick_many gs (k * length (rr_targets b)) b).1 ≡ₚ Some <$> concat (replicate k (rr_targets b)).
Proof.
  intros [Hs _] Hc Ht Hr. rewrite rr_pick_many by done.
  assert (Hn : (0 < length (rr_targets b))%nat) by (destruct (rr_targets b); [done|cbn; lia]).
  transitivity (Some <$> concat (replicate k (rotate (Z.to_nat (nextIndex b)) (rr_targets b)))).
  - rewrite <- ring_window, length_rotate. apply reflexive_eq, list_fmap_ext.
    intros i j [-> Hj]%lookup_seq. cbn. by apply (rr_at_rotate _ _ _ _ Hn (proj1 Hs) Hj).
  - apply fmap_Permutation, concat_replicate_perm, rotate_perm.
Qed.

Definition sample_url (h : string) : URL := mkURL "http" h "" "".
Definition sample_targets : list URL := sample_url <$> ["a"; "b"; "c"].

Lemma rr_fair_witness :
  let b := mkRR sample_targets 1 false in
  (pick_many (fun _ _ _ => None) 6 b).1 ≡ₚ Some <$> concat (replicate 2 sample_targets)
  /\ length (concat (replicate 2 sample_targets)) = 6%nat.
Proof.
  split; [|reflexivity].
  apply (rr_fair (mkRR sample_targets 1 false) (fun _ _ _ => None) 2).
  - split; vm_compute; split; discriminate || reflexivity.
  - reflexivity.
  - discriminate.
  - left. vm_compute. discriminate.
Defined.

(** [C32] With health checks, round robin returns the first target that answers its
    probe with a 2xx or 3xx status, in cyclic order from the cursor, after probing
    every target before it without success; and no target only when all fail. *)
Theorem rr_Pick_failover (g : Probes) (b : roundRobinBalancer) :
  rr_ok b -> rr_healthChecks b = true -> rr_targets b <> [] ->
  ring_ok (length (rr_targets b)) (nextIndex b) (length (rr_targets b)) ->
  let order := rotate (Z.to_nat (nextIndex b)) (rr_targets b) in
  match (rr_Pick g b false).1 with
  | Some u => exists j, order !! j = Some u /\ isTargetHealthy (g j) u = true
                /\ forall k v, (k < j)%nat -> order !! k = Some v -> isTargetHealthy (g k) v = false
  | None => forall k v, order !! k = Some v -> isTargetHealthy (g k) v = false
  end.
Proof.
  intros Hok Hc Ht Hr. cbv zeta. rewrite rr_first_healthy by done.
  apply (first_healthy_spec g 0).
Qed.

Lemma rr_Pick_failover_witness :
  let b := mkRR sample_targets 4 true in
  let g := fun (_ : nat) (u : URL) => if bool_decide (Host u = "a") then Some 204 else Some 503 in
  exists j, rotate 4 sample_targets !! j = Some (sample_url "a") /\ j = 2%nat.
Proof.
  cbv zeta.
  destruct (rr_Pick_failover
    (fun (_ : nat) (u : URL) => if bool_decide (Host u = "a") then Some 204 else Some 503)
    (mkRR sample_targets 4 true)) as (j & Hj & _ & _).
  - split; vm_compute; split; discriminate || reflexivity.
  - reflexivity.
  - discriminate.
  - left. vm_compute. discriminate.
  - exists j. split; [exact Hj|]. destruct j as [|[|[|j]]]; try discriminate Hj. reflexivity.
Defined.

(** Where the cursor wraps around [2^64] and the number of targets does not
    divide it, a scan probes one target twice and another not at all: the only
    healthy target is missed and the request is refused. *)
Theorem rr_wrap_skips :
  let b := mkRR sample_targets (two64 - 1) true in
  let g := fun (_ : nat) (u : URL) => if bool_decide (Host u = "c") then Some 200 else None in
  rr_ok b /\ (rr_Pick g b false).1 = None
  /\ isTargetHealthy (g 0%nat) (sample_url "c") = true /\ sample_url "c" ∈ Targets b.
Proof.
  cbv zeta. split_and!.
  - split; vm_compute; split; discriminate || reflexivity.
  - vm_compute. reflexivity.
  - reflexivity.
  - right. right. left.
Qed.

(** [C33] Least connections selects, among the targets that pass their probe (all of
    them without health checks), one of least active plus reserved connections, the
    first in list order, and reserves a slot on it alone; it selects none only when
    no target passes. *)
Theorem lc_Pick_least (g : Probes) (b : leastConnectionsBalancer) :
  lc_ok b ->
  match lc_Pick g b false with
  | (Some u, b') =>
      exists i st, targetStates b !! i = Some st /\ upstreamURL st = u /\
        (lc_healthChecks b = true -> isTargetHealthy (g i) u = true) /\
        targetStates b' = <[i := add_pending 1 st]> (targetStates b) /\
        forall j st', targetStates b !! j = Some st' ->
          (lc_healthChecks b = true -> isTargetHealthy (g j) (upstreamURL st') = true) ->
          lc_load true st <= lc_load true st' /\ ((j < i)%nat -> lc_load true st < lc_load true st')
  | (None, b') => b' = b /\ forall j st, targetStates b !! j = Some st ->
                    lc_healthChecks b = true /\ isTargetHealthy (g j) (upstreamURL st) = false
  end.
Proof.
  intros Hok. pose proof (lc_Pick_spec g b false Hok) as Hp. unfold lc_skip in Hp.
  destruct (lc_Pick g b false) as [[u|] b'].
  - destruct Hp as (i & st & Hst & <- & Hs & -> & Hmin). exists i, st. split_and!; [done|done| | |].
    + intros Hc. rewrite Hc in Hs. by apply negb_false_iff in Hs.
    + apply list_eq. intros j. rewrite lookup_on_state. case_decide as Hij.
      * subst j. rewrite Hst, list_lookup_insert_eq; [done|]. by eapply lookup_lt_Some.
      * by rewrite list_lookup_insert_ne.
    + intros j st' Hj Hh. apply Hmin; [done|]. destruct (lc_healthChecks b); [|done].
      cbn. by rewrite Hh.
  - destruct Hp as [-> Hall]. split; [done|]. intros j st Hj.
    specialize (Hall j st Hj). apply andb_true_iff in Hall as [Hc Hh].
    split; [done|]. by apply negb_true_iff in Hh.
Qed.

Definition lc_sample : leastConnectionsBalancer :=
  mkLC [mkLcState (sample_url "a") 3 0; mkLcState (sample_url "b") 1 1; mkLcState (sample_url "c") 2 0]
       false.

Lemma lc_Pick_least_witness :
  exists i st, targetStates lc_sample !! i = Some st /\ upstreamURL st = sample_url "b".
Proof.
  assert (Hok : lc_ok lc_sample).
  { intros st Hst. repeat (apply elem_of_cons in Hst as [->|Hst];
      [split; vm_compute; split; discriminate || reflexivity|]).
    by apply not_elem_of_nil in Hst. }
  destruct (lc_Pick_least (fun _ _ => None) lc_sample Hok) as (i & st & H1 & H2 & _).
  exists i, st. split; [exact H1|exact H2].
Defined.

(** A preview never changes a balancer, of either strategy; and without
    health checks it names the target the next selection returns, for round robin
    always and for least connections when no reservation is pending. *)
Theorem preview_names_next `{Unicode} (g g' : Probes) (b : balancer) :
  bal_ok b -> checks b = false ->
  match b with
  | LeastConnections l => forall st, st ∈ targetStates l -> pendingSelections st = 0
  | _ => True
  end ->
  (Pick g b true).2 = b /\ (Pick g b true).1 = (Pick g' b false).1.
Proof.
  intros Hok Hc Hp. split; [apply law_preview|]. destruct b as [r|l]; cbn in *.
  - unfold rr_Pick. destruct (_ =? _)%nat; [done|]. rewrite Hc. cbn.
    destruct Hok as [Hs _]. by rewrite wrap_u64_succ_pred.
  - pose proof (candidates_spec g l false Hok) as H1. pose proof (candidates_spec g' l true Hok) as H2.
    assert (Hskip : forall p j st, lc_skip p l j st = false) by (intros; unfold lc_skip; by rewrite Hc).
    assert (Hload : forall j st, targetStates l !! j = Some st -> lc_load true st = lc_load false st).
    { intros j st Hj%list_elem_of_lookup_2. unfold lc_load. rewrite (Hp st Hj), Z.add_0_r.
      apply wrap_i64_small. by apply Hok. }
    unfold lc_Pick. destruct (_ =? _)%nat; [done|].
    destruct (findCandidates g l false) as [[|i ks] ok], (findCandidates g' l true) as [[|j js] ok'].
    + destruct H1 as [-> Hall]. unfold url_at. rewrite Hc. cbn.
      destruct (targetStates l !! 0%nat) as [st|] eqn:H0; [|done].
      specialize (Hall _ _ H0). by rewrite Hskip in Hall.
    + destruct H1 as [-> Hall], H2 as (-> & st & Hst & _).
      specialize (Hall _ _ Hst). by rewrite Hskip in Hall.
    + destruct H2 as [-> Hall], H1 as (-> & st & Hst & _).
      specialize (Hall _ _ Hst). by rewrite Hskip in Hall.
    + destruct H1 as (-> & st & Hi & _ & Hmin), H2 as (-> & st' & Hj & _ & Hmin').
      cbn. f_equal. specialize (Hmin j st' Hj (Hskip _ _ _)). specialize (Hmin' i st Hi (Hskip _ _ _)).
      rewrite (Hload _ _ Hi), (Hload _ _ Hj) in Hmin'. lia.
Qed.

Lemma preview_names_next_witness :
  (@Pick _ (@any_Balancer ascii_only) (fun _ _ => None)
     (LeastConnections (mkLC (mkLcState (sample_url "a") 1 0 :: targetStates (NewLeastConnectionsBalancer
        sample_targets false)) false)) true).1 = Some (sample_url "a").
Proof.
  set (b := LeastConnections _).
  assert (Hb : @bal_ok _ _ (@any_BalancerLaws ascii_only) b).
  { intros st Hst. repeat (apply elem_of_cons in Hst as [->|Hst];
      [split; vm_compute; split; discriminate || reflexivity|]).
    by apply not_elem_of_nil in Hst. }
  rewrite (proj2 (@preview_names_next ascii_only (fun _ _ => None) (fun _ _ => Some 200) b Hb eq_refl
    ltac:(intros st Hst; repeat (apply elem_of_cons in Hst as [->|Hst]; [reflexivity|]);
          by apply not_elem_of_nil in Hst))).
  reflexivity.
Defined.

(** The balancer built for a strategy name starts idle over the given targets;
    the least-connections names select that strategy whatever their case and
    surrounding space, and every other name, the empty one included, round robin. *)
Theorem newBalancer_strategy `{Unicode} (strategy : string) (targets : list URL) (hc : bool) :
  let b := newBalancer strategy targets hc in
  let lc := ToLower (TrimSpace strategy) ∈ ["least_conn"; "lc"; "least-connections"; "least_connections"] in
  Targets b = targets /\ checks b = hc /\ in_flight b = replicate (length targets) 0
  /\ (Strategy b = "least_connections" <-> lc) /\ (Strategy b = "round_robin" <-> ~ lc).
Proof.
  cbv zeta. split; [apply newBalancer_Targets|].
  unfold newBalancer. case_bool_decide as Hlc; cbn; split_and!; try done.
  rewrite <- list_fmap_compose. clear. induction targets; cbn; [done|by f_equal].
Qed.
