(* ===== verification/BalancerConc.v ===== *)
(** * Interleaved calls of the least-connections balancer

    [leastConnectionsBalancer] of [internal/proxy/balancer.go] as its callers run
    it: each request is a thread that selects a target ([Pick(false)]), converts
    the reservation ([Acquire]) and releases it, and every atomic load, add and
    compare-and-swap is one step that any other thread may precede or follow.  A
    schedule is the list of the threads to run; it also carries what the probe of
    a step answers and whether a thread drops its selection instead of acquiring
    it, as a request that the admission queue refuses does. *)
From S2P Require Import Prelude GoStrings GoNet Balancer.
#[local] Open Scope Z_scope.

Inductive phase :=
| Idle
| Scanning (i : nat) (acc : Z * list nat)             (* at the head of the scan's loop *)
| Loaded (i : nat) (acc : Z * list nat) (active : Z)  (* activeConnections is read *)
| Chosen (best : nat)                                 (* a candidate, pendingSelections not read *)
| Swapping (best : nat) (p : Z)                       (* pendingSelections is read *)
| Picked (best : nat)                                 (* the swap succeeded, Pick returned *)
| Fallback                                            (* Pick returned the first target unreserved *)
| Refused                                             (* Pick returned nil *)
| Dropped (best : nat)                                (* selected, never acquired *)
| Converting (k : nat)                                (* Acquire, between its two additions *)
| Active (k : nat)                                    (* until the release function runs *)
| Finished.

(** What the step's environment decides. *)
Record choice := mkChoice { probe_ok : bool; drop_selection : bool }.

Section Steps.
Context `{U : Unicode}.

(** [Acquire] finds its state: the reservation is taken back there. *)
Definition acquire_first (b : leastConnectionsBalancer) (i : nat) : leastConnectionsBalancer * phase :=
  match url_at b i with
  | Some u =>
      match find_state u 0 (targetStates b) with
      | Some k => (on_state k (add_pending (-1)) b, Converting k)
      | None => (b, Finished)
      end
  | None => (b, Finished)
  end.

(** One step of a thread. *)
Definition advance (d : choice) (b : leastConnectionsBalancer) (ph : phase)
    : leastConnectionsBalancer * phase :=
  match ph with
  | Idle => (b, if (length (targetStates b) =? 0)%nat then Refused else Scanning 0 (max_i64, []))
  | Scanning i acc =>
      match targetStates b !! i with
      | Some st => if lc_healthChecks b && negb (probe_ok d) then (b, Scanning (S i) acc)
                   else (b, Loaded i acc (activeConnections st))
      | None =>
          match acc.2 with
          | best :: _ => (b, Chosen best)
          | [] => (b, if negb (lc_healthChecks b) then Fallback else Refused)
          end
      end
  | Loaded i acc active =>
      match targetStates b !! i with
      | Some st =>
          (b, Scanning (S i) (findCandidates_step (wrap_i64 (active + pendingSelections st)) i acc))
      | None => (b, ph)
      end
  | Chosen best =>
      match targetStates b !! best with
      | Some st => (b, Swapping best (pendingSelections st))
      | None => (b, ph)
      end
  | Swapping best p =>
      match targetStates b !! best with
      | Some st => if pendingSelections st =? p then (on_state best (add_pending 1) b, Picked best)
                   else (b, Scanning 0 (max_i64, []))
      | None => (b, ph)
      end
  | Picked best => if drop_selection d then (b, Dropped best) else acquire_first b best
  | Fallback => if drop_selection d then (b, Finished) else acquire_first b 0
  | Converting k => (on_state k (add_active 1) b, Active k)
  | Active k => (on_state k (add_active (-1)) b, Finished)
  | Refused | Dropped _ | Finished => (b, ph)
  end.

Definition config : Type := leastConnectionsBalancer * list phase.

Definition step_at (c : config) (td : nat * choice) : config :=
  match c.2 !! td.1 with
  | Some ph => let '(b', ph') := advance td.2 c.1 ph in (b', <[td.1 := ph']> c.2)
  | None => c
  end.
Definition run (c : config) (schedule : list (nat * choice)) : config := foldl step_at c schedule.

Definition start (targets : list URL) (hc : bool) (requests : nat) : config :=
  (NewLeastConnectionsBalancer targets hc, replicate requests Idle).
End Steps.

(** ** Counters and threads *)

(** A thread that holds a reservation of state [i], or a connection on it. *)
Definition reserves (i : nat) (ph : phase) : bool :=
  match ph with Picked k | Dropped k => bool_decide (k = i) | _ => false end.
Definition connected (i : nat) (ph : phase) : bool :=
  match ph with Active k => bool_decide (k = i) | _ => false end.

(** No two targets that [Acquire] would take for one another. *)
Definition distinct_upstreams `{Unicode} (targets : list URL) : Prop :=
  forall i j u v, targets !! i = Some u -> targets !! j = Some v -> sameUpstream (Some u) (Some v) = true -> i = j.

(** The state indices in a phase are in range, and without probes a scan that has
    passed a state has a candidate. *)
Definition acc_ok (hc : bool) (n i : nat) (acc : Z * list nat) : Prop :=
  (forall k, k ∈ acc.2 -> (k < n)%nat) /\ (acc.2 = [] -> acc.1 = max_i64) /\ (hc = false -> (0 < i)%nat -> acc.2 <> []).
Definition phase_ok (hc : bool) (n : nat) (ph : phase) : Prop :=
  match ph with
  | Scanning i acc => (0 < n)%nat /\ (i <= n)%nat /\ acc_ok hc n i acc
  | Loaded i acc active => (i < n)%nat /\ acc_ok hc n i acc
  | Chosen k | Swapping k _ | Picked k | Dropped k | Converting k | Active k => (k < n)%nat
  | Fallback => False
  | Refused => hc = true \/ n = 0%nat
  | Idle | Finished => True
  end.

Record conserved `{Unicode} (targets : list URL) (hc : bool) (c : config) : Prop := {
  con_urls : upstreamURL <$> targetStates c.1 = targets;
  con_hc : lc_healthChecks c.1 = hc;
  con_pending i st : targetStates c.1 !! i = Some st ->
    pendingSelections st = wrap_i64 (count_if (reserves i) c.2);
  con_active i st : targetStates c.1 !! i = Some st ->
    activeConnections st = wrap_i64 (count_if (connected i) c.2);
  con_phases : Forall (phase_ok hc (length targets)) c.2;
}.

Lemma acc_ok_step hc n i acc load :
  (i < n)%nat -> load <= max_i64 -> acc_ok hc n i acc -> acc_ok hc n (S i) (findCandidates_step load i acc).
Proof.
  destruct acc as [m cands]. intros Hi Hl (Hr & Hm & Hc). unfold findCandidates_step.
  cbn [fst snd] in *. destruct (Z.ltb_spec load m); [|destruct (Z.eqb_spec load m)];
    repeat split; cbn [fst snd]; try done.
  - intros k ->%list_elem_of_singleton. done.
  - intros k [Hk|Hk%list_elem_of_singleton]%elem_of_app; [by apply Hr|by subst].
  - intros [_ ?]%app_eq_nil. done.
  - intros _ _ [_ ?]%app_eq_nil. done.
  - intros _ _ Hnil. specialize (Hm Hnil). lia.
Qed.

Lemma acc_ok_skip hc n i acc : hc = true -> acc_ok hc n i acc -> acc_ok hc n (S i) acc.
Proof. intros -> (Hr & Hm & Hc). by repeat split. Qed.

Lemma acc_ok_start hc n : acc_ok hc n 0 (max_i64, []).
Proof.
  unfold acc_ok. cbn. split; [by intros k ?%not_elem_of_nil|]. split; [done|lia].
Qed.

Section Conservation.
Context `{U : Unicode} (targets : list URL) (hc : bool).
Hypothesis Hdistinct : distinct_upstreams targets.

Lemma con_length c : conserved targets hc c -> length (targetStates c.1) = length targets.
Proof. intros Hc. rewrite <- (con_urls _ _ _ Hc). by rewrite length_fmap. Qed.

(** Of distinct upstreams, [Acquire] finds the state that was selected. *)
Lemma find_state_distinct c i u :
  conserved targets hc c -> url_at c.1 i = Some u -> find_state u 0 (targetStates c.1) = Some i.
Proof.
  intros Hc Hu. pose proof (find_state_spec u 0 (targetStates c.1)) as Hf.
  unfold url_at in Hu. apply fmap_Some in Hu as (st & Hst & ->).
  destruct (find_state (upstreamURL st) 0 (targetStates c.1)) as [j|].
  - destruct Hf as (st' & _ & Hst' & Hid & _). rewrite Nat.sub_0_r in Hst'. f_equal.
    eapply Hdistinct; [..|exact Hid]; rewrite <- (con_urls _ _ _ Hc), list_lookup_fmap; [by rewrite Hst'|by rewrite Hst].
  - specialize (Hf st (list_elem_of_lookup_2 _ _ _ Hst)). by rewrite sameUpstream_refl in Hf.
Qed.

(** A step that leaves the counters alone and moves thread [t] between phases that
    hold nothing. *)
Lemma conserved_quiet b ths t ph ph' :
  conserved targets hc (b, ths) -> ths !! t = Some ph ->
  (forall i, reserves i ph' = reserves i ph) -> (forall i, connected i ph' = connected i ph) ->
  phase_ok hc (length targets) ph' -> conserved targets hc (b, <[t:=ph']> ths).
Proof.
  intros Hc Ht Hr Ha Hp. destruct Hc as [H1 H2 H3 H4 H5]. cbn [fst snd] in *.
  constructor; cbn [fst snd]; [done|done| | |by apply Forall_insert].
  - intros i st Hi. rewrite (count_if_insert _ _ _ _ _ Ht), Hr, (H3 i st Hi). f_equal. lia.
  - intros i st Hi. rewrite (count_if_insert _ _ _ _ _ Ht), Ha, (H4 i st Hi). f_equal. lia.
Qed.

(** A step that adds [dp] to the reservations and [da] to the connections of state
    [k], as the phases do. *)
Lemma conserved_move b ths t ph ph' k f dp da :
  conserved targets hc (b, ths) -> ths !! t = Some ph ->
  (forall st, upstreamURL (f st) = upstreamURL st) ->
  (forall st n, pendingSelections st = wrap_i64 n -> pendingSelections (f st) = wrap_i64 (n + dp)) ->
  (forall st n, activeConnections st = wrap_i64 n -> activeConnections (f st) = wrap_i64 (n + da)) ->
  (forall i, Z.b2z (reserves i ph') - Z.b2z (reserves i ph) = if decide (k = i) then dp else 0) ->
  (forall i, Z.b2z (connected i ph') - Z.b2z (connected i ph) = if decide (k = i) then da else 0) ->
  phase_ok hc (length targets) ph' -> conserved targets hc (on_state k f b, <[t:=ph']> ths).
Proof.
  intros [H1 H2 H3 H4 H5] Ht Hurl Hfp Hfa Hr Ha Hp. cbn [fst snd] in *.
  constructor; cbn [fst snd]; [|done| | |by apply Forall_insert].
  - by rewrite on_state_proj.
  - intros i st Hi. rewrite (count_if_insert _ _ _ _ _ Ht). specialize (Hr i).
    rewrite lookup_on_state in Hi. case_decide as Hki.
    + apply fmap_Some in Hi as (st0 & Hst0 & ->). rewrite (Hfp _ _ (H3 _ _ Hst0)). f_equal. lia.
    + rewrite (H3 _ _ Hi). f_equal. lia.
  - intros i st Hi. rewrite (count_if_insert _ _ _ _ _ Ht). specialize (Ha i).
    rewrite lookup_on_state in Hi. case_decide as Hki.
    + apply fmap_Some in Hi as (st0 & Hst0 & ->). rewrite (Hfa _ _ (H4 _ _ Hst0)). f_equal. lia.
    + rewrite (H4 _ _ Hi). f_equal. lia.
Qed.

Lemma add_pending_wrap d st n :
  pendingSelections st = wrap_i64 n -> pendingSelections (add_pending d st) = wrap_i64 (n + d).
Proof. intros Hn. cbn. rewrite Hn. apply wrap_i64_add_l. Qed.
Lemma add_active_wrap d st n :
  activeConnections st = wrap_i64 n -> activeConnections (add_active d st) = wrap_i64 (n + d).
Proof. intros Hn. cbn. rewrite Hn. apply wrap_i64_add_l. Qed.
Lemma wrap_add_0 z n : z = wrap_i64 n -> z = wrap_i64 (n + 0).
Proof. by rewrite Z.add_0_r. Qed.

Lemma conserved_step c td : conserved targets hc c -> conserved targets hc (step_at c td).
Proof.
  intros Hc. destruct c as [b ths], td as [t d]. unfold step_at. cbn [fst snd].
  destruct (ths !! t) as [ph|] eqn:Ht; [|done].
  pose proof (con_length _ Hc) as Hlen. pose proof (con_hc _ _ _ Hc) as Hh. cbn [fst] in *.
  pose proof (Forall_lookup_1 _ _ _ _ (con_phases _ _ _ Hc) Ht) as Hok.
  assert (Hin : forall k, (k < length targets)%nat -> exists st, targetStates b !! k = Some st).
  { intros k Hk. apply lookup_lt_is_Some_2. lia. }
  destruct ph as [|i acc|i acc active|best|best p|best| | |best|k|k|]; cbn [advance phase_ok] in *.
  - destruct (Nat.eqb_spec (length (targetStates b)) 0); apply (conserved_quiet _ _ _ Idle); try done; cbn.
    * right. lia.
    * split; [lia|]. split; [lia|apply acc_ok_start].
  - destruct Hok as (Hn & Hi & Hacc).
    destruct (targetStates b !! i) as [st|] eqn:Hst.
    + pose proof (lookup_lt_Some _ _ _ Hst). rewrite Hh.
      destruct (hc && negb (probe_ok d)) eqn:Hsk; apply (conserved_quiet _ _ _ (Scanning i acc)); try done; cbn.
      * split; [done|]. split; [lia|]. apply acc_ok_skip; [|done]. by destruct hc.
      * split; [lia|done].
    + apply lookup_ge_None in Hst. destruct acc as [m cands]. destruct Hacc as (Hr & Hm & Hne). cbn [fst snd] in *.
      destruct cands as [|best rest].
      * apply (conserved_quiet _ _ _ (Scanning i (m, []))); rewrite ?Hh; try done; try by destruct hc.
        destruct hc; cbn; [by left|]. apply (Hne eq_refl); [lia|done].
      * apply (conserved_quiet _ _ _ (Scanning i (m, best :: rest))); try done.
        cbn. apply Hr. by left.
  - destruct Hok as (Hi & Hacc). destruct (Hin i Hi) as [st Hst]. rewrite Hst.
    apply (conserved_quiet _ _ _ (Loaded i acc active)); try done. cbn.
    split; [lia|]. split; [lia|]. apply acc_ok_step; [done| |done].
    pose proof (wrap_i64_range (active + pendingSelections st)). unfold in_i64, max_i64 in *. lia.
  - destruct (Hin best Hok) as [st Hst]. rewrite Hst. by apply (conserved_quiet _ _ _ (Chosen best)).
  - destruct (Hin best Hok) as [st Hst]. rewrite Hst. destruct (_ =? p).
    + apply (conserved_move _ _ _ (Swapping best p) _ _ _ 1 0); try done.
      * apply add_pending_wrap.
      * intros st' n. apply wrap_add_0.
      * intros i. cbn. case_bool_decide; case_decide; done.
      * intros i. cbn. by case_decide.
    + apply (conserved_quiet _ _ _ (Swapping best p)); try done. cbn.
      split; [lia|]. split; [lia|apply acc_ok_start].
  - destruct (drop_selection d); [by apply (conserved_quiet _ _ _ (Picked best))|].
    destruct (Hin best Hok) as [st Hst]. unfold acquire_first, url_at. rewrite Hst. cbn [fmap option_fmap option_map].
    rewrite (find_state_distinct (b, ths) best) by (try done; unfold url_at; cbn; by rewrite Hst).
    apply (conserved_move _ _ _ (Picked best) _ _ _ (-1) 0); try done.
    * apply add_pending_wrap.
    * intros st' n. apply wrap_add_0.
    * intros i. cbn. case_bool_decide; case_decide; done.
    * intros i. cbn. by case_decide.
  - done.
  - by apply (conserved_quiet _ _ _ Refused).
  - by apply (conserved_quiet _ _ _ (Dropped best)).
  - apply (conserved_move _ _ _ (Converting k) _ _ _ 0 1); try done.
    * intros st' n. apply wrap_add_0.
    * apply add_active_wrap.
    * intros i. cbn. by case_decide.
    * intros i. cbn. case_bool_decide; case_decide; done.
  - apply (conserved_move _ _ _ (Active k) _ _ _ 0 (-1)); try done.
    * intros st' n. apply wrap_add_0.
    * apply add_active_wrap.
    * intros i. cbn. by case_decide.
    * intros i. cbn. case_bool_decide; case_decide; done.
  - by apply (conserved_quiet _ _ _ Finished).
Qed.

Lemma conserved_run c schedule : conserved targets hc c -> conserved targets hc (run c schedule).
Proof.
  revert c. induction schedule as [|td schedule IH]; intros c Hc; [done|].
  cbn [run foldl]. by apply IH, conserved_step.
Qed.

Lemma conserved_start requests : conserved targets hc (start targets hc requests).
Proof.
  constructor; cbn [start fst snd].
  - cbn. rewrite <- list_fmap_compose. by rewrite list_fmap_id.
  - done.
  - intros i st Hi. rewrite count_if_replicate by done. cbn in Hi.
    rewrite list_lookup_fmap in Hi. apply fmap_Some in Hi as (u & _ & ->). done.
  - intros i st Hi. rewrite count_if_replicate by done. cbn in Hi.
    rewrite list_lookup_fmap in Hi. apply fmap_Some in Hi as (u & _ & ->). done.
  - by apply Forall_replicate.
Qed.
End Conservation.

(** ** A selection that is not interrupted *)

Section Solo.
Context `{U : Unicode} (g : Probes) (b : leastConnectionsBalancer) (t : nat) (ths : list phase).
Hypothesis Ht : (t < length ths)%nat.

Definition answer (ok : bool) : nat * choice := (t, mkChoice ok false).

(** The steps of thread [t] over the states from [i] on: a probe that fails is one
    step, and one that passes is followed by the loads of the two counters. *)
Fixpoint scan_schedule (i : nat) (states : list lcState) : list (nat * choice) :=
  match states with
  | [] => []
  | st :: states' => (if lc_skip g b i st then [answer false] else [answer true; answer true])
                     ++ scan_schedule (S i) states'
  end.
Definition solo_schedule : list (nat * choice) :=
  answer true :: scan_schedule 0 (targetStates b) ++ [answer true; answer true; answer true].

Definition at_phase (ph : phase) : config := (b, <[t := ph]> ths).

Lemma run_app c s1 s2 : run c (s1 ++ s2) = run (run c s1) s2.
Proof. apply foldl_app. Qed.

Lemma step_solo ph ok b' ph' :
  advance (mkChoice ok false) b ph = (b', ph') ->
  step_at (at_phase ph) (answer ok) = (b', <[t := ph']> ths).
Proof.
  intros Ha. unfold step_at, at_phase. cbn [fst snd answer].
  rewrite list_lookup_insert_eq, Ha by done. by rewrite list_insert_insert_eq.
Qed.

Lemma step_quiet ph ok ph' :
  advance (mkChoice ok false) b ph = (b, ph') -> step_at (at_phase ph) (answer ok) = at_phase ph'.
Proof. apply step_solo. Qed.

Lemma run_cons c td s : run c (td :: s) = run (step_at c td) s.
Proof. done. Qed.

Lemma lookup_suffix i st states : drop i (targetStates b) = st :: states ->
  targetStates b !! i = Some st /\ drop (S i) (targetStates b) = states.
Proof.
  intros Hd. split.
  - by rewrite <- (Nat.add_0_r i), <- lookup_drop, Hd.
  - by rewrite <- Nat.add_1_r, <- drop_drop, Hd.
Qed.

Lemma scan_solo i states acc :
  drop i (targetStates b) = states ->
  run (at_phase (Scanning i acc)) (scan_schedule i states) =
  at_phase (Scanning (i + length states) (findCandidates_loop g b true i states acc)).
Proof.
  revert i acc. induction states as [|st states IH]; intros i acc Hd.
  { cbn. by rewrite Nat.add_0_r. }
  apply lookup_suffix in Hd as [Hst Hd]. cbn [scan_schedule findCandidates_loop length].
  rewrite run_app, Nat.add_succ_r. change (S (i + length states)) with (S i + length states)%nat.
  unfold lc_load. destruct (lc_skip g b i st) eqn:Hs; cbn [app]; rewrite !run_cons; unfold lc_skip in Hs.
  - apply andb_true_iff in Hs as [Hh _]. rewrite (step_quiet _ _ (Scanning (S i) acc)); [by apply IH|].
    cbn. by rewrite Hst, Hh.
  - rewrite (step_quiet _ _ (Loaded i acc (activeConnections st)))
      by (cbn; by rewrite Hst, andb_false_r).
    rewrite (step_quiet _ _ (Scanning (S i) (findCandidates_step
      (wrap_i64 (activeConnections st + pendingSelections st)) i acc))) by (cbn; by rewrite Hst).
    by apply IH.
Qed.

(** [lc_Pick] is what an uninterrupted thread does. *)
Lemma solo_pick :
  lc_ok b ->
  match lc_Pick g b false with
  | (Some u, b') =>
      exists best, run (at_phase Idle) solo_schedule = (b', <[t := Picked best]> ths) /\ url_at b best = Some u
  | (None, b') => run (at_phase Idle) solo_schedule = (b', <[t := Refused]> ths)
  end.
Proof.
  intros Hok. unfold lc_Pick, solo_schedule. rewrite run_cons.
  destruct (Nat.eqb_spec (length (targetStates b)) 0) as [Hz|Hz].
  { apply length_zero_iff_nil in Hz. rewrite Hz. cbn [app scan_schedule].
    rewrite (step_quiet _ _ Refused) by (cbn; by rewrite Hz).
    rewrite !run_cons, !(step_quiet _ _ Refused) by done. done. }
  rewrite (step_quiet _ _ (Scanning 0 (max_i64, []))) by (cbn; by destruct (Nat.eqb_spec (length (targetStates b)) 0)).
  rewrite run_app, scan_solo by done. cbn [Nat.add].
  pose proof (candidates_spec g b true Hok) as Hc. unfold findCandidates in *.
  destruct (findCandidates_loop g b true 0 (targetStates b) (max_i64, [])) as [m cands].
  assert (Hend : targetStates b !! length (targetStates b) = None) by (by apply lookup_ge_None).
  destruct cands as [|best rest].
  - destruct Hc as [_ Hall].
    assert (Hh : lc_healthChecks b = true).
    { destruct (targetStates b) as [|st states] eqn:Hts; [done|].
      specialize (Hall 0%nat st eq_refl). unfold lc_skip in Hall. by apply andb_true_iff in Hall as [? _]. }
    rewrite Hh. cbn [negb]. rewrite !run_cons.
    rewrite (step_quiet _ _ Refused) by (cbn; by rewrite Hend, Hh).
    by rewrite !(step_quiet _ _ Refused) by done.
  - destruct Hc as (_ & st & Hst & _). unfold url_at. rewrite Hst. cbn [Nat.ltb length Nat.leb].
    exists best. split; [|by rewrite Hst]. rewrite !run_cons.
    rewrite (step_quiet _ _ (Chosen best)) by (cbn; by rewrite Hend).
    rewrite (step_quiet _ _ (Swapping best (pendingSelections st))) by (cbn; by rewrite Hst).
    rewrite (step_solo _ _ (on_state best (add_pending 1) b) (Picked best)); [done|].
    cbn. by rewrite Hst, Z.eqb_refl.
Qed.
End Solo.

(** ** Properties *)

(** [C34] Conservation: over targets of which no two have the same scheme, host name and
    port, whatever the interleaving of the requests (fewer than [2^63]), the probes and
    the refusals, each target's [pendingSelections] counts the requests that selected it
    and have not acquired it, and [activeConnections] the requests connected to it; no
    request is ever given a target without a reservation. *)
Theorem lc_conservation `{Unicode} (targets : list URL) (hc : bool) (requests : nat)
    (schedule : list (nat * choice)) :
  distinct_upstreams targets -> Z.of_nat requests < two63 ->
  let c := run (start targets hc requests) schedule in
  (forall i st, targetStates c.1 !! i = Some st ->
     pendingSelections st = count_if (reserves i) c.2 /\ activeConnections st = count_if (connected i) c.2)
  /\ Fallback ∉ c.2.
Proof.
  intros Hd Hn. cbv zeta.
  pose proof (conserved_run targets hc Hd _ schedule (conserved_start targets hc requests)) as Hc.
  assert (Hlen : length (run (start targets hc requests) schedule).2 = requests).
  { clear. rewrite <- (length_replicate requests Idle) at 2.
    change (replicate requests Idle) with (start targets hc requests).2.
    generalize (start targets hc requests) as c. induction schedule as [|td s IH]; intros c; [done|].
    rewrite run_cons, IH. unfold step_at. destruct (c.2 !! td.1); [|done].
    destruct (advance _ _ _). cbn [snd]. by rewrite length_insert. }
  assert (Hsmall : forall P, wrap_i64 (count_if P (run (start targets hc requests) schedule).2)
                  = count_if P (run (start targets hc requests) schedule).2).
  { intros P. apply wrap_i64_small. unfold in_i64.
    pose proof (count_if_bound P (run (start targets hc requests) schedule).2). unfold two63 in *. lia. }
  split.
  - intros i st Hi. rewrite <- (Hsmall (reserves i)), <- (Hsmall (connected i)).
    split; [exact (con_pending _ _ _ Hc i st Hi)|exact (con_active _ _ _ Hc i st Hi)].
  - intros Hin. pose proof (con_phases _ _ _ Hc) as Hp. rewrite Forall_forall in Hp.
    exact (Hp _ Hin).
Qed.

(** [lc_Pick] refines the steps: a request that no other interrupts selects the
    same target and leaves the same counters as the uninterrupted [Pick], without a
    turn of the retry loop. *)
Theorem lc_Pick_solo `{Unicode} (g : Probes) (b : leastConnectionsBalancer) (t : nat) (ths : list phase) :
  lc_ok b -> ths !! t = Some Idle ->
  match lc_Pick g b false with
  | (Some u, b') =>
      exists best, run (b, ths) (solo_schedule g b t) = (b', <[t := Picked best]> ths) /\ url_at b best = Some u
  | (None, b') => run (b, ths) (solo_schedule g b t) = (b', <[t := Refused]> ths)
  end.
Proof.
  intros Hok Ht. pose proof (solo_pick g b t ths ltac:(by eapply lookup_lt_Some) Hok) as Hs.
  unfold at_phase in Hs. by rewrite (list_insert_id _ _ _ Ht) in Hs.
Qed.

Definition two_targets : list URL := sample_url <$> ["a"; "b"].
Definition turns (t n : nat) : list (nat * choice) := replicate n (t, mkChoice true false).

Lemma lc_conservation_witness :
  let c := @run ascii_only (start two_targets false 2) (turns 0 8 ++ turns 1 9) in
  c.2 = [Picked 0; Converting 1]
  /\ (forall i st, targetStates c.1 !! i = Some st -> pendingSelections st = count_if (reserves i) c.2).
Proof.
  cbv zeta. split; [vm_compute; reflexivity|]. intros i st Hi.
  refine (proj1 (proj1 (@lc_conservation ascii_only two_targets false 2 (turns 0 8 ++ turns 1 9) _ _) i st Hi)).
  - intros [|[|i']] [|[|j]] u v Hu Hv Hs; try reflexivity; try discriminate Hu; try discriminate Hv;
      injection Hu as <-; injection Hv as <-; vm_compute in Hs; discriminate Hs.
  - vm_compute. reflexivity.
Defined.

Lemma lc_Pick_solo_witness :
  @run ascii_only (lc_sample, [Idle; Finished]) (solo_schedule (fun _ _ => None) lc_sample 0)
  = (on_state 1 (add_pending 1) lc_sample, [Picked 1; Finished]).
Proof.
  assert (Hok : lc_ok lc_sample).
  { intros st Hst. repeat (apply elem_of_cons in Hst as [->|Hst];
      [split; vm_compute; split; discriminate || reflexivity|]).
    by apply not_elem_of_nil in Hst. }
  destruct (@lc_Pick_solo ascii_only (fun _ _ => None) lc_sample 0 [Idle; Finished] Hok eq_refl)
    as (best & Hrun & Hurl).
  rewrite Hrun. destruct best as [|[|[|best]]]; try discriminate Hurl. reflexivity.
Defined.

(** [C35] The reservation does not prevent double picks: two concurrent requests over
    two idle targets can both be given the first one, because the compare-and-swap
    only detects a change since its own load, not since the scan that chose the
    target. *)
Theorem lc_double_pick `{Unicode} :
  exists schedule,
    let c := run (start two_targets false 2) schedule in
    c.2 = [Picked 0; Picked 0]
    /\ (pendingSelections <$> targetStates c.1) = [2; 0]
    /\ (activeConnections <$> targetStates c.1) = [0; 0].
Proof.
  exists (turns 0 6 ++ turns 1 6 ++ turns 0 2 ++ turns 1 2). vm_compute. done.
Qed.

(** Two upstreams of the same host, told apart by their paths. *)
Definition same_host_targets : list URL :=
  [mkURL "http" "h:80" "/a" ""; mkURL "http" "h:80" "/b" ""].

(** [C36] Targets of one host with different paths are one upstream to [Acquire] and two
    to [Pick]: after every request has finished, the second target keeps a reservation
    that nobody holds and the first a negative one. *)
Theorem lc_same_host_leak :
  exists schedule,
    let c := @run ascii_only (start same_host_targets false 3) schedule in
    Forall (fun ph => ph = Finished) c.2
    /\ (pendingSelections <$> targetStates c.1) = [-1; 1]
    /\ (activeConnections <$> targetStates c.1) = [0; 0].
Proof.
  exists (turns 0 10 ++ turns 1 12 ++ turns 2 12 ++ turns 0 2). vm_compute.
  split; [|done]. repeat constructor.
Qed.
