(* ===== verification/Sha256.v ===== *)
(** * SHA-256 and hexadecimal

    [crypto/sha256.Sum256] and [encoding/hex.EncodeToString], which the proxy uses
    to put a request's body into its cache key.  32-bit words are [Z] below [2^32]. *)
From S2P Require Import Prelude GoStrings.
#[local] Open Scope Z_scope.

Definition w32 (z : Z) : Z := z mod 4294967296.
Definition rotr (n x : Z) : Z := Z.lor (Z.shiftr x n) (w32 (Z.shiftl x (32 - n))).

Definition ch (x y z : Z) : Z := Z.lxor (Z.land x y) (Z.land (Z.lxor x 4294967295) z).
Definition maj (x y z : Z) : Z := Z.lxor (Z.lxor (Z.land x y) (Z.land x z)) (Z.land y z).
Definition big_sigma0 (x : Z) : Z := Z.lxor (Z.lxor (rotr 2 x) (rotr 13 x)) (rotr 22 x).
Definition big_sigma1 (x : Z) : Z := Z.lxor (Z.lxor (rotr 6 x) (rotr 11 x)) (rotr 25 x).
Definition sigma0 (x : Z) : Z := Z.lxor (Z.lxor (rotr 7 x) (rotr 18 x)) (Z.shiftr x 3).
Definition sigma1 (x : Z) : Z := Z.lxor (Z.lxor (rotr 17 x) (rotr 19 x)) (Z.shiftr x 10).

(** The constants are the first 32 bits of the fractional parts of the square roots
    (initial digest, 8 primes) and cube roots (round constants, 64 primes). *)
Definition is_prime (n : nat) : bool :=
  forallb (fun d => negb (n mod d =? 0)%nat) (seq 2 (n - 2)).
Definition primes : list Z := Z.of_nat <$> List.filter is_prime (seq 2 310).

(** The largest [r] with [r ^ k <= n], by bisection of [lo, lo + 2 ^ bits). *)
Fixpoint root (k n : Z) (bits : nat) (lo : Z) : Z :=
  match bits with
  | O => lo
  | S bits' => let mid := lo + 2 ^ Z.of_nat bits' in
               root k n bits' (if mid ^ k <=? n then mid else lo)
  end.
Definition root_fraction (k p : Z) : Z := w32 (root k (p * 2 ^ (32 * k)) 40 0).

Definition round_constants : list Z := Eval vm_compute in root_fraction 3 <$> primes.

Record digest := mkDigest { dA : Z; dB : Z; dC : Z; dD : Z; dE : Z; dF : Z; dG : Z; dH : Z }.

Definition digest_of (l : list Z) : digest :=
  match l with
  | [a; b; c; d; e; f; g; h] => mkDigest a b c d e f g h
  | _ => mkDigest 0 0 0 0 0 0 0 0
  end.
Definition initial_digest : digest := Eval vm_compute in digest_of (root_fraction 2 <$> take 8 primes).

(** The big-endian bytes of a number, and back. *)
Fixpoint be_bytes (n : nat) (z : Z) : list ascii :=
  match n with
  | O => []
  | S n' => byte (Z.to_N (Z.shiftr z (8 * Z.of_nat n') mod 256)) :: be_bytes n' z
  end.
Definition be_val (l : list ascii) : Z := foldl (fun acc c => acc * 256 + Z.of_N (code c)) 0 l.

(** One bit, zeros up to 8 bytes before a multiple of 64, and the length in bits. *)
Definition pad (l : list ascii) : list ascii :=
  let n := length l in
  let zeros := ((119 - n mod 64) mod 64)%nat in
  l ++ byte 128 :: replicate zeros (byte 0) ++ be_bytes 8 (8 * Z.of_nat n).

Fixpoint chunks (n fuel : nat) (l : list ascii) : list (list ascii) :=
  match fuel, l with
  | S fuel', _ :: _ => take n l :: chunks n fuel' (drop n l)
  | _, _ => []
  end.

(** The message schedule: words in reverse order, 48 added to the first 16. *)
Definition next_word (ws : list Z) : Z :=
  match ws !! 1%nat, ws !! 6%nat, ws !! 14%nat, ws !! 15%nat with
  | Some w2, Some w7, Some w15, Some w16 => w32 (sigma1 w2 + w7 + sigma0 w15 + w16)
  | _, _, _, _ => 0
  end.
Fixpoint extend_words (n : nat) (ws : list Z) : list Z :=
  match n with O => ws | S n' => extend_words n' (next_word ws :: ws) end.
Definition schedule (block : list ascii) : list Z :=
  rev (extend_words 48 (rev (be_val <$> chunks 4 16 block))).

Definition round (d : digest) (kw : Z * Z) : digest :=
  let t1 := w32 (dH d + big_sigma1 (dE d) + ch (dE d) (dF d) (dG d) + kw.1 + kw.2) in
  let t2 := w32 (big_sigma0 (dA d) + maj (dA d) (dB d) (dC d)) in
  mkDigest (w32 (t1 + t2)) (dA d) (dB d) (dC d) (w32 (dD d + t1)) (dE d) (dF d) (dG d).

Definition compress (d : digest) (block : list ascii) : digest :=
  let e := foldl round d (zip round_constants (schedule block)) in
  mkDigest (w32 (dA d + dA e)) (w32 (dB d + dB e)) (w32 (dC d + dC e)) (w32 (dD d + dD e))
           (w32 (dE d + dE e)) (w32 (dF d + dF e)) (w32 (dG d + dG e)) (w32 (dH d + dH e)).

Definition Sum256 (data : string) : list ascii :=
  let padded := pad (bytes data) in
  let d := foldl compress initial_digest (chunks 64 (length padded) padded) in
  concat (be_bytes 4 <$> [dA d; dB d; dC d; dD d; dE d; dF d; dG d; dH d]).

Definition hex_digit (n : N) : ascii := if (n <? 10)%N then byte (48 + n) else byte (87 + n).
Definition EncodeToString (l : list ascii) : string :=
  str (l ≫= fun c => [hex_digit (code c / 16); hex_digit (code c mod 16)]).

Example sha256_abc : EncodeToString (Sum256 "abc")
  = "ba7816bf8f01cfea414140de5dae2223b00361a396177a9cb410ff61f20015ad".
Proof. vm_compute. reflexivity. Qed.
Example sha256_two_blocks :
  EncodeToString (Sum256 "abcdbcdecdefdefgefghfghighijhijkijkljklmklmnlmnomnopnopq")
  = "248d6a61d20638b8e5c026930c3e6039a33ce45964ff2167f6ecedd419db06c1".
Proof. vm_compute. reflexivity. Qed.

Example constants_ok : length round_constants = 64%nat /\ round_constants !! 63%nat = Some 0xc67178f2.
Proof. vm_compute. done. Qed.

Lemma be_bytes_length n z : length (be_bytes n z) = n.
Proof. induction n as [|n IH]; cbn; [done|by rewrite IH]. Qed.

Lemma Sum256_length data : length (Sum256 data) = 32%nat.
Proof.
  unfold Sum256. cbn [fmap list_fmap concat]. by rewrite !length_app, !be_bytes_length.
Qed.

(** The hash of a body is 64 hexadecimal digits. *)
Lemma hash_length data : str_len (EncodeToString (Sum256 data)) = 64.
Proof.
  unfold str_len, EncodeToString. rewrite bytes_str.
  assert (Hl : forall l : list ascii, length (l ≫= fun c => [hex_digit (code c / 16); hex_digit (code c mod 16)])
               = (2 * length l)%nat).
  { induction l as [|c l IH]; [done|]. cbn [mbind list_bind app length] in *. lia. }
  by rewrite Hl, Sum256_length.
Qed.
