(* ===== verification/Metrics.v ===== *)
(** * Metrics

    [internal/metrics/metrics.go].  The Prometheus client library is not part of
    the project: a metric is its registered name, and a helper is the sequence of
    calls it makes on the library, kept in a trace with the oldest call first. *)
From S2P Require Import Prelude GoStrings GoTime.
From Stdlib Require Import SpecFloat.
#[local] Open Scope Z_scope.

(** ** The registered metrics *)

Inductive kind := Counter | Gauge | Histogram.

Record Metric := mkMetric { m_kind : kind; m_name : string; m_labels : list string }.

Definition proxyRequestsTotal : Metric := mkMetric Counter "proxy_requests_total" ["method"; "status"; "cache"].
Definition proxyReqDuration : Metric := mkMetric Histogram "proxy_request_duration_seconds" ["method"; "cache"].
Definition proxyUpstreamInflight : Metric := mkMetric Gauge "proxy_upstream_inflight" ["upstream"].
Definition queueDepth : Metric := mkMetric Gauge "proxy_queue_depth" [].
Definition queueRejected : Metric := mkMetric Counter "proxy_queue_rejected_total" [].
Definition queueTimeouts : Metric := mkMetric Counter "proxy_queue_timeouts_total" [].
Definition queueWait : Metric := mkMetric Histogram "proxy_queue_wait_seconds" [].
Definition proxyUpstreamRequestsTotal : Metric :=
  mkMetric Counter "proxy_upstream_requests_total" ["upstream"; "method"; "status"].
Definition proxyUpstreamReqDuration : Metric :=
  mkMetric Histogram "proxy_upstream_request_duration_seconds" ["upstream"; "method"].
Definition upRequestsTotal : Metric := mkMetric Counter "upstream_requests_total" ["method"; "status"].
Definition upRequestDuration : Metric := mkMetric Histogram "upstream_request_duration_seconds" ["method"].
Definition upInflight : Metric := mkMetric Gauge "upstream_inflight" [].

(** [init]: what is handed to [MustRegister], which panics on a repeated name. *)
Definition registered : list Metric :=
  [proxyRequestsTotal; proxyReqDuration; proxyUpstreamInflight; queueDepth; queueRejected;
   queueTimeouts; queueWait; upRequestsTotal; upRequestDuration; upInflight;
   proxyUpstreamRequestsTotal; proxyUpstreamReqDuration].

(** ** Calls on the library *)

Inductive Call :=
| Inc (m : Metric) (labels : list string)
| Dec (m : Metric) (labels : list string)
| Observe (m : Metric) (labels : list string) (v : spec_float)
| GaugeSet (m : Metric) (v : spec_float).

Definition normCacheLabel (v : string) : string := if bool_decide (v = "") then "BYPASS" else v.

Definition ObserveProxyResponse (method : string) (status : Z) (cache : string) (dur : Z) : list Call :=
  let cache := normCacheLabel cache in
  [Inc proxyRequestsTotal [method; Itoa status; cache];
   Observe proxyReqDuration [method; cache] (Seconds dur)].

Definition ObserveProxyUpstreamResponse (upstream method : string) (status dur : Z) : list Call :=
  let upstream := if bool_decide (upstream = "") then "unknown" else upstream in
  [Inc proxyUpstreamRequestsTotal [upstream; method; Itoa status];
   Observe proxyUpstreamReqDuration [upstream; method] (Seconds dur)].

Definition IncProxyUpstreamInflight (host : string) : list Call := [Inc proxyUpstreamInflight [host]].
Definition DecProxyUpstreamInflight (host : string) : list Call := [Dec proxyUpstreamInflight [host]].
Definition QueueRejectedInc : list Call := [Inc queueRejected []].
Definition QueueTimeoutsInc : list Call := [Inc queueTimeouts []].
Definition QueueWaitObserve (d : Z) : list Call := [Observe queueWait [] (Seconds d)].
Definition QueueDepthSet (depth : Z) : list Call := [GaugeSet queueDepth (f64_of_Z depth)].

Definition UpstreamInflightInc : list Call := [Inc upInflight []].
Definition UpstreamInflightDec : list Call := [Dec upInflight []].
Definition ObserveUpstreamResponse (method : string) (status dur : Z) : list Call :=
  [Inc upRequestsTotal [method; Itoa status]; Observe upRequestDuration [method] (Seconds dur)].

(** ** Reading a trace *)

#[export] Instance kind_eq_dec : EqDecision kind.
Proof. solve_decision. Defined.
#[export] Instance Metric_eq_dec : EqDecision Metric.
Proof. solve_decision. Defined.

(** Increments less decrements of one series. *)
Definition call_delta (m : Metric) (labels : list string) (c : Call) : Z :=
  match c with
  | Inc m' l => if bool_decide (m' = m /\ l = labels) then 1 else 0
  | Dec m' l => if bool_decide (m' = m /\ l = labels) then -1 else 0
  | _ => 0
  end.
Definition level (m : Metric) (labels : list string) (t : list Call) : Z :=
  foldr (fun c n => call_delta m labels c + n) 0 t.

#[global] Arguments level m labels t : simpl never.

(** How often a metric was incremented, over all its series. *)
Definition incs (m : Metric) (t : list Call) : Z :=
  count_if (fun c => match c with Inc m' _ => bool_decide (m' = m) | _ => false end) t.

Lemma level_app m l t1 t2 : level m l (t1 ++ t2) = level m l t1 + level m l t2.
Proof. induction t1 as [|c t1 IH]; [done|]. cbn [app]. unfold level in *. cbn. lia. Qed.

Lemma incs_app m t1 t2 : incs m (t1 ++ t2) = incs m t1 + incs m t2.
Proof. apply count_if_app. Qed.

#[global] Arguments incs m t : simpl never.

(** A call that leaves the increments of [m] alone. *)
Definition other_metric (m : Metric) (c : Call) : bool :=
  match c with Inc m' _ | Dec m' _ => negb (bool_decide (m' = m)) | _ => true end.

Lemma level_other m labels t : forallb (other_metric m) t = true -> level m labels t = 0.
Proof.
  induction t as [|c t IH]; [done|]. cbn [forallb]. rewrite andb_true_iff. intros [Hc Ht].
  unfold level in *. cbn [foldr]. rewrite (IH Ht).
  destruct c as [m' l|m' l| |]; cbn in *; try done;
    apply negb_true_iff, bool_decide_eq_false in Hc; rewrite bool_decide_false by naive_solver; done.
Qed.

Lemma incs_other m t : forallb (other_metric m) t = true -> incs m t = 0.
Proof.
  intros Ht. apply count_if_zero, Forall_forall. rewrite forallb_forall in Ht.
  intros c Hc%list_elem_of_In. specialize (Ht c Hc). destruct c; cbn in *; try done.
  by apply negb_true_iff in Ht.
Qed.

Lemma level_app_other m labels t l :
  forallb (other_metric m) l = true -> level m labels (t ++ l) = level m labels t.
Proof. intros Hl. rewrite level_app, (level_other m labels l Hl). lia. Qed.
Lemma incs_app_other m t l : forallb (other_metric m) l = true -> incs m (t ++ l) = incs m t.
Proof. intros Hl. rewrite incs_app, (incs_other m l Hl). lia. Qed.

(** A call a metric accepts: counters only grow, and the label values are as many
    as the label names ([WithLabelValues] panics otherwise). *)
Definition call_ok (c : Call) : Prop :=
  match c with
  | Inc m l => m_kind m <> Histogram /\ length l = length (m_labels m) /\ m ∈ registered
  | Dec m l => m_kind m = Gauge /\ length l = length (m_labels m) /\ m ∈ registered
  | Observe m l _ => m_kind m = Histogram /\ length l = length (m_labels m) /\ m ∈ registered
  | GaugeSet m _ => m_kind m = Gauge /\ m_labels m = [] /\ m ∈ registered
  end.

Ltac solve_calls :=
  repeat first [ apply Forall_nil_2 | apply Forall_cons_2
               | progress unfold call_ok; cbn; split_and!; [done|done|set_solver] ].

(** The metrics are well used: the registered names are distinct, so that
    registration does not panic, and every helper calls a registered metric by a
    method of its kind with as many label values as it has labels. *)
Theorem metrics_well_used (method cache upstream host : string) (status dur d depth : Z) :
  NoDup (m_name <$> registered) /\
  Forall call_ok
    (ObserveProxyResponse method status cache dur
     ++ ObserveProxyUpstreamResponse upstream method status dur
     ++ IncProxyUpstreamInflight host ++ DecProxyUpstreamInflight host
     ++ QueueRejectedInc ++ QueueTimeoutsInc ++ QueueWaitObserve d ++ QueueDepthSet depth
     ++ UpstreamInflightInc ++ UpstreamInflightDec ++ ObserveUpstreamResponse method status dur).
Proof.
  split.
  - apply (bool_decide_unpack _). vm_compute. exact I.
  - cbn [app]. unfold ObserveProxyResponse, ObserveProxyUpstreamResponse. solve_calls.
Qed.
