(* ===== verification/GoMux.v ===== *)
(** * Go's [path], [path/filepath] and [http.ServeMux] as the programs use them

    [ServeMux] is given on patterns without method, host and wildcards, which are the
    ones the project registers, and on requests whose path needs no escaping, so that
    the escaped path the library matches on is the path itself. *)
From S2P Require Import Prelude GoStrings GoNet.
#[local] Open Scope Z_scope.

(** ** Paths *)

Definition slash : ascii := "/"%char.

(** One element of a path: the elements kept so far, in reverse order. *)
Definition clean_step (rooted : bool) (out : list string) (e : string) : list string :=
  if bool_decide (e = "") || bool_decide (e = ".") then out
  else if bool_decide (e = "..") then
    match out with
    | last :: out' => if bool_decide (last = "..") then ".." :: out else out'
    | [] => if rooted then [] else [".."]
    end
  else e :: out.

(** [path.Clean] *)
Definition Clean (path : string) : string :=
  let rooted := HasPrefix path "/" in
  let out := rev (foldl (clean_step rooted) [] (Split path slash)) in
  if rooted then "/" +:+ Join out "/"
  else if bool_decide (out = []) then "." else Join out "/".

(** [filepath.Dir], on a system whose separator is the slash. *)
Definition Dir (path : string) : string :=
  match cut_last_b slash (bytes path) with
  | Some (before, _) => Clean (str (before ++ [slash]))
  | None => Clean ""
  end.

Example Clean_ex1 : Clean "/a/./b//../c/" = "/a/c". Proof. reflexivity. Qed.
Example Clean_ex2 : Clean "../../a/.." = "../..". Proof. reflexivity. Qed.
Example Clean_ex3 : Clean "/.." = "/". Proof. reflexivity. Qed.
Example Clean_ex4 : Clean "" = ".". Proof. reflexivity. Qed.
Example Dir_ex1 : Dir "server.crt" = ".". Proof. reflexivity. Qed.
Example Dir_ex2 : Dir "/etc/tls/server.crt" = "/etc/tls". Proof. reflexivity. Qed.

(** ** [http.ServeMux] *)

(** [cleanPath] of [net/http]: the canonical path, a trailing slash kept. *)
Definition cleanPath (p : string) : string :=
  if bool_decide (p = "") then "/"
  else
    let p := if HasPrefix p "/" then p else "/" +:+ p in
    let np := Clean p in
    if HasSuffix p "/" && bool_decide (np <> "/") then np +:+ "/" else np.

Section Mux.
Context {H : Type}.

(** The patterns and their handlers, in order of registration. *)
Definition Mux : Type := list (string * H).

Fixpoint registered_at (mux : Mux) (path : string) : option H :=
  match mux with
  | [] => None
  | (pattern, h) :: mux' => if bool_decide (pattern = path) then Some h else registered_at mux' path
  end.

(** The longest pattern that ends in a slash and is a prefix of the path. *)
Definition longer (path : string) (best : option (string * H)) (ph : string * H) : option (string * H) :=
  if HasSuffix ph.1 "/" && HasPrefix path ph.1
     && match best with Some (p, _) => str_len p <? str_len ph.1 | None => true end
  then Some ph else best.
Definition mux_match (mux : Mux) (path : string) : option H :=
  match registered_at mux path with
  | Some h => Some h
  | None => snd <$> foldl (longer path) None mux
  end.

Inductive route :=
| Serve (h : H)
| RedirectTo (path : string)
| Unmatched
| BadRequest.

(** A path registered only with a trailing slash redirects there; a path that is not
    canonical redirects to its canonical form, except for CONNECT. *)
Definition mux_route (mux : Mux) (method path : string) : route :=
  if bool_decide (path = "*") then BadRequest
  else
    let canonical_path := if bool_decide (method = "CONNECT") then path else cleanPath path in
    let slashed := canonical_path +:+ "/" in
    if negb (bool_decide (is_Some (registered_at mux canonical_path)))
       && negb (HasSuffix canonical_path "/") && bool_decide (is_Some (registered_at mux slashed))
    then RedirectTo slashed
    else if bool_decide (canonical_path <> path) then RedirectTo canonical_path
    else match mux_match mux canonical_path with
         | Some h => Serve h
         | None => Unmatched
         end.
End Mux.
Arguments Mux : clear implicits.
Arguments route : clear implicits.

(** ** Facts *)

Lemma registered_at_elem {H} (mux : Mux H) path h : registered_at mux path = Some h -> (path, h) ∈ mux.
Proof.
  induction mux as [|[p g] mux IH]; [done|]. cbn. case_bool_decide; [|set_solver].
  subst. intros [= ->]. set_solver.
Qed.

(** A pattern served is one of those registered. *)
Lemma mux_match_elem {H} (mux : Mux H) path h : mux_match mux path = Some h -> exists p, (p, h) ∈ mux.
Proof.
  unfold mux_match. destruct (registered_at mux path) as [g|] eqn:Hr.
  - intros [= ->]. eauto using registered_at_elem.
  - clear Hr. cut (forall acc, (forall ph, acc = Some ph -> ph ∈ mux) ->
      forall l, l ⊆ mux -> forall ph, foldl (longer path) acc l = Some ph -> ph ∈ mux).
    { intros Hc Hm. destruct (foldl _ _ _) as [[p g]|] eqn:Hf; [|done]. injection Hm as ->.
      exists p. by eapply (Hc None); [..|exact Hf]. }
    intros acc Ha l. revert acc Ha. induction l as [|x l IH]; intros acc Ha Hl ph; cbn; [apply Ha|].
    apply IH; [|set_solver]. intros ph'. unfold longer. destruct (_ && _); [|apply Ha].
    intros [= <-]. set_solver.
Qed.

Lemma longer_exact {H} (path : string) (best : option (string * H)) ph :
  HasSuffix path "/" = false -> ph.1 = path -> longer path best ph = best.
Proof. intros Hs <-. unfold longer. by rewrite Hs. Qed.

(** ** Canonical paths *)

Lemma Clean_rooted p : HasPrefix p "/" = true -> HasPrefix (Clean p) "/" = true.
Proof. intros Hp. unfold Clean. by rewrite Hp. Qed.

Lemma HasPrefix_app p q s : HasPrefix p s = true -> HasPrefix (p +:+ q) s = true.
Proof.
  unfold HasPrefix. rewrite bytes_app. generalize (bytes p) (bytes q) (bytes s). clear.
  intros p q s. revert p. induction s as [|c s IH]; intros [|d p]; cbn; try done.
  intros [H1 H2]%andb_true_iff. by rewrite H1, IH.
Qed.

Lemma cleanPath_rooted p : HasPrefix (cleanPath p) "/" = true.
Proof.
  unfold cleanPath. case_bool_decide; [done|].
  set (q := if HasPrefix p "/" then p else _).
  assert (Hq : HasPrefix q "/" = true) by (unfold q; destruct (HasPrefix p "/") eqn:E; [done|reflexivity]).
  apply Clean_rooted in Hq. destruct (_ && _); [by apply HasPrefix_app|done].
Qed.

(** A rooted path followed by a slash ends in one and is not the root. *)
Lemma slashed_ne q r : HasPrefix q "/" = true -> HasSuffix r "/" = false \/ r = "/" -> q +:+ "/" <> r.
Proof.
  intros Hq Hr Heq. apply (f_equal bytes) in Heq. rewrite bytes_app in Heq.
  destruct Hr as [Hr|Hr].
  - unfold HasSuffix in Hr. by rewrite <- Heq, rev_app_distr in Hr.
  - subst. unfold HasPrefix in Hq. destruct (bytes q) as [|c l]; [done|]. by destruct l.
Qed.
