(* ===== verification/Queue.v ===== *)
(** * The admission queue

    [internal/proxy/queue.go].  [WithQueue]'s closure holds two buffered channels
    and a counter, shared by the handlers of all requests; each handler starts one
    goroutine that acquires a slot for it.  A channel of empty structs is the
    number of its elements.  Every channel operation, atomic operation and gauge
    update is one step ([action]) of a request's handler or goroutine, and steps of
    different requests interleave freely; the timer and the client's cancellation
    are steps of the environment.  A [select] with several ready cases takes any of
    them, as Go does. *)
From S2P Require Import Prelude GoStrings GoTime GoNet Metrics.
From Stdlib Require Import SpecFloat.
#[local] Open Scope Z_scope.

(** ** Configuration *)

Record QueueConfig := mkQueueConfig {
  MaxQueue : Z;
  MaxConcurrent : Z;
  EnqueueTimeout : Z;
  QueueWaitHeader : bool;
}.

(** The defaults [WithQueue] fills in. *)
Definition with_defaults (cfg : QueueConfig) : QueueConfig :=
  mkQueueConfig (if MaxQueue cfg <=? 0 then 1024 else MaxQueue cfg)
                (if MaxConcurrent cfg <=? 0 then 128 else MaxConcurrent cfg)
                (if EnqueueTimeout cfg <=? 0 then 2 * second else EnqueueTimeout cfg)
                (QueueWaitHeader cfg).

(** ** Responses of the queue *)

(** [context.Canceled] and [context.DeadlineExceeded]. *)
Inductive ctx_error := Canceled | DeadlineExceeded.

Definition failQueue (err : ctx_error) (w : ResponseWriter) : ResponseWriter :=
  let errorMsg := match err with
                  | DeadlineExceeded => "timed out while waiting in queue"
                  | Canceled => "request cancelled while waiting in queue"
                  end in
  httpError errorMsg 503 w.

Definition reject_full (w : ResponseWriter) : ResponseWriter :=
  httpError "queue full, try again later" 429 w.

(** The observability headers of an admitted request. *)
Definition queue_headers (cfg : QueueConfig) (depthAfterEnqueue waited : Z) (w : ResponseWriter)
    : ResponseWriter :=
  if QueueWaitHeader cfg then
    wSet "X-Queue-Wait" (DurationString waited)
      (wSet "X-Queue-Depth" (Itoa depthAfterEnqueue)
         (wSet "X-Queue-Limit" (Itoa (MaxQueue cfg))
            (wSet "X-Concurrency-Limit" (Itoa (MaxConcurrent cfg)) w)))
  else w.

(** ** The shared state and the requests *)

Record shared := mkShared {
  queueWaitCh : Z;       (* elements in the channel *)
  activeSlotsCh : Z;
  depth : Z;             (* queueDepth, an atomic int64 *)
  calls : list Call;     (* what the metrics were told, oldest first *)
}.

(** How a handler ended. *)
Inductive outcome :=
| Rejected                               (* 429 *)
| Failed (err : ctx_error)               (* 503 *)
| Served (depthAfterEnqueue waited : Z). (* next.ServeHTTP ran and returned *)

Inductive hphase :=
| HNew                          (* not arrived *)
| HEntered                      (* in queueWaitCh *)
| HCounted (d : Z)              (* queueDepth incremented to d *)
| HSelecting (d : Z)            (* in the select; the goroutine runs *)
| HFailing (err : ctx_error)    (* left the select without a slot *)
| HLeaving (err : ctx_error)    (* deferred: out of queueWaitCh *)
| HFailUncounted (err : ctx_error)
| HFailLoaded (err : ctx_error) (v : Z)
| HGranted (d : Z)              (* received from activeGrantedCh *)
| HDequeued (d : Z)             (* out of queueWaitCh *)
| HUncounted (d : Z)
| HLoaded (d v : Z)
| HServing (d waited : Z)       (* in next.ServeHTTP *)
| HDone (o : outcome).

Inductive gphase :=
| GNone          (* not started *)
| GTrying        (* in its select *)
| GHolding       (* sent to activeSlotsCh, not yet to activeGrantedCh *)
| GSent          (* activeGrantedCh holds the grant *)
| GTaken         (* the handler received it *)
| GExited.       (* returned through acquireCtx.Done() *)

Record req := mkReq {
  hp : hphase;
  gp : gphase;
  ctx_err : option ctx_error;   (* reqCtx.Err() *)
  cancelled : bool;             (* cancelAcquire was called *)
}.
Definition new_req : req := mkReq HNew GNone None false.

(** [acquireCtx.Done()] is ready: it derives from the request's context. *)
Definition acquire_done (r : req) : bool := cancelled r || bool_decide (is_Some (ctx_err r)).

(** ** Steps *)

Inductive action :=
| Enter | Count | Spawn                       (* until the select *)
| ClientGone (err : ctx_error)                (* the environment ends reqCtx *)
| Acquire | GiveUp | Grant                    (* the goroutine *)
| SelCancel (waited : Z) | SelTimeout (waited : Z) | SelGrant
| FailDequeue | FailUncount | FailLoad | FailSet
| Dequeue | Uncount | Load | SetGauge (waited observed : Z)
| Finish.

Definition set_hp (h : hphase) (r : req) : req := mkReq h (gp r) (ctx_err r) (cancelled r).
Definition set_gp (g : gphase) (r : req) : req := mkReq (hp r) g (ctx_err r) (cancelled r).
Definition cancel (r : req) : req := mkReq (hp r) (gp r) (ctx_err r) true.

Definition sh_wait (n : Z) (s : shared) : shared :=
  mkShared (queueWaitCh s + n) (activeSlotsCh s) (depth s) (calls s).
Definition sh_slots (n : Z) (s : shared) : shared :=
  mkShared (queueWaitCh s) (activeSlotsCh s + n) (depth s) (calls s).
Definition sh_depth (n : Z) (s : shared) : shared :=
  mkShared (queueWaitCh s) (activeSlotsCh s) (wrap_i64 (depth s + n)) (calls s).
Definition sh_calls (l : list Call) (s : shared) : shared :=
  mkShared (queueWaitCh s) (activeSlotsCh s) (depth s) (calls s ++ l).

(** One step of a request, if it is enabled.  A receive from an empty channel and a
    send to a full one block. *)
Definition act_req (cfg : QueueConfig) (s : shared) (a : action) (r : req) : option (shared * req) :=
  match a, hp r, gp r with
  | Enter, HNew, _ =>
      if queueWaitCh s <? MaxQueue cfg then Some (sh_wait 1 s, set_hp HEntered r)
      else Some (sh_calls QueueRejectedInc s, set_hp (HDone Rejected) r)
  | Count, HEntered, _ => Some (sh_depth 1 s, set_hp (HCounted (wrap_i64 (depth s + 1))) r)
  | Spawn, HCounted d, _ => Some (sh_calls (QueueDepthSet d) s, set_gp GTrying (set_hp (HSelecting d) r))
  | ClientGone err, _, _ =>
      match ctx_err r with
      | None => Some (s, mkReq (hp r) (gp r) (Some err) (cancelled r))
      | Some _ => None
      end
  | Acquire, _, GTrying =>
      if activeSlotsCh s <? MaxConcurrent cfg then Some (sh_slots 1 s, set_gp GHolding r) else None
  | GiveUp, _, GTrying => if acquire_done r then Some (s, set_gp GExited r) else None
  | Grant, _, GHolding => Some (s, set_gp GSent r)
  | SelCancel waited, HSelecting _, _ =>
      match ctx_err r with
      | Some err => Some (sh_calls (QueueWaitObserve waited) s, cancel (set_hp (HFailing err) r))
      | None => None
      end
  | SelTimeout waited, HSelecting _, _ =>
      Some (sh_calls (QueueTimeoutsInc ++ QueueWaitObserve waited) s,
            cancel (set_hp (HFailing DeadlineExceeded) r))
  | SelGrant, HSelecting d, GSent => Some (s, set_gp GTaken (set_hp (HGranted d) r))
  | FailDequeue, HFailing err, _ =>
      if 0 <? queueWaitCh s then Some (sh_wait (-1) s, set_hp (HLeaving err) r) else None
  | FailUncount, HLeaving err, _ => Some (sh_depth (-1) s, set_hp (HFailUncounted err) r)
  | FailLoad, HFailUncounted err, _ => Some (s, set_hp (HFailLoaded err (depth s)) r)
  | FailSet, HFailLoaded err v, _ => Some (sh_calls (QueueDepthSet v) s, set_hp (HDone (Failed err)) r)
  | Dequeue, HGranted d, _ =>
      if 0 <? queueWaitCh s then Some (sh_wait (-1) s, set_hp (HDequeued d) r) else None
  | Uncount, HDequeued d, _ => Some (sh_depth (-1) s, set_hp (HUncounted d) r)
  | Load, HUncounted d, _ => Some (s, set_hp (HLoaded d (depth s)) r)
  | SetGauge waited observed, HLoaded d v, _ =>
      Some (sh_calls (QueueDepthSet v ++ QueueWaitObserve observed) s, set_hp (HServing d waited) r)
  | Finish, HServing d waited, _ =>
      if 0 <? activeSlotsCh s then Some (sh_slots (-1) s, set_hp (HDone (Served d waited)) r) else None
  | _, _, _ => None
  end.

Definition qstate : Type := shared * list req.

Definition act (cfg : QueueConfig) (s : qstate) (t : nat) (a : action) : option qstate :=
  match s.2 !! t with
  | Some r =>
      match act_req cfg s.1 a r with
      | Some (sh', r') => Some (sh', <[t := r']> s.2)
      | None => None
      end
  | None => None
  end.

Definition qstart (requests : nat) : qstate := (mkShared 0 0 0 [], replicate requests new_req).

Inductive qstep (cfg : QueueConfig) (s s' : qstate) : Prop :=
| qstep_act t a : act cfg s t a = Some s' -> qstep cfg s s'.

(** The response of an ended handler, given the wrapped handler's. *)
Definition queue_response (cfg : QueueConfig) (next : ResponseWriter -> ResponseWriter) (o : outcome)
    (w : ResponseWriter) : ResponseWriter :=
  match o with
  | Rejected => reject_full w
  | Failed err => failQueue err w
  | Served d waited => next (queue_headers cfg d waited w)
  end.

(** ** What the shared counters count *)

Definition queued (r : req) : bool :=
  match hp r with HEntered | HCounted _ | HSelecting _ | HFailing _ | HGranted _ => true | _ => false end.
Definition counted (r : req) : bool :=
  match hp r with
  | HCounted _ | HSelecting _ | HFailing _ | HLeaving _ | HGranted _ | HDequeued _ => true
  | _ => false
  end.
(** In the channel, the depth not yet incremented; out of it, not yet decremented. *)
Definition entering (r : req) : bool := match hp r with HEntered => true | _ => false end.
Definition leaving (r : req) : bool := match hp r with HLeaving _ | HDequeued _ => true | _ => false end.
Definition serving (r : req) : bool := match hp r with HServing _ _ => true | _ => false end.
Definition finished (r : req) : bool := match hp r with HDone _ => true | _ => false end.

(** The goroutine has a slot that the handler has not received. *)
Definition slot_in_transit (r : req) : bool :=
  match gp r with GHolding | GSent => true | _ => false end.
(** The handler owns a slot, and will give it back. *)
Definition slot_owned (r : req) : bool :=
  match hp r with
  | HGranted _ | HDequeued _ | HUncounted _ | HLoaded _ _ | HServing _ _ => true
  | _ => false
  end.
Definition failed (r : req) : bool :=
  match hp r with
  | HFailing _ | HLeaving _ | HFailUncounted _ | HFailLoaded _ _ | HDone (Failed _) => true
  | _ => false
  end.
(** The slot was acquired for a handler that no longer waits for it. *)
Definition leaked (r : req) : bool := slot_in_transit r && failed r.
Definition holds_slot (r : req) : bool := slot_in_transit r || slot_owned r.

(** The phases of a handler and of its goroutine agree. *)
Definition req_ok (r : req) : bool :=
  match hp r, gp r with
  | (HNew | HEntered | HCounted _ | HDone Rejected), GNone => negb (cancelled r)
  | HSelecting _, (GTrying | GHolding | GSent) => negb (cancelled r)
  | HSelecting _, GExited => negb (cancelled r) && acquire_done r
  | (HFailing _ | HLeaving _ | HFailUncounted _ | HFailLoaded _ _ | HDone (Failed _)),
    (GTrying | GHolding | GSent | GExited) => cancelled r
  | (HGranted _ | HDequeued _ | HUncounted _ | HLoaded _ _ | HServing _ _ | HDone (Served _ _)), GTaken => true
  | _, _ => false
  end.

Record q_inv (cfg : QueueConfig) (s : qstate) : Prop := {
  inv_wait : queueWaitCh s.1 = count_if queued s.2;
  inv_slots : activeSlotsCh s.1 = count_if holds_slot s.2;
  inv_depth : depth s.1 = wrap_i64 (count_if counted s.2);
  inv_max_wait : queueWaitCh s.1 <= MaxQueue cfg;
  inv_max_slots : activeSlotsCh s.1 <= MaxConcurrent cfg;
  inv_reqs : Forall (fun r => req_ok r = true) s.2;
}.

(** The change one step makes to the request and to the shared state. *)
Record req_step (cfg : QueueConfig) (s s' : shared) (r r' : req) : Prop := {
  rs_ok : req_ok r' = true;
  rs_wait : queueWaitCh s' = queueWaitCh s - Z.b2z (queued r) + Z.b2z (queued r');
  rs_slots : activeSlotsCh s' = activeSlotsCh s - Z.b2z (holds_slot r) + Z.b2z (holds_slot r');
  rs_depth n : depth s = wrap_i64 n ->
    depth s' = wrap_i64 (n - Z.b2z (counted r) + Z.b2z (counted r'));
  rs_max_wait : queueWaitCh s <= MaxQueue cfg -> queueWaitCh s' <= MaxQueue cfg;
  rs_max_slots : activeSlotsCh s <= MaxConcurrent cfg -> activeSlotsCh s' <= MaxConcurrent cfg;
}.

Lemma act_req_step cfg s a r s' r' :
  act_req cfg s a r = Some (s', r') -> req_ok r = true -> req_step cfg s s' r r'.
Proof.
  destruct r as [h g e c]. intros Ha Hok.
  destruct a, h; try discriminate Ha; cbn in Ha, Hok; destruct g; try discriminate Ha; try discriminate Hok;
    repeat case_match; try discriminate Ha; simplify_eq/=.
  all: constructor; cbn in *; unfold acquire_done in *; cbn in *;
    [try done; destruct c; cbn in *; done| lia | lia
    | intros n Hn; rewrite ?Hn, ?wrap_i64_add_l; f_equal; lia | lia | lia].
Qed.

Lemma act_Some cfg s t a s' :
  act cfg s t a = Some s' ->
  exists r r', s.2 !! t = Some r /\ act_req cfg s.1 a r = Some (s'.1, r') /\ s'.2 = <[t := r']> s.2.
Proof.
  unfold act. destruct (s.2 !! t) as [r|]; [|done].
  destruct (act_req cfg s.1 a r) as [[sh' r']|] eqn:Ha; [|done]. intros [= <-]. exists r, r'. done.
Qed.

Lemma q_inv_step cfg s s' : q_inv cfg s -> qstep cfg s s' -> q_inv cfg s'.
Proof.
  intros [H1 H2 H3 H4 H5 H6] [t a (r & r' & Hr & Ha & Hs)%act_Some].
  pose proof (Forall_lookup_1 _ _ _ _ H6 Hr) as Hok.
  destruct (act_req_step _ _ _ _ _ _ Ha Hok) as [R1 R2 R3 R4 R5 R6].
  constructor; rewrite ?Hs, ?(count_if_insert _ _ _ _ r' Hr).
  - lia.
  - lia.
  - by apply R4.
  - by apply R5.
  - by apply R6.
  - by apply Forall_insert.
Qed.

Lemma q_inv_start cfg requests :
  0 <= MaxQueue cfg -> 0 <= MaxConcurrent cfg -> q_inv cfg (qstart requests).
Proof.
  intros Hq Hc. constructor; cbn; rewrite ?count_if_replicate; try done. by apply Forall_replicate.
Qed.

Definition qreachable (cfg : QueueConfig) (requests : nat) : qstate -> Prop :=
  reachable (fun s => s = qstart requests) (qstep cfg).

Lemma with_defaults_pos cfg :
  0 < MaxQueue (with_defaults cfg) /\ 0 < MaxConcurrent (with_defaults cfg)
  /\ 0 < EnqueueTimeout (with_defaults cfg).
Proof. cbn. repeat case_match; unfold second; lia. Qed.

Lemma qreachable_inv cfg requests s :
  qreachable (with_defaults cfg) requests s -> q_inv (with_defaults cfg) s.
Proof.
  pose proof (with_defaults_pos cfg) as (Hq & Hc & _).
  apply (reachable_invariant (fun s => s = qstart requests) (qstep (with_defaults cfg))).
  - intros ? ->. apply q_inv_start; lia.
  - intros s1 s2. apply q_inv_step.
Qed.

Lemma qstep_length cfg s s' : qstep cfg s s' -> length s'.2 = length s.2.
Proof. intros [t a (r & r' & _ & _ & ->)%act_Some]. by rewrite length_insert. Qed.

Lemma qreachable_length cfg requests s : qreachable cfg requests s -> length s.2 = requests.
Proof.
  apply (reachable_invariant (fun s => s = qstart requests) (qstep cfg) (fun s => length s.2 = requests)).
  - intros ? ->. apply length_replicate.
  - intros s1 s2 <-. apply qstep_length.
Qed.

(** ** Termination

    Every step uses up some of what its request can still do. *)

Definition h_rank (h : hphase) : nat :=
  match h with
  | HNew => 12 | HEntered => 11 | HCounted _ => 10 | HSelecting _ => 6
  | HFailing _ => 4 | HLeaving _ => 3 | HFailUncounted _ => 2 | HFailLoaded _ _ => 1
  | HGranted _ => 5 | HDequeued _ => 4 | HUncounted _ => 3 | HLoaded _ _ => 2 | HServing _ _ => 1
  | HDone _ => 0
  end.
Definition g_rank (g : gphase) : nat :=
  match g with GTrying => 3 | GHolding => 2 | GSent => 1 | _ => 0 end.
Definition req_rank (r : req) : nat :=
  h_rank (hp r) + g_rank (gp r) + match ctx_err r with None => 1 | Some _ => 0 end.
Definition q_rank (s : qstate) : nat := sum_list (req_rank <$> s.2).

Lemma act_req_rank cfg s a r s' r' :
  act_req cfg s a r = Some (s', r') -> (req_rank r' < req_rank r)%nat.
Proof.
  destruct r as [h g e c]. intros Ha.
  destruct a, h; try discriminate Ha; cbn in Ha; try (destruct g; try discriminate Ha);
    repeat case_match; try discriminate Ha; simplify_eq/=; unfold req_rank; cbn; lia.
Qed.

Lemma sum_list_insert (l : list nat) i x y :
  l !! i = Some x -> (sum_list (<[i := y]> l) + x = sum_list l + y)%nat.
Proof.
  revert i. induction l as [|z l IH]; intros [|i] Hi; try done.
  - injection Hi as ->. cbn. lia.
  - change (<[S i := y]> (z :: l)) with (z :: <[i := y]> l). cbn [sum_list]. specialize (IH i Hi). lia.
Qed.

Lemma qstep_rank cfg s s' : qstep cfg s s' -> (q_rank s' < q_rank s)%nat.
Proof.
  intros [t a (r & r' & Hr & Ha & Hs)%act_Some]. unfold q_rank. rewrite Hs, list_fmap_insert.
  pose proof (act_req_rank _ _ _ _ _ _ Ha).
  pose proof (sum_list_insert (req_rank <$> s.2) t (req_rank r) (req_rank r')) as Hsum.
  rewrite list_lookup_fmap, Hr in Hsum. specialize (Hsum eq_refl). lia.
Qed.

(** ** Progress *)

(** A request that has not finished can always go on, if only by its timer. *)
Lemma unfinished_act cfg s t r :
  q_inv cfg s -> s.2 !! t = Some r -> finished r = false ->
  exists a s', act cfg s t a = Some s' /\ (forall err, a <> ClientGone err)
               /\ ((exists w, a = SelTimeout w) -> exists d, hp r = HSelecting d).
Proof.
  intros Hinv Hr Hf. pose proof (Forall_lookup_1 _ _ _ _ (inv_reqs _ _ Hinv) Hr) as Hok.
  assert (Hq : queued r = true -> 0 < queueWaitCh s.1).
  { intros Hq. rewrite (inv_wait _ _ Hinv). by eapply count_if_pos. }
  assert (Ho : slot_owned r = true -> 0 < activeSlotsCh s.1).
  { intros Ho. rewrite (inv_slots _ _ Hinv). eapply count_if_pos; [done|].
    unfold holds_slot. by rewrite Ho, orb_true_r. }
  assert (Hact : forall a x, act_req cfg s.1 a r = Some x -> (forall err, a <> ClientGone err) ->
     ((exists w, a = SelTimeout w) -> exists d, hp r = HSelecting d) ->
     exists a s', act cfg s t a = Some s' /\ (forall err, a <> ClientGone err)
               /\ ((exists w, a = SelTimeout w) -> exists d, hp r = HSelecting d)).
  { intros a [sh' r'] Ha Hne Hsel. exists a, (sh', <[t := r']> s.2). unfold act. by rewrite Hr, Ha. }
  destruct r as [h g e c], h; cbn in *; try discriminate Hf.
  - destruct (queueWaitCh s.1 <? MaxQueue cfg) eqn:Hlt;
      eapply (Hact Enter); try (cbn; by rewrite Hlt); try done; by intros [].
  - eapply (Hact Count); try done; by intros [].
  - eapply (Hact Spawn); try done; by intros [].
  - eapply (Hact (SelTimeout 0)); try done. intros _. eauto.
  - eapply (Hact FailDequeue); [cbn; rewrite (proj2 (Z.ltb_lt _ _)) by auto; done|done|by intros []].
  - eapply (Hact FailUncount); try done; by intros [].
  - eapply (Hact FailLoad); try done; by intros [].
  - eapply (Hact FailSet); try done; by intros [].
  - eapply (Hact Dequeue); [cbn; rewrite (proj2 (Z.ltb_lt _ _)) by auto; done|done|by intros []].
  - eapply (Hact Uncount); try done; by intros [].
  - eapply (Hact Load); try done; by intros [].
  - eapply (Hact (SetGauge 0 0)); try done; by intros [].
  - eapply (Hact Finish); [cbn; rewrite (proj2 (Z.ltb_lt _ _)) by auto; done|done|by intros []].
Qed.

(** Runs without client cancellations and timeouts. *)
Definition calm (a : action) : Prop :=
  (forall err, a <> ClientGone err) /\ (forall w, a <> SelTimeout w).
Inductive calm_step (cfg : QueueConfig) (s s' : qstate) : Prop :=
| calm_act t a : act cfg s t a = Some s' -> calm a -> calm_step cfg s s'.

Definition untroubled (r : req) : bool := negb (failed r) && bool_decide (ctx_err r = None).
Definition served_or_rejected (r : req) : bool :=
  match hp r with HDone (Served _ _) | HDone Rejected => true | _ => false end.

Definition calm_inv (cfg : QueueConfig) (s : qstate) : Prop :=
  q_inv cfg s /\ Forall (fun r => untroubled r = true) s.2.

Lemma act_req_untroubled cfg s a r s' r' :
  act_req cfg s a r = Some (s', r') -> calm a -> untroubled r = true -> untroubled r' = true.
Proof.
  destruct r as [h g e c]. intros Ha [Hc1 Hc2] Hu.
  apply andb_true_iff in Hu as [Hu1 Hu2%bool_decide_eq_true]. cbn in Hu2. subst e.
  destruct a; try (by destruct (Hc1 _ eq_refl)); try (by destruct (Hc2 _ eq_refl));
    destruct h; try discriminate Ha; cbn in Ha; try (destruct g; try discriminate Ha);
    repeat case_match; try discriminate Ha; simplify_eq/=; try done; by destruct o.
Qed.

Lemma calm_inv_step cfg s s' : calm_inv cfg s -> calm_step cfg s s' -> calm_inv cfg s'.
Proof.
  intros [Hi Hu] [t a Ha Hc]. split; [eapply q_inv_step; [done|by econstructor]|].
  apply act_Some in Ha as (r & r' & Hr & Ha & ->). apply Forall_insert; [done|].
  eapply act_req_untroubled; [done..|]. by eapply Forall_lookup_1 in Hu.
Qed.

Lemma calm_inv_start cfg requests :
  0 <= MaxQueue cfg -> 0 <= MaxConcurrent cfg -> calm_inv cfg (qstart requests).
Proof. intros. split; [by apply q_inv_start|]. by apply Forall_replicate. Qed.

Lemma unfinished_exists s : forallb finished s = false -> exists t r, s !! t = Some r /\ finished r = false.
Proof.
  induction s as [|r s IH]; [done|]. cbn. destruct (finished r) eqn:Hr; cbn.
  - intros Hs. destruct (IH Hs) as (t & r' & Ht & Hf). by exists (S t), r'.
  - intros _. by exists 0%nat, r.
Qed.

Lemma all_finished_counts cfg s :
  q_inv cfg s -> forallb finished s.2 = true ->
  queueWaitCh s.1 = 0 /\ depth s.1 = 0 /\ activeSlotsCh s.1 = count_if leaked s.2.
Proof.
  intros Hinv Hf. rewrite (inv_wait _ _ Hinv), (inv_slots _ _ Hinv), (inv_depth _ _ Hinv).
  assert (Hfin : forall r, r ∈ s.2 -> finished r = true /\ req_ok r = true).
  { intros r Hr. rewrite forallb_forall in Hf. pose proof (inv_reqs _ _ Hinv) as Hok.
    rewrite Forall_forall in Hok. split; [by apply Hf, list_elem_of_In|by apply Hok]. }
  assert (Hz : forall P, (forall r, finished r = true -> P r = false) -> count_if P s.2 = 0).
  { intros P HP. apply count_if_zero, Forall_forall. intros r Hr. by apply HP, Hfin. }
  rewrite !Hz by (intros [[] ? ? ?]; done). split_and!; [done|done|].
  apply count_if_ext. intros [h g e c] [Hr Hok]%Hfin. unfold holds_slot, leaked, slot_in_transit.
  destruct h as [| | | | | | | | | | | | |[]], g; done.
Qed.

(** Without failures a slot is never lost, so a waiting request can go on, or a
    request with a slot can. *)
Lemma calm_progress cfg s :
  0 < MaxConcurrent cfg -> calm_inv cfg s -> forallb finished s.2 = false -> exists s', calm_step cfg s s'.
Proof.
  intros Hpos [Hinv Hu] Hf.
  assert (Hgo : forall t r, s.2 !! t = Some r -> finished r = false -> (forall d, hp r <> HSelecting d) ->
            exists s', calm_step cfg s s').
  { intros t r Hr Hfin Hns. destruct (unfinished_act cfg s t r Hinv Hr Hfin) as (a & s' & Ha & Hne & Hsel).
    exists s'. econstructor; [done|]. split; [done|]. intros w ->.
    destruct (Hsel (ex_intro _ w eq_refl)) as [d Hd]. by eapply Hns. }
  assert (Hstep : forall t r a x, s.2 !! t = Some r -> act_req cfg s.1 a r = Some x -> calm a ->
            exists s', calm_step cfg s s').
  { intros t r a [sh' r'] Hr Ha Hc. exists (sh', <[t := r']> s.2).
    econstructor; [|done]. unfold act. by rewrite Hr, Ha. }
  assert (Hsel : forall t r d, s.2 !! t = Some r -> hp r = HSelecting d -> slot_in_transit r = true ->
            exists s', calm_step cfg s s').
  { intros t [h g e c] d Hr Hh Hg. cbn in *. subst h. destruct g; try discriminate Hg.
    - by eapply (Hstep t _ Grant).
    - by eapply (Hstep t _ SelGrant). }
  apply unfinished_exists in Hf as (t & r & Hr & Hfin).
  destruct (hp r) eqn:Hh; try (eapply (Hgo t r Hr Hfin); intros; congruence).
  pose proof (Forall_lookup_1 _ _ _ _ (inv_reqs _ _ Hinv) Hr) as Hok.
  pose proof (Forall_lookup_1 _ _ _ _ Hu Hr) as Hun.
  destruct (slot_in_transit r) eqn:Htr; [by eapply Hsel|].
  (* trying: a free slot, or a request that has one *)
  assert (Hg : gp r = GTrying).
  { destruct r as [h g e c]. cbn in *. subst h. apply bool_decide_eq_true in Hun. cbn in Hun. subst e.
    unfold acquire_done in Hok. cbn in Hok. destruct g, c; done. }
  destruct (Z.ltb_spec (activeSlotsCh s.1) (MaxConcurrent cfg)) as [Hlt|Hge].
  { eapply (Hstep t r Acquire); [done| |done]. unfold act_req. rewrite Hg.
    by rewrite (proj2 (Z.ltb_lt _ _) Hlt). }
  assert (Hh2 : 0 < count_if holds_slot s.2) by (rewrite <- (inv_slots _ _ Hinv); lia).
  apply count_if_witness in Hh2 as (t2 & r2 & Hr2 & Hholds).
  pose proof (Forall_lookup_1 _ _ _ _ (inv_reqs _ _ Hinv) Hr2) as Hok2.
  pose proof (Forall_lookup_1 _ _ _ _ Hu Hr2) as Hun2.
  destruct (hp r2) eqn:Hhp2;
    try (eapply (Hgo t2 r2 Hr2); [unfold finished; by rewrite Hhp2|intros; congruence]).
  - eapply Hsel; [done..|]. unfold holds_slot, slot_owned in Hholds. rewrite Hhp2 in Hholds.
    by rewrite orb_false_r in Hholds.
  - exfalso. destruct r2 as [h2 g2 e2 c2]. cbn in *. subst h2. cbn in *. destruct o, g2; done.
Qed.

(** A request the queue took in stays in it or beyond it. *)
Definition admitted (r : req) : bool :=
  match hp r with HNew | HDone Rejected => false | _ => true end.
Definition still_admitted (s s' : qstate) : Prop :=
  forall t r, s.2 !! t = Some r -> admitted r = true ->
  exists r', s'.2 !! t = Some r' /\ admitted r' = true.

Lemma act_req_admitted cfg s a r s' r' :
  act_req cfg s a r = Some (s', r') -> admitted r = true -> admitted r' = true.
Proof.
  destruct r as [h g e c]. intros Ha Hl.
  destruct a, h; try discriminate Ha; try discriminate Hl; cbn in Ha; try (destruct g; try discriminate Ha);
    repeat case_match; try discriminate Ha; simplify_eq/=; done.
Qed.

Lemma still_admitted_step cfg s s1 s2 :
  still_admitted s s1 -> calm_step cfg s1 s2 -> still_admitted s s2.
Proof.
  intros Hs [t a (r & r' & Ht & Ha & Hs2)%act_Some _] u x Hu Hx. destruct (Hs u x Hu Hx) as (y & Hy & Hya).
  rewrite Hs2. destruct (decide (u = t)) as [->|Hne].
  - rewrite Ht in Hy. injection Hy as <-. exists r'.
    rewrite list_lookup_insert_eq by (by eapply lookup_lt_Some). split; [done|by eapply act_req_admitted].
  - exists y. by rewrite list_lookup_insert_ne.
Qed.

Lemma calm_finished l :
  forallb finished l = true -> Forall (fun r => untroubled r = true) l ->
  Forall (fun r => served_or_rejected r = true) l.
Proof.
  intros Hg. rewrite forallb_forall in Hg. rewrite !Forall_forall. intros Hu r Hin.
  specialize (Hg r (proj1 (list_elem_of_In _ _) Hin)). specialize (Hu r Hin).
  destruct r as [h g e c]. by destruct h as [| | | | | | | | | | | | |[]].
Qed.

Lemma untroubled_not_leaked l : Forall (fun r => untroubled r = true) l -> count_if leaked l = 0.
Proof.
  intros Hu. apply count_if_zero. eapply Forall_impl; [done|]. intros r Hr. unfold leaked.
  destruct (failed r) eqn:Hf; [|by rewrite andb_false_r]. unfold untroubled in Hr. by rewrite Hf in Hr.
Qed.

Lemma counted_queued l :
  count_if counted l + count_if entering l = count_if queued l + count_if leaving l.
Proof.
  induction l as [|[h g e c] l IH]; [done|]. rewrite !count_if_cons.
  destruct h; cbn -[count_if] in *; lia.
Qed.

Lemma finish_progress cfg s : q_inv cfg s -> forallb finished s.2 = false -> exists s', qstep cfg s s'.
Proof.
  intros Hinv (t & r & Ht & Hf)%unfinished_exists.
  destruct (unfinished_act cfg s t r Hinv Ht Hf) as (a & s2 & Ha & _). exists s2. by econstructor.
Qed.

(** ** Properties *)

(** [C16] In every reachable state of a queue of fewer than [2^63] requests, under any
    interleaving, at most [MaxConcurrent] requests are in the wrapped handler and at most
    [MaxQueue] in the queue.  [queueDepth] is the number of requests between their
    increment and their decrement, never negative; it differs from the number of
    requests in the queue only by those that have entered it and not yet incremented,
    and those that have left it and not yet decremented. *)
Theorem queue_bounds (cfg0 : QueueConfig) (requests : nat) (s : qstate) :
  let cfg := with_defaults cfg0 in
  qreachable cfg requests s -> Z.of_nat requests < two63 ->
  count_if serving s.2 <= MaxConcurrent cfg /\ count_if queued s.2 <= MaxQueue cfg
  /\ depth s.1 = count_if counted s.2 /\ 0 <= depth s.1
  /\ depth s.1 + count_if entering s.2 = count_if queued s.2 + count_if leaving s.2.
Proof.
  intros cfg Hr Hn. pose proof (qreachable_inv _ _ _ Hr) as Hinv. pose proof (qreachable_length _ _ _ Hr) as Hlen.
  pose proof (inv_max_slots _ _ Hinv). pose proof (inv_max_wait _ _ Hinv).
  rewrite (inv_slots _ _ Hinv) in *. rewrite (inv_wait _ _ Hinv) in *.
  assert (count_if serving s.2 <= count_if holds_slot s.2).
  { apply count_if_le. intros r _. unfold serving, holds_slot, slot_owned.
    destruct (hp r); try done. by rewrite orb_true_r. }
  pose proof (count_if_bound counted s.2).
  assert (Hd : depth s.1 = count_if counted s.2).
  { rewrite (inv_depth _ _ Hinv). apply wrap_i64_small. unfold in_i64, two63 in *. lia. }
  split_and!; [by etrans|done|done|lia|rewrite Hd; apply counted_queued].
Qed.

(** A request that arrives is refused with 429 exactly when [MaxQueue] requests
    are waiting in the queue. *)
Theorem queue_rejects_iff_full (cfg0 : QueueConfig) (requests : nat) (s s' : qstate) (t : nat) :
  let cfg := with_defaults cfg0 in
  qreachable cfg requests s -> act cfg s t Enter = Some s' ->
  (hp <$> s'.2 !! t = Some (HDone Rejected) <-> count_if queued s.2 = MaxQueue cfg).
Proof.
  intros cfg Hr (r & r' & Ht & Ha & Hs)%act_Some. pose proof (qreachable_inv _ _ _ Hr) as Hinv.
  fold cfg in Hinv. clearbody cfg. pose proof (inv_max_wait _ _ Hinv) as Hle. rewrite (inv_wait _ _ Hinv) in Hle.
  rewrite Hs, list_lookup_insert_eq by (by eapply lookup_lt_Some).
  destruct r as [[] g e c]; try discriminate Ha. cbn in Ha. rewrite (inv_wait _ _ Hinv) in Ha.
  destruct (Z.ltb_spec (count_if queued s.2) (MaxQueue cfg)); injection Ha as _ <-; cbn.
  - split; [done|lia].
  - split; [lia|done].
Qed.

(** [C18] Every request is answered: from any reachable state every run stops within a
    bounded number of steps, and some run leads to a state where all handlers have
    returned, the queue is empty, [queueDepth] is zero and the only slots taken are
    the leaked ones. *)
Theorem queue_terminates (cfg0 : QueueConfig) (requests : nat) (s : qstate) :
  let cfg := with_defaults cfg0 in
  qreachable cfg requests s ->
  (forall k s', nsteps (qstep cfg) k s s' -> (k <= q_rank s)%nat) /\
  (exists s', steps (qstep cfg) s s' /\ forallb finished s'.2 = true
     /\ queueWaitCh s'.1 = 0 /\ depth s'.1 = 0 /\ activeSlotsCh s'.1 = count_if leaked s'.2).
Proof.
  intros cfg Hr. split.
  - intros k s' Hk. induction Hk as [|k s1 s2 s3 H12 H23 IH]; [lia|].
    pose proof (qstep_rank _ _ _ H12). specialize (IH (reach_step _ _ _ _ Hr H12)). lia.
  - destruct (inevitably_run _ _ _ (inevitably_intro (qstep cfg) (q_inv cfg) (fun s => forallb finished s.2)
      q_rank (q_inv_step cfg) (qstep_rank cfg) (finish_progress cfg) s (qreachable_inv _ _ _ Hr)))
      as (s' & Hsteps & Hinv & Hg).
    exists s'. split; [done|]. split; [done|]. by eapply all_finished_counts.
Qed.

(** [C17] Without cancellations and timeouts the queue serves everyone it admits.
    From any state [s] reached that way, every run that stays that way ends: it can go
    on until all handlers have returned, and then each request was served or refused,
    each that was in the queue or past it in [s] was served, and all slots and places
    are free again. *)
Theorem queue_serves_all (cfg0 : QueueConfig) (requests : nat) (s : qstate) :
  let cfg := with_defaults cfg0 in
  reachable (fun s => s = qstart requests) (calm_step cfg) s ->
  inevitably (calm_step cfg) (fun s' =>
    Forall (fun r => served_or_rejected r = true) s'.2
    /\ (forall t r, s.2 !! t = Some r -> admitted r = true ->
         exists d waited r', s'.2 !! t = Some r' /\ hp r' = HDone (Served d waited))
    /\ queueWaitCh s'.1 = 0 /\ depth s'.1 = 0 /\ activeSlotsCh s'.1 = 0) s.
Proof.
  intros cfg Hr. pose proof (with_defaults_pos cfg0) as (Hq & Hc & _). fold cfg in Hq, Hc. clearbody cfg.
  assert (Hinv : calm_inv cfg s).
  { revert s Hr. apply reachable_invariant; [intros ? ->; apply calm_inv_start; lia|].
    intros s1 s2. apply calm_inv_step. }
  eapply inevitably_weaken;
    [|apply (inevitably_intro (calm_step cfg) (fun s' => calm_inv cfg s' /\ still_admitted s s')
               (fun s => forallb finished s.2) q_rank)].
  - intros s' [[[Hi Hu] Hadm] Hg]. pose proof (calm_finished s'.2 Hg Hu) as Hall.
    destruct (all_finished_counts _ _ Hi Hg) as (-> & -> & ->).
    split_and!; [done| |done|done|by apply untroubled_not_leaked].
    intros t r Ht Ha. destruct (Hadm t r Ht Ha) as (r' & Ht' & Ha').
    pose proof (Forall_lookup_1 _ _ _ _ Hall Ht') as Hs. unfold served_or_rejected, admitted in *.
    destruct (hp r') as [| | | | | | | | | | | | |[]] eqn:Hh; try done. eauto.
  - intros s1 s2 [H1 H2] Hs. split; [by eapply calm_inv_step|by eapply still_admitted_step].
  - intros s1 s2 [t a Ha _]. by apply (qstep_rank cfg), (qstep_act _ _ _ t a).
  - intros s1 [H1 _]. by apply calm_progress.
  - split; [done|]. intros t r Ht Ha. eauto.
Qed.

Lemma act_req_leaked cfg s a r s' r' :
  act_req cfg s a r = Some (s', r') -> leaked r = true -> leaked r' = true.
Proof.
  destruct r as [h g e c]. intros Ha Hl.
  destruct a, h; try discriminate Ha; cbn in Ha; destruct g; try discriminate Ha; try discriminate Hl;
    repeat case_match; try discriminate Ha; simplify_eq/=; done.
Qed.

Lemma leaked_step cfg s s' : qstep cfg s s' -> count_if leaked s.2 <= count_if leaked s'.2.
Proof.
  intros [t a (r & r' & Hr & Ha & ->)%act_Some]. rewrite (count_if_insert _ _ _ _ r' Hr).
  pose proof (act_req_leaked _ _ _ _ _ _ Ha). destruct (leaked r); [rewrite H by done; lia|].
  destruct (leaked r'); cbn [Z.b2z]; lia.
Qed.

Lemma leaked_steps cfg s s' : steps (qstep cfg) s s' -> count_if leaked s.2 <= count_if leaked s'.2.
Proof. induction 1 as [|s1 s2 s3 H12 _ IH]; [done|]. pose proof (leaked_step _ _ _ H12). lia. Qed.

Lemma serving_leaked_bound cfg s :
  q_inv cfg s -> count_if serving s.2 + count_if leaked s.2 <= MaxConcurrent cfg.
Proof.
  intros Hinv. pose proof (inv_max_slots _ _ Hinv) as Hm. rewrite (inv_slots _ _ Hinv) in Hm.
  transitivity (count_if holds_slot s.2); [|done].
  apply count_if_disjoint. intros r Hin. pose proof (inv_reqs _ _ Hinv) as Hok.
  rewrite Forall_forall in Hok. specialize (Hok r Hin). unfold leaked, holds_slot.
  destruct r as [h g e c], h as [| | | | | | | | | | | | |[]], g; done.
Qed.

(** A slot acquired for a request that has left the queue is lost for good: the
    number of such slots never decreases, and they and the requests being served
    together stay within [MaxConcurrent]. *)
Theorem queue_capacity_loss (cfg0 : QueueConfig) (requests : nat) (s s' : qstate) :
  let cfg := with_defaults cfg0 in
  qreachable cfg requests s -> steps (qstep cfg) s s' ->
  count_if leaked s.2 <= count_if leaked s'.2
  /\ count_if serving s'.2 + count_if leaked s.2 <= MaxConcurrent cfg.
Proof.
  intros cfg Hr Hs. pose proof (reachable_steps _ _ _ _ Hr Hs) as Hr'.
  pose proof (serving_leaked_bound _ _ (qreachable_inv _ _ _ Hr')). pose proof (leaked_steps _ _ _ Hs).
  fold cfg in H. lia.
Qed.

(** Run a list of actions, each of a request. *)
Fixpoint run_actions (cfg : QueueConfig) (s : qstate) (l : list (nat * action)) : option qstate :=
  match l with
  | [] => Some s
  | (t, a) :: l' => match act cfg s t a with Some s' => run_actions cfg s' l' | None => None end
  end.

Lemma run_actions_steps cfg s l s' : run_actions cfg s l = Some s' -> steps (qstep cfg) s s'.
Proof.
  revert s. induction l as [|[t a] l IH]; intros s; cbn.
  - intros [= ->]. constructor.
  - destruct (act cfg s t a) as [s1|] eqn:Ha; [|done]. intros Hrun.
    econstructor; [by econstructor|by apply IH].
Qed.

Lemma run_actions_reachable cfg requests l s' :
  run_actions cfg (qstart requests) l = Some s' -> qreachable cfg requests s'.
Proof. intros Hrun%run_actions_steps. eapply reachable_steps; [by constructor|done]. Qed.

(** A request that times out while its goroutine holds a slot. *)
Definition lose_slot (t : nat) : list (nat * action) :=
  (t,.) <$> [Enter; Count; Spawn; Acquire; SelTimeout 0; Grant; FailDequeue; FailUncount; FailLoad; FailSet].

(** [C19] The queue can wedge: with two slots, two requests that time out between the
    acquisition of their slot and its receipt leave a state where no handler runs and
    every slot is taken, and from which no request is ever served again. *)
Theorem queue_wedges :
  let cfg := with_defaults (mkQueueConfig 10 2 second false) in
  exists s, qreachable cfg 3 s /\ activeSlotsCh s.1 = MaxConcurrent cfg
    /\ hp <$> s.2 = [HDone (Failed DeadlineExceeded); HDone (Failed DeadlineExceeded); HNew]
    /\ forall s', steps (qstep cfg) s s' -> count_if serving s'.2 = 0.
Proof.
  cbv zeta. set (cfg := mkQueueConfig 10 2 second false).
  destruct (run_actions (with_defaults cfg) (qstart 3) (lose_slot 0 ++ lose_slot 1)) as [s|] eqn:Hrun;
    [|by vm_compute in Hrun].
  exists s. pose proof (run_actions_reachable _ _ _ _ Hrun) as Hr. split; [done|].
  assert (Hl : count_if leaked s.2 = MaxConcurrent (with_defaults cfg)).
  { vm_compute in Hrun. by injection Hrun as <-. }
  split_and!; [vm_compute in Hrun; by injection Hrun as <-..|].
  intros s' Hs. pose proof (leaked_steps _ _ _ Hs).
  pose proof (serving_leaked_bound _ _ (qreachable_inv _ _ _ (reachable_steps _ _ _ _ Hr Hs))).
  pose proof (count_if_bound serving s'.2). lia.
Qed.

Definition serve (t : nat) : list (nat * action) :=
  (t,.) <$> [Enter; Count; Spawn; Acquire; Grant; SelGrant; Dequeue; Uncount; Load; SetGauge 0 0; Finish].

(** The value [proxy_queue_depth] shows. *)
Definition shown_depth (l : list Call) : option spec_float :=
  foldl (fun v c => match c with
                    | GaugeSet m x => if bool_decide (m = queueDepth) then Some x else v
                    | _ => v
                    end) None l.

(** The queue-depth gauge can stay wrong: two handlers that leave the queue at
    about the same time can set it in the order opposite to their decrements, after
    which it shows a waiting request although everything was served and the queue is
    empty. *)
Theorem queue_gauge_stale :
  exists s, qreachable (with_defaults (mkQueueConfig 10 2 second false)) 2 s
    /\ forallb served_or_rejected s.2 = true /\ queueWaitCh s.1 = 0 /\ depth s.1 = 0
    /\ shown_depth (calls s.1) = Some (f64_of_Z 1).
Proof.
  destruct (run_actions (with_defaults (mkQueueConfig 10 2 second false)) (qstart 2)
    (take 6 (serve 0) ++ take 6 (serve 1) ++ take 3 (drop 6 (serve 0))
     ++ drop 6 (serve 1) ++ drop 9 (serve 0))) as [s|] eqn:Hrun; [|by vm_compute in Hrun].
  exists s. split; [by eapply run_actions_reachable|].
  split_and!; vm_compute in Hrun; by injection Hrun as <-.
Qed.

(** *** Witnesses *)

Definition tiny : QueueConfig := with_defaults (mkQueueConfig 1 1 second true).

Definition after (l : list (nat * action)) : qstate :=
  default (qstart 0) (run_actions tiny (qstart 2) l).

Lemma after_reachable l : run_actions tiny (qstart 2) l = Some (after l) -> qreachable tiny 2 (after l).
Proof. apply run_actions_reachable. Qed.

Lemma queue_bounds_witness :
  count_if serving (after (take 10 (serve 0))).2 = 1 /\ count_if queued (after (take 10 (serve 0))).2 <= 1.
Proof.
  split; [reflexivity|].
  refine (proj1 (proj2 (queue_bounds (mkQueueConfig 1 1 second true) 2 (after (take 10 (serve 0))) _ _))).
  - apply after_reachable. reflexivity.
  - reflexivity.
Defined.

Lemma queue_rejects_iff_full_witness :
  hp <$> (after (take 3 (serve 0) ++ [(1%nat, Enter)])).2 !! 1%nat = Some (HDone Rejected).
Proof.
  apply (queue_rejects_iff_full (mkQueueConfig 1 1 second true) 2 (after (take 3 (serve 0))) _ 1).
  - apply after_reachable. reflexivity.
  - reflexivity.
  - reflexivity.
Defined.

Lemma queue_terminates_witness :
  exists s', steps (qstep tiny) (qstart 2) s' /\ forallb finished s'.2 = true /\ queueWaitCh s'.1 = 0.
Proof.
  destruct (queue_terminates (mkQueueConfig 1 1 second true) 2 (qstart 2)) as (_ & s' & H1 & H2 & H3 & _).
  - by constructor.
  - exists s'. split; [exact H1|]. split; [exact H2|exact H3].
Defined.

(** Two requests for one place and one slot: the first is in the queue, and is served
    on every calm run. *)
Lemma queue_serves_all_witness :
  inevitably (calm_step tiny) (fun s' => exists d waited, hp <$> s'.2 !! 0%nat = Some (HDone (Served d waited)))
    (after [(0%nat, Enter)]).
Proof.
  refine (inevitably_weaken _ _ _ _ _
    (queue_serves_all (mkQueueConfig 1 1 second true) 2 (after [(0%nat, Enter)]) _)).
  - intros s' (_ & Hadm & _). destruct (Hadm 0%nat (set_hp HEntered new_req) eq_refl eq_refl)
      as (d & waited & r' & Hr & Hh). exists d, waited. by rewrite Hr; cbn; rewrite Hh.
  - eapply reach_step; [by apply reach_init|]. exists 0%nat Enter; [reflexivity|by split].
Defined.

Lemma queue_capacity_loss_witness :
  let s := after (lose_slot 0) in
  count_if leaked s.2 = 1 /\ count_if serving s.2 + count_if leaked s.2 <= 1.
Proof.
  cbv zeta. split; [reflexivity|].
  apply (queue_capacity_loss (mkQueueConfig 1 1 second true) 2 (after (lose_slot 0)) (after (lose_slot 0))).
  - apply after_reachable. reflexivity.
  - constructor.
Defined.
