(* ===== verification/Log.v ===== *)
(** * Logging: [internal/log/logHelpers.go] and [internal/log/logProxy.go]

    A log line goes to the program's standard log and, as a stream with labels, to
    Loki.  [LogCall] is what the proxy asks its log to record; [log_proxy] is what is
    emitted for it.  The formatting of [fmt] is written out for the values the lines
    hold, with [strconv.Quote] and the escaping of a URL's path as parameters. *)
From S2P Require Import Prelude GoStrings GoTime GoNet.
#[local] Open Scope Z_scope.

(** ** The entry points of [logProxy.go] *)

Inductive LogCall :=
| LogProxyRequest (r : Request)
| LogProxyError (status : Z) (cacheLabel upstreamName : string) (r : Request) (err : string)
| LogProxyRequestCacheHit (r : Request)
| LogProxyResponseCacheHit (status bytesWritten duration : Z) (respHeaders : Header) (r : Request)
    (notModified : bool) (respBodyNote : string).

(** ** State *)

(** A line pushed to Loki: the labels of its stream, its time and its text. *)
Record Push := mkPush {
  push_url : string;
  streamLabels : gmap string string;
  timestampNanos : string;
  push_line : string;
}.

(** The package's variables, and what was printed and pushed, oldest first. *)
Record LogState := mkLog {
  lokiURL : string;
  lokiOnce : bool;           (* whether [initLoki] has run *)
  infoEnabled : bool;
  debugEnabled : bool;
  errorEnabled : bool;
  printed : list string;
  pushed : list Push;
}.
Definition log_init : LogState := mkLog "" false true true true [] [].

Definition with_printed (l : list string) (s : LogState) : LogState :=
  mkLog (lokiURL s) (lokiOnce s) (infoEnabled s) (debugEnabled s) (errorEnabled s) l (pushed s).
Definition with_pushed (l : list Push) (s : LogState) : LogState :=
  mkLog (lokiURL s) (lokiOnce s) (infoEnabled s) (debugEnabled s) (errorEnabled s) (printed s) l.
Definition print (line : string) (s : LogState) : LogState := with_printed (printed s ++ [line]) s.

(** ** Helpers *)

Section Helpers.
Context `{U : Unicode}.

Definition cache_control_part (raw : string) : list string :=
  let part := TrimSpace (ToLower raw) in
  if bool_decide (part = "") then [] else [part].
Definition parseCacheControlList (headerValue : string) : list string :=
  if bool_decide (headerValue = "") then []
  else Split headerValue ","%char ≫= cache_control_part.

Definition isMetricsScrape (req : Request) : bool :=
  if bool_decide (Path (rURL req) = "/metrics") then true
  else if Contains (reqGet req "User-Agent") "Prometheus" then true
  else if Contains (reqGet req "Accept") "openmetrics" then true
  else false.

Definition levelEnabled (s : LogState) (level : string) : bool :=
  let l := ToLower (TrimSpace level) in
  if bool_decide (l = "debug") then debugEnabled s
  else if bool_decide (l = "error") then errorEnabled s
  else infoEnabled s.
End Helpers.

(** A name, or [unknown] where it is blank. *)
Definition or_unknown (s : string) : string := if bool_decide (TrimSpace s = "") then "unknown" else s.

(** ** [initLoki] *)

(** The sections of the file [initLoki] reads. *)
Record LoggingSection := mkLogging {
  info_enabled : option bool;
  debug_enabled : option bool;
  error_enabled : option bool;
}.
Record LogFile := mkLogFile { loki_url : option string; logging : option LoggingSection }.

Record LogEnv := mkLogEnv {
  log_exists : string -> bool;                       (* os.Stat without error *)
  log_read : string -> option string;                (* os.ReadFile *)
  log_unmarshal : string -> option LogFile;          (* yaml.Unmarshal *)
  log_enabled : bool;                                (* not a test binary *)
  valid_request_url : string -> bool;                (* http.NewRequest without error *)
  os_Hostname : option string;
}.

Definition push_path : string := "/loki/api/v1/push".

Section Logging.
Context `{U : Unicode}.
Variable env : LogEnv.

Definition MustHostname : string :=
  match os_Hostname env with
  | Some h => if bool_decide (h = "") then "unknown" else h
  | None => "unknown"
  end.

Definition log_config_path : option string :=
  head (filter (fun p => log_exists env p = true) ["configs/config.yaml"; "configs/config.yml"]).
Definition log_file : option LogFile :=
  match log_config_path with
  | Some p => match log_read env p with Some b => log_unmarshal env b | None => None end
  | None => None
  end.

(** A base address becomes the address lines are pushed to. *)
Definition normalize_loki (url : string) : string :=
  if bool_decide (url <> "") && negb (Contains url push_path) then TrimRight url "/" +:+ push_path else url.

Definition initLoki (s : LogState) : LogState :=
  let url := match log_file with
             | Some f => match loki_url f with
                         | Some u => if bool_decide (TrimSpace u <> "") then TrimSpace u else ""
                         | None => ""
                         end
             | None => ""
             end in
  let l := match log_file with
           | Some f => default (mkLogging None None None) (logging f)
           | None => mkLogging None None None
           end in
  mkLog (normalize_loki url) true (default (infoEnabled s) (info_enabled l))
    (default (debugEnabled s) (debug_enabled l)) (default (errorEnabled s) (error_enabled l))
    (printed s) (pushed s).

(** [lokiOnce.Do(initLoki)] *)
Definition once_init (s : LogState) : LogState := if lokiOnce s then s else initLoki s.

(** ** Emitting *)

Definition stream_labels (level app : string) (labels : gmap string string) : gmap string string :=
  filter (fun kv => TrimSpace kv.1 <> "") labels
  ∪ {["app" := app; "level" := ToLower (TrimSpace level)]}.

Definition PushLokiWithLevel (now : Z) (level app : string) (labels : gmap string string) (line : string)
    (s : LogState) : LogState :=
  let s := once_init s in
  if bool_decide (lokiURL s = "") || negb (levelEnabled s level) then s
  else if valid_request_url env (lokiURL s)
  then with_pushed (pushed s ++ [mkPush (lokiURL s) (stream_labels level app labels) (Itoa now) line]) s
  else s.

Definition Emit (now : Z) (level app : string) (labels : gmap string string) (line : string)
    (s : LogState) : LogState :=
  let normalizedLevel := ToLower level in
  let s := if log_enabled env && levelEnabled s normalizedLevel then print line s else s in
  PushLokiWithLevel now normalizedLevel app labels line s.
End Logging.

(** ** Formatting *)

(** [%v] of a slice of strings and of maps, which [fmt] prints in the order of the keys. *)
Definition fmt_strings (l : list string) : string := "[" +:+ Join l " " +:+ "]".
Definition sorted_keys {A} (m : gmap string A) : list string := sort_strings (map_to_list m).*1.
Definition fmt_map {A} (f : A -> string) (m : gmap string A) : string :=
  "map[" +:+ Join ((fun k => match m !! k with Some v => k +:+ ":" +:+ f v | None => "" end) <$> sorted_keys m) " " +:+ "]".
Definition fmt_header (h : Header) : string := fmt_map fmt_strings h.
Definition fmt_bool (b : bool) : string := if b then "true" else "false".

Example fmt_header_ex : fmt_header {["B" := ["2"; "3"]; "A" := ["1"]]} = "map[A:[1] B:[2 3]]".
Proof. vm_compute. reflexivity. Qed.

(** What else a line needs of a request and of the library. *)
Class Format := {
  RequestURI : URL -> string;        (* URL.RequestURI *)
  Proto : Request -> string;         (* the protocol version of the request *)
  Quote : string -> string;          (* the %q verb *)
}.

Section Lines.
Context `{U : Unicode} `{F : Format}.

Definition request_id (r : Request) : string := reqGet r "X-Request-ID".

Definition log_labels (method status cache upstream host id url : string) : gmap string string :=
  {["method" := method; "status" := status; "cache" := cache; "upstream" := upstream;
    "host" := host; "request_id" := id; "url" := url]}.

(** The cache-related part of a response line. *)
Definition cache_note (r : Request) (respHeaders : Header) (notModified : bool) (note : string) : string :=
  " | cache:req_cc=" +:+ fmt_strings (parseCacheControlList (reqGet r "Cache-Control"))
  +:+ " resp_cc=" +:+ fmt_strings (parseCacheControlList (hGet respHeaders "Cache-Control"))
  +:+ " etag=" +:+ Quote (hGet respHeaders "ETag")
  +:+ " last-modified=" +:+ Quote (hGet respHeaders "Last-Modified")
  +:+ " expires=" +:+ Quote (hGet respHeaders "Expires")
  +:+ " age=" +:+ Quote (hGet respHeaders "Age")
  +:+ " via=" +:+ Quote (hGet respHeaders "Via")
  +:+ " x-cache=" +:+ Quote (hGet respHeaders "X-Cache")
  +:+ " not-modified=" +:+ fmt_bool notModified +:+ note.

(** The detailed line of a request. *)
Definition request_debug_line (r : Request) : string :=
  "REQ remote=" +:+ RemoteAddr r +:+ " method=" +:+ Method r +:+ " url=" +:+ RequestURI (rURL r)
  +:+ " proto=" +:+ Proto r +:+ " req-content-length=" +:+ reqGet r "Content-Length"
  +:+ " headers=" +:+ fmt_header (rHeader r).

(** A line to emit: level, labels, text. *)
Record Line := mkLine { l_level : string; l_labels : gmap string string; l_text : string }.

(** The lines of each entry point, in order; [host] is [MustHostname()]. *)
Definition log_lines (host : string) (c : LogCall) : list Line :=
  match c with
  | LogProxyRequest r =>
      let uri := RequestURI (rURL r) in
      let labels := log_labels (Method r) "pending" "MISS" (or_unknown (reqGet r "X-Upstream")) host
                      (request_id r) uri in
      [mkLine "info" labels ("REQ method=" +:+ Method r +:+ " url=" +:+ uri +:+ " | cache=MISS req_id=" +:+ request_id r);
       mkLine "debug" labels (request_debug_line r)]
  | LogProxyError status cacheLabel upstreamName r err =>
      let uri := RequestURI (rURL r) in
      let upstreamName := or_unknown upstreamName in
      let labels := log_labels (Method r) (Itoa status) cacheLabel upstreamName host (request_id r) uri in
      [mkLine "error" labels
         ("ERROR status=" +:+ Itoa status +:+ " method=" +:+ Method r +:+ " url=" +:+ uri +:+ " upstream=" +:+ upstreamName
          +:+ " cache=" +:+ cacheLabel +:+ " err=" +:+ err +:+ " req_id=" +:+ request_id r)]
  | LogProxyRequestCacheHit r =>
      let uri := RequestURI (rURL r) in
      let labels := log_labels (Method r) "200" "HIT" (or_unknown (reqGet r "X-Upstream")) host
                      (request_id r) uri in
      [mkLine "info" labels ("REQ method=" +:+ Method r +:+ " url=" +:+ uri +:+ " | cache=HIT req_id=" +:+ request_id r);
       mkLine "debug" labels (request_debug_line r +:+ " | CACHE HIT")]
  | LogProxyResponseCacheHit status bytesWritten duration respHeaders r notModified respBodyNote =>
      let debugLine :=
        "RESP status=" +:+ Itoa status +:+ " bytes=" +:+ Itoa bytesWritten +:+ " dur=" +:+ DurationString duration
        +:+ " resp-content-length=" +:+ hGet respHeaders "Content-Length"
        +:+ " resp_headers=" +:+ fmt_header respHeaders
        +:+ cache_note r respHeaders notModified respBodyNote in
      let cacheLabel := hGet respHeaders "X-Cache" in
      let upstreamName := or_unknown (hGet respHeaders "X-Upstream") in
      let labels := log_labels (Method r) (Itoa status) cacheLabel upstreamName host (request_id r)
                      (RequestURI (rURL r)) in
      let summary := " status=" +:+ Itoa status +:+ " bytes=" +:+ Itoa bytesWritten +:+ " dur=" +:+ DurationString duration
        +:+ " cache=" +:+ cacheLabel +:+ " upstream=" +:+ upstreamName +:+ " req_id=" +:+ request_id r in
      [mkLine "info" labels ("RESP" +:+ summary); mkLine "debug" labels debugLine]
      ++ if 400 <=? status then
           let errLine := "ERROR" +:+ summary in
           [mkLine "error" labels
              (if bool_decide (TrimSpace respBodyNote <> "") then errLine +:+ " " +:+ TrimSpace respBodyNote
               else errLine)]
         else []
  end.

(** Emitting lines, each with the time at which it is pushed. *)
Definition emit_line (env : LogEnv) (app : string) (now : Z) (l : Line) (s : LogState) : LogState :=
  Emit env now (l_level l) app (l_labels l) (l_text l) s.
Definition emit_lines (env : LogEnv) (app : string) (times : nat -> Z) (ls : list Line) (s : LogState) : LogState :=
  foldl (fun s p => emit_line env app (times p.1) p.2 s) s (zip (seq 0 (length ls)) ls).
Definition log_proxy (env : LogEnv) (times : nat -> Z) (c : LogCall) (s : LogState) : LogState :=
  emit_lines env "proxy" times (log_lines (MustHostname env) c) s.
End Lines.

(** ** Facts *)

Lemma prefix_b_refl l : prefix_b l l = true.
Proof. induction l as [|c l IH]; [done|]. cbn. by rewrite Ascii.eqb_refl. Qed.

Lemma Contains_suffix a p : Contains (a +:+ p) p = true.
Proof.
  unfold Contains. rewrite bytes_app. induction (bytes a) as [|c l IH]; cbn [app].
  - destruct (bytes p) as [|c l] eqn:Hp; [done|]. cbn. by rewrite Ascii.eqb_refl, prefix_b_refl.
  - cbn [contains_b]. by rewrite IH, orb_true_r.
Qed.

(** The push address: empty, or one that holds the push path; normalising is idempotent. *)
Lemma normalize_loki_spec url :
  (normalize_loki url = "" <-> url = "")
  /\ (url <> "" -> Contains (normalize_loki url) push_path = true)
  /\ normalize_loki (normalize_loki url) = normalize_loki url.
Proof.
  unfold normalize_loki at 1 2 4 5. case_bool_decide as Hu; cbn [andb]; [|].
  - destruct (Contains url push_path) eqn:Hc; cbn [negb].
    + split_and!; [done|done|]. unfold normalize_loki. by rewrite Hc, andb_false_r.
    + split_and!; [|intros _; apply Contains_suffix|].
      * split; [|done]. intros H%(f_equal bytes). rewrite bytes_app in H. by apply app_eq_nil in H as [_ H].
      * unfold normalize_loki. by rewrite Contains_suffix, andb_false_r.
  - destruct (decide (url = "")) as [->|]; [done|contradiction].
Qed.

Section LogFacts.
Context `{U : Unicode} `{F : Format}.
Variable env : LogEnv.

(** What is set once and for all when the file has been read. *)
Definition same_settings (s s' : LogState) : Prop :=
  lokiURL s' = lokiURL s /\ lokiOnce s' = lokiOnce s /\ infoEnabled s' = infoEnabled s
  /\ debugEnabled s' = debugEnabled s /\ errorEnabled s' = errorEnabled s.

Lemma levelEnabled_settings s s' level : same_settings s s' -> levelEnabled s' level = levelEnabled s level.
Proof. intros (_ & _ & H1 & H2 & H3). unfold levelEnabled. by rewrite H1, H2, H3. Qed.

(** Whether lines of a level are printed, and pushed. *)
Definition prints (s : LogState) (level : string) : bool := log_enabled env && levelEnabled s (ToLower level).
Definition pushes (s : LogState) (level : string) : bool :=
  negb (bool_decide (lokiURL s = "")) && levelEnabled s (ToLower level) && valid_request_url env (lokiURL s).

Lemma prints_settings s s' level : same_settings s s' -> prints s' level = prints s level.
Proof. intros H. unfold prints. by rewrite (levelEnabled_settings _ _ _ H). Qed.
Lemma pushes_settings s s' level : same_settings s s' -> pushes s' level = pushes s level.
Proof. intros H. unfold pushes. rewrite (levelEnabled_settings _ _ _ H). by destruct H as (-> & _). Qed.

Definition push_of (s : LogState) (app : string) (now : Z) (l : Line) : Push :=
  mkPush (lokiURL s) (stream_labels (ToLower (l_level l)) app (l_labels l)) (Itoa now) (l_text l).

Lemma once_init_done s : lokiOnce s = true -> once_init env s = s.
Proof. unfold once_init. by intros ->. Qed.
Lemma once_init_once s : lokiOnce (once_init env s) = true.
Proof. unfold once_init. by destruct (lokiOnce s) eqn:Ho. Qed.
Lemma once_init_output s : printed (once_init env s) = printed s /\ pushed (once_init env s) = pushed s.
Proof. unfold once_init. by destruct (lokiOnce s). Qed.
Lemma once_init_print line s : once_init env (print line s) = print line (once_init env s).
Proof. unfold once_init. cbn. by destruct (lokiOnce s). Qed.

(** One line: printed by the switches before the settings are read, pushed by those after. *)
Lemma emit_line_spec app now l s :
  let s0 := once_init env s in
  let s' := emit_line env app now l s in
  same_settings s0 s'
  /\ printed s' = printed s ++ (if prints s (l_level l) then [l_text l] else [])
  /\ pushed s' = pushed s ++ (if pushes s0 (l_level l) then [push_of s0 app now l] else []).
Proof.
  cbv zeta. unfold emit_line, Emit, PushLokiWithLevel.
  destruct (once_init_output s) as [O1 O2]. set (s0 := once_init env s) in *.
  assert (H1 : exists s1, once_init env (if log_enabled env && levelEnabled s (ToLower (l_level l))
                                         then print (l_text l) s else s) = s1
               /\ same_settings s0 s1 /\ pushed s1 = pushed s
               /\ printed s1 = printed s ++ (if prints s (l_level l) then [l_text l] else [])).
  { fold (prints s (l_level l)). destruct (prints s (l_level l)); eexists; (split; [reflexivity|]).
    - rewrite once_init_print. fold s0. cbn. by rewrite O1.
    - fold s0. by rewrite app_nil_r. }
  destruct H1 as (s1 & -> & H1 & H3 & H2). clearbody s0.
  rewrite (levelEnabled_settings _ _ _ H1). destruct H1 as (E1 & E2 & E3 & E4 & E5). rewrite E1.
  unfold pushes.
  destruct (bool_decide (lokiURL s0 = "")); cbn [orb negb andb]; [by rewrite app_nil_r; split_and!|].
  destruct (levelEnabled s0 (ToLower (l_level l))); cbn [negb andb]; [|by rewrite app_nil_r; split_and!].
  destruct (valid_request_url env (lokiURL s0)); [|by rewrite app_nil_r; split_and!].
  unfold with_pushed. cbn. rewrite H3. unfold push_of. by split_and!.
Qed.
End LogFacts.

(** ** Properties *)

Section LogProperties.
Context `{U : Unicode} `{F : Format}.
Variable env : LogEnv.

Lemma same_settings_trans s1 s2 s3 : same_settings s1 s2 -> same_settings s2 s3 -> same_settings s1 s3.
Proof. unfold same_settings. intuition congruence. Qed.

Lemma push_of_settings s s' app now l : lokiURL s' = lokiURL s -> push_of s' app now l = push_of s app now l.
Proof. unfold push_of. by intros ->. Qed.

Lemma emit_fold_spec app (times : nat -> Z) (ls : list Line) (n : nat) (s : LogState) :
  lokiOnce s = true ->
  let s' := foldl (fun s p => emit_line env app (times p.1) p.2 s) s (zip (seq n (length ls)) ls) in
  same_settings s s'
  /\ printed s' = printed s ++ (l_text <$> filter (fun l => prints env s (l_level l) = true) ls)
  /\ push_line <$> pushed s' = (push_line <$> pushed s) ++ (l_text <$> filter (fun l => pushes env s (l_level l) = true) ls)
  /\ forall p, p ∈ pushed s' -> p ∈ pushed s \/ exists l t, l ∈ ls /\ p = push_of s app t l.
Proof.
  revert n s. induction ls as [|l ls IH]; intros n s Ho.
  - cbn. rewrite !app_nil_r. split_and!; try done. by left.
  - cbn [length seq zip_with foldl fst snd].
    destruct (emit_line_spec env app (times n) l s) as (E & P1 & P2). rewrite once_init_done in * by done.
    set (s1 := emit_line env app (times n) l s) in *.
    assert (Ho1 : lokiOnce s1 = true) by (destruct E as (_ & -> & _); done).
    destruct (IH (S n) s1 Ho1) as (I & J1 & J2 & J3). cbv zeta.
    split; [by eapply same_settings_trans|]. rewrite J1, J2, P1, P2, fmap_app, <- !app_assoc.
    rewrite !filter_cons.
    rewrite (filter_ext_in (fun l => prints env s1 (l_level l) = true) (fun l => prints env s (l_level l) = true))
      by (intros; by rewrite (prints_settings env _ _ _ E)).
    rewrite (filter_ext_in (fun l => pushes env s1 (l_level l) = true) (fun l => pushes env s (l_level l) = true))
      by (intros; by rewrite (pushes_settings env _ _ _ E)).
    split_and!.
    + destruct (prints env s (l_level l)); cbn; by rewrite ?decide_True, ?decide_False by done.
    + destruct (pushes env s (l_level l)); cbn; by rewrite ?decide_True, ?decide_False by done.
    + intros p [Hp|(l' & t & Hl & ->)]%J3.
      * rewrite P2 in Hp. apply elem_of_app in Hp as [Hp|Hp]; [by left|].
        destruct (pushes env s (l_level l)); [|by apply elem_of_nil in Hp].
        apply list_elem_of_singleton in Hp as ->. right. exists l, (times n). set_solver.
      * right. exists l', t. split; [set_solver|]. apply push_of_settings. by destruct E as (-> & _).
Qed.

Lemma or_unknown_nonblank u : TrimSpace (or_unknown u) <> "".
Proof. unfold or_unknown. by case_bool_decide. Qed.

(** The labels every line of the proxy carries. *)
Definition proxy_labels (l : Line) : Prop :=
  l_level l ∈ ["info"; "debug"; "error"] /\
  exists m st ca u h id url, l_labels l = log_labels m st ca u h id url /\ TrimSpace u <> "".

Lemma log_lines_labels host c : Forall proxy_labels (log_lines host c).
Proof.
  assert (Hl : forall lv m st ca u id url t, lv ∈ ["info"; "debug"; "error"] ->
    proxy_labels (mkLine lv (log_labels m st ca (or_unknown u) host id url) t)).
  { intros. split; [done|]. repeat eexists. apply or_unknown_nonblank. }
  destruct c; cbn [log_lines]; try (apply Forall_app; split); repeat constructor; try (apply Hl; set_solver).
  destruct (400 <=? status); repeat constructor; apply Hl; set_solver.
Qed.

Lemma stream_labels_lookup level app labels k :
  stream_labels level app labels !! k =
  match (if bool_decide (TrimSpace k = "") then None else labels !! k) with
  | Some v => Some v
  | None => ({["app" := app; "level" := ToLower (TrimSpace level)]} : gmap string string) !! k
  end.
Proof.
  unfold stream_labels. rewrite lookup_union, map_lookup_filter. cbn [fst].
  case_bool_decide as Hk; destruct (labels !! k) as [v|]; cbn;
    rewrite ?option_guard_True, ?option_guard_False by (done || by intros ?); cbn;
    by destruct (_ !! k).
Qed.

Lemma push_of_labels s t l :
  proxy_labels l ->
  let p := push_of s "proxy" t l in
  push_url p = lokiURL s /\ streamLabels p !! "app" = Some "proxy"
  /\ streamLabels p !! "level" = Some (l_level l)
  /\ exists u, streamLabels p !! "upstream" = Some u /\ TrimSpace u <> "".
Proof.
  intros (Hlv & m & st & ca & u & h & id & url & Hl & Hu). cbv zeta. unfold push_of. cbn [push_url streamLabels].
  rewrite Hl, !stream_labels_lookup. change (bool_decide (TrimSpace "app" = "")) with false.
  change (bool_decide (TrimSpace "level" = "")) with false. change (bool_decide (TrimSpace "upstream" = "")) with false.
  unfold log_labels. split_and!; [done|by simplify_map_eq| |exists u; by simplify_map_eq].
  simplify_map_eq. rewrite !elem_of_cons in Hlv. destruct Hlv as [->|[->|[->|[]%elem_of_nil]]]; reflexivity.
Qed.

(** A first line, and those after it. *)
Lemma emit_lines_cons app times l ls s :
  emit_lines env app times (l :: ls) s
  = foldl (fun s p => emit_line env app (times p.1) p.2 s) (emit_line env app (times 0%nat) l s)
      (zip (seq 1 (length ls)) ls).
Proof. done. Qed.

(** [C30] What a call on the proxy's log does.  The settings are read from the file if
    this is the first call, and otherwise stay as they are: [s0].  The lines whose
    level is enabled are printed, in order - by the switches of [s0], except that the
    first line of the call goes by those before the file was read.  The lines enabled in
    [s0], and no others, are pushed when Loki is configured, each in a stream that names
    the application, the level and the upstream, which is never blank. *)
Theorem log_proxy_emits (times : nat -> Z) (c : LogCall) (s : LogState) :
  let s0 := once_init env s in
  let s' := log_proxy env times c s in
  let lines := log_lines (MustHostname env) c in
  same_settings s0 s' /\ (lokiOnce s = true -> s0 = s)
  /\ printed s' = printed s ++ (l_text <$> filter (fun l => prints env s (l_level l) = true) (take 1 lines))
                           ++ (l_text <$> filter (fun l => prints env s0 (l_level l) = true) (drop 1 lines))
  /\ push_line <$> pushed s' = (push_line <$> pushed s) ++ (l_text <$> filter (fun l => pushes env s0 (l_level l) = true) lines)
  /\ forall p, p ∈ pushed s' -> p ∈ pushed s
     \/ push_url p = lokiURL s0 /\ streamLabels p !! "app" = Some "proxy"
        /\ (exists l, l ∈ lines /\ streamLabels p !! "level" = Some (l_level l) /\ push_line p = l_text l)
        /\ exists u, streamLabels p !! "upstream" = Some u /\ TrimSpace u <> "".
Proof.
  cbv zeta. pose proof (log_lines_labels (MustHostname env) c) as Hall. rewrite Forall_forall in Hall.
  unfold log_proxy. destruct (log_lines (MustHostname env) c) as [|l ls] eqn:Hl; [by destruct c|].
  rewrite emit_lines_cons. destruct (emit_line_spec env "proxy" (times 0%nat) l s) as (E & P1 & P2).
  set (s0 := once_init env s) in *. set (s1 := emit_line env "proxy" (times 0%nat) l s) in *.
  assert (Ho1 : lokiOnce s1 = true) by (destruct E as (_ & -> & _); apply once_init_once).
  destruct (emit_fold_spec "proxy" times ls 1 s1 Ho1) as (I & J1 & J2 & J3). cbv zeta in *.
  split; [by eapply same_settings_trans|]. split; [apply once_init_done|].
  rewrite J1, J2, P1, P2, fmap_app, <- !app_assoc. cbn [take drop]. rewrite take_0, !filter_cons, filter_nil.
  rewrite (filter_ext_in (fun l => prints env s1 (l_level l) = true) (fun l => prints env s0 (l_level l) = true))
    by (intros; by rewrite (prints_settings env _ _ _ E)).
  rewrite (filter_ext_in (fun l => pushes env s1 (l_level l) = true) (fun l => pushes env s0 (l_level l) = true))
    by (intros; by rewrite (pushes_settings env _ _ _ E)).
  assert (Hnew : forall x t p, x ∈ l :: ls -> p = push_of s0 "proxy" t x ->
     push_url p = lokiURL s0 /\ streamLabels p !! "app" = Some "proxy"
        /\ (exists y, y ∈ l :: ls /\ streamLabels p !! "level" = Some (l_level y) /\ push_line p = l_text y)
        /\ exists u, streamLabels p !! "upstream" = Some u /\ TrimSpace u <> "").
  { intros x t p Hx ->. destruct (push_of_labels s0 t x (Hall x Hx)) as (H1 & H2 & H3 & H4). eauto 10. }
  split_and!.
  - destruct (prints env s (l_level l)); cbn; by rewrite ?decide_True, ?decide_False by done.
  - destruct (pushes env s0 (l_level l)); cbn; by rewrite ?decide_True, ?decide_False by done.
  - intros p [Hp|(x & t & Hx & ->)]%J3.
    + rewrite P2 in Hp. apply elem_of_app in Hp as [Hp|Hp]; [by left|right].
      destruct (pushes env s0 (l_level l)); [|by apply elem_of_nil in Hp].
      apply list_elem_of_singleton in Hp. eapply Hnew; [|done]. set_solver.
    + right. eapply (Hnew x t); [set_solver|]. apply push_of_settings. by destruct E as (-> & _).
Qed.

(** The lines of a call: a request has a concise and a detailed one, a failure an
    error, and a response both and, from status 400 on, exactly one error as well. *)
Theorem log_lines_levels (host : string) (c : LogCall) :
  l_level <$> log_lines host c =
  match c with
  | LogProxyRequest _ | LogProxyRequestCacheHit _ => ["info"; "debug"]
  | LogProxyError _ _ _ _ _ => ["error"]
  | LogProxyResponseCacheHit status _ _ _ _ _ _ =>
      ["info"; "debug"] ++ if 400 <=? status then ["error"] else []
  end.
Proof. destruct c; try done. cbn. by destruct (400 <=? status). Qed.
End LogProperties.

Section LogStart.
Context `{U : Unicode}.
Variable env : LogEnv.

Lemma Emit_settings now level app labels line s :
  same_settings (once_init env s) (Emit env now level app labels line s).
Proof.
  unfold Emit, PushLokiWithLevel.
  set (s1 := if _ && _ then print _ s else s).
  assert (H : same_settings (once_init env s) (once_init env s1)).
  { unfold s1. destruct (_ && _); [|done]. unfold once_init. cbn. by destruct (lokiOnce s). }
  repeat match goal with |- context [if ?b then _ else _] => destruct b end; try done.
Qed.

(** The first line emitted reads the file's settings, once and for all: an address
    that is absent or holds the push path, and the switches the file sets.  But the
    line itself is printed before they are read: it appears even if the file switches
    its level off. *)
Theorem first_emit (now : Z) (level app : string) (labels : gmap string string) (line : string) :
  let s := Emit env now level app labels line log_init in
  same_settings (initLoki env log_init) s
  /\ lokiOnce s = true
  /\ (lokiURL s = "" \/ Contains (lokiURL s) push_path = true)
  /\ (log_enabled env = true -> printed s = [line]).
Proof.
  cbv zeta. pose proof (Emit_settings now level app labels line log_init) as E.
  change (once_init env log_init) with (initLoki env log_init) in E.
  split; [done|]. destruct E as (E1 & E2 & _). split; [done|]. split.
  - rewrite E1. unfold initLoki. cbn [lokiURL].
    match goal with |- context [normalize_loki ?u] => destruct (normalize_loki_spec u) as (N1 & N2 & _);
      destruct (decide (u = "")) as [He|He]; [left; by apply N1|right; by apply N2] end.
  - intros Hl. unfold Emit. rewrite Hl.
    assert (Hlv : levelEnabled log_init (ToLower level) = true).
    { unfold levelEnabled. by repeat case_bool_decide. }
    rewrite Hlv. cbn [andb]. unfold PushLokiWithLevel.
    repeat match goal with |- context [if ?b then _ else _] => destruct b end; done.
Qed.
End LogStart.

(** ** Instances *)

#[local] Existing Instance ascii_only.

Definition sample_format : Format := {|
  RequestURI := Path;
  Proto := fun _ => "HTTP/1.1";
  Quote := fun s => str [byte 34] +:+ s +:+ str [byte 34];
|}.
#[local] Existing Instance sample_format.

(** A file that sets a base address and switches [debug] off. *)
Definition sample_log_env : LogEnv :=
  mkLogEnv (fun p => bool_decide (p = "configs/config.yml")) (fun _ => Some "")
    (fun _ => Some (mkLogFile (Some " http://promtail:9080/ ") (Some (mkLogging None (Some false) None))))
    true (fun _ => true) (Some "proxy-1").

Definition sample_get : Request :=
  mkRequest "GET" (mkURL "" "" "/news" "") "shop" {["X-Request-Id" := ["7-1"]]} NoBody "10.0.0.9:5000" false emptyCtx.

Example loki_address : lokiURL (initLoki sample_log_env log_init) = "http://promtail:9080/loki/api/v1/push".
Proof. vm_compute. reflexivity. Qed.

(** The first call of all: its second line is already subject to the file. *)
Lemma log_proxy_emits_witness :
  let s' := log_proxy sample_log_env Z.of_nat (LogProxyRequest sample_get) log_init in
  printed s' = ["REQ method=GET url=/news | cache=MISS req_id=7-1"] /\ push_line <$> pushed s' = printed s'.
Proof.
  cbv zeta.
  destruct (log_proxy_emits sample_log_env Z.of_nat (LogProxyRequest sample_get) log_init) as (_ & _ & -> & -> & _).
  vm_compute. split; reflexivity.
Defined.

(** The first detailed line is printed although the file switches it off; the second is not. *)
Example first_line_printed :
  let s := Emit sample_log_env 0 "debug" "proxy" ∅ "one" log_init in
  printed (Emit sample_log_env 0 "debug" "proxy" ∅ "two" s) = ["one"].
Proof. vm_compute. reflexivity. Qed.
