(* ===== verification/Proxy.v ===== *)
(** * The reverse proxy

    [internal/proxy/proxy.go] and [internal/proxy/requestId.go]: the request
    handler, the upstream path and the request rewriting, written in a state monad
    over the proxy's state, against the interfaces [Cache] and [Balancer].

    A handler's environment is an oracle indexed by [ticks], the number of times the
    environment has been asked: the clock, the probes, the upstream's answers, the
    client's cancellation, and how the queue disposed of the request. *)
From S2P Require Import Prelude GoStrings GoTime GoNet Queue.
From S2P Require Import Headers CacheControl LruCache Balancer Sha256 Metrics Log.
#[local] Open Scope Z_scope.

(** ** State *)

(** The fields of [ReverseProxy] but [transport], which is the environment's
    [RoundTrip].  [handler] is [serveUpstream], wrapped by the queue or not. *)
Record ReverseProxy (C B : Type) := mkProxy {
  target : URL;
  targets : list URL;
  cache : C;
  cacheOn : bool;
  handler : option QueueConfig;
  allowedMethods : Allowed;
  rp_balancer : B;
  lbStrategy : string;
  healthChecksEnabled : bool;
}.
Arguments mkProxy {C B}.
Arguments target {C B}. Arguments targets {C B}. Arguments cache {C B}. Arguments cacheOn {C B}.
Arguments handler {C B}. Arguments allowedMethods {C B}. Arguments rp_balancer {C B}.
Arguments lbStrategy {C B}. Arguments healthChecksEnabled {C B}.

(** The proxy, the package-level variables it uses, and what it did to the outside:
    the calls on metrics and log and the requests sent upstream, oldest first. *)
Record World (C B : Type) := mkWorld {
  proxy : ReverseProxy C B;
  defaultTTL : TTLCell;
  requestCounter : Z;            (* int64, atomic *)
  metric_calls : list Call;
  log_calls : list LogCall;
  sent : list Request;
  ticks : nat;
}.
Arguments mkWorld {C B}.
Arguments proxy {C B}. Arguments defaultTTL {C B}. Arguments requestCounter {C B}.
Arguments metric_calls {C B}. Arguments log_calls {C B}. Arguments sent {C B}. Arguments ticks {C B}.

(** What a round trip returns: status, header and body, or an error's text. *)
Record Upstream := mkUpstream { up_status : Z; up_header : Header; up_body : Body }.

Record Env := mkEnv {
  clock : nat -> Z;                        (* time.Now, in nanoseconds *)
  http_get : Probes;                       (* health probes *)
  RoundTrip : nat -> Request -> result Upstream string;
  ctx_done : nat -> option ctx_error;      (* the error of the request's context *)
  read_error : nat -> string;              (* the text of a failed body read *)
  queue_outcome : nat -> outcome;          (* how the admission queue disposes of it *)
}.

#[local] Open Scope handler_scope.

Section Effects.
Context {C B : Type}.
Implicit Types (w : World C B).

Definition with_proxy (p : ReverseProxy C B) w : World C B :=
  mkWorld p (defaultTTL w) (requestCounter w) (metric_calls w) (log_calls w) (sent w) (ticks w).
Definition with_counter (n : Z) w : World C B :=
  mkWorld (proxy w) (defaultTTL w) n (metric_calls w) (log_calls w) (sent w) (ticks w).
Definition with_metrics (l : list Call) w : World C B :=
  mkWorld (proxy w) (defaultTTL w) (requestCounter w) l (log_calls w) (sent w) (ticks w).
Definition with_logs (l : list LogCall) w : World C B :=
  mkWorld (proxy w) (defaultTTL w) (requestCounter w) (metric_calls w) l (sent w) (ticks w).
Definition with_sent (l : list Request) w : World C B :=
  mkWorld (proxy w) (defaultTTL w) (requestCounter w) (metric_calls w) (log_calls w) l (ticks w).
Definition with_ticks (n : nat) w : World C B :=
  mkWorld (proxy w) (defaultTTL w) (requestCounter w) (metric_calls w) (log_calls w) (sent w) n.

Definition with_cache (c : C) (p : ReverseProxy C B) : ReverseProxy C B :=
  mkProxy (target p) (targets p) c (cacheOn p) (handler p) (allowedMethods p) (rp_balancer p)
          (lbStrategy p) (healthChecksEnabled p).
Definition with_balancer (b : B) (p : ReverseProxy C B) : ReverseProxy C B :=
  mkProxy (target p) (targets p) (cache p) (cacheOn p) (handler p) (allowedMethods p) b
          (lbStrategy p) (healthChecksEnabled p).

Definition set_cache (c : C) w : World C B := with_proxy (with_cache c (proxy w)) w.
Definition set_balancer (b : B) w : World C B := with_proxy (with_balancer b (proxy w)) w.

Definition get {A} (f : World C B -> A) : M (World C B) A := fun w => (f w, w).
Definition metrics (l : list Call) : M (World C B) unit :=
  fun w => (tt, with_metrics (metric_calls w ++ l) w).
Definition log (l : LogCall) : M (World C B) unit := fun w => (tt, with_logs (log_calls w ++ [l]) w).

(** Ask the environment once. *)
Definition ask {A} (oracle : nat -> A) : M (World C B) A :=
  fun w => (oracle (ticks w), with_ticks (S (ticks w)) w).
End Effects.

(** ** Request identifiers: [requestId.go] *)

Definition getRequestID (req : Request) : string := TrimSpace (reqGet req "X-Request-ID").

(** [fmt.Sprintf("%d-%d", ...)] *)
Definition fresh_id (nanos counter : Z) : string := Itoa nanos +:+ "-" +:+ Itoa counter.

(** ** Rewriting: [directRequest] *)

Definition forwarded_for (outReq : Request) : Request :=
  match SplitHostPort (RemoteAddr outReq) with
  | Some (clientIP, _) =>
      if bool_decide (clientIP <> "") then
        let xff := reqGet outReq "X-Forwarded-For" in
        if bool_decide (xff = "") then reqSet outReq "X-Forwarded-For" clientIP
        else reqSet outReq "X-Forwarded-For" (xff +:+ ", " +:+ clientIP)
      else outReq
  | None => outReq
  end.

Definition directRequest (outReq : Request) (upstreamTarget : URL) : Request :=
  let u := rURL outReq in
  let outReq := set_url (mkURL (Scheme upstreamTarget) (Host upstreamTarget)
                           (singleJoiningSlash (Path upstreamTarget) (Path u)) (RawQuery u)) outReq in
  let outReq := set_header (foldl hDel (rHeader outReq) hopHeaders) outReq in
  let outReq := forwarded_for outReq in
  let outReq := reqSet outReq "X-Forwarded-Proto" (schemeOf outReq) in
  let outReq := reqSet outReq "X-Forwarded-Host" (rHost outReq) in
  set_host (Host upstreamTarget) outReq.

(** ** The handlers *)

Section Handlers.
Context `{U : Unicode} {C : Type} `{HC : Cache C} {B : Type} `{HB : Balancer B}.
Variable ParseTime : string -> option Z.   (* http.ParseTime *)
Variable env : Env.
Abbreviation World := (World C B).

Definition now : M World Z := ask (clock env).

Definition pick (previewOnly : bool) : M World (option URL) :=
  fun w =>
    let '(u, b) := Pick (fun i => http_get env (ticks w + i)%nat) (rp_balancer (proxy w)) previewOnly in
    (u, with_ticks (ticks w + length (Targets b)) (set_balancer b w)).

Definition acquire (u : URL) : M World (B -> B) :=
  fun w => let '(b, release) := Acquire (rp_balancer (proxy w)) u in (release, set_balancer b w).
Definition run_release (release : B -> B) : M World unit :=
  fun w => (tt, set_balancer (release (rp_balancer (proxy w))) w).

Definition cache_get (key : string) : M World (option CachedResponse * bool * bool) :=
  let! t := now in
  fun w => let '(r, c) := Get (cache (proxy w)) t key in (r, set_cache c w).
Definition cache_set (key : string) (r : CachedResponse) (ttl : Z) : M World unit :=
  let! t := now in
  fun w => (tt, set_cache (SetEntry (cache (proxy w)) (defaultTTL w) t key r ttl) w).

Definition round_trip (r : Request) : M World (result Upstream string) :=
  let! answer := ask (fun n => RoundTrip env n r) in
  fun w => (answer, with_sent (sent w ++ [r]) w).

(** [ensureRequestID]; the request is returned with its header as the call leaves it. *)
Definition ensureRequestID (req : Request) : M World (string * Request) :=
  let requestID := getRequestID req in
  if bool_decide (requestID = "") then
    let! t := now in
    fun w =>
      let n := wrap_i64 (requestCounter w + 1) in
      let id := fresh_id t n in
      ((id, reqSet req "X-Request-ID" id), with_counter n w)
  else ret (requestID, req).

Definition since (t0 : Z) : M World Z := let! t := now in ret (Sub t t0).

Definition set_request_id (req : Request) (w : ResponseWriter) : ResponseWriter :=
  let requestID := getRequestID req in
  if bool_decide (requestID <> "") then wSet "X-Request-ID" requestID w else w.

(** *** The upstream path *)

(** After a failed round trip. *)
Definition upstream_error (w : ResponseWriter) (req : Request) (upstreamTarget : URL)
    (upstreamStartTime endToEndStart : Z) (err : string) : M World ResponseWriter :=
  let! ctxErr := ask (ctx_done env) in
  let statusCode := match ctxErr with Some _ => 408 | None => 502 end in
  let! d1 := since upstreamStartTime in
  metrics (ObserveProxyUpstreamResponse (Host upstreamTarget) (Method req) statusCode d1) ;;;
  let! d2 := since endToEndStart in
  metrics (ObserveProxyResponse (Method req) statusCode "BYPASS" d2) ;;;
  log (LogProxyError statusCode "BYPASS" (Host upstreamTarget) req err) ;;;
  let! gone := ask (ctx_done env) in
  ret (match gone with
       | Some _ => WriteHeader 408 w
       | None => httpError err 502 w
       end).

(** The response as it is sent to the client. *)
Definition write_response (w : ResponseWriter) (statusCode : Z) (sanitizedHeaders : Header)
    (responseBody xCacheState : string) : ResponseWriter :=
  let w := wWithHeader (copyHeader (wHeader w) sanitizedHeaders) w in
  let w := match wHeader w !! "Content-Length" with
           | Some _ => w
           | None => wSet "Content-Length" (Itoa (str_len responseBody)) w
           end in
  Write responseBody (WriteHeader statusCode (wSet "X-Cache" xCacheState w)).

(** After a complete response: answer, observe, log and store. *)
Definition upstream_response (w : ResponseWriter) (req outboundReq : Request) (upstreamTarget : URL)
    (upstreamStartTime endToEndStart : Z) (statusCode : Z) (rawUpstreamHeaders : Header)
    (responseBody : string) : M World ResponseWriter :=
  let sanitizedHeaders := sanitizeResponseHeaders rawUpstreamHeaders in
  let! on := get (fun s => cacheOn (proxy s)) in
  let eligible := on && isCacheableRequest outboundReq && negb (clientNoCache outboundReq) in
  let! t1 := now in
  let! t2 := now in
  let! cell := get defaultTTL in
  let '(cacheTTL, cacheable) :=
    isCacheableResponse ParseTime cell t1 t2 (respWithBody statusCode rawUpstreamHeaders) in
  let xCacheState := if eligible && cacheable then "MISS" else "BYPASS" in
  let w := write_response w statusCode sanitizedHeaders responseBody xCacheState in
  let upstreamLabel := hGet rawUpstreamHeaders "X-Upstream" in
  let upstreamLabel := if bool_decide (TrimSpace upstreamLabel = "") then Host upstreamTarget
                       else upstreamLabel in
  let! upstreamDuration := since upstreamStartTime in
  metrics (ObserveProxyUpstreamResponse upstreamLabel (Method req) statusCode upstreamDuration) ;;;
  let! d := since endToEndStart in
  metrics (ObserveProxyResponse (Method req) statusCode xCacheState d) ;;;
  log (LogProxyResponseCacheHit statusCode (str_len responseBody) upstreamDuration (wHeader w) req false "") ;;;
  if eligible && cacheable then
    let cacheKey := default "" (ctx_key (rCtx req)) in
    let cacheKey := if bool_decide (cacheKey = "") then buildCacheKey outboundReq else cacheKey in
    let! storedAt := now in
    cache_set cacheKey
      (mkCached statusCode sanitizedHeaders responseBody storedAt 0 (getRequestID req)) cacheTTL ;;;
    ret w
  else ret w.

Definition forward (w : ResponseWriter) (req outboundReq : Request) (upstreamTarget : URL)
    (upstreamStartTime endToEndStart : Z) : M World ResponseWriter :=
  let! answer := round_trip outboundReq in
  match answer with
  | Err err => upstream_error w req upstreamTarget upstreamStartTime endToEndStart err
  | Ok up =>
      match up_body up with
      | BodyFails =>
          let! e := ask (read_error env) in
          ret (httpError e 502 w)
      | NoBody => upstream_response w req outboundReq upstreamTarget upstreamStartTime endToEndStart
                    (up_status up) (up_header up) ""
      | BodyBytes b => upstream_response w req outboundReq upstreamTarget upstreamStartTime endToEndStart
                    (up_status up) (up_header up) b
      end
  end.

Definition serveUpstream (w : ResponseWriter) (req : Request) : M World ResponseWriter :=
  let! upstreamStartTime := now in
  let endToEndStart := default upstreamStartTime (ctx_start (rCtx req)) in
  let! upstreamTarget := match ctx_target (rCtx req) with
                         | Some u => ret (Some u)
                         | None => pick false
                         end in
  match upstreamTarget with
  | None =>
      let! d := since endToEndStart in
      metrics (ObserveProxyResponse (Method req) 503 "BYPASS" d) ;;;
      ret (httpError "no healthy upstream targets" 503 w)
  | Some upstreamTarget =>
      let! release := acquire upstreamTarget in
      let outboundReq := directRequest req upstreamTarget in
      metrics (IncProxyUpstreamInflight (Host upstreamTarget)) ;;;
      let! w' := forward w req outboundReq upstreamTarget upstreamStartTime endToEndStart in
      metrics (DecProxyUpstreamInflight (Host upstreamTarget)) ;;;
      run_release release ;;;
      ret w'
  end.

(** [handler.ServeHTTP]: the upstream path, behind the queue if there is one.  The
    steps of the queue itself and its metrics are in [Queue]. *)
Definition call_handler (w : ResponseWriter) (req : Request) : M World ResponseWriter :=
  let! h := get (fun s => handler (proxy s)) in
  match h with
  | None => serveUpstream w req
  | Some cfg =>
      let! o := ask (queue_outcome env) in
      match o with
      | Rejected => ret (reject_full w)
      | Failed err => ret (failQueue err w)
      | Served d waited => serveUpstream (queue_headers (with_defaults cfg) d waited w) req
      end
  end.

(** *** [ServeHTTP] *)

(** Reading the body to hash it: the request with its body restored, and the hash of
    a body that is not empty. *)
Definition hash_body (req : Request) : string * Request :=
  match rBody req with
  | NoBody => ("", req)
  | BodyFails => ("", req)
  | BodyBytes b =>
      (if 0 <? str_len b then EncodeToString (Sum256 b) else "", set_body (BodyBytes b) req)
  end.

(** The key of a request: the rewritten request with the client's host, and the
    hash of the body. *)
Definition request_key (req cacheProbeReq : Request) (bodyHash : string) : string :=
  let u := rURL cacheProbeReq in
  let keyed := set_host (rHost req)
                 (set_url (mkURL (Scheme u) (rHost req) (Path u) (RawQuery u)) cacheProbeReq) in
  buildCacheKey keyed +:+ (if bool_decide (bodyHash <> "") then "|bh=" +:+ bodyHash else "").

Definition with_start (t : Z) (req : Request) : Request :=
  set_ctx (mkCtx (Some t) (ctx_key (rCtx req)) (ctx_target (rCtx req))) req.
Definition with_key (k : string) (req : Request) : Request :=
  set_ctx (mkCtx (ctx_start (rCtx req)) (Some k) (ctx_target (rCtx req))) req.
Definition with_target (u : URL) (req : Request) : Request :=
  set_ctx (mkCtx (ctx_start (rCtx req)) (ctx_key (rCtx req)) (Some u)) req.

(** The answer of a HIT. *)
Definition serve_hit (startTime : Z) (entry : CachedResponse) (w : ResponseWriter) (req : Request)
    : M World ResponseWriter :=
  let cachedID := TrimSpace (cr_requestID entry) in
  let! idreq := if bool_decide (cachedID = "") then ensureRequestID req
                else ret (cachedID, reqSet req "X-Request-ID" cachedID) in
  let w := wSet "X-Request-ID" idreq.1 w in
  let req := idreq.2 in
  log (LogProxyRequestCacheHit req) ;;;
  let w := wWithHeader (copyHeader (wHeader w) (cr_header entry)) w in
  let w := wSet "X-Cache" "HIT" w in
  let! age := since (cr_storedAt entry) in
  let ageSeconds := f64_trunc (Seconds age) in
  let ageSeconds := if ageSeconds <? 0 then 0 else ageSeconds in
  let w := wSet "Age" (Itoa ageSeconds) w in
  let w := Write (cr_body entry) (WriteHeader (cr_status entry) w) in
  let! d1 := since startTime in
  metrics (ObserveProxyResponse (Method req) (cr_status entry) "HIT" d1) ;;;
  let! d2 := since startTime in
  log (LogProxyResponseCacheHit (cr_status entry) (str_len (cr_body entry)) d2 (wHeader w) req false "") ;;;
  ret w.

(** The caching phase: the request to go on with, and the entry of a HIT. *)
Definition cache_phase (selectedTarget : option URL) (req : Request)
    : M World (Request * option CachedResponse) :=
  let '(bodyHash, req) := hash_body req in
  let cacheProbeReq := match selectedTarget with
                       | Some u => directRequest req u
                       | None => req
                       end in
  if isCacheableRequest cacheProbeReq && negb (clientNoCache cacheProbeReq) then
    let cacheKey := request_key req cacheProbeReq bodyHash in
    let req := with_key cacheKey req in
    let! looked := cache_get cacheKey in
    match looked with
    | (Some cachedEntry, true, false) => ret (req, Some cachedEntry)
    | _ => ret (req, None)
    end
  else ret (req, None).

(** No HIT: choose the upstream and hand the request over. *)
Definition miss_phase (startTime : Z) (w : ResponseWriter) (req : Request) : M World ResponseWriter :=
  let! selectedTarget := pick false in
  match selectedTarget with
  | None =>
      let w := set_request_id req w in
      let! d := since startTime in
      metrics (ObserveProxyResponse (Method req) 503 "BYPASS" d) ;;;
      log (LogProxyError 503 "BYPASS" "" req "no healthy upstream targets") ;;;
      ret (httpError "no healthy upstream targets" 503 w)
  | Some u =>
      let! idreq := ensureRequestID req in
      let w := wSet "X-Request-ID" idreq.1 w in
      log (LogProxyRequest idreq.2) ;;;
      call_handler w (with_target u idreq.2)
  end.

Definition method_refused (a : Allowed) (m : string) : bool :=
  match a with Some allowed => negb (bool_decide (m ∈ allowed)) | None => false end.

Definition allow_header (a : Allowed) (w : ResponseWriter) : ResponseWriter :=
  let allow := listAllowedMethods a in
  if (0 <? length allow)%nat then wSet "Allow" (Join allow ", ") w else w.

Definition ServeHTTP (w : ResponseWriter) (req : Request) : M World ResponseWriter :=
  let! startTime := now in
  let req := with_start startTime req in
  if bool_decide (Path (rURL req) = "/healthz") then
    ret (Write "ok" (WriteHeader 200 (set_request_id req w)))
  else
    let! allowed := get (fun s => allowedMethods (proxy s)) in
    if method_refused allowed (Method req) then
      let w := set_request_id req (allow_header allowed w) in
      let! d := since startTime in
      metrics (ObserveProxyResponse (Method req) 405 "BYPASS" d) ;;;
      ret (httpError "method not allowed" 405 w)
    else
      let! preview := pick true in
      let! on := get (fun s => cacheOn (proxy s)) in
      let! cached := if on then cache_phase preview req else ret (req, None) in
      match cached.2 with
      | Some entry => serve_hit startTime entry w cached.1
      | None => miss_phase startTime w cached.1
      end.
End Handlers.

(** ** Configuration *)

Section Configuration.
Context `{U : Unicode} {C : Type}.

Definition NewReverseProxy (target : URL) (c : C) (on : bool) : ReverseProxy C balancer :=
  mkProxy target [target] c on None None (newBalancer "rr" [target] true) "rr" true.

(** It panics on an empty list. *)
Definition NewReverseProxyMulti (targets : list URL) (c : C) (on : bool) : option (ReverseProxy C balancer) :=
  match targets with
  | [] => None
  | t :: _ => let p := NewReverseProxy t c on in
              Some (mkProxy (target p) targets (cache p) (cacheOn p) (handler p) (allowedMethods p)
                      (newBalancer (lbStrategy p) targets (healthChecksEnabled p))
                      (lbStrategy p) (healthChecksEnabled p))
  end.

Definition WithQueue (cfg : QueueConfig) (p : ReverseProxy C balancer) : ReverseProxy C balancer :=
  mkProxy (target p) (targets p) (cache p) (cacheOn p) (Some cfg) (allowedMethods p) (rp_balancer p)
          (lbStrategy p) (healthChecksEnabled p).

Definition ConfigureBalancer (strategy : string) (p : ReverseProxy C balancer) : ReverseProxy C balancer :=
  mkProxy (target p) (targets p) (cache p) (cacheOn p) (handler p) (allowedMethods p)
          (newBalancer strategy (targets p) (healthChecksEnabled p)) strategy (healthChecksEnabled p).

Definition SetHealthCheckEnabled (enabled : bool) (p : ReverseProxy C balancer) : ReverseProxy C balancer :=
  mkProxy (target p) (targets p) (cache p) (cacheOn p) (handler p) (allowedMethods p)
          (newBalancer (lbStrategy p) (targets p) enabled) (lbStrategy p) enabled.

Definition set_allowed (methods : list string) (p : ReverseProxy C balancer) : ReverseProxy C balancer :=
  mkProxy (target p) (targets p) (cache p) (cacheOn p) (handler p) (SetAllowedMethods methods)
          (rp_balancer p) (lbStrategy p) (healthChecksEnabled p).
End Configuration.
