(* ===== verification/ProxyFacts.v ===== *)
(** * The reverse proxy: what its handlers promise

    Theorems about the definitions of [Proxy], for every cache and balancer that
    satisfy [CacheLaws] and [BalancerLaws]. *)
From S2P Require Import Prelude GoStrings GoTime GoNet Queue.
From S2P Require Import Headers CacheControl LruCache Balancer Sha256 Metrics Log Proxy.
#[local] Open Scope Z_scope.
#[local] Open Scope handler_scope.

(** ** Framing: a computation that leaves a part of the state alone *)

Section Keeps.
Context {W D : Type} (f : W -> D).

Definition keeps {A} (m : M W A) : Prop := forall w, f (m w).2 = f w.

Lemma keeps_ret {A} (x : A) : keeps (ret x).
Proof. done. Qed.
Lemma keeps_bind {A A'} (m : M W A) (k : A -> M W A') :
  keeps m -> (forall x, keeps (k x)) -> keeps (bind m k).
Proof.
  intros Hm Hk w. unfold bind. pose proof (Hm w) as Hw. destruct (m w) as [x w']. cbn in Hw.
  by rewrite Hk.
Qed.
Lemma keeps_if {A} (b : bool) (m1 m2 : M W A) : keeps m1 -> keeps m2 -> keeps (if b then m1 else m2).
Proof. by destruct b. Qed.
End Keeps.

(** A relation between the states before and after, closed under sequencing. *)
Section Relates.
Context {W : Type} (R : W -> W -> Prop).
Hypothesis Rrefl : forall w, R w w.
Hypothesis Rtrans : forall w1 w2 w3, R w1 w2 -> R w2 w3 -> R w1 w3.

Definition relates {A} (m : M W A) : Prop := forall w, R w (m w).2.

Lemma relates_ret {A} (x : A) : relates (ret x).
Proof. intros w. apply Rrefl. Qed.
Lemma relates_bind {A A'} (m : M W A) (k : A -> M W A') :
  relates m -> (forall x, relates (k x)) -> relates (bind m k).
Proof.
  intros Hm Hk w. unfold bind. pose proof (Hm w) as Hw. destruct (m w) as [x w']. cbn in *.
  eapply Rtrans; [done|apply Hk].
Qed.
End Relates.

(** Decompose a handler down to its effects. *)
Ltac handler_step :=
  match goal with
  | |- keeps _ (bind _ _) => apply keeps_bind; [|intros ?]
  | |- keeps _ (ret _) => apply keeps_ret
  | |- keeps _ (if _ then _ else _) => apply keeps_if
  | |- keeps _ (match ?x with _ => _ end) => destruct x
  | |- keeps _ (let '(_, _) := ?x in _) => destruct x
  end.

Ltac unfold_handlers :=
  unfold ServeHTTP, miss_phase, serve_hit, cache_phase, call_handler, serveUpstream, forward,
    upstream_response, upstream_error, ensureRequestID, since.
Ltac unfold_effects :=
  unfold now, round_trip, cache_get, cache_set, pick, acquire, run_release, metrics, log, ask, get.
Ltac frame :=
  repeat first [handler_step | progress unfold_handlers | progress unfold_effects];
  try (intros ?; cbn; repeat case_match; done).

Section Frames.
Context `{U : Unicode} {C : Type} `{HC : Cache C} {B : Type} `{HB : Balancer B}.
Variable ParseTime : string -> option Z.
Variable env : Env.
Abbreviation World := (World C B).

(** The parts of the state. *)
Definition cache_of (w : World) : C := cache (proxy w).
Definition bal_of (w : World) : B := rp_balancer (proxy w).
Definition settings (w : World) :=
  (target (proxy w), targets (proxy w), cacheOn (proxy w), handler (proxy w),
   allowedMethods (proxy w), lbStrategy (proxy w), healthChecksEnabled (proxy w), defaultTTL w).

Lemma keeps_settings w req : keeps settings (ServeHTTP ParseTime env w req).
Proof. frame. Qed.

(** Only picking and acquiring touch the balancer. *)
Lemma keeps_bal_forward w req out u t1 t2 : keeps bal_of (forward ParseTime env w req out u t1 t2).
Proof. frame. Qed.

Lemma keeps_bal_cache_phase o req : keeps bal_of (cache_phase env o req).
Proof. frame. Qed.

Lemma keeps_bal_hit t e w req : keeps bal_of (serve_hit env t e w req).
Proof. frame. Qed.

(** Only the round trip adds to what was sent. *)
Lemma keeps_sent_cache_phase o req : keeps (@sent C B) (cache_phase env o req).
Proof. frame. Qed.
Lemma keeps_sent_hit t e w req : keeps (@sent C B) (serve_hit env t e w req).
Proof. frame. Qed.

(** Without a store, the upstream path leaves the cache alone. *)
Lemma keeps_cache_response w req out u t1 t2 code h b s :
  cacheOn (proxy s) && isCacheableRequest out && negb (clientNoCache out) = false ->
  cache_of (upstream_response ParseTime env w req out u t1 t2 code h b s).2 = cache_of s.
Proof.
  intros Hno. unfold upstream_response, bind at 1, get. rewrite Hno. cbn [andb].
  match goal with |- cache_of (?m s).2 = _ => assert (Hk : keeps cache_of m); [|apply Hk] end.
  frame.
Qed.
End Frames.

(** ** Rewriting a request *)

(** The header names [directRequest] touches. *)
Definition rewritten (k : string) : Prop :=
  hop k \/ k = "X-Forwarded-For" \/ k = "X-Forwarded-Proto" \/ k = "X-Forwarded-Host".

Lemma forwarded_for_lookup r k :
  k <> "X-Forwarded-For" -> rHeader (forwarded_for r) !! k = rHeader r !! k.
Proof.
  intros Hk. unfold forwarded_for. repeat case_match; try done; cbn; unfold hSet;
    rewrite lookup_insert_ne; done.
Qed.

Lemma forwarded_for_frame r :
  rURL (forwarded_for r) = rURL r /\ rHost (forwarded_for r) = rHost r /\ Method (forwarded_for r) = Method r
  /\ rBody (forwarded_for r) = rBody r /\ rCtx (forwarded_for r) = rCtx r.
Proof. unfold forwarded_for. by repeat case_match. Qed.

Lemma forwarded_for_tls r : rTLS (forwarded_for r) = rTLS r.
Proof. unfold forwarded_for. by repeat case_match. Qed.

Lemma not_hop k : bool_decide (k ∈ CanonicalHeaderKey <$> hopHeaders) = false -> k ∉ CanonicalHeaderKey <$> hopHeaders.
Proof. apply bool_decide_eq_false_1. Qed.

Lemma directRequest_lookup r u k :
  ~ rewritten k -> rHeader (directRequest r u) !! k = rHeader r !! k.
Proof.
  intros Hk. unfold directRequest, reqSet. cbn [rHeader set_host set_header]. unfold hSet.
  change (CanonicalHeaderKey "X-Forwarded-Host") with "X-Forwarded-Host".
  change (CanonicalHeaderKey "X-Forwarded-Proto") with "X-Forwarded-Proto".
  unfold rewritten in Hk. rewrite !lookup_insert_ne by naive_solver.
  rewrite forwarded_for_lookup by naive_solver. cbn [rHeader set_header].
  rewrite foldl_hDel_lookup, decide_False; [done|]. intros Hh. apply Hk. by left.
Qed.

Lemma directRequest_hop r u k : hop k -> rHeader (directRequest r u) !! k = None.
Proof.
  intros Hk. unfold directRequest, reqSet. cbn [rHeader set_host set_header]. unfold hSet.
  change (CanonicalHeaderKey "X-Forwarded-Host") with "X-Forwarded-Host".
  change (CanonicalHeaderKey "X-Forwarded-Proto") with "X-Forwarded-Proto".
  assert (Hne : k <> "X-Forwarded-Host" /\ k <> "X-Forwarded-Proto" /\ k <> "X-Forwarded-For").
  { split_and!; intros ->; revert Hk; unfold hop; vm_compute; intros Hk;
      repeat (apply elem_of_cons in Hk as [Hk|Hk]; [discriminate Hk|]); by apply not_elem_of_nil in Hk. }
  rewrite !lookup_insert_ne by naive_solver. rewrite forwarded_for_lookup by naive_solver.
  cbn [rHeader set_header]. by rewrite foldl_hDel_lookup, decide_True.
Qed.

Lemma directRequest_get r u k :
  ~ rewritten (CanonicalHeaderKey k) -> reqGet (directRequest r u) k = reqGet r k.
Proof. intros Hk. unfold reqGet, hGet. by rewrite directRequest_lookup. Qed.

Lemma not_rewritten k : bool_decide (k ∈ (CanonicalHeaderKey <$> hopHeaders) ++
    ["X-Forwarded-For"; "X-Forwarded-Proto"; "X-Forwarded-Host"]) = false -> ~ rewritten k.
Proof.
  rewrite bool_decide_eq_false. intros Hk Hr. apply Hk. apply elem_of_app.
  destruct Hr as [Hr|Hr]; [by left|right]. set_solver.
Qed.

(** ** Eligibility for the cache depends on three headers *)

Definition same_directives (r1 r2 : Request) : Prop :=
  reqGet r1 "Cache-Control" = reqGet r2 "Cache-Control"
  /\ reqGet r1 "Authorization" = reqGet r2 "Authorization" /\ reqGet r1 "Pragma" = reqGet r2 "Pragma".

#[export] Instance same_directives_equiv : Equivalence same_directives.
Proof.
  unfold same_directives. split; [done|intros ??; naive_solver|].
  intros x y z (H1 & H2 & H3) (H4 & H5 & H6). split_and!; congruence.
Qed.

#[export] Instance request_eligible_proper `{Unicode} : Proper (same_directives ==> eq) request_eligible.
Proof.
  intros r1 r2 (H1 & H2 & H3). unfold request_eligible, isCacheableRequest, clientNoCache.
  by rewrite H1, H2, H3.
Qed.

Lemma directRequest_same r u : same_directives (directRequest r u) r.
Proof. split_and!; apply directRequest_get, not_rewritten; vm_compute; reflexivity. Qed.

Lemma reqSet_id_same r v : same_directives (reqSet r "X-Request-ID" v) r.
Proof. split_and!; apply hGet_hSet_ne; vm_compute; discriminate. Qed.
#[export] Hint Resolve directRequest_same reqSet_id_same : go_net.

Lemma directRequest_eligible `{Unicode} r u : request_eligible (directRequest r u) = request_eligible r.
Proof. by rewrite directRequest_same. Qed.

(** ** The upstream path, step by step *)

#[local] Arguments forward : simpl never.
#[local] Arguments upstream_response : simpl never.
#[local] Arguments serveUpstream : simpl never.
#[local] Arguments call_handler : simpl never.
#[local] Arguments cache_phase : simpl never.
#[local] Arguments serve_hit : simpl never.
#[local] Arguments miss_phase : simpl never.
#[local] Arguments directRequest : simpl never.
#[local] Arguments write_response : simpl never.
#[local] Arguments isCacheableResponse : simpl never.
#[local] Arguments sanitizeResponseHeaders : simpl never.
#[local] Arguments httpError : simpl never.

Definition up_bytes (up : Upstream) : option string :=
  match up_body up with NoBody => Some "" | BodyBytes b => Some b | BodyFails => None end.

Section UpstreamPath.
Context `{U : Unicode} {C : Type} `{HC : Cache C} {B : Type} `{HB : Balancer B}.
Variable ParseTime : string -> option Z.
Variable env : Env.
Abbreviation World := (World C B).

(** Whether a response to [out] is stored, and for how long, at two clock readings. *)
Definition storable (s : World) (out : Request) (t1 t2 : Z) (code : Z) (h : Header) : option Z :=
  if cacheOn (proxy s) && request_eligible out then
    let '(ttl, ok) := isCacheableResponse ParseTime (defaultTTL s) t1 t2 (respWithBody code h) in
    if ok then Some ttl else None
  else None.

Definition key_or (k : option string) (out : Request) : string :=
  match k with Some k => if bool_decide (k = "") then buildCacheKey out else k | None => buildCacheKey out end.

Lemma upstream_response_spec w req out u t1 t2 code h b (s : World) :
  let st := storable s out (clock env (ticks s)) (clock env (S (ticks s))) code h in
  let '(w', s') := upstream_response ParseTime env w req out u t1 t2 code h b s in
  w' = write_response w code (sanitizeResponseHeaders h) b (match st with Some _ => "MISS" | None => "BYPASS" end)
  /\ sent s' = sent s /\ bal_of s' = bal_of s /\ settings s' = settings s
  /\ match st with
     | Some ttl => exists n storedAt,
         cache_of s' = SetEntry (cache_of s) (defaultTTL s) (clock env n) (key_or (ctx_key (rCtx req)) out)
           (mkCached code (sanitizeResponseHeaders h) b storedAt 0 (getRequestID req)) ttl
     | None => cache_of s' = cache_of s
     end.
Proof.
  cbv zeta. unfold storable, request_eligible, upstream_response, bind, get, now, ask, since, cache_of, bal_of.
  cbn [ticks with_ticks fst snd]. rewrite <- !andb_assoc.
  destruct (cacheOn (proxy s) && (isCacheableRequest out && negb (clientNoCache out))) eqn:He; cbn [andb];
    cbn [defaultTTL with_ticks];
    destruct (isCacheableResponse _ _ _ _ _) as [ttl ok]; cbn [andb].
  - destruct ok; cbn; [|done]. split_and!; [done|done|done|done|].
    eexists _, _. unfold key_or. by destruct (ctx_key (rCtx req)).
  - cbn. done.
Qed.

Lemma forward_ok w req out u t1 t2 up b (s : World) :
  (forall n, RoundTrip env n out = Ok up) -> up_bytes up = Some b ->
  forward ParseTime env w req out u t1 t2 s =
  upstream_response ParseTime env w req out u t1 t2 (up_status up) (up_header up) b
    (with_sent (sent s ++ [out]) (with_ticks (S (ticks s)) s)).
Proof.
  intros Hrt Hb. unfold forward, bind, round_trip, ask. cbn. rewrite Hrt.
  unfold up_bytes in Hb. by destruct (up_body up); simplify_eq.
Qed.

(** What the client and the cache see of a request that is forwarded and answered. *)
Record forwarded (s s' : World) (req : Request) (u : URL) (up : Upstream) (b : string)
    (w w' : ResponseWriter) : Prop := {
  fw_sent : sent s' = sent s ++ [directRequest req u];
  fw_settings : settings s' = settings s;
  fw_result : exists n st,
    st = storable s req (clock env n) (clock env (S n)) (up_status up) (up_header up) /\
    w' = write_response w (up_status up) (sanitizeResponseHeaders (up_header up)) b
           (match st with Some _ => "MISS" | None => "BYPASS" end) /\
    match st with
    | Some ttl => exists m storedAt,
        cache_of s' = SetEntry (cache_of s) (defaultTTL s) (clock env m) (key_or (ctx_key (rCtx req)) (directRequest req u))
          (mkCached (up_status up) (sanitizeResponseHeaders (up_header up)) b storedAt 0 (getRequestID req)) ttl
    | None => cache_of s' = cache_of s
    end;
}.

Lemma storable_ext (s1 s2 : World) r1 r2 t1 t2 code h :
  cacheOn (proxy s1) = cacheOn (proxy s2) -> defaultTTL s1 = defaultTTL s2 ->
  request_eligible r1 = request_eligible r2 ->
  storable s1 r1 t1 t2 code h = storable s2 r2 t1 t2 code h.
Proof. unfold storable. by intros -> -> ->. Qed.

Lemma serveUpstream_forwarded w req u up b (s : World) :
  ctx_target (rCtx req) = Some u ->
  (forall n, RoundTrip env n (directRequest req u) = Ok up) -> up_bytes up = Some b ->
  let '(w', s') := serveUpstream ParseTime env w req s in forwarded s s' req u up b w w'.
Proof.
  intros Ht Hrt Hb. unfold serveUpstream, bind, now, ask, ret, acquire, metrics, run_release.
  rewrite Ht. cbn. destruct (Acquire (rp_balancer (proxy s)) u) as [b1 release]. cbn.
  rewrite (forward_ok _ _ _ _ _ _ up b) by done.
  match goal with |- context [upstream_response ParseTime env w req ?out u ?t1 ?t2 ?c ?h b ?s0] =>
    pose proof (upstream_response_spec w req out u t1 t2 c h b s0) as Hs;
    destruct (upstream_response ParseTime env w req out u t1 t2 c h b s0) as [w' s'] end.
  cbv zeta in Hs. destruct Hs as (Hw & Hsent & Hbal & Hset & Hst). constructor.
  - cbn. rewrite Hsent. cbn. done.
  - unfold settings in *. cbn in *. congruence.
  - eexists _, _. split; [reflexivity|].
    erewrite (storable_ext _ s _ req) in Hw, Hst by (cbn; done || apply directRequest_eligible).
    split; [exact Hw|]. exact Hst.
Qed.

Hypothesis Hserves : forall n, exists d waited, queue_outcome env n = Served d waited.

(** The writer the upstream path is called with: the queue may have added headers. *)
Definition admitted (s : World) (w w1 : ResponseWriter) : Prop :=
  match handler (proxy s) with
  | None => w1 = w
  | Some cfg => exists d waited, w1 = queue_headers (with_defaults cfg) d waited w
  end.

Lemma call_handler_forwarded w req u up b (s : World) :
  ctx_target (rCtx req) = Some u ->
  (forall n, RoundTrip env n (directRequest req u) = Ok up) -> up_bytes up = Some b ->
  let '(w', s') := call_handler ParseTime env w req s in
  exists w1, admitted s w w1 /\ forwarded s s' req u up b w1 w'.
Proof.
  intros Ht Hrt Hb. unfold call_handler, bind, get, admitted.
  destruct (handler (proxy s)) as [cfg|] eqn:Hh.
  - unfold ask. destruct (Hserves (ticks s)) as (d & wt & ->).
    pose proof (serveUpstream_forwarded (queue_headers (with_defaults cfg) d wt w) req u up b
      (with_ticks (S (ticks s)) s) Ht Hrt Hb) as Hf.
    destruct (serveUpstream _ _ _ _ _) as [w' s']. exists (queue_headers (with_defaults cfg) d wt w).
    split; [eauto|]. destruct Hf as [H1 H2 H3]. by constructor.
  - pose proof (serveUpstream_forwarded w req u up b s Ht Hrt Hb) as Hf.
    destruct (serveUpstream _ _ _ _ _) as [w' s']. by exists w.
Qed.
End UpstreamPath.

(** ** The caching phase *)

(** The key of a client's request, given the previewed target. *)
Definition client_key (preview : option URL) (req : Request) : string :=
  let '(bodyHash, req) := hash_body req in
  request_key req (match preview with Some u => directRequest req u | None => req end) bodyHash.

Lemma hash_body_frame req :
  (hash_body req).2 = req \/ exists b, rBody req = BodyBytes b /\ (hash_body req).2 = set_body (BodyBytes b) req.
Proof. unfold hash_body. destruct (rBody req); eauto. Qed.

Lemma hash_body_id req : (hash_body req).2 = req.
Proof.
  destruct (hash_body_frame req) as [H|(b & Hb & ->)]; [done|].
  destruct req; cbn in *. by subst.
Qed.

Section CachePhase.
Context `{U : Unicode} {C : Type} `{HL : CacheLaws C} {B : Type} `{BL : BalancerLaws B}.
Variable ParseTime : string -> option Z.
Variable env : Env.
Abbreviation World := (World C B).

(** What changes between the arrival of a request and the end of its caching phase:
    the clock, and how recently the entry under the key was used. *)
Record looked_up (k : option string) (t : Z) (s s1 : World) : Prop := {
  lu_settings : settings s1 = settings s;
  lu_sent : sent s1 = sent s;
  lu_bal : bal_of s1 = bal_of s;
  lu_metrics : metric_calls s1 = metric_calls s;
  lu_logs : log_calls s1 = log_calls s;
  lu_ok : cache_ok (cache_of s1);
  lu_cap : cache_cap (cache_of s1) = cache_cap (cache_of s);
  lu_view : cache_view (cache_of s1) =
    match k with
    | Some k => (Spec.get t k (cache_view (cache_of s))).2
    | None => cache_view (cache_of s)
    end;
  lu_same : k = None -> cache_of s1 = cache_of s;
}.

Definition fresh_entry (s : World) (k : string) (t : Z) : option CachedResponse :=
  match Spec.find k (cache_view (cache_of s)) with
  | Some e => if After t (cr_expiresAt e) then None else Some e
  | None => None
  end.

Lemma cache_phase_spec o req (s : World) :
  cache_ok (cache_of s) ->
  let k := client_key o req in
  let t := clock env (ticks s) in
  exists s1,
    if request_eligible req
    then cache_phase env o req s = ((with_key k req, fresh_entry s k t), s1) /\ looked_up (Some k) t s s1
         /\ ticks s1 = S (ticks s)
    else cache_phase env o req s = ((req, None), s1) /\ looked_up None t s s1.
Proof.
  intros Hok. cbv zeta. unfold cache_phase, client_key.
  pose proof (hash_body_id req) as Hid. destruct (hash_body req) as [h r]. cbn in Hid. subst r.
  set (probe := match o with Some u => directRequest req u | None => req end).
  assert (Hel : isCacheableRequest probe && negb (clientNoCache probe) = request_eligible req).
  { change (request_eligible probe = request_eligible req). subst probe.
    destruct o; [apply directRequest_eligible|done]. }
  rewrite Hel. destruct (request_eligible req).
  - unfold bind, cache_get, now, bind, ask. cbn.
    pose proof (law_get (cache_of s) (clock env (ticks s)) (request_key req probe h) Hok) as Hg.
    unfold fresh_entry. unfold cache_of in *.
    destruct (Get (cache (proxy s)) (clock env (ticks s)) (request_key req probe h)) as [r c'].
    unfold Spec.get in Hg |- *. destruct (Spec.find _ _) as [e|] eqn:Hf.
    + destruct Hg as (-> & Hv & Hok' & Hcap). eexists. split.
      * destruct (After _ _); reflexivity.
      * split; [|done]. constructor; unfold Spec.get, cache_of; cbn; rewrite ?Hf; done.
    + destruct Hg as (-> & Hv & Hok' & Hcap). eexists. split; [reflexivity|]. split; [|done].
      constructor; unfold Spec.get, cache_of; cbn; rewrite ?Hf; done.
  - eexists. split; [reflexivity|]. by constructor.
Qed.

(** The previewed target and the time of the lookup of a request that arrives in [s]. *)
Definition preview_of (s : World) : option URL :=
  (Pick (fun i => http_get env (S (ticks s) + i)%nat) (bal_of s) true).1.
Definition lookup_tick (s : World) : nat := S (ticks s) + length (Targets (bal_of s)).
Definition lookup_time (s : World) : Z := clock env (lookup_tick s).
Definition caching (s : World) (req : Request) : bool := cacheOn (proxy s) && request_eligible req.
Definition key_of (s : World) (req : Request) : string := client_key (preview_of s) req.

(** The entry the request would be served, if any. *)
Definition hit_of (s : World) (req : Request) : option CachedResponse :=
  if caching s req then fresh_entry s (key_of s req) (lookup_time s) else None.

Lemma client_key_start o t req : client_key o (with_start t req) = client_key o req.
Proof.
  unfold client_key. destruct req as [m u h hd b ra tl cx], b; cbn;
    destruct o as [v|]; cbn; unfold request_key, directRequest, forwarded_for, reqGet; cbn;
    repeat case_match; done.
Qed.

(** A request that passes the filters is served the HIT or goes on to the upstream. *)
Lemma ServeHTTP_split w req (s : World) :
  cache_ok (cache_of s) -> Path (rURL req) <> "/healthz" ->
  method_refused (allowedMethods (proxy s)) (Method req) = false ->
  let t0 := clock env (ticks s) in
  let req0 := with_start t0 req in
  let req1 := if caching s req then with_key (key_of s req) req0 else req0 in
  exists s1, looked_up (if caching s req then Some (key_of s req) else None) (lookup_time s) s s1 /\
    (caching s req = true -> ticks s1 = S (lookup_tick s)) /\
    ServeHTTP ParseTime env w req s =
    match hit_of s req with
    | Some e => serve_hit env t0 e w req1 s1
    | None => miss_phase ParseTime env t0 w req1 s1
    end.
Proof.
  intros Hok Hp Hm. cbv zeta. unfold ServeHTTP, bind at 1, now, ask.
  change (Path (rURL (with_start (clock env (ticks s)) req))) with (Path (rURL req)).
  rewrite bool_decide_false by done. unfold bind at 1, get. cbn [proxy with_ticks].
  change (Method (with_start (clock env (ticks s)) req)) with (Method req). rewrite Hm.
  unfold bind at 1, pick. cbn [ticks proxy with_ticks].
  pose proof (law_preview (fun i => http_get env (S (ticks s) + i)%nat) (bal_of s)) as Hpv.
  unfold hit_of, key_of, preview_of in *. fold (bal_of s).
  destruct (Pick (fun i => http_get env (S (ticks s) + i)%nat) (bal_of s) true) as [o b] eqn:Hpick.
  cbn [fst snd] in *. subst b. unfold bind at 1, get. cbn [proxy with_ticks set_balancer with_proxy with_balancer cacheOn].
  set (s0 := with_ticks _ (set_balancer _ _)).
  assert (Hlk0 : looked_up None (lookup_time s) s s0).
  { by constructor. }
  unfold caching. destruct (cacheOn (proxy s)) eqn:Hon; cbn [andb].
  2:{ exists s0. split; [done|]. split; [done|]. unfold bind. cbn. done. }
  destruct (cache_phase_spec o (with_start (clock env (ticks s)) req) s0 Hok) as (s1 & Hc).
  rewrite client_key_start in Hc.
  change (request_eligible (with_start _ req)) with (request_eligible req) in Hc.
  change (clock env (ticks s0)) with (lookup_time s) in Hc.
  destruct (request_eligible req); [destruct Hc as (Hc & Hlk & Htk)|destruct Hc as [Hc Hlk]]; exists s1.
  - split; [|split].
    + destruct Hlk as [H1 H2 H3 H4 H5 H6 H7 H8 H9]. by constructor.
    + intros _. rewrite Htk. unfold s0, lookup_tick. cbn. done.
    + unfold bind. rewrite Hc. cbn [fst snd]. unfold fresh_entry. change (cache_of s0) with (cache_of s).
      destruct (Spec.find _ _) as [e|]; [destruct (After _ _)|]; done.
  - split; [|split; [done|]].
    + destruct Hlk as [H1 H2 H3 H4 H5 H6 H7 H8 H9]. by constructor.
    + unfold bind. rewrite Hc. done.
Qed.
End CachePhase.

(** ** After a miss *)

Section MissPhase.
Context `{U : Unicode} {C : Type} `{HL : CacheLaws C} {B : Type} `{BL : BalancerLaws B}.
Variable ParseTime : string -> option Z.
Variable env : Env.
Abbreviation World := (World C B).

(** The request as it goes on: with the identifier it has, or a fresh one. *)
Definition identified (req req' : Request) (id : string) : Prop :=
  (id = getRequestID req /\ id <> "" /\ req' = req)
  \/ (getRequestID req = "" /\ exists t n, id = fresh_id t n /\ req' = reqSet req "X-Request-ID" id).

(** Two states that differ in the clock, the counters and the traces only. *)
Record unchanged (s s' : World) : Prop := {
  un_settings : settings s' = settings s;
  un_cache : cache_of s' = cache_of s;
  un_bal : bal_of s' = bal_of s;
  un_sent : sent s' = sent s;
}.

Lemma unchanged_trans s1 s2 s3 : unchanged s1 s2 -> unchanged s2 s3 -> unchanged s1 s3.
Proof. intros [] []. constructor; congruence. Qed.

Lemma ensureRequestID_spec req (s : World) :
  let '((id, req'), s') := ensureRequestID env req s in
  identified req req' id /\ unchanged s s' /\ metric_calls s' = metric_calls s /\ log_calls s' = log_calls s.
Proof.
  unfold ensureRequestID. case_bool_decide as Hid; cbn.
  - split; [right; eauto|]. done.
  - split; [left; done|]. done.
Qed.

Lemma pick_spec p (s : World) :
  bal_ok (bal_of s) ->
  let '(u, s') := pick env p s in
  u = (Pick (fun i => http_get env (ticks s + i)%nat) (bal_of s) p).1
  /\ cache_of s' = cache_of s /\ settings s' = settings s /\ sent s' = sent s
  /\ metric_calls s' = metric_calls s /\ log_calls s' = log_calls s
  /\ bal_ok (bal_of s') /\ Targets (bal_of s') = Targets (bal_of s) /\ in_flight (bal_of s') = in_flight (bal_of s)
  /\ checks (bal_of s') = checks (bal_of s)
  /\ (p = false -> u = None -> reserved (bal_of s') = reserved (bal_of s)).
Proof.
  intros Hok. pose proof (law_pick_state (fun i => http_get env (ticks s + i)%nat) (bal_of s) p Hok) as Hl.
  pose proof (law_pick_refused (fun i => http_get env (ticks s + i)%nat) (bal_of s) Hok) as Hr.
  unfold pick, bal_of in *. cbv zeta in Hl. destruct p; destruct (Pick _ _ _) as [u b]; cbn in *; naive_solver.
Qed.

(** The request as the handlers pass it on: only its identifier and context differ. *)
Definition same_request (req r : Request) : Prop :=
  Method r = Method req /\ rURL r = rURL req /\ rBody r = rBody req /\ rHost r = rHost req
  /\ forall k, k <> "X-Request-Id" -> rHeader r !! k = rHeader req !! k.

Lemma identified_same_request req req' id u : identified req req' id -> same_request req (with_target u req').
Proof.
  intros [(-> & _ & ->)|(_ & t & n & -> & ->)]; [done|]. split_and!; try done.
  intros k Hk. cbn. unfold hSet. by rewrite lookup_insert_ne by (intros <-; contradiction).
Qed.

(** The upstreams answer: every target passes its probe, the queue admits, the
    round trip returns [up], and the body can be read. *)
Record answers (s : World) (req : Request) (up : Upstream) (b : string) : Prop := {
  an_targets : Targets (bal_of s) <> [];
  an_steady : steady (bal_of s);
  an_healthy n u : u ∈ Targets (bal_of s) -> isTargetHealthy (http_get env n) u = true;
  an_admitted n : exists d waited, queue_outcome env n = Served d waited;
  an_round_trip n u r : u ∈ Targets (bal_of s) -> same_request req r -> RoundTrip env n (directRequest r u) = Ok up;
  an_body : up_bytes up = Some b;
}.

Lemma miss_phase_forwarded t0 w req up b (s : World) :
  bal_ok (bal_of s) -> answers s req up b ->
  let '(w', s') := miss_phase ParseTime env t0 w req s in
  exists u id req' s2 w1, u ∈ Targets (bal_of s) /\ identified req req' id
    /\ cache_of s2 = cache_of s /\ settings s2 = settings s /\ sent s2 = sent s
    /\ admitted s2 (wSet "X-Request-ID" id w) w1
    /\ forwarded ParseTime env s2 s' (with_target u req') u up b w1 w'.
Proof.
  intros Hok [Ht Hst Hh Hq Hrt Hb]. unfold miss_phase, bind at 1.
  pose proof (pick_spec false s Hok) as Hp. destruct (pick env false s) as [o s1].
  destruct Hp as (Ho & Hc1 & Hs1 & Hsent1 & _ & _ & Hok1 & _).
  destruct o as [u|].
  2:{ destruct (law_pick_none _ _ Hok Hst (eq_sym Ho)) as [|[_ Hall]]; [done|].
      destruct (Targets (bal_of s)) as [|v l]; [done|]. destruct (Hall v (list_elem_of_here _ _)) as [n Hn].
      pose proof (Hh (ticks s + n)%nat v (list_elem_of_here _ _)). congruence. }
  destruct (law_pick_some _ _ _ Hok (eq_sym Ho)) as [Hu _].
  unfold bind at 1. pose proof (ensureRequestID_spec req s1) as Hid.
  destruct (ensureRequestID env req s1) as [[id req'] s2]. destruct Hid as (Hid & [Hse Hca Hba Hsn] & _ & _).
  cbn [fst snd]. unfold bind, log.
  pose proof (call_handler_forwarded ParseTime env Hq (wSet "X-Request-ID" id w) (with_target u req') u up b
    (with_logs (log_calls s2 ++ [LogProxyRequest req']) s2) eq_refl (fun n => Hrt n u _ Hu (identified_same_request _ _ _ _ Hid)) Hb) as Hf.
  destruct (call_handler _ _ _ _ _) as [w' s']. destruct Hf as (w1 & Had & Hf).
  exists u, id, req', (with_logs (log_calls s2 ++ [LogProxyRequest req']) s2), w1.
  split_and!; [done|done| | | |done|done].
  - change (cache_of s2 = cache_of s). congruence.
  - change (settings s2 = settings s). congruence.
  - change (sent s2 = sent s). congruence.
Qed.

(** No target to pick. *)
Lemma miss_phase_unavailable t0 w req (s : World) :
  bal_ok (bal_of s) -> checks (bal_of s) = true ->
  (forall n u, u ∈ Targets (bal_of s) -> isTargetHealthy (http_get env n) u = false) ->
  let '(w', s') := miss_phase ParseTime env t0 w req s in
  w' = httpError "no healthy upstream targets" 503 (set_request_id req w)
  /\ cache_of s' = cache_of s /\ sent s' = sent s /\ in_flight (bal_of s') = in_flight (bal_of s)
  /\ reserved (bal_of s') = reserved (bal_of s)
  /\ exists d, metric_calls s' = metric_calls s ++ ObserveProxyResponse (Method req) 503 "BYPASS" d.
Proof.
  intros Hok Hc Hh. unfold miss_phase, bind at 1.
  pose proof (pick_spec false s Hok) as Hp. destruct (pick env false s) as [o s1].
  destruct Hp as (Ho & Hc1 & Hs1 & Hsent1 & Hm & _ & Hok1 & _ & Hin & _ & Hres).
  destruct o as [u|].
  { destruct (law_pick_some _ _ _ Hok (eq_sym Ho)) as [Hu Hex]. destruct (Hex Hc) as [n Hn].
    pose proof (Hh (ticks s + n)%nat u Hu). congruence. }
  unfold bind, since, now, bind, ask, metrics, log, ret. cbn [fst snd].
  split_and!; try done; [by apply Hres|]. exists (Sub (clock env (ticks s1)) t0). cbn. by rewrite Hm.
Qed.
End MissPhase.

(** ** Writers *)

Lemma finish_write code b w :
  wStatus w = None -> informational code = false ->
  Write b (WriteHeader code w) = mkW (wHeader w) (Some code) (wHeader w) (wBody w +:+ b).
Proof. intros Hs Hi. unfold Write, WriteHeader. by rewrite Hs, Hi. Qed.

(** The header names the proxy itself sets on a response. *)
Definition proxy_set (k : string) : Prop :=
  k ∈ ["X-Cache"; "Age"; "Content-Length"; "X-Request-Id"; "X-Concurrency-Limit"; "X-Queue-Limit";
       "X-Queue-Depth"; "X-Queue-Wait"].
#[export] Instance proxy_set_dec k : Decision (proxy_set k).
Proof. unfold proxy_set. apply _. Defined.

Lemma proxy_set_compute k : bool_decide (proxy_set k) = true -> proxy_set k.
Proof. apply bool_decide_eq_true_1. Qed.

Lemma write_response_spec w code h b x :
  wStatus w = None -> informational code = false -> canonical h ->
  let w' := write_response w code h b x in
  wStatus w' = Some code /\ wBody w' = wBody w +:+ b /\ wSent w' !! "X-Cache" = Some [x]
  /\ (forall k, ~ proxy_set k -> wSent w' !! k = header_union (wHeader w) h !! k).
Proof.
  intros Hs Hi Hh. cbv zeta. unfold write_response. cbn [wHeader wWithHeader].
  rewrite copyHeader_union by done. set (w0 := wWithHeader _ w).
  set (w1 := match header_union (wHeader w) h !! "Content-Length" with Some _ => w0 | None => _ end).
  assert (Hw1 : wStatus w1 = None /\ wBody w1 = wBody w /\
    forall k, ~ proxy_set k -> wHeader w1 !! k = header_union (wHeader w) h !! k).
  { subst w1. destruct (header_union (wHeader w) h !! "Content-Length"); [done|].
    split_and!; [done|done|]. intros k Hk. cbn [wHeader wSet]. unfold hSet. rewrite lookup_insert_ne; [done|].
    intros <-. by apply Hk, proxy_set_compute. }
  destruct Hw1 as (H1 & H2 & H3). rewrite finish_write by (cbn; done). cbn.
  split_and!; [done|by rewrite H2|exact (lookup_insert_eq _ _ _)|].
  intros k Hk. unfold hSet. rewrite lookup_insert_ne; [by apply H3|]. intros <-.
  by apply Hk, proxy_set_compute.
Qed.

Lemma queue_headers_frame cfg d wt w :
  wStatus (queue_headers cfg d wt w) = wStatus w /\ wBody (queue_headers cfg d wt w) = wBody w
  /\ forall k, ~ proxy_set k -> wHeader (queue_headers cfg d wt w) !! k = wHeader w !! k.
Proof.
  unfold queue_headers. destruct (QueueWaitHeader cfg); [|done]. split_and!; [done|done|].
  intros k Hk. cbn [wHeader wSet]. unfold hSet.
  rewrite !lookup_insert_ne; [done|..]; intros <-; by apply Hk, proxy_set_compute.
Qed.

(** ** What a whole request does to the balancer and the metrics *)

Section Whole.
Context `{U : Unicode} {C : Type} `{HC : Cache C} {B : Type} `{BL : BalancerLaws B}.
Variable ParseTime : string -> option Z.
Variable env : Env.
Abbreviation World := (World C B).

(** The balancer keeps its targets and gets its connections back. *)
Definition settled (s s' : World) : Prop :=
  bal_ok (bal_of s) ->
  bal_ok (bal_of s') /\ Targets (bal_of s') = Targets (bal_of s)
  /\ checks (bal_of s') = checks (bal_of s) /\ in_flight (bal_of s') = in_flight (bal_of s).

Lemma settled_refl s : settled s s.
Proof. by intros Hok. Qed.
Lemma settled_trans s1 s2 s3 : settled s1 s2 -> settled s2 s3 -> settled s1 s3.
Proof.
  intros H12 H23 Hok. destruct (H12 Hok) as (K1 & K2 & K3 & K4). destruct (H23 K1) as (L1 & L2 & L3 & L4).
  split_and!; congruence.
Qed.
Lemma settled_keeps {A} (m : M World A) : keeps bal_of m -> relates settled m.
Proof. intros Hk s Hok. by rewrite !Hk. Qed.

Lemma settled_bind {A A'} (m : M World A) (k : A -> M World A') :
  relates settled m -> (forall x, relates settled (k x)) -> relates settled (bind m k).
Proof. apply relates_bind, settled_trans. Qed.

Lemma settled_pick p : relates settled (pick env p).
Proof.
  intros s Hok. pose proof (pick_spec env p s Hok) as Hp. destruct (pick env p s) as [u s'].
  cbn. naive_solver.
Qed.

Lemma settled_serveUpstream w req : relates settled (serveUpstream ParseTime env w req).
Proof.
  unfold serveUpstream. apply settled_bind; [apply settled_keeps; frame|]. intros t.
  apply settled_bind; [destruct (ctx_target (rCtx req)); [apply settled_keeps, keeps_ret|apply settled_pick]|].
  intros [u|]; [|apply settled_keeps; frame].
  intros s Hok. unfold bind, acquire, metrics, run_release, ret.
  pose proof (law_acquire (bal_of s) u Hok) as Ha. unfold bal_of in *.
  destruct (Acquire (rp_balancer (proxy s)) u) as [b1 release]. cbn [fst snd].
  match goal with |- context [forward ParseTime env ?w ?r ?o ?u ?t ?t' ?s0] =>
    pose proof (keeps_bal_forward ParseTime env w r o u t t' s0) as Hf;
    destruct (forward ParseTime env w r o u t t' s0) as [w' s1] end.
  unfold bal_of in Hf. cbn in Hf |- *. rewrite Hf. naive_solver.
Qed.

Lemma settled_call_handler w req : relates settled (call_handler ParseTime env w req).
Proof.
  unfold call_handler. apply settled_bind; [apply settled_keeps; frame|]. intros [cfg|].
  - apply settled_bind; [apply settled_keeps; frame|]. intros [|err|d wt];
      [apply settled_keeps, keeps_ret|apply settled_keeps, keeps_ret|apply settled_serveUpstream].
  - apply settled_serveUpstream.
Qed.

Lemma settled_miss t w req : relates settled (miss_phase ParseTime env t w req).
Proof.
  unfold miss_phase. apply settled_bind; [apply settled_pick|]. intros [u|]; [|apply settled_keeps; frame].
  apply settled_bind; [apply settled_keeps; frame|]. intros [id r].
  apply settled_bind; [apply settled_keeps; frame|]. intros _. apply settled_call_handler.
Qed.

Lemma settled_serve w req : relates settled (ServeHTTP ParseTime env w req).
Proof.
  unfold ServeHTTP. apply settled_bind; [apply settled_keeps; frame|]. intros t.
  case_bool_decide; [apply settled_keeps, keeps_ret|].
  apply settled_bind; [apply settled_keeps; frame|]. intros a.
  destruct (method_refused a _); [apply settled_keeps; frame|].
  apply settled_bind; [apply settled_pick|]. intros o.
  apply settled_bind; [apply settled_keeps; frame|]. intros on.
  apply settled_bind; [destruct on; [apply settled_keeps, keeps_bal_cache_phase|apply settled_keeps, keeps_ret]|].
  intros [r [e|]]; [apply settled_keeps, keeps_bal_hit|apply settled_miss].
Qed.

(** A number read off the metrics trace. *)
Section Trace.
Variable count : list Call -> Z.
Hypothesis count_app : forall l1 l2, count (l1 ++ l2) = count l1 + count l2.

(** [m] adds exactly [n]. *)
Definition adds {A} (n : Z) (m : M World A) : Prop :=
  forall s, count (metric_calls (m s).2) = count (metric_calls s) + n.

Lemma adds_ret {A} (x : A) : adds 0 (ret x).
Proof. intros s. cbn. lia. Qed.
Lemma adds_bind {A A'} n n' (m : M World A) (k : A -> M World A') :
  adds n m -> (forall x, adds n' (k x)) -> adds (n + n') (bind m k).
Proof.
  intros Hm Hk s. unfold bind. pose proof (Hm s) as Hs. destruct (m s) as [x s']. rewrite Hk. cbn in Hs. lia.
Qed.
Lemma adds_bind_l {A A'} n (m : M World A) (k : A -> M World A') :
  adds n m -> (forall x, adds 0 (k x)) -> adds n (bind m k).
Proof. intros Hm Hk. rewrite <- (Z.add_0_r n). by apply adds_bind. Qed.
Lemma adds_bind_r {A A'} n (m : M World A) (k : A -> M World A') :
  adds 0 m -> (forall x, adds n (k x)) -> adds n (bind m k).
Proof. intros Hm Hk. rewrite <- (Z.add_0_l n). by apply adds_bind. Qed.
Lemma adds_metrics l : adds (count l) (metrics l).
Proof. intros s. cbn. by rewrite count_app. Qed.
Lemma adds_quiet {A} (m : M World A) : keeps metric_calls m -> adds 0 m.
Proof. intros Hk s. rewrite Hk. lia. Qed.
Lemma adds_eq {A} n n' (m : M World A) : n' = n -> adds n' m -> adds n m.
Proof. by intros ->. Qed.
End Trace.
End Whole.
