(* ===== verification/ProxyProps.v ===== *)
(** * The reverse proxy: properties

    The theorems about requests and configuration, proved from the lemmas of [ProxyFacts]
    for every cache and balancer that keep their promises, and their instances on the LRU
    cache and the two balancers. *)
From S2P Require Import Prelude GoStrings GoTime GoNet Queue.
From S2P Require Import Headers CacheControl LruCache Balancer Sha256 Metrics Log Proxy ProxyFacts.
#[local] Open Scope Z_scope.
#[local] Open Scope handler_scope.

#[local] Arguments httpError : simpl never.
#[local] Arguments directRequest : simpl never.
#[local] Arguments write_response : simpl never.

Lemma httpError_spec msg code w :
  wStatus w = None -> informational code = false ->
  wStatus (httpError msg code w) = Some code /\ wBody (httpError msg code w) = wBody w +:+ (msg +:+ newline)
  /\ forall k, k <> "Content-Length" -> k <> "Content-Type" -> k <> "X-Content-Type-Options" ->
       wSent (httpError msg code w) !! k = wHeader w !! k.
Proof.
  intros Hs Hi. unfold httpError. rewrite finish_write by done. cbn [wStatus wBody wSent wHeader wWithHeader].
  split_and!; [done|done|]. intros k H1 H2 H3. unfold hSet, hDel.
  rewrite !lookup_insert_ne by (intros <-; contradiction). by rewrite lookup_delete_ne by (intros <-; contradiction).
Qed.

Lemma set_request_id_frame req w :
  wStatus (set_request_id req w) = wStatus w /\ wBody (set_request_id req w) = wBody w
  /\ (wHeader w !! "X-Request-Id" = None -> hGet (wHeader (set_request_id req w)) "X-Request-ID" = getRequestID req)
  /\ forall k, k <> "X-Request-Id" -> wHeader (set_request_id req w) !! k = wHeader w !! k.
Proof.
  unfold set_request_id. case_bool_decide as Hid; cbn [wStatus wBody wHeader wSet].
  - split_and!; [done|done|intros _; apply hGet_hSet|]. intros k Hk. unfold hSet.
    by rewrite lookup_insert_ne by (intros <-; contradiction).
  - split_and!; [done|done| |done]. intros Hn. unfold hGet.
    change (CanonicalHeaderKey "X-Request-ID") with "X-Request-Id". rewrite Hn.
    destruct (decide (getRequestID req = "")); [done|contradiction].
Qed.

Lemma sent_get w k w' : wSent w !! CanonicalHeaderKey k = wHeader w' !! CanonicalHeaderKey k ->
  hGet (wSent w) k = hGet (wHeader w') k.
Proof. unfold hGet. by intros ->. Qed.

Section Properties.
Context `{U : Unicode} {C : Type} `{HL : CacheLaws C} {B : Type} `{BL : BalancerLaws B}.
Variable ParseTime : string -> option Z.
Variable env : Env.
Abbreviation World := (World C B).
Abbreviation serve := (ServeHTTP ParseTime env newWriter).

(** The health endpoint answers 200 with the body ok whatever the state of the
    proxy, echoes the request identifier if there is one, and touches neither cache,
    balancer, metrics, log nor upstream. *)
Theorem serve_healthz (req : Request) (s : World) :
  Path (rURL req) = "/healthz" ->
  let '(w, s') := serve req s in
  wStatus w = Some 200 /\ wBody w = "ok" /\ hGet (wSent w) "X-Request-ID" = getRequestID req
  /\ s' = with_ticks (S (ticks s)) s.
Proof.
  intros Hp. unfold ServeHTTP, bind at 1, now, ask.
  change (Path (rURL (with_start _ req))) with (Path (rURL req)). rewrite bool_decide_true by done.
  unfold ret. destruct (set_request_id_frame (with_start (clock env (ticks s)) req) newWriter) as (H1 & H2 & H3 & _).
  rewrite finish_write by done. cbn [wStatus wBody wSent]. rewrite H2.
  split_and!; [done|done|by apply H3|done].
Qed.

(** With an allowlist, a request of another method is answered 405 with the
    allowed methods, sorted, in the Allow header; the proxy's state is unchanged,
    nothing is sent upstream, and the response is counted once. *)
Theorem serve_method_not_allowed (req : Request) (s : World) (allowed : gset string) :
  Path (rURL req) <> "/healthz" -> allowedMethods (proxy s) = Some allowed -> Method req ∉ allowed ->
  let '(w, s') := serve req s in
  wStatus w = Some 405
  /\ hGet (wSent w) "Allow" = Join (sort_strings (elements allowed)) ", "
  /\ hGet (wSent w) "X-Request-ID" = getRequestID req
  /\ proxy s' = proxy s /\ sent s' = sent s
  /\ exists d, metric_calls s' = metric_calls s ++ ObserveProxyResponse (Method req) 405 "BYPASS" d.
Proof.
  intros Hp Ha Hm. unfold ServeHTTP, bind, now, ask, get, since, now, ask, bind, metrics, ret.
  change (Path (rURL (with_start _ req))) with (Path (rURL req)). rewrite bool_decide_false by done.
  cbn [proxy with_ticks ticks]. rewrite Ha. unfold method_refused.
  change (Method (with_start _ req)) with (Method req). rewrite bool_decide_false by done. cbn [negb].
  set (w0 := allow_header (Some allowed) newWriter).
  assert (Hw0 : wStatus w0 = None /\ hGet (wHeader w0) "Allow" = Join (sort_strings (elements allowed)) ", "
                /\ wHeader w0 !! "X-Request-Id" = None).
  { subst w0. unfold allow_header, listAllowedMethods.
    destruct (sort_strings (elements allowed)) as [|m l]; cbn [length Nat.ltb Nat.leb]; [done|].
    cbn [wStatus wHeader wSet newWriter]. split_and!; [done|apply hGet_hSet|done]. }
  destruct Hw0 as (H1 & H2 & H3).
  destruct (set_request_id_frame (with_start (clock env (ticks s)) req) w0) as (R1 & _ & R3 & R4).
  destruct (httpError_spec "method not allowed" 405 (set_request_id (with_start (clock env (ticks s)) req) w0))
    as (E1 & _ & E3); [by rewrite R1|done|].
  split_and!; [done| | |done|done|by eexists].
  - rewrite <- H2. apply sent_get. rewrite E3 by done. by apply R4.
  - transitivity (hGet (wHeader (set_request_id (with_start (clock env (ticks s)) req) w0)) "X-Request-ID").
    + apply sent_get. by apply E3.
    + by apply R3.
Qed.

(** [C11] When every target fails its probe, a request that passes the filters and is
    not served from the cache is answered 503, nothing is sent upstream, the cache gains
    nothing, and every target has the active connections and the reservations it had
    before. *)
Theorem serve_unavailable (req : Request) (s : World) :
  cache_ok (cache_of s) -> bal_ok (bal_of s) -> checks (bal_of s) = true ->
  (forall n u, u ∈ Targets (bal_of s) -> isTargetHealthy (http_get env n) u = false) ->
  Path (rURL req) <> "/healthz" -> method_refused (allowedMethods (proxy s)) (Method req) = false ->
  hit_of env s req = None ->
  let '(w, s') := serve req s in
  wStatus w = Some 503 /\ wBody w = "no healthy upstream targets" +:+ newline
  /\ sent s' = sent s /\ in_flight (bal_of s') = in_flight (bal_of s)
  /\ reserved (bal_of s') = reserved (bal_of s)
  /\ forall e, e ∈ cache_view (cache_of s') -> e ∈ cache_view (cache_of s).
Proof.
  intros Hc Hb Hck Hh Hp Hm Hhit.
  destruct (ServeHTTP_split ParseTime env newWriter req s Hc Hp Hm) as (s1 & Hlk & Htk & ->). rewrite Hhit.
  destruct Hlk as [L1 L2 L3 _ _ _ _ L8 _].
  set (req1 := if caching s req then _ else _).
  pose proof (miss_phase_unavailable ParseTime env (clock env (ticks s)) newWriter req1 s1) as Hmiss.
  rewrite L3 in Hmiss. specialize (Hmiss Hb Hck Hh).
  destruct (miss_phase _ _ _ _ _ _) as [w s']. destruct Hmiss as (-> & Hca & Hs & Hf & Hr & _).
  destruct (set_request_id_frame req1 newWriter) as (R1 & R2 & _ & _).
  destruct (httpError_spec "no healthy upstream targets" 503 (set_request_id req1 newWriter))
    as (E1 & E2 & _); [by rewrite R1|done|].
  split_and!; [done|by rewrite E2, R2|congruence|done|done|].
  intros e. rewrite Hca, L8. destruct (caching s req); [|done].
  unfold Spec.get. destruct (Spec.find _ _) as [v|] eqn:Hf'; [|done]. cbn [snd].
  intros [->|He]%elem_of_cons; [by apply Spec_find_in|].
  unfold Spec.remove in He. by apply list_elem_of_filter in He as [_ He].
Qed.

(** *** A HIT *)

(** The age of an entry at an instant: the whole seconds since it was stored, or zero if
    the clock went back. *)
Definition age_of (e : CachedResponse) (t : Z) : string :=
  Itoa (Z.max 0 (f64_trunc (Seconds (Sub t (cr_storedAt e))))).

(** The answer of a HIT: the stored response with the proxy's own header fields. *)
Lemma serve_hit_spec t0 e req (s : World) :
  informational (cr_status e) = false -> canonical (cr_header e) ->
  let '(w, s') := serve_hit env t0 e newWriter req s in
  wStatus w = Some (cr_status e) /\ wBody w = cr_body e /\ wSent w !! "X-Cache" = Some ["HIT"]
  /\ (exists n, (ticks s <= n <= S (ticks s))%nat /\ wSent w !! "Age" = Some [age_of e (clock env n)])
  /\ (forall k, ~ proxy_set k -> wSent w !! k = header_union ∅ (cr_header e) !! k)
  /\ unchanged s s'
  /\ exists d, metric_calls s' = metric_calls s ++ ObserveProxyResponse (Method req) (cr_status e) "HIT" d.
Proof.
  intros Hi Hcan. unfold serve_hit, bind at 1.
  set (m := if bool_decide _ then _ else _).
  assert (Hid : exists id req' s1, m s = ((id, req'), s1) /\ unchanged s s1
                /\ metric_calls s1 = metric_calls s /\ Method req' = Method req
                /\ (ticks s <= ticks s1 <= S (ticks s))%nat).
  { subst m. case_bool_decide; [|eexists _, _, _; (split; [reflexivity|]); by split_and!; try lia].
    pose proof (ensureRequestID_spec env req s) as Hs. unfold ensureRequestID in *.
    case_bool_decide; cbn in *; eexists _, _, _; (split; [reflexivity|]); cbn; split_and!; try lia; naive_solver. }
  destruct Hid as (id & req' & s1 & -> & Hun & Hm & Hmeth & Htick). cbn [fst snd].
  unfold bind, log, since, now, bind, ask, metrics, ret. cbn [fst snd].
  rewrite finish_write by done. cbn [wStatus wBody wSent wHeader wSet wWithHeader newWriter].
  rewrite copyHeader_union by done. unfold hSet.
  split_and!.
  - done.
  - done.
  - rewrite lookup_insert_ne by done. exact (lookup_insert_eq _ _ _).
  - exists (ticks s1). split; [done|]. rewrite (lookup_insert_eq _ "Age"). unfold age_of. cbn [ticks with_logs].
    set (a := f64_trunc _). destruct (Z.ltb_spec a 0); do 3 f_equal; lia.
  - intros k Hk.
    assert (Hne : k <> "Age" /\ k <> "X-Cache" /\ k <> "X-Request-Id")
      by (split_and!; intros ->; by apply Hk, proxy_set_compute).
    rewrite !lookup_insert_ne by naive_solver. rewrite !lookup_header_union.
    destruct (cr_header e !! k) as [[|v vv]|]; [|f_equal|];
      change (CanonicalHeaderKey "X-Request-ID") with "X-Request-Id";
      rewrite lookup_insert_ne by naive_solver; done.
  - eapply unchanged_trans; [exact Hun|]. by constructor.
  - eexists. cbn. rewrite Hm, Hmeth. reflexivity.
Qed.

Lemma cache_hit_spec (req : Request) (s : World) (e : CachedResponse) :
  cache_ok (cache_of s) ->
  Path (rURL req) <> "/healthz" -> method_refused (allowedMethods (proxy s)) (Method req) = false ->
  hit_of env s req = Some e -> informational (cr_status e) = false -> canonical (cr_header e) ->
  let '(w, s') := serve req s in
  wStatus w = Some (cr_status e) /\ wBody w = cr_body e /\ wSent w !! "X-Cache" = Some ["HIT"]
  /\ (exists n, (lookup_tick s < n <= lookup_tick s + 2)%nat /\ wSent w !! "Age" = Some [age_of e (clock env n)])
  /\ (forall k, ~ proxy_set k -> wSent w !! k = header_union ∅ (cr_header e) !! k)
  /\ sent s' = sent s /\ bal_of s' = bal_of s
  /\ cache_view (cache_of s') = (key_of env s req, e) :: Spec.remove (key_of env s req) (cache_view (cache_of s))
  /\ exists d, metric_calls s' = metric_calls s ++ ObserveProxyResponse (Method req) (cr_status e) "HIT" d.
Proof.
  intros Hc Hp Hm Hhit Hi Hcan.
  destruct (ServeHTTP_split ParseTime env newWriter req s Hc Hp Hm) as (s1 & Hlk & Htk & ->). rewrite Hhit.
  unfold hit_of, fresh_entry in Hhit. destruct (caching s req); [|done]. specialize (Htk eq_refl).
  destruct (Spec.find _ _) as [e'|] eqn:Hf; [|done]. destruct (After _ _) eqn:Haf; [done|]. simplify_eq.
  destruct Hlk as [L1 L2 L3 L4 _ _ _ L8 _].
  pose proof (serve_hit_spec (clock env (ticks s)) e
    (with_key (key_of env s req) (with_start (clock env (ticks s)) req)) s1 Hi Hcan) as Hh.
  destruct (serve_hit _ _ _ _ _ _) as [w s'].
  destruct Hh as (H1 & H2 & H3 & H4 & H5 & [H6 H7 H8 H9] & d & Hd).
  split_and!; [done|done|done| |done|congruence|congruence| |].
  - destruct H4 as (n & Hn & H4). exists n. split; [lia|done].
  - rewrite H7, L8. unfold Spec.get. by rewrite Hf.
  - exists d. by rewrite Hd, L4.
Qed.

(** [C2] A HIT: a request that passes the filters, may use the cache and whose key has a
    fresh entry (of a final status and canonical fields, as [clean] entries are) is
    answered with the stored status and body and the stored header fields, marked
    X-Cache: HIT, with the whole seconds since the entry was stored as its Age, by the
    clock at one of the two readings after that of the lookup; no upstream is contacted,
    no balancer state changes, and the entry becomes the most recently used. *)
Theorem serve_cache_hit (req : Request) (s : World) (e : CachedResponse) :
  cache_ok (cache_of s) ->
  Path (rURL req) <> "/healthz" -> method_refused (allowedMethods (proxy s)) (Method req) = false ->
  hit_of env s req = Some e -> informational (cr_status e) = false -> canonical (cr_header e) ->
  let '(w, s') := serve req s in
  wStatus w = Some (cr_status e) /\ wBody w = cr_body e /\ wSent w !! "X-Cache" = Some ["HIT"]
  /\ (exists n, (lookup_tick s < n <= lookup_tick s + 2)%nat /\ wSent w !! "Age" = Some [age_of e (clock env n)])
  /\ (forall k, ~ proxy_set k -> wSent w !! k = header_union ∅ (cr_header e) !! k)
  /\ sent s' = sent s /\ bal_of s' = bal_of s
  /\ cache_view (cache_of s') = (key_of env s req, e) :: Spec.remove (key_of env s req) (cache_view (cache_of s))
  /\ exists d, metric_calls s' = metric_calls s ++ ObserveProxyResponse (Method req) (cr_status e) "HIT" d.
Proof. exact (cache_hit_spec req s e). Qed.

(** *** A request that goes upstream *)

Lemma identified_frame req req' id :
  identified req req' id ->
  Method req' = Method req /\ rURL req' = rURL req /\ rBody req' = rBody req /\ rHost req' = rHost req
  /\ rCtx req' = rCtx req /\ (forall k, k <> "X-Request-Id" -> rHeader req' !! k = rHeader req !! k)
  /\ same_directives req' req.
Proof.
  intros [(-> & _ & ->)|(_ & t & n & -> & ->)]; [done|]. split_and!; try done.
  - intros k Hk. cbn. unfold hSet. by rewrite lookup_insert_ne by (intros <-; contradiction).
  - apply reqSet_id_same.
Qed.

Lemma hop_not_set k : hop k -> ~ proxy_set k.
Proof.
  intros Hk Hp. assert (Hall : Forall (fun k => ~ proxy_set k) (CanonicalHeaderKey <$> hopHeaders)).
  { apply (bool_decide_eq_true_1 _). vm_compute. reflexivity. }
  rewrite Forall_forall in Hall. by apply (Hall k Hk).
Qed.

Lemma client_key_ne o req : client_key o req <> "".
Proof.
  unfold client_key. destruct (hash_body req) as [h r]. unfold request_key, buildCacheKey.
  intros He%(f_equal bytes). rewrite !bytes_app in He.
  apply (f_equal length) in He. rewrite !length_app in He. cbn in He. lia.
Qed.

Lemma Spec_set_head cap k v l : (0 < cap)%nat -> head (Spec.set cap k v l) = Some (k, v).
Proof. unfold Spec.set. destruct cap; [lia|done]. Qed.
Lemma Spec_find_head k v l : head l = Some (k, v) -> Spec.find k l = Some v.
Proof. destruct l as [|[k' v'] l]; [done|]. intros [= -> ->]. cbn. by rewrite decide_True. Qed.

Lemma response_to_client (s s' s2 : World) req u up b w w1 w' :
  wStatus w = None -> wBody w = "" -> informational (up_status up) = false ->
  admitted s2 w w1 -> forwarded ParseTime env s s' req u up b w1 w' ->
  wStatus w' = Some (up_status up) /\ wBody w' = b
  /\ (forall k, ~ proxy_set k ->
        wSent w' !! k = header_union (wHeader w) (sanitizeResponseHeaders (up_header up)) !! k).
Proof.
  intros Hs Hb Hi Had [_ _ (n & st & Hst & -> & _)].
  assert (H1 : wStatus w1 = None /\ wBody w1 = "" /\ forall k, ~ proxy_set k -> wHeader w1 !! k = wHeader w !! k).
  { unfold admitted in Had. destruct (handler (proxy s2)) as [cfg|]; [|by subst].
    destruct Had as (d & wt & ->). destruct (queue_headers_frame (with_defaults cfg) d wt w) as (Q1 & Q2 & Q3).
    split_and!; [congruence|congruence|done]. }
  destruct H1 as (W1 & W2 & W3).
  destruct (write_response_spec w1 (up_status up) (sanitizeResponseHeaders (up_header up)) b
    (match st with Some _ => "MISS" | None => "BYPASS" end) W1 Hi (sanitize_canonical _)) as (R1 & R2 & _ & R4).
  split_and!; [done|by rewrite R2, W2|]. intros k Hk. rewrite R4 by done.
  rewrite !lookup_header_union. by rewrite W3.
Qed.

Lemma forwards_spec (req : Request) (s : World) (up : Upstream) (b : string) :
  cache_ok (cache_of s) -> bal_ok (bal_of s) -> answers env s req up b -> rCtx req = emptyCtx ->
  Path (rURL req) <> "/healthz" -> method_refused (allowedMethods (proxy s)) (Method req) = false ->
  hit_of env s req = None -> informational (up_status up) = false ->
  let '(w, s') := serve req s in
  wStatus w = Some (up_status up) /\ wBody w = b /\ (forall k, hop k -> wSent w !! k = None)
  /\ (exists u r, u ∈ Targets (bal_of s) /\ sent s' = sent s ++ [directRequest r u]
        /\ Method r = Method req /\ rURL r = rURL req /\ rBody r = rBody req /\ rHost r = rHost req
        /\ forall k, k <> "X-Request-Id" -> rHeader r !! k = rHeader req !! k)
  /\ exists n, match storable ParseTime s req (clock env n) (clock env (S n)) (up_status up) (up_header up) with
     | Some ttl => exists m storedAt id,
         head (cache_view (cache_of s')) =
         Some (key_of env s req, mkCached (up_status up) (sanitizeResponseHeaders (up_header up)) b storedAt
                 (clock env m + Spec.ttl_of (defaultTTL s) ttl) id)
     | None => cache_view (cache_of s') =
         if caching s req then (Spec.get (lookup_time env s) (key_of env s req) (cache_view (cache_of s))).2
         else cache_view (cache_of s)
     end.
Proof.
  intros Hc Hb [A1 A2 A3 A4 A5 A6] Hctx Hp Hm Hhit Hi.
  destruct (ServeHTTP_split ParseTime env newWriter req s Hc Hp Hm) as (s1 & Hlk & Htk & ->). rewrite Hhit.
  destruct Hlk as [L1 L2 L3 _ _ L6 L7 L8 _].
  set (req1 := if caching s req then _ else _).
  assert (Hreq1 : Method req1 = Method req /\ rURL req1 = rURL req /\ rBody req1 = rBody req
            /\ rHost req1 = rHost req /\ rHeader req1 = rHeader req /\ same_directives req1 req).
  { subst req1. by destruct (caching s req). }
  destruct Hreq1 as (Q1 & Q2 & Q3 & Q4 & Q5 & Q6).
  assert (Han : answers env s1 req1 up b).
  { constructor; rewrite ?L3; try done. intros n u r Hu (E1 & E2 & E3 & E4 & E5). apply A5; [done|].
    unfold same_request. rewrite <- Q1, <- Q2, <- Q3, <- Q4, <- Q5. done. }
  pose proof (miss_phase_forwarded ParseTime env (clock env (ticks s)) newWriter req1 up b s1) as Hmiss.
  rewrite L3 in Hmiss. specialize (Hmiss Hb Han).
  destruct (miss_phase _ _ _ _ _ _) as [w s'].
  destruct Hmiss as (u & id & req' & s2 & w1 & Hu & Hid & Hc2 & Hs2 & Hn2 & Had & Hf).
  destruct (response_to_client s2 s' s2 (with_target u req') u up b (wSet "X-Request-ID" id newWriter) w1 w
    eq_refl eq_refl Hi Had Hf) as (R1 & R2 & R3).
  destruct Hf as [F1 F2 (n & st & Hst & _ & Hcache)].
  destruct (identified_frame _ _ _ Hid) as (I1 & I2 & I3 & I4 & I5 & I6 & I7).
  split_and!; [done|done| | |].
  - intros k Hk. destruct (decide (proxy_set k)) as [Hps|Hps]; [by destruct (hop_not_set k Hk)|].
    rewrite R3, lookup_header_union, sanitize_hop by done. cbn [wHeader wSet newWriter]. unfold hSet.
    rewrite lookup_insert_ne; [done|]. intros <-. by apply Hps, proxy_set_compute.
  - exists u, (with_target u req'). split_and!; [done|congruence| | | | |]; cbn; try congruence.
    intros k Hk. rewrite I6 by done. by rewrite Q5.
  - exists n. rewrite (storable_ext ParseTime s2 s (with_target u req') req) in Hst;
      [| unfold settings in *; congruence | unfold settings in *; congruence
       | apply request_eligible_proper; transitivity req1; [exact I7|exact Q6] ].
    rewrite <- Hst. destruct st as [ttl|].
    + destruct Hcache as (m & storedAt & ->).
      assert (Hcg : caching s req = true).
      { unfold storable in Hst. unfold caching. by destruct (cacheOn (proxy s) && request_eligible req). }
      assert (Hkey : key_or (ctx_key (rCtx (with_target u req'))) (directRequest (with_target u req') u) = key_of env s req).
      { cbn. rewrite I5. subst req1. rewrite Hcg. cbn. unfold key_or. by rewrite bool_decide_false by apply client_key_ne. }
      rewrite Hkey. assert (Hok2 : cache_ok (cache_of s2)) by (by rewrite Hc2).
      destruct (law_set (cache_of s2) (defaultTTL s2) (clock env m) (key_of env s req)
        (mkCached (up_status up) (sanitizeResponseHeaders (up_header up)) b storedAt 0
           (getRequestID (with_target u req'))) ttl Hok2) as (-> & _ & _).
      exists m, storedAt, (getRequestID (with_target u req')).
      rewrite Spec_set_head by (by apply cache_cap_pos). unfold setExpires. cbn.
      replace (defaultTTL s2) with (defaultTTL s); [done|]. unfold settings in *. congruence.
    + rewrite Hcache, Hc2, L8. by destruct (caching s req).
Qed.


(** *** Balance *)

Lemma gauge_quiet h {A} (m : M World A) :
  keeps (fun s => level proxyUpstreamInflight [h] (metric_calls s)) m ->
  adds (level proxyUpstreamInflight [h]) 0 m.
Proof. intros Hk s. rewrite Hk. lia. Qed.

Ltac gauge := apply gauge_quiet; frame;
  intros ?; cbn; repeat case_match; cbn; by rewrite ?level_app_other by reflexivity.

Lemma gauge_serveUpstream h w req : adds (level proxyUpstreamInflight [h]) 0 (serveUpstream (B:=B) (C:=C) ParseTime env w req).
Proof.
  unfold serveUpstream. apply adds_bind_l; [gauge|]. intros t.
  apply adds_bind_l; [destruct (ctx_target (rCtx req)); gauge|]. intros [u|]; [|gauge].
  apply adds_bind_r; [gauge|]. intros release.
  eapply adds_eq; [|apply adds_bind; [apply adds_metrics, level_app|intros _]].
  2:{ apply adds_bind_r; [gauge|]. intros w'. apply adds_bind_l; [apply adds_metrics, level_app|].
      intros _. gauge. }
  unfold IncProxyUpstreamInflight, DecProxyUpstreamInflight, level. cbn.
  destruct (bool_decide _); lia.
Qed.

(** [C8] Whatever happens to a request - answered from the cache, refused, forwarded or
    failed - afterwards the balancer has the same targets, every target the same
    number of active connections, and the in-flight gauge of every upstream is back
    where it was. *)
Theorem serve_settles (req : Request) (s : World) (h : string) :
  bal_ok (bal_of s) ->
  let '(_, s') := serve req s in
  bal_ok (bal_of s') /\ Targets (bal_of s') = Targets (bal_of s)
  /\ in_flight (bal_of s') = in_flight (bal_of s)
  /\ level proxyUpstreamInflight [h] (metric_calls s') = level proxyUpstreamInflight [h] (metric_calls s).
Proof.
  intros Hok. pose proof (settled_serve ParseTime env newWriter req s Hok) as Hs.
  assert (Hg : adds (level proxyUpstreamInflight [h]) 0 (serve req)).
  { unfold ServeHTTP. apply adds_bind_l; [gauge|]. intros t. case_bool_decide; [gauge|].
    apply adds_bind_l; [gauge|]. intros a. destruct (method_refused a _); [gauge|].
    apply adds_bind_l; [gauge|]. intros o. apply adds_bind_l; [gauge|]. intros on.
    apply adds_bind_l; [gauge|]. intros [r [e|]]; cbn [fst snd]; [gauge|]. unfold miss_phase.
    apply adds_bind_l; [gauge|]. intros [u|]; [|gauge]. apply adds_bind_l; [gauge|]. intros [id r'].
    apply adds_bind_l; [gauge|]. intros _. unfold call_handler. apply adds_bind_l; [gauge|].
    intros [cfg|]; [|apply gauge_serveUpstream]. apply adds_bind_l; [gauge|].
    intros [|err|d wt]; [gauge|gauge|apply gauge_serveUpstream]. }
  specialize (Hg s). destruct (serve req s) as [w s']. cbn in *. naive_solver lia.
Qed.

End Properties.

(** ** Counting responses *)

Section Counting.
Context `{U : Unicode} {C : Type} `{HL : CacheLaws C} {B : Type} `{BL : BalancerLaws B}.
Variable ParseTime : string -> option Z.
Variable env : Env.
Abbreviation World := (World C B).
Abbreviation serve := (ServeHTTP ParseTime env newWriter).

Abbreviation total := (incs proxyRequestsTotal).

Lemma total_quiet {A} (m : M World A) : keeps (fun s => total (metric_calls s)) m -> adds total 0 m.
Proof. intros Hk s. rewrite Hk. lia. Qed.

Ltac uncounted := apply total_quiet; frame;
  intros ?; cbn; repeat case_match; cbn; by rewrite ?incs_app_other by reflexivity.
Ltac counted := eapply adds_eq; [|apply adds_metrics, incs_app]; reflexivity.

(** [m] adds a number of responses that [P] admits. *)
Definition counts (P : Z -> Prop) {A} (m : M World A) : Prop :=
  forall s, P (total (metric_calls (m s).2) - total (metric_calls s)).

Lemma counts_adds (P : Z -> Prop) {A} n (m : M World A) : P n -> adds total n m -> counts P m.
Proof. intros Hn Hm s. rewrite Hm. by replace (_ + n - _) with n by lia. Qed.
Lemma counts_bind_r (P : Z -> Prop) {A A'} (m : M World A) (k : A -> M World A') :
  adds total 0 m -> (forall x, counts P (k x)) -> counts P (bind m k).
Proof.
  intros Hm Hk s. unfold bind. pose proof (Hm s) as Hs. destruct (m s) as [x s']. cbn in Hs.
  specialize (Hk x s'). by replace (total (metric_calls s)) with (total (metric_calls s')) by lia.
Qed.
Lemma counts_bind_l (P : Z -> Prop) {A A'} (m : M World A) (k : A -> M World A') :
  counts P m -> (forall x, adds total 0 (k x)) -> counts P (bind m k).
Proof.
  intros Hm Hk s. unfold bind. pose proof (Hm s) as Hs. destruct (m s) as [x s']. rewrite Hk. cbn in Hs.
  by rewrite Z.add_0_r.
Qed.

Lemma upstream_response_counted w req out u t1 t2 code h b :
  adds total 1 (upstream_response (B:=B) (C:=C) ParseTime env w req out u t1 t2 code h b).
Proof.
  unfold upstream_response. do 4 (apply adds_bind_r; [uncounted|intros ?]).
  destruct (isCacheableResponse _ _ _ _ _) as [ttl ok]. cbv beta zeta.
  apply adds_bind_r; [uncounted|intros ?]. apply adds_bind_r; [uncounted|intros _].
  apply adds_bind_r; [uncounted|intros ?]. apply adds_bind_l; [counted|intros _]. uncounted.
Qed.

Lemma upstream_error_counted w req u t1 t2 err :
  adds total 1 (upstream_error (B:=B) (C:=C) env w req u t1 t2 err).
Proof.
  unfold upstream_error. do 4 (apply adds_bind_r; [uncounted|intros ?]).
  apply adds_bind_l; [counted|intros _]. uncounted.
Qed.

(** What the paths through the handler count: one, or else what [P] admits. *)
Section Paths.
Variable P : Z -> Prop.
Hypothesis Hone : P 1.
Hypothesis Hread : forall n r up, RoundTrip env n r = Ok up -> up_bytes up = None -> P 0.
Hypothesis Hadmit : forall n, (exists d waited, queue_outcome env n = Served d waited) \/ P 0.

Lemma forward_counted w req out u t1 t2 : counts P (forward (B:=B) (C:=C) ParseTime env w req out u t1 t2).
Proof.
  intros s. unfold forward, bind, round_trip, bind, ask. cbn [fst snd ticks with_ticks].
  destruct (RoundTrip env (ticks s) out) as [up|err] eqn:Hr.
  - pose proof (Hread _ _ _ Hr) as Hb. unfold up_bytes in Hb.
    destruct (up_body up) as [|b|];
      [by rewrite (upstream_response_counted _ _ _ _ _ _ _ _ _ _), Z.add_simpl_l..|].
    unfold ret. cbn. rewrite Z.sub_diag. by apply Hb.
  - by rewrite (upstream_error_counted _ _ _ _ _ _ _), Z.add_simpl_l.
Qed.

Lemma serveUpstream_counted w req : counts P (serveUpstream (B:=B) (C:=C) ParseTime env w req).
Proof.
  unfold serveUpstream. apply counts_bind_r; [uncounted|]. intros t.
  apply counts_bind_r; [destruct (ctx_target (rCtx req)); uncounted|]. intros [u|].
  - apply counts_bind_r; [uncounted|]. intros release.
    apply counts_bind_r; [|intros _; apply counts_bind_l; [apply forward_counted|intros ?; uncounted]].
    eapply adds_eq; [|apply adds_metrics, incs_app]. reflexivity.
  - apply (counts_adds _ 1); [done|]. apply adds_bind_r; [uncounted|intros ?].
    apply adds_bind_l; [counted|intros _]. uncounted.
Qed.

Lemma call_handler_counted w req : counts P (call_handler (B:=B) (C:=C) ParseTime env w req).
Proof.
  unfold call_handler. apply counts_bind_r; [uncounted|]. intros [cfg|]; [|apply serveUpstream_counted].
  intros s. unfold bind, ask. destruct (Hadmit (ticks s)) as [(d & wt & ->)|Hz].
  - exact (serveUpstream_counted _ _ (with_ticks (S (ticks s)) s)).
  - destruct (queue_outcome env (ticks s)); [by cbn; rewrite Z.sub_diag..|].
    exact (serveUpstream_counted _ _ (with_ticks (S (ticks s)) s)).
Qed.

Lemma serve_counted req : Path (rURL req) <> "/healthz" \/ P 0 -> counts P (serve req).
Proof.
  intros Hp. unfold ServeHTTP. apply counts_bind_r; [uncounted|]. intros t.
  change (Path (rURL (with_start t req))) with (Path (rURL req)). case_bool_decide.
  { apply (counts_adds _ 0); [by destruct Hp|]. uncounted. }
  apply counts_bind_r; [uncounted|]. intros a. destruct (method_refused a _).
  { apply (counts_adds _ 1); [done|]. apply adds_bind_r; [uncounted|intros ?].
    apply adds_bind_l; [counted|intros _]. uncounted. }
  apply counts_bind_r; [uncounted|intros o]. apply counts_bind_r; [uncounted|intros on].
  apply counts_bind_r; [uncounted|intros [r [e|]]]; cbn [fst snd].
  - apply (counts_adds _ 1); [done|]. unfold serve_hit. do 3 (apply adds_bind_r; [uncounted|intros ?]).
    apply adds_bind_r; [uncounted|intros ?]. apply adds_bind_l; [counted|intros _]. uncounted.
  - unfold miss_phase. apply counts_bind_r; [uncounted|intros [u|]].
    + apply counts_bind_r; [uncounted|intros [id r']]. apply counts_bind_r; [uncounted|intros _].
      apply call_handler_counted.
    + apply (counts_adds _ 1); [done|]. apply adds_bind_r; [uncounted|intros ?].
      apply adds_bind_l; [counted|intros _]. uncounted.
Qed.
End Paths.

(** [C12] No request is counted more than once in proxy_requests_total, whatever becomes
    of it; and a request other than for the health endpoint is counted exactly once,
    whatever its path through the handler, if the queue does not refuse or drop it and
    the body of no upstream response fails to be read. *)
Theorem serve_counts_once (req : Request) (s : World) :
  let '(_, s') := serve req s in
  total (metric_calls s) <= total (metric_calls s') <= total (metric_calls s) + 1
  /\ (Path (rURL req) <> "/healthz" ->
      (forall n, exists d waited, queue_outcome env n = Served d waited) ->
      (forall n r up, RoundTrip env n r = Ok up -> up_bytes up <> None) ->
      total (metric_calls s') = total (metric_calls s) + 1).
Proof.
  assert (Z0 : 0 <= 0 <= 1) by lia. assert (Z1 : 0 <= 1 <= 1) by lia.
  pose proof (serve_counted (fun n => 0 <= n <= 1) Z1 (fun _ _ _ _ _ => Z0) (fun _ => or_intror Z0)
    req (or_intror Z0) s) as Hmost.
  pose proof (fun K1 K2 => serve_counted (eq 1) eq_refl K1 K2 req) as Hone.
  destruct (serve req s) as [w s'] eqn:Hs. cbn [snd] in Hmost. split; [lia|]. intros Hp Ha Hr.
  specialize (Hone (fun n r up Hu Hn => False_ind _ (Hr n r up Hu Hn)) (fun n => or_introl (Ha n)) (or_introl Hp) s).
  rewrite Hs in Hone. cbn [snd] in Hone. lia.
Qed.
End Counting.

(** A response whose body cannot be read is answered 502 but escapes the
    proxy's bookkeeping: it is in no response counter and no error is logged. *)
Theorem body_failure_uncounted `{U : Unicode} {C : Type} `{HC : Cache C} {B : Type} `{HB : Balancer B}
    ParseTime (env : Env) w req out u t1 t2 up (s : World C B) :
  wStatus w = None -> RoundTrip env (ticks s) out = Ok up -> up_body up = BodyFails ->
  let '(w', s') := forward ParseTime env w req out u t1 t2 s in
  wStatus w' = Some 502 /\ metric_calls s' = metric_calls s /\ log_calls s' = log_calls s.
Proof.
  intros Hw Hr Hb. unfold forward, bind, round_trip, bind, ask. cbn [fst snd ticks with_ticks].
  rewrite Hr, Hb. unfold ret. destruct (httpError_spec (read_error env (ticks (with_sent
    (sent (with_ticks (S (ticks s)) s) ++ [out]) (with_ticks (S (ticks s)) s)))) 502 w Hw eq_refl) as (H1 & _).
  by split_and!.
Qed.

(** ** The cache across requests *)

Section Hygiene.
Context `{U : Unicode} {C : Type} `{HL : CacheLaws C} {B : Type} `{BL : BalancerLaws B}.
Variable ParseTime : string -> option Z.
Abbreviation World := (World C B).

(** A response as the proxy may store it. *)
Record clean (e : CachedResponse) : Prop := {
  clean_status : cacheable_status (cr_status e) = true;
  clean_hop k : hop k -> cr_header e !! k = None;
  clean_canonical : canonical (cr_header e);
}.
Definition clean_cache (c : C) : Prop := cache_ok c /\ forall p, p ∈ cache_view c -> clean p.2.

Definition stays_clean (s s' : World) : Prop :=
  clean_cache (cache_of s) -> clean_cache (cache_of s') /\ cache_cap (cache_of s') = cache_cap (cache_of s).

Lemma stays_clean_refl s : stays_clean s s.
Proof. done. Qed.
Lemma stays_clean_trans s1 s2 s3 : stays_clean s1 s2 -> stays_clean s2 s3 -> stays_clean s1 s3.
Proof. intros H12 H23 Hc. destruct (H12 Hc) as [Hc2 He]. destruct (H23 Hc2). split; [done|congruence]. Qed.
Lemma stays_clean_keeps {A} (m : M World A) : keeps cache_of m -> relates stays_clean m.
Proof. intros Hk s Hc. by rewrite Hk. Qed.
Lemma stays_clean_bind {A A'} (m : M World A) (k : A -> M World A') :
  relates stays_clean m -> (forall x, relates stays_clean (k x)) -> relates stays_clean (bind m k).
Proof. apply relates_bind, stays_clean_trans. Qed.

Lemma cacheable_has_status cell t1 t2 r ttl :
  isCacheableResponse ParseTime cell t1 t2 r = (ttl, true) -> cacheable_status (StatusCode r) = true.
Proof. unfold isCacheableResponse. by destruct (cacheable_status (StatusCode r)). Qed.

Lemma clean_response env w req out u t1 t2 code h b :
  relates stays_clean (upstream_response (B:=B) (C:=C) ParseTime env w req out u t1 t2 code h b).
Proof.
  intros s [Hok Hcl]. pose proof (upstream_response_spec ParseTime env w req out u t1 t2 code h b s) as Hs.
  cbv zeta in Hs. destruct (upstream_response _ _ _ _ _ _ _ _ _ _ _ s) as [w' s'].
  destruct Hs as (_ & _ & _ & _ & Hst). cbn [snd].
  destruct (storable _ s out _ _ code h) as [ttl|] eqn:Hsto; [|by rewrite Hst].
  destruct Hst as (n & storedAt & ->).
  destruct (law_set (cache_of s) (defaultTTL s) (clock env n) (key_or (ctx_key (rCtx req)) out)
    (mkCached code (sanitizeResponseHeaders h) b storedAt 0 (getRequestID req)) ttl Hok) as (Hv & Hok' & Hcap).
  split; [|done]. split; [done|]. intros p Hp. rewrite Hv in Hp. unfold Spec.set in Hp.
  apply elem_of_take in Hp as (i & Hi & _). apply list_elem_of_lookup_2 in Hi.
  apply elem_of_cons in Hi as [->|Hi].
  - unfold storable in Hsto. destruct (_ && _); [|done].
    destruct (isCacheableResponse _ _ _ _ _) as [ttl' ok] eqn:Hc; destruct ok; [|done].
    constructor; cbn; [by apply cacheable_has_status in Hc|intros k; apply sanitize_hop|apply sanitize_canonical].
  - unfold Spec.remove in Hi. apply list_elem_of_filter in Hi as [_ Hi]. by apply Hcl.
Qed.

Lemma clean_get env k : relates stays_clean (cache_get (B:=B) (C:=C) env k).
Proof.
  intros s [Hok Hcl]. unfold cache_get, bind, now, ask. cbn [proxy with_ticks].
  pose proof (law_get (cache_of s) (clock env (ticks s)) k Hok) as Hg. unfold cache_of in *.
  destruct (Get (cache (proxy s)) (clock env (ticks s)) k) as [r c']. cbn.
  unfold Spec.get in Hg. destruct (Spec.find _ _) as [e|] eqn:Hf; destruct Hg as (_ & Hv & Hok' & Hcap);
    (split; [split; [done|]|done]); intros p; rewrite Hv; [|by apply Hcl].
  intros [->|Hp]%elem_of_cons; [apply Hcl; by eapply Spec_find_in|].
  unfold Spec.remove in Hp. apply list_elem_of_filter in Hp as [_ Hp]. by apply Hcl.
Qed.

Ltac leaves_cache := apply stays_clean_keeps; frame.

Lemma clean_forward env w req out u t1 t2 :
  relates stays_clean (forward (B:=B) (C:=C) ParseTime env w req out u t1 t2).
Proof.
  unfold forward. apply stays_clean_bind; [leaves_cache|]. intros [up|err]; [|leaves_cache].
  destruct (up_body up); [apply clean_response|apply clean_response|leaves_cache].
Qed.

Lemma clean_serve env w req : relates stays_clean (ServeHTTP (B:=B) (C:=C) ParseTime env w req).
Proof.
  unfold ServeHTTP. apply stays_clean_bind; [leaves_cache|]. intros t. case_bool_decide; [leaves_cache|].
  apply stays_clean_bind; [leaves_cache|]. intros a. destruct (method_refused a _); [leaves_cache|].
  apply stays_clean_bind; [leaves_cache|]. intros o. apply stays_clean_bind; [leaves_cache|]. intros on.
  apply stays_clean_bind.
  { destruct on; [|leaves_cache]. unfold cache_phase. destruct (hash_body _) as [h r]. cbv zeta.
    destruct (isCacheableRequest _ && _); [|leaves_cache].
    apply stays_clean_bind; [apply clean_get|]. intros ?. leaves_cache. }
  intros [r [e|]]; cbn [fst snd]; [leaves_cache|]. unfold miss_phase.
  apply stays_clean_bind; [leaves_cache|]. intros [u|]; [|leaves_cache].
  apply stays_clean_bind; [leaves_cache|]. intros [id r']. apply stays_clean_bind; [leaves_cache|]. intros _.
  assert (Hup : forall w req, relates stays_clean (serveUpstream (B:=B) (C:=C) ParseTime env w req)).
  { clear. intros w req. unfold serveUpstream. apply stays_clean_bind; [leaves_cache|]. intros t.
    apply stays_clean_bind; [destruct (ctx_target (rCtx req)); leaves_cache|]. intros [u|]; [|leaves_cache].
    apply stays_clean_bind; [leaves_cache|]. intros release. apply stays_clean_bind; [leaves_cache|]. intros _.
    apply stays_clean_bind; [apply clean_forward|]. intros ?. leaves_cache. }
  unfold call_handler. apply stays_clean_bind; [leaves_cache|]. intros [cfg|]; [|apply Hup].
  apply stays_clean_bind; [leaves_cache|]. intros [|err|d wt]; [leaves_cache|leaves_cache|apply Hup].
Qed.

(** Requests one after the other, each in its environment. *)
Fixpoint serve_all (l : list (Env * Request)) (s : World) : World :=
  match l with
  | [] => s
  | (env, req) :: l' => serve_all l' (ServeHTTP ParseTime env newWriter req s).2
  end.

(** [C4] The cache stays clean: whatever requests are served, in whatever environment,
    a cache that holds only responses of cacheable statuses without hop-by-hop fields
    goes on doing so, and never exceeds its capacity. *)
Theorem serve_cache_clean (l : list (Env * Request)) (s : World) :
  clean_cache (cache_of s) ->
  let s' := serve_all l s in
  clean_cache (cache_of s')
  /\ (length (cache_view (cache_of s')) <= cache_cap (cache_of s))%nat.
Proof.
  intros Hc. cbv zeta.
  assert (Hall : clean_cache (cache_of (serve_all l s)) /\ cache_cap (cache_of (serve_all l s)) = cache_cap (cache_of s)).
  { revert s Hc. induction l as [|[env req] l IH]; intros s Hc; [done|]. cbn [serve_all].
    destruct (clean_serve env newWriter req s Hc) as [Hc1 He1]. destruct (IH _ Hc1) as [Hc2 He2].
    split; [done|congruence]. }
  destruct Hall as [Hc' He]. split; [done|]. rewrite <- He. by apply cache_bound, Hc'.
Qed.
End Hygiene.

(** ** Requests that may not use the cache *)

Section Ineligible.
Context `{U : Unicode} {C : Type} `{HL : CacheLaws C} {B : Type} `{BL : BalancerLaws B}.
Variable ParseTime : string -> option Z.
Variable env : Env.
Abbreviation World := (World C B).

(** The cache is untouched if caching is off or [el] is false. *)
Definition untouched (el : bool) (s s' : World) : Prop :=
  cacheOn (proxy s) && el = false -> cache_of s' = cache_of s /\ cacheOn (proxy s') && el = false.

Lemma untouched_keeps {A} el (m : M World A) :
  keeps cache_of m -> keeps settings m -> relates (untouched el) m.
Proof.
  intros Hc Hs s Hno. pose proof (Hs s) as Hset. unfold settings in Hset.
  split; [apply Hc|]. replace (cacheOn (proxy (m s).2)) with (cacheOn (proxy s)) by congruence. done.
Qed.
Lemma untouched_intro {A} el (m : M World A) :
  keeps settings m -> (forall s, cacheOn (proxy s) && el = false -> cache_of (m s).2 = cache_of s) ->
  relates (untouched el) m.
Proof.
  intros Hs Hc s Hno. pose proof (Hs s) as Hset. unfold settings in Hset. split; [by apply Hc|].
  replace (cacheOn (proxy (m s).2)) with (cacheOn (proxy s)) by congruence. done.
Qed.
Lemma untouched_bind {A A'} el (m : M World A) (k : A -> M World A') :
  relates (untouched el) m -> (forall x, relates (untouched el) (k x)) -> relates (untouched el) (bind m k).
Proof.
  apply relates_bind. intros s1 s2 s3 H12 H23 Hno. destruct (H12 Hno) as [He Hno2].
  destruct (H23 Hno2). split; congruence.
Qed.

Ltac untouching := apply untouched_keeps; frame.

Lemma untouched_serveUpstream w req :
  relates (untouched (request_eligible req)) (serveUpstream (B:=B) (C:=C) ParseTime env w req).
Proof.
  unfold serveUpstream. apply untouched_bind; [untouching|]. intros t.
  apply untouched_bind; [destruct (ctx_target (rCtx req)); untouching|]. intros [u|]; [|untouching].
  apply untouched_bind; [untouching|]. intros release. apply untouched_bind; [untouching|]. intros _.
  apply untouched_bind; [|intros ?; untouching].
  unfold forward. apply untouched_bind; [untouching|]. intros [up|err]; [|untouching].
  assert (Hr : forall b, relates (untouched (request_eligible req))
    (upstream_response (B:=B) (C:=C) ParseTime env w req (directRequest req u) u t
       (default t (ctx_start (rCtx req))) (up_status up) (up_header up) b)).
  { intros b s Hno.
    pose proof (upstream_response_spec ParseTime env w req (directRequest req u) u t
      (default t (ctx_start (rCtx req))) (up_status up) (up_header up) b s) as Hs. cbv zeta in Hs.
    destruct (upstream_response _ _ _ _ _ _ _ _ _ _ _ s) as [w' s']. destruct Hs as (_ & _ & _ & Hset & Hst).
    unfold storable in Hst. rewrite directRequest_eligible, Hno in Hst. split; [done|].
    unfold settings in Hset. cbn [snd]. replace (cacheOn (proxy s')) with (cacheOn (proxy s)) by congruence. done. }
  destruct (up_body up); [apply Hr|apply Hr|untouching].
Qed.

(** A request the filters stop does not come near the cache. *)
Lemma filtered_keeps (req : Request) (s : World) :
  Path (rURL req) = "/healthz" \/ method_refused (allowedMethods (proxy s)) (Method req) = true ->
  cache_of (ServeHTTP ParseTime env newWriter req s).2 = cache_of s.
Proof.
  intros Hf. unfold ServeHTTP, bind, now, ask, get. change (Path (rURL (with_start _ req))) with (Path (rURL req)).
  case_bool_decide as Hp; [done|]. cbn [proxy with_ticks].
  change (Method (with_start _ req)) with (Method req). destruct Hf as [Hf|Hf]; [done|]. by rewrite Hf.
Qed.

Lemma passes_filters (req : Request) (s : World) :
  (Path (rURL req) = "/healthz" \/ method_refused (allowedMethods (proxy s)) (Method req) = true)
  \/ (Path (rURL req) <> "/healthz" /\ method_refused (allowedMethods (proxy s)) (Method req) = false).
Proof.
  destruct (decide (Path (rURL req) = "/healthz")); [by left; left|].
  destruct (method_refused _ _) eqn:Hm; [by left; right|by right].
Qed.

Lemma ineligible_keeps (req : Request) (s : World) :
  cache_ok (cache_of s) -> caching s req = false ->
  cache_of (ServeHTTP ParseTime env newWriter req s).2 = cache_of s.
Proof.
  intros Hc Hno. destruct (passes_filters req s) as [Hf|[Hp Hm]]; [by apply filtered_keeps|].
  destruct (ServeHTTP_split ParseTime env newWriter req s Hc Hp Hm) as (s1 & Hlk & Htk & ->).
  unfold hit_of. rewrite Hno in *. destruct Hlk as [L1 _ _ _ _ _ _ _ L9]. specialize (L9 eq_refl).
  set (req0 := with_start _ req).
  assert (Hun : relates (untouched (request_eligible req)) (miss_phase (B:=B) (C:=C) ParseTime env (clock env (ticks s)) newWriter req0)).
  { unfold miss_phase. apply untouched_bind; [untouching|]. intros [u|]; [|untouching].
    apply untouched_intro; [frame|]. intros s2 Hno2. unfold bind at 1. pose proof (ensureRequestID_spec env req0 s2) as Hid.
    destruct (ensureRequestID env req0 s2) as [[id r'] s3]. destruct Hid as (Hid & [Hse Hca _ _] & _ & _).
    destruct (identified_frame _ _ _ Hid) as (_ & _ & _ & _ & _ & _ & Hsame).
    assert (Hel : request_eligible (with_target u r') = request_eligible req).
    { apply request_eligible_proper. exact Hsame. }
    cbn [fst snd].
    assert (Hrest : relates (untouched (request_eligible req))
      (log (LogProxyRequest r') ;;; call_handler (B:=B) (C:=C) ParseTime env (wSet "X-Request-ID" id newWriter) (with_target u r'))).
    { apply untouched_bind; [untouching|]. intros _. rewrite <- Hel. unfold call_handler.
      apply untouched_bind; [untouching|]. intros [cfg|]; [|apply untouched_serveUpstream].
      apply untouched_bind; [untouching|]. intros [|err|d wt]; [untouching|untouching|apply untouched_serveUpstream]. }
    assert (Hno3 : cacheOn (proxy s3) && request_eligible req = false).
    { unfold settings in Hse. replace (cacheOn (proxy s3)) with (cacheOn (proxy s2)) by congruence. done. }
    destruct (Hrest s3 Hno3) as [He _]. congruence. }
  assert (Hno1 : cacheOn (proxy s1) && request_eligible req = false).
  { unfold settings in L1. replace (cacheOn (proxy s1)) with (cacheOn (proxy s)) by congruence. done. }
  destruct (Hun s1 Hno1) as [He _]. congruence.
Qed.
(** [C10] A request that may not use the cache - caching is off, or the request says
    no-store or no-cache or carries credentials without public - leaves the cache as
    it is, statistics and recency included, whatever the upstream answers. *)
Theorem serve_ineligible_untouched (req : Request) (s : World) :
  cache_ok (cache_of s) -> caching s req = false ->
  let '(_, s') := ServeHTTP ParseTime env newWriter req s in cache_of s' = cache_of s.
Proof.
  intros Hc Hno. pose proof (ineligible_keeps req s Hc Hno) as Hk.
  by destruct (ServeHTTP ParseTime env newWriter req s).
Qed.
End Ineligible.

(** ** The rewritten request *)

Lemma directRequest_frame r u :
  Method (directRequest r u) = Method r /\ rBody (directRequest r u) = rBody r
  /\ rURL (directRequest r u) = mkURL (Scheme u) (Host u) (singleJoiningSlash (Path u) (Path (rURL r))) (RawQuery (rURL r)).
Proof.
  unfold directRequest. cbn.
  match goal with |- context [forwarded_for ?x] => destruct (forwarded_for_frame x) as (H1 & _ & H3 & H4 & _) end.
  rewrite H1, H3, H4. done.
Qed.

(** The key depends on the target only through its scheme and path. *)
Lemma client_key_uniform req u v :
  Scheme u = Scheme v -> Path u = Path v -> client_key (Some u) req = client_key (Some v) req.
Proof.
  intros Hs Hp. unfold client_key. destruct (hash_body req) as [h r]. unfold request_key, buildCacheKey.
  destruct (directRequest_frame r u) as (H1 & _ & H3), (directRequest_frame r v) as (K1 & _ & K3).
  cbn [Method rURL rHost set_host set_url Scheme Path RawQuery].
  assert (Hget : forall k x, ~ rewritten (CanonicalHeaderKey k) ->
    reqGet (set_host (rHost r) (set_url x (directRequest r u))) k
    = reqGet (set_host (rHost r) (set_url x (directRequest r v))) k).
  { intros k x Hk. change (reqGet (directRequest r u) k = reqGet (directRequest r v) k).
    by rewrite !directRequest_get. }
  rewrite H1, K1, H3, K3. cbn [Scheme Path RawQuery]. rewrite Hs, Hp.
  by rewrite !Hget by (apply not_rewritten; vm_compute; reflexivity).
Qed.

(** ** Rewriting, errors, identifiers, configuration *)

Lemma hGet_insert_eq h k v : CanonicalHeaderKey k = k -> hGet (<[k := [v]]> h) k = v.
Proof. intros Hk. unfold hGet. by rewrite Hk, lookup_insert_eq. Qed.

(** [C9] The outbound request: the target's scheme, host and base path joined with the
    client's path and query; no hop-by-hop field; the client's address appended to
    X-Forwarded-For when it is known; the client's host and scheme in X-Forwarded-Host
    and X-Forwarded-Proto; every other field, the method and the body as received. *)
Theorem directRequest_rewrites (r : Request) (u : URL) :
  let out := directRequest r u in
  rURL out = mkURL (Scheme u) (Host u) (singleJoiningSlash (Path u) (Path (rURL r))) (RawQuery (rURL r))
  /\ rHost out = Host u /\ Method out = Method r /\ rBody out = rBody r
  /\ (forall k, hop k -> rHeader out !! k = None)
  /\ (forall k, ~ rewritten k -> rHeader out !! k = rHeader r !! k)
  /\ rHeader out !! "X-Forwarded-Host" = Some [rHost r]
  /\ rHeader out !! "X-Forwarded-Proto" = Some [schemeOf r]
  /\ reqGet out "X-Forwarded-For" =
     match SplitHostPort (RemoteAddr r) with
     | Some (ip, _) =>
         if bool_decide (ip = "") then reqGet r "X-Forwarded-For"
         else if bool_decide (reqGet r "X-Forwarded-For" = "") then ip
         else reqGet r "X-Forwarded-For" +:+ ", " +:+ ip
     | None => reqGet r "X-Forwarded-For"
     end.
Proof.
  cbv zeta. destruct (directRequest_frame r u) as (H1 & H2 & H3).
  split_and!; [done|done|done|done|intros k; apply directRequest_hop|intros k; apply directRequest_lookup|..].
  - unfold directRequest. cbn [rHeader set_host reqSet set_header]. unfold hSet.
    rewrite (lookup_insert_eq _ "X-Forwarded-Host"). cbn [rHost reqSet set_header].
    match goal with |- context [forwarded_for ?x] => destruct (forwarded_for_frame x) as (_ & K & _) end.
    by rewrite K.
  - unfold directRequest. cbn [rHeader set_host reqSet set_header]. unfold hSet.
    rewrite lookup_insert_ne by done. rewrite (lookup_insert_eq _ "X-Forwarded-Proto").
    do 2 f_equal. unfold schemeOf. rewrite forwarded_for_tls. cbn [rTLS set_header set_url].
    destruct (rTLS r); [done|].
    match goal with |- context [reqGet (forwarded_for ?x) "X-Forwarded-Proto"] =>
      assert (Hy : reqGet (forwarded_for x) "X-Forwarded-Proto" = reqGet r "X-Forwarded-Proto") end; [|by rewrite Hy].
    unfold reqGet, hGet. change (CanonicalHeaderKey "X-Forwarded-Proto") with "X-Forwarded-Proto".
    rewrite (forwarded_for_lookup _ "X-Forwarded-Proto") by done. cbn [rHeader set_header set_url].
    by rewrite foldl_hDel_lookup, decide_False by (apply not_hop; reflexivity).
  - unfold directRequest. unfold reqGet at 1. cbn [rHeader set_host reqSet set_header]. unfold hSet, hGet at 1.
    change (CanonicalHeaderKey "X-Forwarded-For") with "X-Forwarded-For".
    rewrite !lookup_insert_ne by done.
    match goal with |- context [forwarded_for ?x] => set (y := x) end.
    assert (Hy : reqGet y "X-Forwarded-For" = reqGet r "X-Forwarded-For").
    { subst y. unfold reqGet, hGet. cbn [rHeader set_header set_url].
      change (CanonicalHeaderKey "X-Forwarded-For") with "X-Forwarded-For".
      by rewrite foldl_hDel_lookup, decide_False by (apply not_hop; reflexivity). }
    change (match rHeader (forwarded_for y) !! "X-Forwarded-For" with Some (v :: _) => v | _ => "" end)
      with (reqGet (forwarded_for y) "X-Forwarded-For").
    unfold forwarded_for. change (RemoteAddr y) with (RemoteAddr r).
    destruct (SplitHostPort (RemoteAddr r)) as [[ip port]|]; [|done].
    destruct (decide (ip = "")) as [->|Hip]; [done|].
    rewrite (bool_decide_true (ip <> "")), (bool_decide_false (ip = "")) by done. cbv zeta. rewrite Hy.
    case_bool_decide; unfold reqSet, reqGet; cbn [rHeader set_header]; apply hGet_hSet.
Qed.

(** [C13] A failed round trip is answered 502 with the error's text, or 408 when the
    client's context has ended; it is counted, logged as an error, nothing is cached,
    and exactly one request was sent. *)
Theorem upstream_failure `{U : Unicode} {C : Type} `{HC : Cache C} {B : Type} `{HB : Balancer B}
    ParseTime (env : Env) w req out u t1 t2 err (s : World C B) gone :
  wStatus w = None -> RoundTrip env (ticks s) out = Err err -> (forall n, ctx_done env n = gone) ->
  let code := match gone with Some _ => 408 | None => 502 end in
  let '(w', s') := forward ParseTime env w req out u t1 t2 s in
  wStatus w' = Some code
  /\ (gone = None -> wBody w' = wBody w +:+ (err +:+ newline))
  /\ cache_of s' = cache_of s /\ sent s' = sent s ++ [out]
  /\ log_calls s' = log_calls s ++ [LogProxyError code "BYPASS" (Host u) req err]
  /\ exists d1 d2, metric_calls s' = metric_calls s
       ++ ObserveProxyUpstreamResponse (Host u) (Method req) code d1
       ++ ObserveProxyResponse (Method req) code "BYPASS" d2.
Proof.
  intros Hw Hr Hgone. cbv zeta. unfold forward, bind at 1, round_trip, bind at 1, ask at 1.
  cbn [fst snd ticks with_ticks]. rewrite Hr. unfold upstream_error, bind, ask, since, now, bind, ask, metrics, log, ret.
  cbn [fst snd ticks with_ticks with_sent with_metrics with_logs metric_calls log_calls sent]. rewrite !Hgone.
  destruct gone as [g|].
  - cbn. unfold WriteHeader. rewrite Hw. cbn. split_and!; try done. rewrite <- app_assoc. by eexists _, _.
  - destruct (httpError_spec err 502 w Hw eq_refl) as (E1 & E2 & _).
    split_and!; try done. cbn. rewrite <- app_assoc. by eexists _, _.
Qed.

(** *** Request identifiers *)

Lemma digits_no_dash z : 0 <= z -> "-"%char ∉ bytes (Itoa z).
Proof.
  intros Hz Hin. pose proof (Itoa_digits z Hz) as [Hd _]. rewrite forallb_forall in Hd.
  specialize (Hd "-"%char). rewrite <- list_elem_of_In in Hd. by specialize (Hd Hin).
Qed.

Lemma fresh_id_inj t n t' n' : 0 <= t -> 0 <= t' -> fresh_id t n = fresh_id t' n' -> t = t' /\ n = n'.
Proof.
  intros Ht Ht' He. unfold fresh_id in He.
  change (Itoa t +:+ String "-" (Itoa n) = Itoa t' +:+ String "-" (Itoa n')) in He.
  apply (str_cut_unique "-"%char) in He as [H1 H2]; [|by apply digits_no_dash..].
  split; [by apply Itoa_inj|by apply Itoa_inj].
Qed.

(** The identifiers given to requests that arrive without one. *)
Fixpoint issue {C B : Type} (env : Env) (reqs : list Request) (s : World C B) : list string :=
  match reqs with
  | [] => []
  | req :: reqs' => let '((id, _), s') := ensureRequestID env req s in id :: issue env reqs' s'
  end.

Lemma issue_counters {C B : Type} env reqs (s : World C B) id :
  (forall n, 0 <= clock env n) -> Forall (fun r => getRequestID r = "") reqs -> id ∈ issue env reqs s ->
  exists t j, 0 <= t /\ (1 <= j <= length reqs)%nat /\ id = fresh_id t (wrap_i64 (requestCounter s + Z.of_nat j)).
Proof.
  intros Hclock Hall. revert s. induction Hall as [|r reqs Hr Hall IH]; intros s; cbn [issue].
  { by intros ?%not_elem_of_nil. }
  unfold ensureRequestID at 1. rewrite bool_decide_true by done. unfold bind, now, ask. cbn [ticks with_ticks requestCounter].
  intros [->|Hin]%elem_of_cons.
  - exists (clock env (ticks s)), 1%nat. cbn [length]. split_and!; [done|lia|lia|done].
  - destruct (IH _ Hin) as (t & j & Ht & Hj & ->). exists t, (S j). cbn [length requestCounter with_counter].
    split_and!; [done|lia|lia|]. rewrite wrap_i64_add_l. do 2 f_equal. lia.
Qed.

(** Generated request identifiers are distinct, whatever the clock reads - even
    if it stands still or goes back - over fewer than 2^64 requests. *)
Theorem request_ids_distinct {C B : Type} (env : Env) (reqs : list Request) (s : World C B) :
  (forall n, 0 <= clock env n) -> Forall (fun r => getRequestID r = "") reqs ->
  Z.of_nat (length reqs) < two64 -> NoDup (issue env reqs s).
Proof.
  intros Hclock Hall. revert s. induction Hall as [|r reqs Hr Hall IH]; intros s Hlen; [constructor|].
  cbn [issue]. unfold ensureRequestID. rewrite bool_decide_true by done. unfold bind, now, ask.
  cbn [ticks with_ticks requestCounter length] in *. apply NoDup_cons. split; [|apply IH; lia].
  intros Hin. apply issue_counters in Hin as (t & j & Ht & Hj & He); [|done|done].
  cbn [requestCounter with_counter] in He. rewrite wrap_i64_add_l in He.
  apply fresh_id_inj in He as [_ He]; [|done|done].
  set (c := requestCounter s) in *. unfold wrap_i64, two64, two63 in *.
  assert (Hmod : (c + 1 + 9223372036854775808) mod 18446744073709551616
               = (c + 1 + Z.of_nat j + 9223372036854775808) mod 18446744073709551616) by lia.
  clear He. assert (Hz : Z.of_nat j mod 18446744073709551616 = 0).
  { replace (Z.of_nat j) with ((c + 1 + Z.of_nat j + 9223372036854775808) - (c + 1 + 9223372036854775808)) by lia.
    rewrite Zminus_mod, <- Hmod, Z.sub_diag. done. }
  rewrite Z.mod_small in Hz by lia. lia.
Qed.

(** *** Configuration *)

Inductive setting :=
| Queueing (cfg : QueueConfig)
| Methods (methods : list string)
| Balancing (strategy : string)
| HealthChecking (enabled : bool).

Definition configure `{Unicode} {C} (o : setting) (p : ReverseProxy C balancer) : ReverseProxy C balancer :=
  match o with
  | Queueing cfg => WithQueue cfg p
  | Methods ms => set_allowed ms p
  | Balancing strategy => ConfigureBalancer strategy p
  | HealthChecking enabled => SetHealthCheckEnabled enabled p
  end.

(** The names of least connections; every other one means round robin. *)
Definition names_lc `{Unicode} (strategy : string) : Prop :=
  ToLower (TrimSpace strategy) ∈ ["least_conn"; "lc"; "least-connections"; "least_connections"].

(** The balancer agrees with the proxy's fields, and is idle. *)
Definition settled_config `{Unicode} {C} (ts : list URL) (p : ReverseProxy C balancer) : Prop :=
  targets p = ts /\ Targets (rp_balancer p) = ts /\ checks (rp_balancer p) = healthChecksEnabled p
  /\ bal_ok (rp_balancer p) /\ Forall (fun n => n = 0) (in_flight (rp_balancer p))
  /\ (Strategy (rp_balancer p) = "least_connections" <-> names_lc (lbStrategy p))
  /\ (Strategy (rp_balancer p) = "round_robin" <-> ~ names_lc (lbStrategy p)).

Lemma newBalancer_settled `{Unicode} strategy ts hc :
  Z.of_nat (length ts) < two63 ->
  let b := newBalancer strategy ts hc in
  Targets b = ts /\ checks b = hc /\ bal_ok b /\ Forall (fun n => n = 0) (in_flight b)
  /\ (Strategy b = "least_connections" <-> names_lc strategy)
  /\ (Strategy b = "round_robin" <-> ~ names_lc strategy).
Proof.
  intros Hl. cbv zeta. split_and!; [apply newBalancer_Targets| |by apply newBalancer_ok|..];
    unfold newBalancer; case_bool_decide as Hlc; cbn; try done.
  - apply Forall_forall. intros n (st & -> & (u & -> & _)%list_elem_of_fmap)%list_elem_of_fmap. done.
  - by apply Forall_replicate.
Qed.

(** The last configured value of a field; the head of the list is the latest. *)
Definition latest {A} (f : setting -> option A) (d : A) (l : list setting) : A := default d (head (omap f l)).

(** [C37] However a proxy over fewer than [2^63] targets is configured - queue, methods,
    strategy, health checks, in any order and repeatedly - its balancer serves exactly
    the given targets by the strategy and with the health checks of the latest calls
    that set them, is idle, and the queue, the methods and the cache are those last
    given; only an empty list of targets is refused. *)
Theorem configuration_consistent `{U : Unicode} {C : Type} (ts : list URL) (c : C) (on : bool) (l : list setting) :
  Z.of_nat (length ts) < two63 ->
  match NewReverseProxyMulti ts c on with
  | None => ts = []
  | Some p0 =>
      let p := fold_right configure p0 l in
      settled_config ts p /\ cache p = c /\ cacheOn p = on
      /\ lbStrategy p = latest (fun o => match o with Balancing s => Some s | _ => None end) "rr" l
      /\ healthChecksEnabled p = latest (fun o => match o with HealthChecking b => Some b | _ => None end) true l
      /\ handler p = latest (fun o => match o with Queueing q => Some (Some q) | _ => None end) None l
      /\ allowedMethods p = latest (fun o => match o with Methods ms => Some (SetAllowedMethods ms) | _ => None end) None l
  end.
Proof.
  intros Hl. unfold NewReverseProxyMulti. destruct ts as [|t ts]; [done|]. cbv zeta.
  induction l as [|o l IH]; cbn [fold_right].
  - destruct (newBalancer_settled "rr" (t :: ts) true Hl) as (H1 & H2 & H3 & H4 & H5 & H6).
    unfold settled_config. by split_and!.
  - destruct IH as (Hset & I6 & I7 & I8 & I9 & I10 & I11). set (p := fold_right configure _ l) in *.
    pose proof Hset as (I1 & _). unfold latest in *.
    destruct o; cbn [configure omap list_omap head default]; cbn [WithQueue set_allowed ConfigureBalancer
      SetHealthCheckEnabled cache cacheOn lbStrategy healthChecksEnabled handler allowedMethods];
      (split; [|by split_and!]); [exact Hset|exact Hset|..].
    + destruct (newBalancer_settled strategy (targets p) (healthChecksEnabled p)) as (H1 & H2 & H3 & H4 & H5 & H6);
        [by rewrite I1|]. unfold settled_config. cbn. rewrite I1 in *. by split_and!.
    + destruct (newBalancer_settled (lbStrategy p) (targets p) enabled) as (H1 & H2 & H3 & H4 & H5 & H6);
        [by rewrite I1|]. unfold settled_config. cbn. rewrite I1 in *. by split_and!.
Qed.

(** ** Behaviours found on the way *)

(** [C40] A reservation leaks at a full queue: over a least-connections balancer the
    target is selected before the request meets the queue, and a request the queue
    refuses leaves its reservation behind, though it was answered 429 and nothing was
    sent. *)
Theorem queue_refusal_leaks `{U : Unicode} {C : Type} `{HC : Cache C} ParseTime (env : Env) (req : Request)
    (s : World C leastConnectionsBalancer) (st : lcState) (cfg : QueueConfig) :
  rp_balancer (proxy s) = mkLC [st] false -> handler (proxy s) = Some cfg -> cacheOn (proxy s) = false ->
  allowedMethods (proxy s) = None -> Path (rURL req) <> "/healthz" ->
  in_i64 (activeConnections st) -> in_i64 (pendingSelections st) ->
  (forall n, queue_outcome env n = Rejected) ->
  let '(w, s') := ServeHTTP ParseTime env newWriter req s in
  wStatus w = Some 429 /\ sent s' = sent s
  /\ targetStates (rp_balancer (proxy s')) = [add_pending 1 st].
Proof.
  intros Hb Hh Hon Ha Hp Hact Hpen Hq.
  assert (Hpick : forall g, lc_Pick g (mkLC [st] false) false = (Some (upstreamURL st), mkLC [add_pending 1 st] false)).
  { intros g. pose proof (lc_Pick_spec g (mkLC [st] false) false) as Hs.
    assert (Hok : lc_ok (mkLC [st] false)) by (by intros st' ->%list_elem_of_singleton).
    specialize (Hs Hok). destruct (lc_Pick g (mkLC [st] false) false) as [[u|] b'].
    - destruct Hs as ([|i] & st' & Hi & <- & _ & -> & _); [|done]. by injection Hi as <-.
    - destruct Hs as [_ Hall]. by specialize (Hall 0%nat st eq_refl). }
  unfold ServeHTTP, bind at 1, now, ask. change (Path (rURL (with_start _ req))) with (Path (rURL req)).
  rewrite bool_decide_false by done. unfold bind at 1, get. cbn [proxy with_ticks]. rewrite Ha. cbn [method_refused].
  unfold bind at 1. pose proof (law_preview (fun i => http_get env (S (ticks s) + i)%nat) (rp_balancer (proxy s))) as Hpv.
  unfold pick at 1. cbn [ticks proxy with_ticks].
  destruct (Pick (fun i => http_get env (S (ticks s) + i)%nat) (rp_balancer (proxy s)) true) as [o b].
  cbn [snd] in Hpv. subst b. unfold bind at 1, get. cbn. rewrite Hon. unfold bind at 1, ret. cbn [fst snd].
  unfold miss_phase, bind at 1, pick. cbn. rewrite Hb, Hpick. unfold bind at 1, ensureRequestID.
  case_bool_decide; unfold bind, now, ask, log, call_handler, bind, get, ask, ret; cbn; rewrite Hh, Hq; done.
Qed.

(** ** A concrete proxy

    Two round-robin targets without probes, an LRU cache of eight entries, and
    upstreams that answer 200 with a given header. *)

#[local] Existing Instance ascii_only.

Definition sample_proxy : ReverseProxy lruCache balancer :=
  mkProxy (sample_url "a") sample_targets (NewLRUCache 8) true None None
    (newBalancer "rr" sample_targets false) "rr" false.
Definition sample_world : World lruCache balancer :=
  mkWorld sample_proxy defaultCacheTTL_init 0 [] [] [] 0.
Definition sample_header (cc : string) : Header :=
  {["Cache-Control" := [cc]; "Connection" := ["close"]; "Etag" := ["v1"]]}.
Definition sample_up (cc : string) : Upstream := mkUpstream 200 (sample_header cc) (BodyBytes "hello").
Definition sample_env (time : nat -> Z) (cc : string) : Env :=
  mkEnv time (fun _ _ => Some 200) (fun _ _ => Ok (sample_up cc)) (fun _ => None) (fun _ => "eof")
        (fun _ => Served 1 0).
Definition sample_request (path : string) : Request :=
  mkRequest "GET" (mkURL "" "" path "q=1") "example.com" {["Accept" := ["*/*"]]} NoBody "192.0.2.1:4711" false emptyCtx.
Definition no_dates : string -> option Z := fun _ => None.

Abbreviation serve_sample env := (ServeHTTP (C:=lruCache) (B:=balancer) no_dates env newWriter).

(** max-age=0 does not prevent reuse: the lifetime 0 is taken for an absent one and
    the entry gets the default of 60 s, so a second request 59 s later is served the
    stored response. *)
Theorem max_age_zero_reused :
  let env := sample_env (fun n => if (n <? 17)%nat then 0 else 59 * second) "max-age=0" in
  let '(w1, s1) := serve_sample env (sample_request "/news") sample_world in
  let '(w2, s2) := serve_sample env (sample_request "/news") s1 in
  wSent w1 !! "X-Cache" = Some ["MISS"] /\ ticks s1 = 17%nat
  /\ wSent w2 !! "X-Cache" = Some ["HIT"] /\ wSent w2 !! "Age" = Some ["59"] /\ length (sent s2) = 1%nat.
Proof. vm_compute. repeat split. Qed.

(** Upstreams do not share cache entries in general: the key of a request holds the
    scheme and base path of the target previewed for it. *)
Theorem key_depends_on_target :
  client_key (Some (mkURL "http" "a:80" "/v1" "")) (sample_request "/x")
  <> client_key (Some (mkURL "http" "b:80" "/v2" "")) (sample_request "/x")
  /\ client_key (Some (mkURL "http" "a:443" "" "")) (sample_request "/x")
  <> client_key (Some (mkURL "https" "a:443" "" "")) (sample_request "/x").
Proof. split; vm_compute; discriminate. Qed.

(** Hop-by-hop fields beyond the fixed list are forwarded: a field that Connection
    nominates, and the Trailer field of RFC 7230 (the list has Trailers). *)
Theorem nominated_fields_forwarded (u : URL) :
  let r := set_header {["Connection" := ["X-Secret"]; "X-Secret" := ["1"]; "Trailer" := ["Expires"]]}
             (sample_request "/") in
  rHeader (directRequest r u) !! "Connection" = None
  /\ rHeader (directRequest r u) !! "X-Secret" = Some ["1"]
  /\ rHeader (directRequest r u) !! "Trailer" = Some ["Expires"].
Proof.
  cbv zeta. split_and!.
  - apply directRequest_hop. apply (bool_decide_eq_true_1 _). vm_compute. reflexivity.
  - by rewrite directRequest_lookup by (apply not_rewritten; vm_compute; reflexivity).
  - by rewrite directRequest_lookup by (apply not_rewritten; vm_compute; reflexivity).
Qed.

(** *** Witnesses *)

Lemma serve_healthz_witness :
  wBody (serve_sample (sample_env Z.of_nat "") (sample_request "/healthz") sample_world).1 = "ok".
Proof.
  pose proof (serve_healthz (C:=lruCache) (B:=balancer) no_dates (sample_env Z.of_nat "") (sample_request "/healthz") sample_world eq_refl) as H.
  destruct (serve_sample _ _ _) as [w s]. exact (proj1 (proj2 H)).
Defined.

Lemma sample_bal_ok : bal_ok (bal_of sample_world).
Proof. split; vm_compute; split; discriminate || reflexivity. Qed.

Lemma sample_clean : clean_cache (cache_of sample_world).
Proof. split; [apply NewLRUCache_wf|]. intros p Hp. by apply not_elem_of_nil in Hp. Qed.

Lemma sample_answers (cc : string) (r : Request) :
  answers (sample_env Z.of_nat cc) sample_world r (sample_up cc) "hello".
Proof.
  constructor; try done.
  - left. vm_compute. discriminate.
  - intros n. by exists 1, 0.
Qed.

Lemma serve_method_not_allowed_witness :
  let s := with_proxy (set_allowed ["get"; " HEAD "] sample_proxy) sample_world in
  let r := mkRequest "DELETE" (rURL (sample_request "/x")) "" ∅ NoBody "" false emptyCtx in
  hGet (wSent (serve_sample (sample_env Z.of_nat "") r s).1) "Allow" = "GET, HEAD".
Proof.
  cbv zeta. set (s := with_proxy _ _). set (r := mkRequest _ _ _ _ _ _ _ _).
  set (allowed := {["HEAD"]} ∪ ({["GET"]} ∪ ∅) : gset string).
  assert (Hm : Method r ∉ allowed) by set_solver.
  pose proof (serve_method_not_allowed (C:=lruCache) (B:=balancer) no_dates (sample_env Z.of_nat "") r s allowed
    ltac:(discriminate) eq_refl Hm) as H.
  destruct (serve_sample _ _ _) as [w s']. cbn [fst].
  rewrite (proj1 (proj2 H)). vm_compute. reflexivity.
Defined.

Definition down_env : Env :=
  mkEnv Z.of_nat (fun _ _ => None) (fun _ _ => Err "refused") (fun _ => None) (fun _ => "eof") (fun _ => Rejected).
Definition checked_world : World lruCache balancer :=
  set_balancer (newBalancer "lc" sample_targets true) sample_world.

Lemma serve_unavailable_witness :
  wStatus (serve_sample down_env (sample_request "/x") checked_world).1 = Some 503.
Proof.
  pose proof (serve_unavailable (C:=lruCache) (B:=balancer) no_dates down_env (sample_request "/x") checked_world
    (proj1 sample_clean) (newBalancer_ok "lc" sample_targets true eq_refl) eq_refl
    (fun _ _ _ => eq_refl) ltac:(discriminate) eq_refl eq_refl) as H.
  destruct (serve_sample _ _ _) as [w s']. exact (proj1 H).
Defined.

(** The sample world with an entry for a request. *)
Definition sample_entry : CachedResponse := mkCached 200 (hSet ∅ "ETag" "v1") "hello" 0 0 "id-1".
Definition hot_world : World lruCache balancer :=
  set_cache (lru_Set (NewLRUCache 8) None 0 (client_key (Some (sample_url "a")) (sample_request "/news"))
               sample_entry (60 * second)) sample_world.

Lemma hot_ok : cache_ok (cache_of hot_world).
Proof. exact (proj1 (proj2 (lru_Set_refines _ None 0 _ sample_entry (60 * second) (NewLRUCache_wf 8)))). Qed.

Lemma serve_cache_hit_witness :
  wBody (serve_sample (sample_env Z.of_nat "") (sample_request "/news") hot_world).1 = "hello".
Proof.
  assert (Hhit : hit_of (sample_env Z.of_nat "") hot_world (sample_request "/news")
                 = Some (setExpires sample_entry (60 * second))) by (vm_compute; reflexivity).
  assert (Hcan : canonical (cr_header (setExpires sample_entry (60 * second))))
    by (apply canonical_hSet, canonical_empty).
  pose proof (serve_cache_hit (C:=lruCache) (B:=balancer) no_dates (sample_env Z.of_nat "") (sample_request "/news")
    hot_world (setExpires sample_entry (60 * second)) hot_ok ltac:(discriminate) eq_refl Hhit eq_refl Hcan) as H.
  destruct (serve_sample _ _ _) as [w s']. cbn [fst]. exact (proj1 (proj2 H)).
Defined.


Lemma serve_settles_witness :
  in_flight (bal_of (serve_sample down_env (sample_request "/x") checked_world).2) = [0; 0; 0].
Proof.
  pose proof (serve_settles (C:=lruCache) (B:=balancer) no_dates down_env (sample_request "/x") checked_world "a"
    (newBalancer_ok "lc" sample_targets true eq_refl)) as H.
  destruct (serve_sample _ _ _) as [w s']. cbn [snd]. exact (proj1 (proj2 (proj2 H))).
Defined.

Lemma serve_counts_once_witness :
  incs proxyRequestsTotal (metric_calls (serve_sample (sample_env Z.of_nat "") (sample_request "/x") sample_world).2) = 1.
Proof.
  pose proof (serve_counts_once (C:=lruCache) (B:=balancer) no_dates (sample_env Z.of_nat "")
    (sample_request "/x") sample_world) as H.
  destruct (serve_sample _ _ _) as [w s']. cbn [snd]. apply (proj2 H).
  - discriminate.
  - exact (fun n => ex_intro _ 1 (ex_intro _ 0 eq_refl)).
  - intros n r up [= <-]. discriminate.
Defined.

Definition broken_env : Env :=
  mkEnv Z.of_nat (fun _ _ => Some 200) (fun _ _ => Ok (mkUpstream 200 ∅ BodyFails)) (fun _ => None)
        (fun _ => "unexpected EOF") (fun _ => Served 1 0).

Lemma body_failure_uncounted_witness :
  let r := sample_request "/x" in
  wStatus (forward (C:=lruCache) (B:=balancer) no_dates broken_env newWriter r r (sample_url "a") 0 0 sample_world).1
  = Some 502.
Proof.
  cbv zeta.
  pose proof (body_failure_uncounted (C:=lruCache) (B:=balancer) no_dates broken_env newWriter (sample_request "/x")
    (sample_request "/x") (sample_url "a") 0 0 (mkUpstream 200 ∅ BodyFails) sample_world eq_refl eq_refl eq_refl) as H.
  destruct (forward _ _ _ _ _ _ _ _ _) as [w s']. exact (proj1 H).
Defined.

Lemma serve_cache_clean_witness :
  clean_cache (cache_of (serve_all no_dates [(sample_env Z.of_nat "max-age=5", sample_request "/a");
                                   (sample_env Z.of_nat "no-store", sample_request "/b")] sample_world)).
Proof. apply (serve_cache_clean (C:=lruCache) (B:=balancer)). exact sample_clean. Defined.

Definition private_request : Request := reqSet (sample_request "/x") "Cache-Control" "no-store".

Lemma serve_ineligible_untouched_witness :
  cache_of (serve_sample (sample_env Z.of_nat "max-age=5") private_request hot_world).2 = cache_of hot_world.
Proof.
  pose proof (serve_ineligible_untouched (C:=lruCache) (B:=balancer) no_dates (sample_env Z.of_nat "max-age=5")
    private_request hot_world hot_ok ltac:(vm_compute; reflexivity)) as H.
  destruct (serve_sample _ _ _) as [w s']. exact H.
Defined.

Lemma upstream_failure_witness :
  let r := sample_request "/x" in
  wStatus (forward (C:=lruCache) (B:=balancer) no_dates down_env newWriter r r (sample_url "a") 0 0 sample_world).1
  = Some 502.
Proof.
  cbv zeta.
  pose proof (upstream_failure (C:=lruCache) (B:=balancer) no_dates down_env newWriter (sample_request "/x")
    (sample_request "/x") (sample_url "a") 0 0 "refused" sample_world None eq_refl eq_refl (fun _ => eq_refl)) as H.
  destruct (forward _ _ _ _ _ _ _ _ _) as [w s']. exact (proj1 H).
Defined.

Lemma request_ids_distinct_witness :
  NoDup (issue (sample_env (fun _ => 7) "") [sample_request "/a"; sample_request "/b"] sample_world)
  /\ issue (sample_env (fun _ => 7) "") [sample_request "/a"; sample_request "/b"] sample_world = ["7-1"; "7-2"].
Proof.
  split; [|vm_compute; reflexivity].
  apply (request_ids_distinct (sample_env (fun _ => 7) "") [sample_request "/a"; sample_request "/b"] sample_world).
  - intros n. cbn. lia.
  - repeat constructor.
  - reflexivity.
Defined.

Lemma configuration_consistent_witness :
  match NewReverseProxyMulti sample_targets (NewLRUCache 8) true with
  | None => False
  | Some p => let p := fold_right configure p [HealthChecking false; Balancing " LC "; Balancing "rr"] in
              Targets (rp_balancer p) = sample_targets /\ lbStrategy p = " LC "
  end.
Proof.
  pose proof (configuration_consistent sample_targets (NewLRUCache 8) true
    [HealthChecking false; Balancing " LC "; Balancing "rr"] eq_refl) as H.
  destruct (NewReverseProxyMulti sample_targets (NewLRUCache 8) true) as [p|]; [|discriminate H].
  exact (conj (proj1 (proj2 (proj1 H))) (proj1 (proj2 (proj2 (proj2 H))))).
Defined.

Definition one_lc_world : World lruCache leastConnectionsBalancer :=
  mkWorld (mkProxy (sample_url "a") [sample_url "a"] (NewLRUCache 8) false (Some (mkQueueConfig 1 1 second false)) None
             (mkLC [mkLcState (sample_url "a") 2 0] false) "lc" false) defaultCacheTTL_init 0 [] [] [] 0.

Lemma queue_refusal_leaks_witness :
  targetStates (rp_balancer (proxy (ServeHTTP no_dates down_env newWriter (sample_request "/x") one_lc_world).2))
  = [mkLcState (sample_url "a") 2 1].
Proof.
  pose proof (queue_refusal_leaks (C:=lruCache) no_dates down_env (sample_request "/x") one_lc_world
    (mkLcState (sample_url "a") 2 0) (mkQueueConfig 1 1 second false) eq_refl eq_refl eq_refl eq_refl
    ltac:(discriminate) ltac:(vm_compute; split; discriminate || reflexivity)
    ltac:(vm_compute; split; discriminate || reflexivity) (fun _ => eq_refl)) as H.
  destruct (ServeHTTP _ _ _ _ _) as [w s']. cbn [snd]. rewrite (proj2 (proj2 H)). reflexivity.
Defined.
