(* ===== verification/ProxyRetention.v ===== *)
(** * The reverse proxy: stored responses among other requests

    A response the proxy stored is served again although other requests come between,
    as long as they use fewer distinct keys than the cache has room for.  The requests
    are followed one by one, each in its environment, through the recency list that
    the cache promises to be ([CacheLaws]). *)
From S2P Require Import Prelude GoStrings GoTime GoNet Queue.
From S2P Require Import Headers CacheControl LruCache Balancer Sha256 Metrics Log Proxy ProxyFacts ProxyProps.
#[local] Open Scope Z_scope.
#[local] Open Scope handler_scope.

(** ** One request *)

Section Retention.
Context `{U : Unicode} {C : Type} `{HL : CacheLaws C} {B : Type} `{BL : BalancerLaws B}.
Variable ParseTime : string -> option Z.
Abbreviation World := (World C B).

(** The entry [v] of [k] stays behind keys of [T], of which the cache can hold more. *)
Definition held (T : gset string) (k : string) (v : CachedResponse) (s : World) : Prop :=
  cache_ok (cache_of s) /\ (size T < cache_cap (cache_of s))%nat /\ recent T k v (cache_view (cache_of s)).

Section Request.
Variables (T : gset string) (k : string) (v : CachedResponse).
Variable env : Env.

Definition retains (s s' : World) : Prop := held T k v s -> held T k v s'.

Lemma retains_keeps {A} (m : M World A) : keeps cache_of m -> relates retains m.
Proof. intros Hk s. unfold retains, held. by rewrite Hk. Qed.
Lemma retains_bind {A A'} (m : M World A) (f : A -> M World A') :
  relates retains m -> (forall x, relates retains (f x)) -> relates retains (bind m f).
Proof. apply relates_bind. unfold retains. eauto. Qed.

Ltac leaves_cache := apply retains_keeps; frame.

(** A request under another key of [T]. *)
Variable k' : string.
Hypothesis Hne : k' <> k.
Hypothesis Hin : k' ∈ T.
Hypothesis Hnonempty : k' <> "".

Lemma retains_response w req out u t1 t2 code h b :
  ctx_key (rCtx req) = Some k' ->
  relates retains (upstream_response (B:=B) (C:=C) ParseTime env w req out u t1 t2 code h b).
Proof.
  intros Hk s (Hok & Hsz & Hr).
  pose proof (upstream_response_spec ParseTime env w req out u t1 t2 code h b s) as Hs.
  cbv zeta in Hs. destruct (upstream_response _ _ _ _ _ _ _ _ _ _ _ s) as [w' s'].
  destruct Hs as (_ & _ & _ & _ & Hst). cbn [snd]. unfold held.
  destruct (storable _ s out _ _ code h) as [ttl|]; [|by rewrite Hst].
  destruct Hst as (n & storedAt & ->). rewrite Hk. unfold key_or. rewrite bool_decide_false by done.
  destruct (law_set (cache_of s) (defaultTTL s) (clock env n) k'
    (mkCached code (sanitizeResponseHeaders h) b storedAt 0 (getRequestID req)) ttl Hok) as (-> & Hok' & ->).
  split_and!; [done|done|]. apply recent_take; [done|]. by apply recent_push.
Qed.

Lemma retains_serveUpstream w req :
  ctx_key (rCtx req) = Some k' -> relates retains (serveUpstream (B:=B) (C:=C) ParseTime env w req).
Proof.
  intros Hk. unfold serveUpstream. apply retains_bind; [leaves_cache|]. intros t.
  apply retains_bind; [destruct (ctx_target (rCtx req)); leaves_cache|]. intros [u|]; [|leaves_cache].
  apply retains_bind; [leaves_cache|]. intros release. apply retains_bind; [leaves_cache|]. intros _.
  apply retains_bind; [|intros ?; leaves_cache].
  unfold forward. apply retains_bind; [leaves_cache|]. intros [up|err]; [|leaves_cache].
  destruct (up_body up); [by apply retains_response|by apply retains_response|leaves_cache].
Qed.

Lemma retains_miss t0 w req :
  ctx_key (rCtx req) = Some k' -> relates retains (miss_phase (B:=B) (C:=C) ParseTime env t0 w req).
Proof.
  intros Hk. unfold miss_phase. apply retains_bind; [leaves_cache|]. intros [u|]; [|leaves_cache].
  intros s Hh. unfold bind at 1. pose proof (ensureRequestID_spec env req s) as Hid.
  destruct (ensureRequestID env req s) as [[id r'] s1]. destruct Hid as (Hid & [_ Hca _ _] & _ & _).
  destruct (identified_frame _ _ _ Hid) as (_ & _ & _ & _ & Hctx & _). cbn [fst snd].
  assert (Hk' : ctx_key (rCtx (with_target u r')) = Some k') by (cbn; by rewrite Hctx).
  assert (Hh1 : held T k v s1) by (unfold held; by rewrite Hca).
  revert Hh1. generalize s1. change (relates retains
    (log (LogProxyRequest r') ;;; call_handler (B:=B) (C:=C) ParseTime env (wSet "X-Request-ID" id w) (with_target u r'))).
  apply retains_bind; [leaves_cache|]. intros _. unfold call_handler.
  apply retains_bind; [leaves_cache|]. intros [cfg|]; [|by apply retains_serveUpstream].
  apply retains_bind; [leaves_cache|].
  intros [|err|d wt]; [leaves_cache|leaves_cache|by apply retains_serveUpstream].
Qed.

End Request.

(** The keys a request can look up or store. *)
Definition request_keys_of (env : Env) (s : World) (req : Request) : gset string :=
  if caching s req then {[key_of env s req]} else ∅.

Lemma retains_serve T k v env req (s : World) :
  request_keys_of env s req ⊆ T -> k ∉ request_keys_of env s req ->
  retains T k v s (ServeHTTP ParseTime env newWriter req s).2.
Proof.
  intros HT Hk Hh. pose proof Hh as (Hok & Hsz & Hr). unfold request_keys_of in *.
  destruct (caching s req) eqn:Hcg; [|unfold held; by rewrite ineligible_keeps].
  destruct (passes_filters req s) as [Hf|[Hp Hm]]; [unfold held; by rewrite filtered_keeps|].
  assert (Hin : key_of env s req ∈ T) by set_solver. assert (Hne : key_of env s req <> k) by set_solver.
  destruct (ServeHTTP_split ParseTime env newWriter req s Hok Hp Hm) as (s1 & Hlk & _ & ->).
  rewrite Hcg in *. destruct Hlk as [_ _ _ _ _ L6 L7 L8 _].
  assert (Hh1 : held T k v s1).
  { unfold held. rewrite L7, L8. split_and!; [done|done|]. unfold Spec.get.
    destruct (Spec.find _ _); [by apply recent_push|done]. }
  destruct (hit_of env s req) as [e|].
  - revert Hh1. generalize s1. change (relates (retains T k v) (serve_hit (B:=B) (C:=C) env (clock env (ticks s)) e newWriter
      (with_key (key_of env s req) (with_start (clock env (ticks s)) req)))).
    apply retains_keeps. frame.
  - by apply (retains_miss T k v env (key_of env s req) Hne Hin (client_key_ne ParseTime _ _)).
Qed.

(** ** Requests one after the other *)

(** The keys the requests of a run can look up or store. *)
Fixpoint request_keys (l : list (Env * Request)) (s : World) : gset string :=
  match l with
  | [] => ∅
  | (env, req) :: l' => request_keys_of env s req ∪ request_keys l' (ServeHTTP ParseTime env newWriter req s).2
  end.

Lemma retains_all T k v l (s : World) :
  request_keys l s ⊆ T -> k ∉ request_keys l s -> retains T k v s (serve_all ParseTime l s).
Proof.
  revert s. induction l as [|[env req] l IH]; intros s HT Hk; [by intros Hh|]. cbn [request_keys serve_all] in *.
  intros Hh. apply IH; [set_solver|set_solver|]. by apply retains_serve; [set_solver|set_solver|].
Qed.

Lemma settings_all l (s : World) : settings (serve_all ParseTime l s) = settings s.
Proof.
  revert s. induction l as [|[env req] l IH]; intros s; [done|]. cbn [serve_all].
  rewrite IH. apply keeps_settings.
Qed.

(** Targets that agree on scheme and base path give a request one key. *)
Lemma key_of_uniform env env' req (s s' : World) :
  bal_ok (bal_of s) -> bal_ok (bal_of s') -> Targets (bal_of s') = Targets (bal_of s) ->
  (forall u v, u ∈ Targets (bal_of s) -> v ∈ Targets (bal_of s) -> Scheme u = Scheme v /\ Path u = Path v) ->
  preview_of env s <> None -> preview_of env' s' <> None -> key_of env' s' req = key_of env s req.
Proof.
  intros Hb Hb' HT Huni Hpv Hpv'. unfold key_of.
  destruct (preview_of env s) as [u|] eqn:Hu; [|done]. destruct (preview_of env' s') as [v|] eqn:Hv; [|done].
  pose proof (law_preview_some _ _ _ Hb Hu) as Hu'. pose proof (law_preview_some _ _ _ Hb' Hv) as Hv'.
  rewrite HT in Hv'. destruct (Huni v u Hv' Hu'). by apply client_key_uniform.
Qed.

(** [C3] The cache round trip. A request misses, is forwarded and answered with a final
    status, and the response is storable for [ttl]. Then other requests are served, each
    in its own environment, which together use fewer distinct keys than the cache has
    entries, and not the key of the first. When the first request comes again with the
    same key, before the entry expires, it is answered from the cache with the status
    and the body it was answered with before, and no upstream is contacted. (The key is
    the same if the targets agree on scheme and base path and one can be previewed both
    times, by [key_of_uniform]; otherwise it need not be.) *)
Theorem serve_miss_then_hit (env env2 : Env) (req : Request) (s : World) (up : Upstream) (b : string) (ttl : Z)
    (l : list (Env * Request)) :
  clean_cache (cache_of s) -> bal_ok (bal_of s) -> answers env s req up b -> rCtx req = emptyCtx ->
  Path (rURL req) <> "/healthz" -> method_refused (allowedMethods (proxy s)) (Method req) = false ->
  hit_of env s req = None -> informational (up_status up) = false ->
  (forall t1 t2, storable ParseTime s req t1 t2 (up_status up) (up_header up) = Some ttl) ->
  0 < ttl ->
  let '(w1, s1) := ServeHTTP ParseTime env newWriter req s in
  let s2 := serve_all ParseTime l s1 in
  key_of env s req ∉ request_keys l s1 -> (size (request_keys l s1) < cache_cap (cache_of s))%nat ->
  key_of env2 s2 req = key_of env s req -> (forall n, lookup_time env2 s2 <= clock env n + ttl) ->
  let '(w2, s3) := ServeHTTP ParseTime env2 newWriter req s2 in
  wStatus w2 = wStatus w1 /\ wBody w2 = wBody w1 /\ wSent w2 !! "X-Cache" = Some ["HIT"] /\ sent s3 = sent s2.
Proof.
  intros Hc Hb Han Hctx Hp Hm Hhit Hi Hsto Httl.
  pose proof (forwards_spec ParseTime env req s up b (proj1 Hc) Hb Han Hctx Hp Hm Hhit Hi) as Hf.
  pose proof (clean_serve ParseTime env newWriter req s Hc) as [Hc1 Hcap1].
  pose proof (keeps_settings ParseTime env newWriter req s) as Hset1.
  destruct (ServeHTTP ParseTime env newWriter req s) as [w1 s1]. cbn [snd] in *. cbv zeta. intros Hfree Hroom Hkey Hclock.
  destruct Hf as (F1 & F2 & _ & _ & n & Hst). rewrite Hsto in Hst. destruct Hst as (m & storedAt & id & Hhead).
  set (e := mkCached _ _ b storedAt _ id) in Hhead. set (k := key_of env s req) in *.
  assert (Hheld : held (request_keys l s1) k e s1).
  { split_and!; [apply Hc1|by rewrite Hcap1|]. split; [by apply cache_nodup, Hc1|].
    destruct (cache_view (cache_of s1)) as [|p rest]; [done|]. injection Hhead as ->. exists [], rest.
    split; [done|]. by intros ? ?%not_elem_of_nil. }
  apply (retains_all _ _ _ l s1) in Hheld as (Hok2 & _ & Hrec); [|done|done].
  pose proof (settings_all l s1) as Hset2. set (s2 := serve_all ParseTime l s1) in *.
  assert (Hon : cacheOn (proxy s2) = cacheOn (proxy s) /\ allowedMethods (proxy s2) = allowedMethods (proxy s)).
  { unfold settings in *. split; congruence. }
  destruct Hon as [Hon Hal].
  assert (Hhit2 : hit_of env2 s2 req = Some e).
  { unfold hit_of, fresh_entry, caching. rewrite Hkey, (recent_find _ _ _ _ Hrec), Hon.
    assert (cacheOn (proxy s) && request_eligible req = true) as ->.
    { specialize (Hsto 0 0). unfold storable in Hsto. by destruct (_ && _). }
    assert (After (lookup_time env2 s2) (cr_expiresAt e) = false) as ->; [|done].
    apply Z.ltb_ge. subst e. cbn. unfold Spec.ttl_of. rewrite (proj2 (Z.leb_gt _ _)) by done. apply Hclock. }
  pose proof (cache_hit_spec ParseTime env2 req s2 e Hok2 Hp) as Hh. rewrite Hal in Hh.
  specialize (Hh Hm Hhit2 Hi (sanitize_canonical _)).
  destruct (ServeHTTP ParseTime env2 newWriter req s2) as [w2 s3].
  destruct Hh as (K1 & K2 & K3 & _ & _ & K6 & _). by rewrite F1, F2, K1, K2.
Qed.
End Retention.

(** ** Instances *)

#[local] Existing Instance ascii_only.

(** Two other requests between: one stored, one not. *)
Definition sample_between : list (Env * Request) :=
  [(sample_env Z.of_nat "max-age=5", sample_request "/a"); (sample_env Z.of_nat "no-store", sample_request "/b")].

Lemma serve_miss_then_hit_witness :
  let env := sample_env (fun n => Z.of_nat (n mod 2)) "max-age=30" in
  let s1 := (serve_sample env (sample_request "/news") sample_world).2 in
  let s2 := serve_all no_dates sample_between s1 in
  length (cache_view (cache_of s2)) = 2%nat
  /\ wSent (serve_sample env (sample_request "/news") s2).1 !! "X-Cache" = Some ["HIT"].
Proof.
  cbv zeta. set (env := sample_env _ _). split; [vm_compute; reflexivity|].
  assert (Han : answers env sample_world (sample_request "/news") (sample_up "max-age=30") "hello").
  { constructor; try done; [left; vm_compute; discriminate|]. intros n. by exists 1, 0. }
  assert (Hsto : forall t1 t2, storable no_dates sample_world (sample_request "/news") t1 t2 200 (sample_header "max-age=30")
            = Some (30 * second)) by (intros t1 t2; vm_compute; reflexivity).
  pose proof (serve_miss_then_hit (C:=lruCache) (B:=balancer) no_dates env env (sample_request "/news") sample_world
    (sample_up "max-age=30") "hello" (30 * second) sample_between sample_clean sample_bal_ok Han eq_refl ltac:(discriminate)
    eq_refl ltac:(vm_compute; reflexivity) eq_refl Hsto ltac:(vm_compute; reflexivity)) as H.
  assert (Hfree : key_of env sample_world (sample_request "/news") ∉
    request_keys no_dates sample_between (serve_sample env (sample_request "/news") sample_world).2)
    by (apply (bool_decide_eq_true_1 _); vm_compute; reflexivity).
  assert (Hroom : (size (request_keys no_dates sample_between
      (serve_sample env (sample_request "/news") sample_world).2) < 8)%nat)
    by (apply (bool_decide_eq_true_1 _); vm_compute; reflexivity).
  assert (Hkey : key_of env (serve_all no_dates sample_between (serve_sample env (sample_request "/news") sample_world).2)
      (sample_request "/news") = key_of env sample_world (sample_request "/news")) by (vm_compute; reflexivity).
  assert (Hclock : forall i j, clock env i <= clock env j + 30 * second).
  { intros i j. subst env. cbn [clock sample_env]. pose proof (Nat.mod_upper_bound i 2). unfold second. lia. }
  destruct (serve_sample env (sample_request "/news") sample_world) as [w1 s1]. cbn [fst snd] in *.
  specialize (H Hfree Hroom Hkey (fun n => Hclock _ n)).
  destruct (serve_sample env (sample_request "/news") (serve_all no_dates sample_between s1)) as [w2 s3].
  exact (proj1 (proj2 (proj2 H))).
Defined.
