(* ===== verification/Config.v ===== *)
(** * The configuration loader: [internal/config/config.go]

    [Load] reads the file, fills in defaults and normalises what the file sets.  The
    file system, [yaml.Unmarshal] and [url.Parse] are parameters; a YAML field that
    may be omitted is an [option], as the pointers of the source are. *)
From S2P Require Import Prelude GoStrings GoTime GoNet CacheControl Queue.
#[local] Open Scope Z_scope.
#[local] Open Scope go_scope.

(** ** The YAML document *)

Record yamlCache := mkYamlCache {
  yc_enabled : option bool;
  yc_max_entries : option Z;
  yc_ttl : option string;
}.
Record yamlQueue := mkYamlQueue {
  yq_max_queue : option Z;
  yq_max_concurrent : option Z;
  yq_enqueue_timeout : option string;
  yq_queue_wait_header : option bool;
}.
Record yamlTLS := mkYamlTLS {
  yt_enabled : option bool;
  yt_cert_file : option string;
  yt_key_file : option string;
}.
Record yamlProxy := mkYamlProxy {
  yp_listen : option string;
  yp_targets : list string;
  yp_load_balancer_strategy : option string;
  yp_load_balancer_health_check : option bool;
  yp_allowed_methods : list string;
  yp_cache : option yamlCache;
  yp_queue : option yamlQueue;
  yp_tls : option yamlTLS;
}.
(** The [upstream] section is accepted and unused. *)
Record yamlRoot := mkYamlRoot { yr_proxy : option yamlProxy }.

(** ** The configuration *)

Record TLSConfig := mkTLSConfig { TLS_Enabled : bool; CertFile : string; KeyFile : string }.
Record CacheConfig := mkCacheConfig { Enabled : bool; MaxEntries : Z; TTL : Z }.
Record Config := mkConfig {
  ListenAddr : string;
  TargetURL : URL;
  TargetURLs : list URL;
  cfg_Cache : CacheConfig;
  cfg_Queue : QueueConfig;
  AllowedMethods : list string;
  LoadBalancerStrategy : string;
  LoadBalancerHealthCheck : bool;
  cfg_TLS : TLSConfig;
}.

Definition defaultListen : string := ":8080".
Definition default_cache : CacheConfig := mkCacheConfig true 2048 (60 * second).
Definition default_queue : QueueConfig := mkQueueConfig 1000 100 (2 * second) true.
Definition defaultAllowedMethods : string := "GET,HEAD,POST,PUT,PATCH,DELETE".
Definition defaultLBStrategy : string := "rr".
Definition default_tls : TLSConfig := mkTLSConfig false "" "".

(** What can go wrong, with what the error text carries. *)
Inductive config_error :=
| FileNotFound
| ReadFailed (path err : string)
| ParseFailed (path err : string)
| ProxyRequired
| TargetsRequired
| InvalidTarget (targetStr : string)
| InvalidTTL
| InvalidTimeout.

(** ** [parseMethods] *)

Section Loading.
Context `{U : Unicode}.

Definition parse_method (methods : list string) (rawMethod : string) : list string :=
  let method := ToUpper (TrimSpace rawMethod) in
  if bool_decide (method = "") then methods
  else if bool_decide (method ∈ methods) then methods
  else methods ++ [method].

Definition parseMethods (methodsCSV : string) : list string :=
  if bool_decide (methodsCSV = "") then []
  else foldl parse_method [] (Split methodsCSV ","%char).

(** ** The sections *)

(** A string that is given and not blank, trimmed. *)
Definition given (o : option string) : option string :=
  match o with
  | Some s => if bool_decide (TrimSpace s <> "") then Some (TrimSpace s) else None
  | None => None
  end.
Definition positive (o : option Z) : option Z :=
  match o with
  | Some n => if 0 <? n then Some n else None
  | None => None
  end.

Definition apply_cache (o : option yamlCache) (c : CacheConfig) : result CacheConfig config_error :=
  match o with
  | None => Ok c
  | Some y =>
      let c := mkCacheConfig (default (Enabled c) (yc_enabled y))
                 (default (MaxEntries c) (positive (yc_max_entries y))) (TTL c) in
      match given (yc_ttl y) with
      | None => Ok c
      | Some s =>
          match ParseDuration s with
          | Some parsed => Ok (if 0 <? parsed then mkCacheConfig (Enabled c) (MaxEntries c) parsed else c)
          | None => Err InvalidTTL
          end
      end
  end.

Definition apply_queue (o : option yamlQueue) (q : QueueConfig) : result QueueConfig config_error :=
  match o with
  | None => Ok q
  | Some y =>
      timeout <-? match given (yq_enqueue_timeout y) with
                  | None => Ok (EnqueueTimeout q)
                  | Some s => match ParseDuration s with
                              | Some parsedDuration => Ok parsedDuration
                              | None => Err InvalidTimeout
                              end
                  end ;;
      Ok (mkQueueConfig (default (MaxQueue q) (positive (yq_max_queue y)))
            (default (MaxConcurrent q) (positive (yq_max_concurrent y)))
            timeout (default (QueueWaitHeader q) (yq_queue_wait_header y)))
  end.

Definition apply_tls (o : option yamlTLS) (t : TLSConfig) : TLSConfig :=
  match o with
  | None => t
  | Some y => mkTLSConfig (default (TLS_Enabled t) (yt_enabled y))
                (default (CertFile t) (TrimSpace <$> yt_cert_file y))
                (default (KeyFile t) (TrimSpace <$> yt_key_file y))
  end.

Definition apply_methods (methods : list string) : list string :=
  match methods with
  | [] => parseMethods defaultAllowedMethods
  | _ => parseMethods (Join methods ",")
  end.

(** *** Targets *)

Variable ParseURL : string -> option URL.   (* url.Parse *)

Definition parse_target (targetStr : string) : result URL config_error :=
  match ParseURL (TrimSpace targetStr) with
  | Some u => if bool_decide (Scheme u = "") || bool_decide (Host u = "") then Err (InvalidTarget targetStr)
              else Ok u
  | None => Err (InvalidTarget targetStr)
  end.
Fixpoint parse_targets (l : list string) : result (list URL) config_error :=
  match l with
  | [] => Ok []
  | s :: l' => u <-? parse_target s ;; us <-? parse_targets l' ;; Ok (u :: us)
  end.

(** The part of [Load] between the parsed document and the configuration. *)
Definition build_config (y : yamlProxy) : result Config config_error :=
  match yp_targets y with
  | [] => Err TargetsRequired
  | _ =>
      us <-? parse_targets (yp_targets y) ;;
      match us with
      | [] => Err TargetsRequired
      | primary :: _ =>
          c <-? apply_cache (yp_cache y) default_cache ;;
          q <-? apply_queue (yp_queue y) default_queue ;;
          Ok (mkConfig (default defaultListen (given (yp_listen y))) primary us c q
                (apply_methods (yp_allowed_methods y))
                (default defaultLBStrategy (given (yp_load_balancer_strategy y)))
                (default true (yp_load_balancer_health_check y))
                (apply_tls (yp_tls y) default_tls))
      end
  end.

(** *** [Load] *)

Variable exists_file : string -> bool.                        (* os.Stat without error *)
Variable ReadFile : string -> result string string.           (* os.ReadFile *)
Variable Unmarshal : string -> result yamlRoot string.        (* yaml.Unmarshal into yamlRoot *)

Definition findConfigFile : result string config_error :=
  if exists_file "configs/config.yaml" then Ok "configs/config.yaml" else Err FileNotFound.

Definition read_config : result Config config_error :=
  configFilePath <-? findConfigFile ;;
  fileBytes <-? match ReadFile configFilePath with
                | Ok b => Ok b
                | Err e => Err (ReadFailed configFilePath e)
                end ;;
  yamlRootCfg <-? match Unmarshal fileBytes with
                  | Ok y => Ok y
                  | Err e => Err (ParseFailed configFilePath e)
                  end ;;
  match yr_proxy yamlRootCfg with
  | None => Err ProxyRequired
  | Some y => build_config y
  end.

(** A successful load also sets the proxy's default cache lifetime. *)
Definition Load (cell : TTLCell) : result Config config_error * TTLCell :=
  match read_config with
  | Ok cfg => (Ok cfg, SetDefaultCacheTTL (TTL (cfg_Cache cfg)))
  | Err e => (Err e, cell)
  end.
End Loading.

(** ** Facts *)

Section Facts.
Context `{U : Unicode}.

Lemma given_spec o s :
  given o = Some s <-> exists raw, o = Some raw /\ s = TrimSpace raw /\ s <> "".
Proof.
  unfold given. destruct o as [raw|]; [|split; [done|by intros (? & ? & _)]].
  case_bool_decide as Hb.
  - split; [intros [= <-]; eauto|by intros (? & [= <-] & -> & _)].
  - split; [done|intros (? & [= <-] & -> & H)]. done.
Qed.

Lemma positive_spec d o : 0 < d -> 0 < default d (positive o).
Proof. destruct o as [n|]; cbn; [|done]. destruct (Z.ltb_spec 0 n); cbn; lia. Qed.

Lemma default_given_nonempty d o : d <> "" -> default d (given o) <> "".
Proof.
  intros Hd. destruct (given o) as [s|] eqn:Hg; [|done].
  by apply given_spec in Hg as (raw & _ & _ & H).
Qed.

(** *** Methods *)

(** The names [parseMethods] makes of a list, in order of first occurrence. *)
Lemma parse_method_elem l acc m :
  m ∈ foldl parse_method acc l
  <-> m ∈ acc \/ (m <> "" /\ exists x, x ∈ l /\ ToUpper (TrimSpace x) = m).
Proof.
  revert acc. induction l as [|x l IH]; intros acc; cbn [foldl]; [set_solver|].
  rewrite IH. unfold parse_method. repeat case_bool_decide; set_solver.
Qed.

Lemma parse_method_NoDup l acc : NoDup acc -> NoDup (foldl parse_method acc l).
Proof.
  revert acc. induction l as [|x l IH]; intros acc Ha; cbn [foldl]; [done|].
  apply IH. unfold parse_method. repeat case_bool_decide; [done|done|].
  apply NoDup_app. split_and!; [done|set_solver|apply NoDup_singleton].
Qed.

Lemma parseMethods_elem s m :
  m ∈ parseMethods s <-> m <> "" /\ exists x, x ∈ Split s ","%char /\ ToUpper (TrimSpace x) = m.
Proof.
  unfold parseMethods. case_bool_decide as Hs.
  - subst. split; [by intros ?%elem_of_nil|]. intros [Hm (x & Hx & <-)].
    apply list_elem_of_singleton in Hx as ->. done.
  - rewrite parse_method_elem. set_solver.
Qed.

Lemma parseMethods_NoDup s : NoDup (parseMethods s).
Proof.
  unfold parseMethods. case_bool_decide; [apply NoDup_nil_2|]. apply parse_method_NoDup, NoDup_nil_2.
Qed.

Lemma apply_methods_default :
  apply_methods [] = ["GET"; "HEAD"; "POST"; "PUT"; "PATCH"; "DELETE"].
Proof. reflexivity. Qed.

(** *** Sections *)

Lemma apply_cache_ok o c c' :
  apply_cache o c = Ok c' -> 0 < MaxEntries c -> 0 < TTL c -> 0 < MaxEntries c' /\ 0 < TTL c'.
Proof.
  unfold apply_cache. intros H Hm Ht. destruct o as [y|]; [|by injection H as <-].
  destruct (given (yc_ttl y)) as [s|]; [destruct (ParseDuration s) as [d|]; [|done]|]; injection H as <-;
    [destruct (Z.ltb_spec 0 d)|]; cbn; split; try done; by apply positive_spec.
Qed.

Lemma apply_queue_ok o q q' :
  apply_queue o q = Ok q' -> 0 < MaxQueue q -> 0 < MaxConcurrent q ->
  0 < MaxQueue q' /\ 0 < MaxConcurrent q'.
Proof.
  unfold apply_queue. intros H Hm Hc. destruct o as [y|]; [|by injection H as <-].
  destruct (given (yq_enqueue_timeout y)) as [s|]; [destruct (ParseDuration s) as [d|]; [|done]|];
    injection H as <-; cbn; split; by apply positive_spec.
Qed.

(** A duration the file gives parses, if it is given. *)
Definition duration_ok (o : option string) : bool :=
  match given o with
  | Some s => bool_decide (is_Some (ParseDuration s))
  | None => true
  end.

Lemma apply_cache_is_ok o c :
  is_ok (apply_cache o c) = match o with Some y => duration_ok (yc_ttl y) | None => true end.
Proof.
  destruct o as [y|]; [|done]. unfold apply_cache, duration_ok.
  destruct (given (yc_ttl y)) as [s|]; [|done].
  destruct (ParseDuration s) eqn:Hp; [by destruct (0 <? z)|done].
Qed.
Lemma apply_queue_is_ok o q :
  is_ok (apply_queue o q) = match o with Some y => duration_ok (yq_enqueue_timeout y) | None => true end.
Proof.
  destruct o as [y|]; [|done]. unfold apply_queue, duration_ok.
  destruct (given (yq_enqueue_timeout y)) as [s|]; [|done]. by destruct (ParseDuration s).
Qed.

(** *** Targets *)

Variable ParseURL : string -> option URL.

Definition target_of (s : string) (u : URL) : Prop :=
  ParseURL (TrimSpace s) = Some u /\ Scheme u <> "" /\ Host u <> "".
(** Whether a target is an absolute URL. *)
Definition target_ok (s : string) : bool :=
  match ParseURL (TrimSpace s) with
  | Some u => negb (bool_decide (Scheme u = "")) && negb (bool_decide (Host u = ""))
  | None => false
  end.

Lemma parse_target_spec s u : parse_target ParseURL s = Ok u <-> target_of s u.
Proof.
  unfold parse_target, target_of. destruct (ParseURL (TrimSpace s)) as [v|]; [|naive_solver].
  repeat case_bool_decide; cbn; naive_solver.
Qed.

Lemma target_of_unique l us vs : Forall2 target_of l us -> Forall2 target_of l vs -> us = vs.
Proof.
  intros H. revert vs. induction H as [|s u l us [Hu _] _ IH]; intros vs Hv; inversion Hv as [|? v ? vs' [Hv' _] Hvs]; subst; [done|].
  f_equal; [congruence|by apply IH].
Qed.

Lemma parse_targets_sound l us : parse_targets ParseURL l = Ok us -> Forall2 target_of l us.
Proof.
  revert us. induction l as [|s l IH]; intros us; cbn; [intros [= <-]; constructor|].
  destruct (parse_target ParseURL s) as [u|] eqn:Hs; [|done].
  destruct (parse_targets ParseURL l) as [vs|]; [|done]. intros [= <-].
  constructor; [by apply parse_target_spec|by apply IH].
Qed.

Lemma parse_targets_spec l us : parse_targets ParseURL l = Ok us <-> Forall2 target_of l us.
Proof.
  split; [apply parse_targets_sound|]. intros H.
  assert (Hok : is_ok (parse_targets ParseURL l) = true).
  { induction H as [|s u l us Hs _ IH]; [done|]. cbn. apply parse_target_spec in Hs. rewrite Hs.
    by destruct (parse_targets ParseURL l). }
  destruct (parse_targets ParseURL l) as [vs|] eqn:Hl; [|done].
  f_equal. apply parse_targets_sound in Hl. eapply target_of_unique; eassumption.
Qed.

Lemma parse_target_is_ok s : is_ok (parse_target ParseURL s) = target_ok s.
Proof.
  unfold parse_target, target_ok. destruct (ParseURL (TrimSpace s)) as [u|]; [|done].
  by repeat case_bool_decide.
Qed.

Lemma parse_targets_is_ok l : is_ok (parse_targets ParseURL l) = forallb target_ok l.
Proof.
  induction l as [|s l IH]; [done|]. cbn. rewrite <- parse_target_is_ok, <- IH.
  destruct (parse_target ParseURL s); [|done]. by destruct (parse_targets ParseURL l).
Qed.
End Facts.

(** ** Properties *)

Section Properties.
Context `{U : Unicode}.
Variable ParseURL : string -> option URL.

(** The parts of a document that [Load] checks. *)
Definition document_ok (y : yamlProxy) : bool :=
  bool_decide (yp_targets y <> []) && forallb (target_ok ParseURL) (yp_targets y)
  && match yp_cache y with Some c => duration_ok (yc_ttl c) | None => true end
  && match yp_queue y with Some q => duration_ok (yq_enqueue_timeout q) | None => true end.

Lemma build_config_is_ok y : is_ok (build_config ParseURL y) = document_ok y.
Proof.
  unfold build_config, document_ok. destruct (yp_targets y) as [|s l] eqn:Hl; [done|].
  rewrite bool_decide_true by done. cbn [andb].
  rewrite <- parse_targets_is_ok, <- (apply_cache_is_ok _ default_cache), <- (apply_queue_is_ok _ default_queue).
  destruct (parse_targets ParseURL (s :: l)) as [us|] eqn:Hu; [|done].
  apply parse_targets_sound in Hu. inversion Hu; subst. cbn [is_ok andb].
  destruct (apply_cache _ _); [|done]. by destruct (apply_queue _ _).
Qed.

(** What [Load] establishes about the configuration. *)
Record valid_config (cfg : Config) : Prop := {
  vc_listen : ListenAddr cfg <> "";
  vc_primary : head (TargetURLs cfg) = Some (TargetURL cfg);
  vc_targets : Forall (fun u => Scheme u <> "" /\ Host u <> "") (TargetURLs cfg);
  vc_entries : 0 < MaxEntries (cfg_Cache cfg);
  vc_ttl : 0 < TTL (cfg_Cache cfg);
  vc_queue : 0 < MaxQueue (cfg_Queue cfg);
  vc_concurrent : 0 < MaxConcurrent (cfg_Queue cfg);
  vc_methods : NoDup (AllowedMethods cfg);
  vc_strategy : LoadBalancerStrategy cfg <> "";
}.

Lemma build_config_valid y cfg :
  build_config ParseURL y = Ok cfg ->
  valid_config cfg /\ Forall2 (target_of ParseURL) (yp_targets y) (TargetURLs cfg).
Proof.
  unfold build_config. destruct (yp_targets y) as [|s l]; [done|].
  destruct (parse_targets ParseURL (s :: l)) as [us|] eqn:Hu; [|done]. apply parse_targets_sound in Hu.
  destruct us as [|u us]; [done|].
  destruct (apply_cache _ _) as [c|] eqn:Hc; [|done]. destruct (apply_queue _ _) as [q|] eqn:Hq; [|done].
  intros [= <-].
  apply apply_cache_ok in Hc as [Hc1 Hc2]; [|done|done]. apply apply_queue_ok in Hq as [Hq1 Hq2]; [|done|done].
  split; [|done]. constructor; cbn; try done.
  - by apply default_given_nonempty.
  - apply Forall_forall. intros v Hv. apply list_elem_of_lookup in Hv as [i Hi].
    eapply Forall2_lookup_r in Hu as (t & _ & _ & H1 & H2); [|exact Hi]. done.
  - unfold apply_methods. destruct (yp_allowed_methods y); apply parseMethods_NoDup.
  - by apply default_given_nonempty.
Qed.

Variable exists_file : string -> bool.
Variable ReadFile : string -> result string string.
Variable Unmarshal : string -> result yamlRoot string.

(** The [proxy] section of the file, when it exists, is readable and parses. *)
Definition proxy_section : option yamlProxy :=
  if exists_file "configs/config.yaml" then
    match ReadFile "configs/config.yaml" with
    | Ok b => match Unmarshal b with Ok y => yr_proxy y | Err _ => None end
    | Err _ => None
    end
  else None.

Lemma read_config_section :
  match proxy_section with
  | Some y => read_config ParseURL exists_file ReadFile Unmarshal = build_config ParseURL y
  | None => is_ok (read_config ParseURL exists_file ReadFile Unmarshal) = false
  end.
Proof.
  unfold proxy_section, read_config, findConfigFile.
  destruct (exists_file _); [|done]. cbn. destruct (ReadFile _); [|done].
  destruct (Unmarshal _) as [[[y|]]|]; done.
Qed.

Lemma Load_Ok cell cfg cell' :
  Load ParseURL exists_file ReadFile Unmarshal cell = (Ok cfg, cell') ->
  valid_config cfg /\ cell' = Some (TTL (cfg_Cache cfg))
  /\ exists y, proxy_section = Some y /\ Forall2 (target_of ParseURL) (yp_targets y) (TargetURLs cfg).
Proof.
  unfold Load. pose proof read_config_section as Hs.
  destruct (read_config _ _ _ _) as [c|e]; [|done]. intros [= -> <-].
  destruct proxy_section as [y|]; [|done]. symmetry in Hs. apply build_config_valid in Hs as [Hv Hf].
  split_and!; [done| |by exists y]. unfold SetDefaultCacheTTL.
  destruct (Z.leb_spec (TTL (cfg_Cache cfg)) 0); [|done]. pose proof (vc_ttl _ Hv). lia.
Qed.

(** [C22] A loaded configuration is usable: it has at least one target, each with scheme
    and host and one for each target the file names, in its order; cache size,
    lifetime and queue bounds are positive; listen address and strategy are not empty;
    the methods are distinct; and the proxy's default lifetime is the configured one.
    A failed load leaves the default lifetime as it was. *)
Theorem Load_valid (cell : TTLCell) :
  match Load ParseURL exists_file ReadFile Unmarshal cell with
  | (Ok cfg, cell') => valid_config cfg /\ cell' = Some (TTL (cfg_Cache cfg))
      /\ exists y, proxy_section = Some y /\ Forall2 (target_of ParseURL) (yp_targets y) (TargetURLs cfg)
  | (Err _, cell') => cell' = cell
  end.
Proof.
  destruct (Load _ _ _ _ cell) as [[cfg|e] cell'] eqn:Hl; [by apply Load_Ok in Hl|].
  unfold Load in Hl. destruct (read_config _ _ _ _); [done|]. by injection Hl.
Qed.

(** [C23] Loading succeeds exactly when the file can be read and parsed, has a proxy
    section with at least one target, every target is an absolute URL (it parses, and
    has a scheme and a host), and the durations it gives are durations; nothing else in
    the file can make it fail. *)
Theorem Load_succeeds_iff (cell : TTLCell) :
  is_ok (Load ParseURL exists_file ReadFile Unmarshal cell).1 = true
  <-> exists y, proxy_section = Some y /\ document_ok y = true.
Proof.
  unfold Load. pose proof read_config_section as Hs.
  destruct proxy_section as [y|].
  - rewrite Hs. pose proof (build_config_is_ok y) as Hd.
    destruct (build_config ParseURL y); cbn in *; naive_solver.
  - destruct (read_config _ _ _ _); cbn in *; naive_solver.
Qed.

(** A file that names only its targets gets the documented defaults. *)
Theorem Load_defaults (y : yamlProxy) (u : URL) (us : list URL) :
  yp_listen y = None -> yp_load_balancer_strategy y = None -> yp_load_balancer_health_check y = None ->
  yp_allowed_methods y = [] -> yp_cache y = None -> yp_queue y = None -> yp_tls y = None ->
  Forall2 (target_of ParseURL) (yp_targets y) (u :: us) ->
  build_config ParseURL y =
  Ok (mkConfig ":8080" u (u :: us) (mkCacheConfig true 2048 (60 * second))
        (mkQueueConfig 1000 100 (2 * second) true)
        ["GET"; "HEAD"; "POST"; "PUT"; "PATCH"; "DELETE"] "rr" true (mkTLSConfig false "" "")).
Proof.
  intros H1 H2 H3 H4 H5 H6 H7 Ht. unfold build_config.
  destruct (yp_targets y) as [|s l] eqn:Hl; [inversion Ht|].
  apply parse_targets_spec in Ht. rewrite Ht, H1, H2, H3, H4, H5, H6, H7. reflexivity.
Qed.
End Properties.

(** ** Instances *)

#[local] Existing Instance ascii_only.

(** A stand-in for [url.Parse] on plain HTTP addresses, and a file. *)
Definition sample_ParseURL (s : string) : option URL :=
  if HasPrefix s "http://" then Some (mkURL "http" (TrimPrefix s "http://") "" "") else None.
Definition sample_target_strings : list string := [" http://a:9000"; "http://b:9001"].
Definition sample_yaml : yamlProxy :=
  mkYamlProxy (Some ":8090") sample_target_strings (Some "lc") (Some false) ["get"; " Post "]
    (Some (mkYamlCache (Some true) (Some 16) (Some "5s")))
    (Some (mkYamlQueue (Some 10) (Some (-1)) (Some "1s") None)) None.
Definition sample_load (y : yamlProxy) : result Config config_error * TTLCell :=
  Load sample_ParseURL (fun _ => true) (fun _ => Ok "") (fun _ => Ok (mkYamlRoot (Some y))) defaultCacheTTL_init.

Lemma Load_defaults_witness :
  let y := mkYamlProxy None ["http://a:9000"] None None [] None None None in
  exists cfg, build_config sample_ParseURL y = Ok cfg /\ ListenAddr cfg = ":8080"
              /\ TargetURLs cfg = [mkURL "http" "a:9000" "" ""].
Proof.
  cbv zeta. eexists. split.
  - apply (Load_defaults sample_ParseURL (mkYamlProxy None ["http://a:9000"] None None [] None None None)
             (mkURL "http" "a:9000" "" "") []); try reflexivity.
    constructor; [|constructor]. split; [reflexivity|split; discriminate].
  - split; reflexivity.
Defined.

Example Load_sample :
  match sample_load sample_yaml with
  | (Ok cfg, cell) => ListenAddr cfg = ":8090" /\ length (TargetURLs cfg) = 2%nat
      /\ AllowedMethods cfg = ["GET"; "POST"] /\ MaxConcurrent (cfg_Queue cfg) = 100
      /\ EnqueueTimeout (cfg_Queue cfg) = second /\ cell = Some (5 * second)
  | _ => False
  end.
Proof. vm_compute. repeat split. Qed.
Example Load_bad_target :
  (sample_load (mkYamlProxy None ["localhost:9000"] None None [] None None None)).1
  = Err (InvalidTarget "localhost:9000").
Proof. vm_compute. reflexivity. Qed.

(** A list of methods whose only entry is blank normalises to the empty list, which
    lifts the restriction; leaving the list out does not. *)
Example blank_methods : apply_methods [""] = [] /\ apply_methods [] <> [].
Proof. split; [reflexivity|discriminate]. Qed.
