(* ===== verification/Server.v ===== *)
(** * The proxy's program: [cmd/server/main.go] and [cmd/server/tls.go]

    Building the proxy from its configuration, the endpoints of the server, and the
    decision between HTTP and HTTPS with the generation of a certificate.  Listening is
    the value [Listen]; the exporter of [/metrics] and the answer of a redirect belong to
    libraries and are parameters. *)
From S2P Require Import Prelude GoStrings GoTime GoNet GoMux Queue.
From S2P Require Import Headers CacheControl LruCache Balancer Metrics Log Proxy ProxyFacts ProxyProps Config.
#[local] Open Scope Z_scope.
#[local] Open Scope handler_scope.

(** ** [main]: from the configuration to the proxy *)

Section Main.
Context `{U : Unicode}.

(** [NewReverseProxyMulti] panics without targets; it is called with two or more. *)
Definition new_proxy (appConfig : Config) : option (ReverseProxy lruCache balancer) :=
  let cache := NewLRUCache (MaxEntries (cfg_Cache appConfig)) in
  if (1 <? length (TargetURLs appConfig))%nat
  then NewReverseProxyMulti (TargetURLs appConfig) cache (Enabled (cfg_Cache appConfig))
  else Some (NewReverseProxy (TargetURL appConfig) cache (Enabled (cfg_Cache appConfig))).

Definition build_proxy (appConfig : Config) : option (ReverseProxy lruCache balancer) :=
  match new_proxy appConfig with
  | None => None
  | Some reverseProxy =>
      let reverseProxy := ConfigureBalancer (LoadBalancerStrategy appConfig) reverseProxy in
      let reverseProxy := SetHealthCheckEnabled (LoadBalancerHealthCheck appConfig) reverseProxy in
      let reverseProxy := set_allowed (AllowedMethods appConfig) reverseProxy in
      Some (WithQueue (cfg_Queue appConfig) reverseProxy)
  end.

(** The state the server starts in, or [None] when the program ends. *)
Definition start_world (loaded : result Config config_error * TTLCell) : option (World lruCache balancer) :=
  match loaded with
  | (Ok appConfig, cell) =>
      match build_proxy appConfig with
      | Some p => Some (mkWorld p cell 0 [] [] [] 0%nat)
      | None => None
      end
  | (Err _, _) => None
  end.
End Main.

(** ** The endpoints *)

Section Endpoints.
Context `{U : Unicode} {C : Type} `{HC : Cache C} {B : Type} `{HB : Balancer B}.
Variable ParseTime : string -> option Z.
Variable env : Env.
Abbreviation World := (World C B).
Definition Handler : Type := ResponseWriter -> Request -> M World ResponseWriter.
Variable promhttp_Handler : Handler.
Variable redirect : string -> Handler.      (* http.RedirectHandler *)
Variable bad_request : Handler.             (* the answer to an asterisk request *)

Definition healthHandler : Handler := fun w _ => ret (Write "ok" (WriteHeader 200 w)).

Definition newServerMux : Mux Handler :=
  [("/metrics", promhttp_Handler); ("/", ServeHTTP ParseTime env); ("/healthz", healthHandler)].

Definition mux_ServeHTTP (mux : Mux Handler) : Handler := fun w req =>
  match mux_route mux (Method req) (Path (rURL req)) with
  | Serve h => h w req
  | RedirectTo p => redirect p w req
  | Unmatched => ret (NotFound w)
  | BadRequest => bad_request w req
  end.

Definition withProxyHeaders (next : Handler) : Handler := fun w r =>
  next (wSet "Server" "FCReverseProxy/3.0" w) r.

Definition rootHandler : Handler := withProxyHeaders (mux_ServeHTTP newServerMux).
End Endpoints.

(** ** [tls.go] *)

(** What a file holds, as far as the program knows. *)
Inductive content := Given | Empty | Certificate | PrivateKey.
Abbreviation FS := (gmap string content).
Definition fileExists (fs : FS) (p : string) : bool := bool_decide (is_Some (fs !! p)).

(** The operations on which the generation depends; [None] is success. *)
Record TLSEnv := mkTLSEnv {
  MkdirAll : string -> option string;
  GenerateKey : option string;
  SerialNumber : option string;
  CreateCertificate : option string;
  Create : string -> option string;          (* os.Create, os.OpenFile *)
  Encode : string -> option string;          (* pem.Encode to an open file *)
}.

Section TLS.
Variable env : TLSEnv.

(** Directories that cannot be made are an error unless they are the current one. *)
Definition make_parent (p : string) : option string :=
  match MkdirAll env (Dir p) with
  | Some err => if bool_decide (Dir p <> ".") then Some err else None
  | None => None
  end.

(** Creating (or truncating) a file and writing a block to it. *)
Definition write_pem (p : string) (block : content) (fs : FS) : FS * option string :=
  match Create env p with
  | Some err => (fs, Some err)
  | None =>
      match Encode env p with
      | Some err => (<[p := Empty]> fs, Some err)
      | None => (<[p := block]> fs, None)
      end
  end.

Definition first_error (l : list (option string)) : option string := head (omap id l).

Definition generateSelfSigned (certPath keyPath : string) (fs : FS) : FS * option string :=
  match first_error [make_parent certPath; make_parent keyPath; GenerateKey env; SerialNumber env;
                     CreateCertificate env] with
  | Some err => (fs, Some err)
  | None =>
      match write_pem certPath Certificate fs with
      | (fs, Some err) => (fs, Some err)
      | (fs, None) => write_pem keyPath PrivateKey fs
      end
  end.

Definition ensureSelfSignedIfMissing (certPath keyPath : string) (fs : FS) : FS * option string :=
  if fileExists fs certPath && fileExists fs keyPath then (fs, None)
  else generateSelfSigned certPath keyPath fs.

(** How the server is started. *)
Inductive Listen :=
| ListenAndServe (addr : string)
| ListenAndServeTLS (addr certFile keyFile : string).

Definition startServer (appConfig : Config) (fs : FS) : FS * Listen :=
  let tls := cfg_TLS appConfig in
  if negb (TLS_Enabled tls) then (fs, ListenAndServe (ListenAddr appConfig))
  else
    let cert := if bool_decide (CertFile tls = "") then "server.crt" else CertFile tls in
    let key := if bool_decide (KeyFile tls = "") then "server.key" else KeyFile tls in
    match ensureSelfSignedIfMissing cert key fs with
    | (fs, Some _) => (fs, ListenAndServe (ListenAddr appConfig))
    | (fs, None) =>
        if fileExists fs cert && fileExists fs key
        then (fs, ListenAndServeTLS (ListenAddr appConfig) cert key)
        else (fs, ListenAndServe (ListenAddr appConfig))
    end.
End TLS.

(** ** Properties *)

Lemma NewLRUCache_clean n : clean_cache (NewLRUCache n).
Proof.
  split; [apply NewLRUCache_wf|]. intros p Hp. by apply elem_of_nil in Hp.
Qed.

Lemma new_proxy_settled `{Unicode} (cfg : Config) :
  head (TargetURLs cfg) = Some (TargetURL cfg) -> Z.of_nat (length (TargetURLs cfg)) < two63 ->
  exists p, new_proxy cfg = Some p /\ settled_config (TargetURLs cfg) p
    /\ cache p = NewLRUCache (MaxEntries (cfg_Cache cfg)) /\ cacheOn p = Enabled (cfg_Cache cfg).
Proof.
  intros Hh Hl. unfold new_proxy. destruct (TargetURLs cfg) as [|u us]; [done|]. injection Hh as ->.
  destruct us as [|v us].
  - eexists. split; [done|]. split; [|done].
    destruct (newBalancer_settled "rr" [TargetURL cfg] true) as (H1 & H2 & H3 & H4 & H5 & H6); [done|].
    unfold settled_config, NewReverseProxy. cbn [targets rp_balancer healthChecksEnabled]. by split_and!.
  - eexists. split; [done|]. split; [|done].
    destruct (newBalancer_settled "rr" (TargetURL cfg :: v :: us) true) as (H1 & H2 & H3 & H4 & H5 & H6); [done|].
    unfold settled_config, NewReverseProxy. cbn [targets rp_balancer healthChecksEnabled lbStrategy]. by split_and!.
Qed.

(** The state the program starts in: what the theorems about requests suppose, and the
    settings of the configuration. *)
Record well_started `{Unicode} (cfg : Config) (s : World lruCache balancer) : Prop := {
  ws_clean : clean_cache (cache_of s);
  ws_empty : cache_view (cache_of s) = [];
  ws_size : cache_cap (cache_of s) = Z.to_nat (MaxEntries (cfg_Cache cfg));
  ws_room : (0 < cache_cap (cache_of s))%nat;
  ws_balancer : bal_ok (bal_of s);
  ws_targets : Targets (bal_of s) = TargetURLs cfg;
  ws_some_target : TargetURLs cfg <> [];
  ws_steady : steady (bal_of s);
  ws_checks : checks (bal_of s) = LoadBalancerHealthCheck cfg;
  ws_idle : Forall (fun n => n = 0) (in_flight (bal_of s));
  ws_strategy : Strategy (bal_of s) = Strategy (newBalancer (LoadBalancerStrategy cfg) [] true);
  ws_caching : cacheOn (proxy s) = Enabled (cfg_Cache cfg);
  ws_queue : handler (proxy s) = Some (cfg_Queue cfg);
  ws_methods : allowedMethods (proxy s) = SetAllowedMethods (AllowedMethods cfg);
  ws_lifetime : defaultTTL s = Some (TTL (cfg_Cache cfg));
}.

Lemma startup_facts `{Unicode} ParseURL exists_file ReadFile Unmarshal (cell : TTLCell) (cfg : Config) cell' :
  Load ParseURL exists_file ReadFile Unmarshal cell = (Ok cfg, cell') ->
  Z.of_nat (length (TargetURLs cfg)) < two63 ->
  exists s, start_world (Ok cfg, cell') = Some s /\ well_started cfg s.
Proof.
  intros (Hv & -> & _)%Load_Ok Hl.
  destruct (new_proxy_settled cfg (vc_primary _ Hv) Hl) as (p & Hp & (S1 & S2 & S3 & S4 & S5 & _) & Hc & Hon).
  unfold start_world, build_proxy. rewrite Hp. eexists. split; [done|].
  pose proof (vc_entries _ Hv) as He.
  destruct (newBalancer_settled (LoadBalancerStrategy cfg) (targets p) (LoadBalancerHealthCheck cfg))
    as (B1 & B2 & B3 & B4 & _); [by rewrite S1|].
  assert (Hcap : cache_cap (cache p) = Z.to_nat (MaxEntries (cfg_Cache cfg))).
  { rewrite Hc. unfold NewLRUCache. destruct (Z.leb_spec (MaxEntries (cfg_Cache cfg)) 0); [lia|done]. }
  pose proof (NewLRUCache_clean (MaxEntries (cfg_Cache cfg))) as Hclean.
  constructor;
    repeat match goal with
      | |- context [cache_of ?s] => change (cache_of s) with (cache p)
      | |- context [bal_of ?s] => change (bal_of s) with
          (newBalancer (LoadBalancerStrategy cfg) (targets p) (LoadBalancerHealthCheck cfg))
      end;
    rewrite ?Hcap, ?Hc; try done; [lia|congruence| | |].
  - pose proof (vc_primary _ Hv). by destruct (TargetURLs cfg).
  - apply newBalancer_steady. by rewrite S1.
  - unfold newBalancer. by case_bool_decide.
Qed.

(** [C20] Start-up: a configuration that [Load] accepts starts the proxy in a state
    with everything the theorems about requests suppose - an empty, well-formed cache
    of the configured size, a sound balancer over exactly the configured targets with
    no connection open - and with the configured strategy, probing, methods, queue and
    default lifetime. *)
Theorem startup_sound `{Unicode} ParseURL exists_file ReadFile Unmarshal (cell : TTLCell) (cfg : Config) cell' :
  Load ParseURL exists_file ReadFile Unmarshal cell = (Ok cfg, cell') ->
  Z.of_nat (length (TargetURLs cfg)) < two63 ->
  exists s, start_world (Ok cfg, cell') = Some s /\ well_started cfg s.
Proof. exact (startup_facts ParseURL exists_file ReadFile Unmarshal cell cfg cell'). Qed.

Lemma registered_server {H} (m p : H) (h : H) path :
  registered_at [("/metrics", m); ("/", p); ("/healthz", h)] path =
  if bool_decide (path = "/metrics") then Some m else if bool_decide (path = "/") then Some p
  else if bool_decide (path = "/healthz") then Some h else None.
Proof. cbn. repeat case_bool_decide; congruence. Qed.

Lemma match_server {H} (m p h : H) path :
  HasPrefix path "/" = true ->
  mux_match [("/metrics", m); ("/", p); ("/healthz", h)] path =
  Some (if bool_decide (path = "/metrics") then m else if bool_decide (path = "/healthz") then h else p).
Proof.
  intros Hp. unfold mux_match. rewrite registered_server.
  case_bool_decide; [done|]. case_bool_decide as H1; [by subst|]. case_bool_decide; [done|].
  cbn [foldl]. unfold longer. cbn [fst]. change (HasSuffix "/metrics" "/") with false.
  change (HasSuffix "/" "/") with true. change (HasSuffix "/healthz" "/") with false. cbn [andb].
  by rewrite Hp.
Qed.

Lemma slashed_unregistered {H} (m p h : H) path :
  HasPrefix path "/" = true -> registered_at [("/metrics", m); ("/", p); ("/healthz", h)] (path +:+ "/") = None.
Proof.
  intros Hp. rewrite registered_server. rewrite !bool_decide_false; [done|..];
    apply slashed_ne; auto.
Qed.

Lemma route_server {H} (m p h : H) method path :
  HasPrefix path "/" = true ->
  mux_route [("/metrics", m); ("/", p); ("/healthz", h)] method path =
  if negb (bool_decide (method = "CONNECT")) && bool_decide (cleanPath path <> path)
  then RedirectTo (cleanPath path)
  else Serve (if bool_decide (path = "/metrics") then m else if bool_decide (path = "/healthz") then h else p).
Proof.
  intros Hp. unfold mux_route. case_bool_decide as Hstar; [by subst|].
  pose proof (cleanPath_rooted path) as Hc.
  destruct (decide (method = "CONNECT")) as [Hm|Hm];
    [rewrite !(bool_decide_true (method = _)) by done|rewrite !(bool_decide_false (method = _)) by done];
    cbn [negb andb]; rewrite slashed_unregistered, (bool_decide_false (is_Some None)), andb_false_r
      by (done || by intros [? ?]).
  - rewrite bool_decide_false by (by intros ?). by rewrite match_server.
  - case_bool_decide as Hcl; [done|]. destruct (decide (cleanPath path = path)) as [->|]; [|done].
    by rewrite match_server.
Qed.

Section EndpointProperties.
Context `{U : Unicode} {C : Type} `{HC : Cache C} {B : Type} `{HB : Balancer B}.
Variable ParseTime : string -> option Z.
Variable env : Env.
Variable promhttp_Handler : ResponseWriter -> Request -> M (World C B) ResponseWriter.
Variable redirect : string -> ResponseWriter -> Request -> M (World C B) ResponseWriter.
Variable bad_request : ResponseWriter -> Request -> M (World C B) ResponseWriter.

(** [C21] The endpoints: every response carries the server's name; a path that is not
    canonical is redirected to its canonical form and reaches neither proxy nor
    exporter, except by CONNECT; /metrics goes to the exporter; /healthz is answered
    200 with the body ok here, so that the proxy's own answer to it is never used; and
    every other path is the proxy's. *)
Theorem root_endpoints (w : ResponseWriter) (req : Request) (s : World C B) :
  let p := Path (rURL req) in
  let w' := wSet "Server" "FCReverseProxy/3.0" w in
  HasPrefix p "/" = true ->
  rootHandler ParseTime env promhttp_Handler redirect bad_request w req s =
  if bool_decide (Method req <> "CONNECT") && bool_decide (cleanPath p <> p) then redirect (cleanPath p) w' req s
  else if bool_decide (p = "/metrics") then promhttp_Handler w' req s
  else if bool_decide (p = "/healthz") then (Write "ok" (WriteHeader 200 w'), s)
  else ServeHTTP ParseTime env w' req s.
Proof.
  cbv zeta. intros Hp. unfold rootHandler, withProxyHeaders, mux_ServeHTTP, newServerMux.
  rewrite route_server by done.
  replace (bool_decide (Method req <> "CONNECT")) with (negb (bool_decide (Method req = "CONNECT")))
    by (repeat case_bool_decide; naive_solver).
  destruct (_ && _); [done|]. by repeat case_bool_decide.
Qed.
End EndpointProperties.

(** *** TLS *)

(** Whether a certificate is available after the start: it was, or it is made. *)
Definition generation_ok (env : TLSEnv) (cert key : string) : bool :=
  bool_decide (first_error [make_parent env cert; make_parent env key; GenerateKey env; SerialNumber env;
                            CreateCertificate env; Create env cert; Encode env cert; Create env key;
                            Encode env key] = None).

Lemma generateSelfSigned_spec env cert key fs :
  let '(fs', e) := generateSelfSigned env cert key fs in
  bool_decide (e = None) = generation_ok env cert key
  /\ (e = None -> fs' = <[key := PrivateKey]> (<[cert := Certificate]> fs))
  /\ forall p, p <> cert -> p <> key -> fs' !! p = fs !! p.
Proof.
  unfold generateSelfSigned, generation_ok, first_error, write_pem.
  destruct (make_parent env cert), (make_parent env key), (GenerateKey env), (SerialNumber env),
    (CreateCertificate env), (Create env cert), (Encode env cert), (Create env key), (Encode env key);
    cbn; (split_and!; [done|try done|intros p ? ?; rewrite ?lookup_insert_ne by congruence; try done]).
Qed.

Lemma generated_present cert key (fs : FS) :
  let fs' := <[key := PrivateKey]> (<[cert := Certificate]> fs) in
  fileExists fs' cert && fileExists fs' key = true.
Proof.
  cbv zeta. unfold fileExists. rewrite !bool_decide_true; [done|by rewrite lookup_insert_eq; eauto|].
  destruct (decide (key = cert)) as [->|]; simplify_map_eq; eauto.
Qed.

(** [C24] HTTP or HTTPS: without TLS the server speaks HTTP and touches no file; with TLS
    it speaks HTTPS exactly when certificate and key are both there or can be made, and
    otherwise falls back to HTTP on the same address.  HTTPS is only started with both
    files present.  An existing pair is never changed; if only one of the two is there, it
    is replaced together with the missing one; and no other file changes. *)
Theorem startServer_decides (env : TLSEnv) (cfg : Config) (fs : FS) :
  let cert := if bool_decide (CertFile (cfg_TLS cfg) = "") then "server.crt" else CertFile (cfg_TLS cfg) in
  let key := if bool_decide (KeyFile (cfg_TLS cfg) = "") then "server.key" else KeyFile (cfg_TLS cfg) in
  let present fs := fileExists fs cert && fileExists fs key in
  let '(fs', l) := startServer env cfg fs in
  l = (if TLS_Enabled (cfg_TLS cfg) && (present fs || generation_ok env cert key)
       then ListenAndServeTLS (ListenAddr cfg) cert key else ListenAndServe (ListenAddr cfg))
  /\ (l <> ListenAndServe (ListenAddr cfg) -> present fs' = true)
  /\ (present fs = true \/ TLS_Enabled (cfg_TLS cfg) = false -> fs' = fs)
  /\ (present fs = false -> TLS_Enabled (cfg_TLS cfg) = true -> generation_ok env cert key = true ->
      fs' = <[key := PrivateKey]> (<[cert := Certificate]> fs))
  /\ forall p, p <> cert -> p <> key -> fs' !! p = fs !! p.
Proof.
  cbv zeta. unfold startServer. destruct (TLS_Enabled (cfg_TLS cfg)); [|by split_and!]. cbn [negb andb].
  generalize (if bool_decide (CertFile (cfg_TLS cfg) = "") then "server.crt" else CertFile (cfg_TLS cfg)) as cert.
  generalize (if bool_decide (KeyFile (cfg_TLS cfg) = "") then "server.key" else KeyFile (cfg_TLS cfg)) as key.
  intros key cert. unfold ensureSelfSignedIfMissing.
  destruct (fileExists fs cert && fileExists fs key) eqn:Hp; [rewrite Hp; by split_and!|].
  pose proof (generateSelfSigned_spec env cert key fs) as Hg.
  destruct (generateSelfSigned env cert key fs) as [fs' [e|]]; destruct Hg as (Hok & Hboth & Hframe).
  - rewrite <- Hok, bool_decide_false by done. split_and!; [done|done|by intros [|]|done|done].
  - rewrite <- Hok, bool_decide_true by done. specialize (Hboth eq_refl).
    pose proof (generated_present cert key fs) as Hpres. cbv zeta in Hpres. rewrite <- Hboth in Hpres.
    rewrite Hpres. split_and!; [done|done|by intros [|]|done|done].
Qed.

(** ** Instances *)

#[local] Existing Instance ascii_only.

Lemma startup_sound_witness :
  exists cfg cell' s, sample_load sample_yaml = (Ok cfg, cell') /\ start_world (Ok cfg, cell') = Some s
    /\ Targets (bal_of s) = TargetURLs cfg /\ length (TargetURLs cfg) = 2%nat /\ clean_cache (cache_of s).
Proof.
  destruct (sample_load sample_yaml) as [[cfg|e] cell'] eqn:Hl; [|vm_compute in Hl; discriminate].
  assert (Hn : length (TargetURLs cfg) = 2%nat).
  { vm_compute in Hl. injection Hl as <- _. reflexivity. }
  destruct (startup_sound _ _ _ _ _ cfg cell' Hl) as (s & Hs & Hw).
  { rewrite Hn. reflexivity. }
  exists cfg, cell', s. split_and!; [reflexivity|exact Hs|exact (ws_targets _ _ Hw)|exact Hn|exact (ws_clean _ _ Hw)].
Defined.

Lemma root_endpoints_witness :
  let env := sample_env Z.of_nat "max-age=5" in
  let metrics_page := fun w _ => ret (Write "metrics" w) in
  let redirect := fun p w _ => ret (WriteHeader 301 (wSet "Location" p w)) in
  let root := rootHandler no_dates env metrics_page redirect (fun w _ => ret (WriteHeader 400 w)) newWriter in
  wBody (root (sample_request "/healthz") sample_world).1 = "ok"
  /\ wStatus (root (sample_request "/a//b") sample_world).1 = Some 301
  /\ wBody (root (sample_request "/metrics") sample_world).1 = "metrics"
  /\ root (sample_request "/news") sample_world
     = ServeHTTP no_dates env (wSet "Server" "FCReverseProxy/3.0" newWriter) (sample_request "/news") sample_world.
Proof.
  cbv zeta. rewrite !root_endpoints by reflexivity. repeat split.
Defined.

Lemma startServer_http_fallback :
  let broken := mkTLSEnv (fun _ => None) None None None (fun _ => Some "permission denied") (fun _ => None) in
  let cfg := mkConfig ":8443" (mkURL "http" "a" "" "") [] default_cache default_queue [] "rr" true
               (mkTLSConfig true "" "") in
  startServer broken cfg ∅ = (∅, ListenAndServe ":8443").
Proof. reflexivity. Qed.
