(* ===== verification/Middleware.v ===== *)
(** * Logging of the upstream server: [internal/log/logUpstream.go]

    The handlers that wrap the server's: [WithRequestID] and [WithRequestLogging].  A
    handler is written for any response writer ([Writer]), so that it can run behind
    [loggingResponseWriter], which is one; [WriterMorphism] says that a view of one
    writer as another commutes with every operation. *)
From S2P Require Import Prelude GoStrings GoTime GoNet Metrics Log.
#[local] Open Scope Z_scope.
#[local] Open Scope handler_scope.

(** ** Response writers as an interface *)

Class Writer (W : Type) := {
  w_header : W -> Header;
  w_with_header : Header -> W -> W;     (* changing the header map *)
  w_WriteHeader : Z -> W -> W;
  w_Write : string -> W -> W;           (* all bytes are taken *)
}.

#[export] Instance ResponseWriter_Writer : Writer ResponseWriter := {|
  w_header := wHeader;
  w_with_header := wWithHeader;
  w_WriteHeader := WriteHeader;
  w_Write := Write;
|}.

Definition w_Set `{Writer W} (k v : string) (w : W) : W := w_with_header (hSet (w_header w) k v) w.
Definition w_Error `{Writer W} (msg : string) (code : Z) (w : W) : W :=
  let h := hDel (w_header w) "Content-Length" in
  let h := hSet h "Content-Type" "text/plain; charset=utf-8" in
  let h := hSet h "X-Content-Type-Options" "nosniff" in
  w_Write (msg +:+ newline) (w_WriteHeader code (w_with_header h w)).
Definition w_NotFound `{Writer W} (w : W) : W := w_Error "404 page not found" 404 w.

(** *** [loggingResponseWriter] *)

Record LoggingWriter (W : Type) := mkLW {
  lw_inner : W;
  statusCode : Z;
  bytesWritten : Z;
  respPreview : string;
  respMaxPreview : Z;
}.
Arguments mkLW {W}. Arguments lw_inner {W}. Arguments statusCode {W}. Arguments bytesWritten {W}.
Arguments respPreview {W}. Arguments respMaxPreview {W}.

Section LoggingWriter.
Context `{Writer W}.

Definition lw_WriteHeader (code : Z) (w : LoggingWriter W) : LoggingWriter W :=
  mkLW (w_WriteHeader code (lw_inner w)) code (bytesWritten w) (respPreview w) (respMaxPreview w).

Definition lw_preview (b : string) (w : LoggingWriter W) : string :=
  if (0 <? respMaxPreview w) && (str_len (respPreview w) <? respMaxPreview w) then
    let remaining := respMaxPreview w - str_len (respPreview w) in
    if 0 <? remaining then
      let copyLen := if remaining <? str_len b then remaining else str_len b in
      respPreview w +:+ str (take (Z.to_nat copyLen) (bytes b))
    else respPreview w
  else respPreview w.

Definition lw_Write (b : string) (w : LoggingWriter W) : LoggingWriter W :=
  let code := if statusCode w =? 0 then 200 else statusCode w in
  mkLW (w_Write b (lw_inner w)) code (wrap_i64 (bytesWritten w + str_len b)) (lw_preview b w)
       (respMaxPreview w).

#[export] Instance LoggingWriter_Writer : Writer (LoggingWriter W) := {|
  w_header := fun w => w_header (lw_inner w);
  w_with_header := fun h w => mkLW (w_with_header h (lw_inner w)) (statusCode w) (bytesWritten w)
                                   (respPreview w) (respMaxPreview w);
  w_WriteHeader := lw_WriteHeader;
  w_Write := lw_Write;
|}.
End LoggingWriter.

(** ** State and environment *)

(** The state of the wrapped handlers, and what the wrappers use. *)
Record LogWorld (S : Type) := mkLogWorld {
  app_state : S;
  app_log : LogState;
  app_counter : Z;               (* requestCounter, int64 *)
  app_metrics : list Call;
  app_ticks : nat;
}.
Arguments mkLogWorld {S}. Arguments app_state {S}. Arguments app_log {S}. Arguments app_counter {S}.
Arguments app_metrics {S}. Arguments app_ticks {S}.

Record AppEnv := mkAppEnv {
  app_clock : nat -> Z;
  log_env : LogEnv;
  partial_read : string;         (* the bytes a failing body yields before it fails *)
}.

Section Middleware.
Context `{U : Unicode} `{F : Format} {S : Type}.
Variable env : AppEnv.
Abbreviation World := (LogWorld S).

Definition app_now : M World Z := fun w =>
  (app_clock env (app_ticks w),
   mkLogWorld (app_state w) (app_log w) (app_counter w) (app_metrics w) (Datatypes.S (app_ticks w))).
Definition on_log (f : LogState -> LogState) : M World unit := fun w =>
  (tt, mkLogWorld (app_state w) (f (app_log w)) (app_counter w) (app_metrics w) (app_ticks w)).
Definition on_metrics (l : list Call) : M World unit := fun w =>
  (tt, mkLogWorld (app_state w) (app_log w) (app_counter w) (app_metrics w ++ l) (app_ticks w)).
Definition next_counter : M World Z := fun w =>
  let n := wrap_i64 (app_counter w + 1) in
  (n, mkLogWorld (app_state w) (app_log w) n (app_metrics w) (app_ticks w)).

Definition emit (level : string) (labels : gmap string string) (line : string) : M World unit :=
  let! t := app_now in on_log (Emit (log_env env) t level "upstream" labels line).

Definition Handler (W : Type) : Type := W -> Request -> M World W.
(** A handler that works with any response writer. *)
Definition AnyHandler : Type := forall W, Writer W -> Handler W.

(** *** [WithRequestID] *)

(** The value of [X-Upstream], trimmed. *)
Definition upstream_name (h : Header) : string :=
  let v := TrimSpace (hGet h "X-Upstream") in if bool_decide (v = "") then "unknown" else v.

Definition ensure_id (r : Request) : M World (string * Request) :=
  let requestID := TrimSpace (reqGet r "X-Request-ID") in
  if bool_decide (requestID = "") then
    let! t := app_now in
    let! n := next_counter in
    let id := Itoa t +:+ "-" +:+ Itoa n in
    ret (id, reqSet r "X-Request-ID" id)
  else ret (requestID, r).

Definition WithRequestID (next : AnyHandler) : AnyHandler := fun W wr w r =>
  if isMetricsScrape r then next W wr w r
  else
    let! idr := ensure_id r in
    let requestID := idr.1 in
    let r := idr.2 in
    let host := MustHostname (log_env env) in
    let upstreamHeader := upstream_name (rHeader r) in
    emit "debug" (log_labels (Method r) "pending" "" upstreamHeader host requestID (Path (rURL r)))
      ("REQ_ID=" +:+ requestID +:+ " method=" +:+ Method r +:+ " url=" +:+ Path (rURL r)) ;;;
    let! w' := next W wr w r in
    emit "debug" (log_labels (Method r) "" "" upstreamHeader host requestID (Path (rURL r)))
      ("REQ_ID=" +:+ requestID +:+ " completed") ;;;
    ret w'.

(** *** [WithRequestLogging] *)

Definition maxBodyPreview : Z := 8192.

(** The client's address and the forwarding chain. *)
Definition client_of (r : Request) : string * string :=
  let xf := reqGet r "X-Forwarded-For" in
  if bool_decide (xf <> "") then (TrimSpace (default "" (Split xf ","%char !! 0%nat)), xf)
  else match SplitHostPort (RemoteAddr r) with
       | Some (host, _) => (host, "")
       | None => (RemoteAddr r, "")
       end.

(** The preview of a body, and the body the next handler reads: [limit + 1] bytes are
    read, of which [limit] are kept for replaying. *)
Definition preview_body (limit : Z) (b : Body) : string * Body :=
  let replay (buf : list ascii) (rest : string -> Body) (whole : Body) : string * Body :=
    if limit <? Z.of_nat (length buf)
    then let preview := str (take (Z.to_nat limit) buf) in (preview, rest preview)
    else (str buf, whole) in
  match b with
  | NoBody => ("", NoBody)
  | BodyBytes s =>
      let buf := take (Z.to_nat (limit + 1)) (bytes s) in
      replay buf (fun preview => BodyBytes (preview +:+ str (drop (Z.to_nat (limit + 1)) (bytes s))))
        (BodyBytes (str buf))
  | BodyFails =>
      let buf := take (Z.to_nat (limit + 1)) (bytes (partial_read env)) in
      replay buf (fun _ => BodyFails) (BodyBytes (str buf))
  end.

Definition flatten_header (h : Header) : gmap string string :=
  (fun v => match v with [x] => x | _ => Join v ", " end) <$> h.

Definition body_note (label preview : string) : string :=
  if (0 <? str_len preview) then label +:+ Quote preview else "".

(** After the wrapped handler: the lines and the measurement of the response. *)
Definition log_response {W} `{Writer W} (startTime : Z) (r : Request) (logWriter : LoggingWriter W)
    : M World unit :=
  let! t := app_now in
  let duration := Sub t startTime in
  let header := w_header logWriter in
  let dur := DurationString duration in
  let respXCache := hGet header "X-Cache" in
  let notModified := statusCode logWriter =? 304 in
  let respLine :=
    "RESP status=" +:+ Itoa (statusCode logWriter) +:+ " bytes=" +:+ Itoa (bytesWritten logWriter)
    +:+ " dur=" +:+ dur +:+ " resp-content-length=" +:+ hGet header "Content-Length"
    +:+ " resp_headers=" +:+ fmt_map id (flatten_header header)
    +:+ cache_note r header notModified (body_note ", resp_body_preview=" (respPreview logWriter)) in
  let respStatus := if statusCode logWriter =? 0 then 200 else statusCode logWriter in
  let upstreamID := upstream_name header in
  let uri := RequestURI (rURL r) in
  let responseLabels := log_labels (Method r) (Itoa respStatus) respXCache upstreamID
                          (MustHostname (log_env env)) (request_id r) uri in
  emit "info" responseLabels
    ("RESP status=" +:+ Itoa respStatus +:+ " bytes=" +:+ Itoa (bytesWritten logWriter) +:+ " dur=" +:+ dur
     +:+ " upstream=" +:+ upstreamID +:+ " req_id=" +:+ request_id r) ;;;
  emit "debug" responseLabels respLine ;;;
  (if 400 <=? respStatus then
     emit "error" responseLabels
       ("ERROR status=" +:+ Itoa respStatus +:+ " method=" +:+ Method r +:+ " url=" +:+ uri +:+ " dur=" +:+ dur
        +:+ " upstream=" +:+ upstreamID +:+ " req_id=" +:+ request_id r
        +:+ body_note " resp_body_preview=" (respPreview logWriter))
   else ret tt) ;;;
  on_metrics (ObserveUpstreamResponse (Method r) respStatus duration).

(** The request's lines. *)
Definition log_request (r : Request) (clientIP forwardedForChain preview : string) : M World unit :=
  let uri := RequestURI (rURL r) in
  let requestLabels := log_labels (Method r) "pending" "" (upstream_name (rHeader r))
                         (MustHostname (log_env env)) (request_id r) uri in
  emit "info" requestLabels ("REQ method=" +:+ Method r +:+ " url=" +:+ uri +:+ " req_id=" +:+ request_id r) ;;;
  emit "debug" requestLabels
    ("REQ remote=" +:+ clientIP +:+ " fwd=" +:+ Quote forwardedForChain +:+ " method=" +:+ Method r +:+ " url=" +:+ uri
     +:+ " proto=" +:+ Proto r +:+ " req-content-length=" +:+ reqGet r "Content-Length"
     +:+ " headers=" +:+ fmt_map id (flatten_header (rHeader r)) +:+ body_note ", req_body_preview=" preview).

Definition WithRequestLogging (next : AnyHandler) : AnyHandler := fun W wr w r =>
  if isMetricsScrape r then next W wr w r
  else
    let! startTime := app_now in
    on_metrics UpstreamInflightInc ;;;
    let '(clientIP, forwardedForChain) := client_of r in
    let '(preview, body) := preview_body maxBodyPreview (rBody r) in
    let r := set_body body r in
    log_request r clientIP forwardedForChain preview ;;;
    let! logWriter := next (LoggingWriter W) LoggingWriter_Writer (mkLW w 0 0 "" maxBodyPreview) r in
    log_response startTime r logWriter ;;;
    on_metrics UpstreamInflightDec ;;;
    ret (lw_inner logWriter).
End Middleware.

(** ** Facts: writers *)

Class WriterMorphism {W1 W2} `{Writer W1} `{Writer W2} (f : W1 -> W2) : Prop := {
  wm_header w : w_header (f w) = w_header w;
  wm_with_header h w : f (w_with_header h w) = w_with_header h (f w);
  wm_WriteHeader code w : f (w_WriteHeader code w) = w_WriteHeader code (f w);
  wm_Write b w : f (w_Write b w) = w_Write b (f w);
}.

#[export] Instance lw_inner_morphism `{Writer W} : WriterMorphism (lw_inner (W := W)).
Proof. by constructor. Qed.

Section Morphism.
Context {W1 W2} `{H1 : Writer W1} `{H2 : Writer W2} (f : W1 -> W2) `{Hf : !WriterMorphism f}.

Lemma wm_Set k v w : f (w_Set k v w) = w_Set k v (f w).
Proof. unfold w_Set. by rewrite (wm_with_header (f := f)), (wm_header (f := f)). Qed.
Lemma wm_Error msg code w : f (w_Error msg code w) = w_Error msg code (f w).
Proof.
  unfold w_Error. cbv zeta.
  by rewrite (wm_Write (f := f)), (wm_WriteHeader (f := f)), (wm_with_header (f := f)), (wm_header (f := f)).
Qed.
Lemma wm_NotFound w : f (w_NotFound w) = w_NotFound (f w).
Proof. apply wm_Error. Qed.

(** Two handlers that do the same, one behind the view. *)
Definition commutes {S} (h1 : @Handler S W1) (h2 : @Handler S W2) : Prop :=
  forall w r s, h2 (f w) r s = (f (h1 w r s).1, (h1 w r s).2).
End Morphism.

(** A handler is natural when it does the same behind every view. *)
Definition natural {S} (h : @AnyHandler S) : Prop :=
  forall W1 W2 (H1 : Writer W1) (H2 : Writer W2) (f : W1 -> W2),
    WriterMorphism f -> commutes f (h W1 H1) (h W2 H2).

(** *** The status logged and the status sent *)

(** A writer nothing was written to. *)
Definition unsent (w : LoggingWriter ResponseWriter) : Prop := wStatus (lw_inner w) = None /\ statusCode w = 0.

(** From [w0], a response was sent whose status is the one recorded, with the fields
    [kept] of the header as [w0] has them. *)
Definition sent_from (kept : list string) (w0 w : LoggingWriter ResponseWriter) : Prop :=
  exists code, code <> 0 /\ wStatus (lw_inner w) = Some code /\ statusCode w = code
  /\ forall k, k ∈ kept -> wSent (lw_inner w) !! k = wHeader (lw_inner w0) !! k.

Section Sent.
Context (kept : list string).

Lemma sent_WriteHeader code w :
  unsent w -> informational code = false -> code <> 0 -> sent_from kept w (w_WriteHeader code w).
Proof. intros [H1 H2] Hc H0. exists code. cbn. unfold WriteHeader. by rewrite H1, Hc. Qed.

Lemma sent_Write b w0 w : sent_from kept w0 w -> sent_from kept w0 (w_Write b w).
Proof.
  intros (code & H0 & H1 & H2 & H3). exists code. cbn. unfold Write. rewrite H1. cbn.
  destruct (Z.eqb_spec (statusCode w) 0); [congruence|]. by split_and!.
Qed.

Lemma sent_first_Write b w : unsent w -> sent_from kept w (w_Write b w).
Proof. intros [H1 H2]. exists 200. cbn. unfold Write, WriteHeader. rewrite H1, H2. by cbn. Qed.

Lemma sent_Set k v w0 w :
  bool_decide (CanonicalHeaderKey k ∈ kept) = false -> sent_from kept (w_Set k v w0) w -> sent_from kept w0 w.
Proof.
  intros Hk%bool_decide_eq_false (code & H0 & H1 & H2 & H3). exists code. split_and!; [done..|].
  intros j Hj. rewrite H3 by done. cbn. unfold hSet. by rewrite lookup_insert_ne by (intros <-; contradiction).
Qed.

Lemma sent_Error msg code w :
  bool_decide ("Content-Length" ∈ kept) = false -> bool_decide ("Content-Type" ∈ kept) = false ->
  bool_decide ("X-Content-Type-Options" ∈ kept) = false ->
  unsent w -> informational code = false -> code <> 0 -> sent_from kept w (w_Error msg code w).
Proof.
  intros K1%bool_decide_eq_false K2%bool_decide_eq_false K3%bool_decide_eq_false Hu Hi H0.
  unfold w_Error. cbv zeta.
  match goal with |- context [w_with_header ?h w] => set (w1 := w_with_header h w) end.
  destruct (sent_Write (msg +:+ newline) w1 _ (sent_WriteHeader code w1 Hu Hi H0)) as (c & C0 & C1 & C2 & C3).
  exists c. split_and!; [done..|]. intros k Hk. rewrite C3 by done. subst w1. cbn. unfold hSet, hDel.
  rewrite !lookup_insert_ne by (intros <-; contradiction). by rewrite lookup_delete_ne by (intros <-; contradiction).
Qed.

Lemma unsent_Set k v w : unsent w -> unsent (w_Set k v w).
Proof. done. Qed.
End Sent.

(** ** Facts: bodies *)

Lemma preview_body_short env limit s :
  0 <= limit -> str_len s <= limit -> preview_body env limit (BodyBytes s) = (s, BodyBytes s).
Proof.
  intros Hl Hs. unfold preview_body, str_len in *. rewrite take_ge by lia.
  destruct (Z.ltb_spec limit (Z.of_nat (length (bytes s)))); [lia|]. by rewrite str_bytes.
Qed.

Lemma preview_body_long env limit a c b :
  str_len a = limit ->
  preview_body env limit (BodyBytes (a +:+ str [c] +:+ b)) = (a, BodyBytes (a +:+ b)).
Proof.
  intros Ha. unfold preview_body, str_len in *. rewrite !bytes_app, bytes_str.
  replace (Z.to_nat (limit + 1)) with (length (bytes a) + 1)%nat by lia.
  rewrite take_app_add, drop_app_add. cbn [app take drop]. rewrite take_0, drop_0, length_app. cbn [length].
  destruct (Z.ltb_spec limit (Z.of_nat (length (bytes a) + 1))); [|lia].
  replace (Z.to_nat limit) with (length (bytes a)) by lia.
  by rewrite take_app_length, !str_bytes.
Qed.

(** ** Facts: what the wrappers leave alone *)

Section Frames.
Context `{U : Unicode} `{F : Format} {S : Type}.
Variable env : AppEnv.
Abbreviation World := (LogWorld S).

(** Only the log and the clock move. *)
Definition logs_only (s s' : World) : Prop :=
  app_state s' = app_state s /\ app_counter s' = app_counter s /\ app_metrics s' = app_metrics s.

Lemma emit_logs level labels line (s : World) : logs_only s (emit env level labels line s).2.
Proof. done. Qed.

Lemma log_request_logs r ip fwd preview (s : World) : logs_only s (log_request env r ip fwd preview s).2.
Proof. done. Qed.

Lemma log_response_effect `{Writer W} t r (lw : LoggingWriter W) (s : World) :
  let s' := (log_response env t r lw s).2 in
  let status := if statusCode lw =? 0 then 200 else statusCode lw in
  app_state s' = app_state s /\ app_counter s' = app_counter s
  /\ app_metrics s' = app_metrics s ++ ObserveUpstreamResponse (Method r) status
                                        (Sub (app_clock env (app_ticks s)) t).
Proof.
  cbv zeta. unfold log_response. unfold bind at 1 2 3 4. unfold app_now at 1. cbv zeta.
  destruct (400 <=? _); split_and!; done.
Qed.

(** The status the wrapper measures. *)
Definition recorded_status {W} (lw : LoggingWriter W) : Z := if statusCode lw =? 0 then 200 else statusCode lw.

(** The wrapper, step by step: the request it passes on, the writer the handler leaves,
    and the measurement of what that writer recorded. *)
Lemma logging_spec (next : AnyHandler) W (wr : Writer W) (w : W) (r : Request) (s : World) :
  isMetricsScrape r = false ->
  exists s0 lw s2 s',
    app_state s0 = app_state s /\ app_metrics s0 = app_metrics s ++ UpstreamInflightInc
    /\ next (LoggingWriter W) LoggingWriter_Writer (mkLW w 0 0 "" maxBodyPreview)
         (set_body (preview_body env maxBodyPreview (rBody r)).2 r) s0 = (lw, s2)
    /\ WithRequestLogging env next W wr w r s = (lw_inner lw, s')
    /\ app_state s' = app_state s2
    /\ app_metrics s' = app_metrics s2
         ++ ObserveUpstreamResponse (Method r) (recorded_status lw)
              (Sub (app_clock env (app_ticks s2)) (app_clock env (app_ticks s)))
         ++ UpstreamInflightDec.
Proof.
  intros Hs. unfold WithRequestLogging. rewrite Hs.
  unfold bind at 1 2. unfold app_now, on_metrics at 1. cbv zeta.
  destruct (client_of r) as [ip fwd]. destruct (preview_body env maxBodyPreview (rBody r)) as [preview body].
  cbn [snd]. set (r' := set_body body r).
  match goal with |- context [bind (log_request _ _ _ _ _) _ ?s1] =>
    pose proof (log_request_logs r' ip fwd preview s1) as (L1 & L2 & L3);
    unfold bind at 1; destruct (log_request env r' ip fwd preview s1) as [u s0] end.
  cbn [snd] in *. unfold bind at 1.
  destruct (next (LoggingWriter W) LoggingWriter_Writer (mkLW w 0 0 "" maxBodyPreview) r' s0) as [lw s2] eqn:Hn.
  unfold bind at 1.
  match goal with |- context [log_response ?e ?t ?q ?l ?s] =>
    pose proof (log_response_effect t q l s) as (R1 & R2 & R3); destruct (log_response e t q l s) as [u' s3] end.
  cbn [snd] in *. unfold bind, on_metrics, ret. eexists s0, lw, s2, _.
  split_and!; [done|by rewrite L3|done|done|done|]. cbn. by rewrite R3, <- app_assoc.
Qed.

Lemma scrape_set_id r id : isMetricsScrape (reqSet r "X-Request-ID" id) = isMetricsScrape r.
Proof. unfold isMetricsScrape, reqGet, reqSet. cbn. by rewrite !hGet_hSet_ne by done. Qed.

(** The request as [WithRequestID] passes it on. *)
Definition same_but_id (r r' : Request) : Prop :=
  Method r' = Method r /\ rURL r' = rURL r /\ rBody r' = rBody r /\ isMetricsScrape r' = isMetricsScrape r
  /\ (r' = r \/ exists id, r' = reqSet r "X-Request-ID" id).

Lemma request_id_spec (next : AnyHandler) W (wr : Writer W) (w : W) (r : Request) (s : World) :
  isMetricsScrape r = false ->
  exists s0 r' s',
    app_state s0 = app_state s /\ app_metrics s0 = app_metrics s /\ same_but_id r r'
    /\ WithRequestID env next W wr w r s = ((next W wr w r' s0).1, s')
    /\ app_state s' = app_state (next W wr w r' s0).2 /\ app_metrics s' = app_metrics (next W wr w r' s0).2.
Proof.
  intros Hs. unfold WithRequestID. rewrite Hs. unfold bind at 1.
  assert (He : exists id r' s1, ensure_id env r s = ((id, r'), s1) /\ app_state s1 = app_state s
               /\ app_metrics s1 = app_metrics s /\ same_but_id r r').
  { unfold ensure_id. case_bool_decide.
    - unfold bind, app_now, next_counter, ret. do 3 eexists. split; [reflexivity|]. split_and!; [done|done|].
      unfold same_but_id. rewrite scrape_set_id. eauto 10.
    - do 3 eexists. split; [reflexivity|]. unfold same_but_id. eauto 10. }
  destruct He as (id & r' & s1 & -> & H1 & H2 & H3). cbn [fst snd]. unfold bind at 1.
  match goal with |- context [emit env "debug" ?l ?t ?s] =>
    pose proof (emit_logs "debug" l t s) as (L1 & _ & L3); destruct (emit env "debug" l t s) as [u s0] end.
  cbn [snd] in *. unfold bind at 1. destruct (next W wr w r' s0) as [w1 s2] eqn:Hn.
  unfold bind, ret. eexists s0, r', _. rewrite Hn. cbn [fst snd].
  split_and!; [congruence|congruence|done|reflexivity|reflexivity|reflexivity].
Qed.

(** A body the preview takes in whole. *)
Definition previewed_whole (b : Body) : Prop :=
  match b with NoBody => True | BodyBytes s => str_len s <= maxBodyPreview | BodyFails => False end.

Lemma preview_body_whole b : previewed_whole b -> (preview_body env maxBodyPreview b).2 = b.
Proof. destruct b as [|s|]; [done| |done]. intros Hs. by rewrite preview_body_short by done. Qed.

(** [C25] The logging wrapper around any handler that works with every response writer,
    for any request but a metrics scrape. It passes on the request with its body as the
    preview leaves it, which is the request itself when the body has at most 8192 bytes.
    On that request the handler leaves the same response and the same state with the
    recording writer as with the plain one, and the wrapper returns that response and
    that state. It measures once, under the status its writer recorded (200 if none) and
    the time the whole took, and puts the in-flight gauge back. *)
Theorem logging_transparent (next : AnyHandler) W (wr : Writer W) (w : W) (r : Request) (s : World) :
  natural next -> isMetricsScrape r = false ->
  let r' := set_body (preview_body env maxBodyPreview (rBody r)).2 r in
  (previewed_whole (rBody r) -> r' = r)
  /\ exists s0 lw s2 s',
    app_state s0 = app_state s /\ app_metrics s0 = app_metrics s ++ UpstreamInflightInc
    /\ next (LoggingWriter W) LoggingWriter_Writer (mkLW w 0 0 "" maxBodyPreview) r' s0 = (lw, s2)
    /\ next W wr w r' s0 = (lw_inner lw, s2)
    /\ WithRequestLogging env next W wr w r s = (lw_inner lw, s')
    /\ app_state s' = app_state s2
    /\ app_metrics s' = app_metrics s2
         ++ ObserveUpstreamResponse (Method r) (recorded_status lw)
              (Sub (app_clock env (app_ticks s2)) (app_clock env (app_ticks s)))
         ++ UpstreamInflightDec.
Proof.
  intros Hn Hs. cbv zeta. split.
  { intros Hw. rewrite preview_body_whole by done. by destruct r. }
  destruct (logging_spec next W wr w r s Hs) as (s0 & lw & s2 & s' & H1 & H2 & H3 & H4 & H5 & H6).
  exists s0, lw, s2, s'. split_and!; try done.
  pose proof (Hn (LoggingWriter W) W LoggingWriter_Writer wr lw_inner _ (mkLW w 0 0 "" maxBodyPreview)
                (set_body (preview_body env maxBodyPreview (rBody r)).2 r) s0) as Hc.
  cbn [lw_inner] in Hc. by rewrite Hc, H3.
Qed.

(** [C26] Small bodies pass the logging wrapper unchanged; a body of more than 8192 bytes
    loses its 8193rd byte: the bytes read to detect the truncation are one more than
    those replayed. *)
Theorem body_preview_effect (b : string) :
  (str_len b <= 8192 -> (preview_body env maxBodyPreview (BodyBytes b)).2 = BodyBytes b)
  /\ (8192 < str_len b -> exists front c rest, b = front +:+ str [c] +:+ rest /\ str_len front = 8192
        /\ (preview_body env maxBodyPreview (BodyBytes b)).2 = BodyBytes (front +:+ rest)).
Proof.
  split; intros Hb.
  - by rewrite preview_body_short by done.
  - unfold str_len in Hb. assert (exists n, Z.of_nat n = 8192) as [n Hn] by (exists (Z.to_nat 8192); lia).
    destruct (bytes b !! n) as [c|] eqn:Hc; [|apply lookup_ge_None in Hc; lia].
    apply take_drop_middle in Hc.
    exists (str (take n (bytes b))), c, (str (drop (Datatypes.S n) (bytes b))).
    assert (Hf : str_len (str (take n (bytes b))) = 8192).
    { unfold str_len. rewrite bytes_str, length_take. lia. }
    assert (Hsplit : b = str (take n (bytes b)) +:+ str [c] +:+ str (drop (Datatypes.S n) (bytes b))).
    { apply bytes_inj. by rewrite !bytes_app, !bytes_str. }
    split; [done|]. split; [done|]. rewrite Hsplit at 1. by rewrite preview_body_long.
Qed.
End Frames.

(** ** Instances *)

#[local] Existing Instance ascii_only.
#[local] Existing Instance sample_format.

(** A handler that answers 404 to everything. *)
Definition missing : @AnyHandler unit := fun W wr w r => ret (w_NotFound w).

Lemma missing_natural : natural missing.
Proof. intros W1 W2 H1 H2 f Hf w r s. unfold missing, ret. cbn [fst snd]. by rewrite (wm_NotFound f). Qed.

Lemma logging_transparent_witness :
  let env := mkAppEnv Z.of_nat sample_log_env "" in
  let s := mkLogWorld tt log_init 0 [] 0%nat in
  let '(w, s') := WithRequestLogging env missing ResponseWriter ResponseWriter_Writer newWriter sample_get s in
  isMetricsScrape sample_get = false /\ w = w_NotFound newWriter /\ level upInflight [] (app_metrics s') = 0.
Proof.
  cbv zeta.
  destruct (logging_transparent (mkAppEnv Z.of_nat sample_log_env "") missing ResponseWriter ResponseWriter_Writer
              newWriter sample_get (mkLogWorld tt log_init 0 [] 0%nat) missing_natural eq_refl)
    as (_ & s0 & lw & s2 & s' & _ & H0 & _ & H1 & -> & _ & H2).
  unfold missing, ret in H1. injection H1 as <- <-. rewrite H2, H0.
  split; [reflexivity|]. split; reflexivity.
Defined.
