(* ===== verification/Upstream.v ===== *)
(** * The example upstream server: [internal/upstream/server.go]

    The item store, the handlers, and the chain of wrappers around them.  A store
    operation holds the store's lock, so it is one step.  JSON, time formatting, the
    exporter and redirects belong to libraries and are parameters; so is the order in
    which Go iterates over a map. *)
From S2P Require Import Prelude GoStrings GoTime GoNet GoMux Metrics Log Middleware.
#[local] Open Scope Z_scope.
#[local] Open Scope handler_scope.

(** ** The store *)

Record Item := mkItem { ID : Z; Name : string; Value : Z; UpdatedAt : Z }.
Record Store := mkStore { nextID : Z; data : gmap Z Item }.

Definition newStore : Store := mkStore 1 ∅.

(** [iteration] is the order of the map's entries. *)
Definition store_list (iteration : gmap Z Item -> list (Z * Item)) (st : Store) : list Item :=
  (iteration (data st)).*2.
Definition store_get (id : Z) (st : Store) : option Item := data st !! id.
Definition store_create (name : string) (value now : Z) (st : Store) : Item * Store :=
  let id := nextID st in
  let item := mkItem id name value now in
  (item, mkStore (wrap_i64 (nextID st + 1)) (<[id := item]> (data st))).
Definition store_update (id : Z) (name : string) (value now : Z) (st : Store) : option Item * Store :=
  match data st !! id with
  | None => (None, st)
  | Some item =>
      let item := mkItem (ID item) (if bool_decide (TrimSpace name <> "") then name else Name item) value now in
      (Some item, mkStore (nextID st) (<[id := item]> (data st)))
  end.
Definition store_delete (id : Z) (st : Store) : bool * Store :=
  match data st !! id with
  | None => (false, st)
  | Some _ => (true, mkStore (nextID st) (delete id (data st)))
  end.

(** ** Handlers *)

Definition parseID (s : string) : option Z :=
  match Atoi (TrimSpace s) with
  | Some id => if id <=? 0 then None else Some id
  | None => None
  end.

Definition addrWithPortZero (addr : string) : string :=
  match SplitHostPort addr with
  | Some (host, _) => JoinHostPort host "0"
  | None => ":0"
  end.

(** [encoding/json] on the values the server handles, and time stamps. *)
Record Codec := mkCodec {
  decode_input : Body -> option (string * Z);
  encode_item : Item -> string;
  encode_items : list Item -> string;
  encode_endpoint : string -> string -> string;
  format_time : Z -> string;
  iteration : gmap Z Item -> list (Z * Item);
}.

Section Server.
Context `{U : Unicode} `{F : Format}.
Variable env : AppEnv.
Variable codec : Codec.
Abbreviation World := (LogWorld Store).
Abbreviation AnyHandler := (@AnyHandler Store).
Variable promhttp_Handler : AnyHandler.
Variable redirect : string -> AnyHandler.
Variable bad_request : AnyHandler.

Definition on_store {A} (f : Store -> A * Store) : M World A := fun w =>
  let p := f (app_state w) in
  (p.1, mkLogWorld p.2 (app_log w) (app_counter w) (app_metrics w) (app_ticks w)).
Definition log_Printf (line : string) : M World unit := on_log (print line).
Definition log_req (r : Request) : M World unit :=
  log_Printf ("REQ method=" +:+ Method r +:+ " url=" +:+ Path (rURL r)).

Definition shared_for_10s : string := "public, max-age=10, s-maxage=10".

Definition writeJSON `{Writer W} (status : Z) (json : string) (w : W) : W :=
  w_Write json (w_WriteHeader status (w_Set "Content-Type" "application/json; charset=utf-8" w)).

Definition handle_healthz : AnyHandler := fun W _ w r =>
  log_req r ;;; ret (w_Write "ok" (w_WriteHeader 200 w)).

(** [/cache] and, after a delay, [/slow]. *)
Definition handle_endpoint (name : string) : AnyHandler := fun W _ w r =>
  log_req r ;;;
  let! t := app_now env in
  ret (writeJSON 200 (encode_endpoint codec name (format_time codec t)) (w_Set "Cache-Control" shared_for_10s w)).

Definition handle_root : AnyHandler := fun W _ w r =>
  log_req r ;;;
  ret (w_Write ("Upstream server is running." +:+ newline) (w_Set "Cache-Control" shared_for_10s w)).

Definition handle_items : AnyHandler := fun W _ w r =>
  log_req r ;;;
  let w := w_Set "Cache-Control" shared_for_10s w in
  if bool_decide (Method r = "GET") then
    let! items := on_store (fun st => (store_list (iteration codec) st, st)) in
    ret (writeJSON 200 (encode_items codec items) w)
  else if bool_decide (Method r = "POST") then
    match decode_input codec (rBody r) with
    | None => ret (w_Error "invalid JSON body" 400 w)
    | Some (name, value) =>
        if bool_decide (TrimSpace name = "") then ret (w_Error "name is required" 400 w)
        else
          let! t := app_now env in
          let! item := on_store (store_create name value t) in
          ret (writeJSON 201 (encode_item codec item) (w_Set "Location" ("/api/items/" +:+ Itoa (ID item)) w))
    end
  else ret (w_Error "method not allowed" 405 w).

Definition handle_item : AnyHandler := fun W _ w r =>
  let w := w_Set "Cache-Control" shared_for_10s w in
  log_req r ;;;
  match parseID (TrimPrefix (Path (rURL r)) "/api/items/") with
  | None => ret (w_NotFound w)
  | Some itemID =>
      if bool_decide (Method r = "GET") then
        let! found := on_store (fun st => (store_get itemID st, st)) in
        ret (match found with
             | Some item => writeJSON 200 (encode_item codec item) w
             | None => w_NotFound w
             end)
      else if bool_decide (Method r = "PUT") then
        match decode_input codec (rBody r) with
        | None => ret (w_Error "invalid JSON body" 400 w)
        | Some (name, value) =>
            let! t := app_now env in
            let! updated := on_store (store_update itemID name value t) in
            ret (match updated with
                 | Some item => writeJSON 200 (encode_item codec item) w
                 | None => w_NotFound w
                 end)
        end
      else if bool_decide (Method r = "DELETE") then
        let! deleted := on_store (store_delete itemID) in
        ret (if (deleted : bool) then w_WriteHeader 204 w else w_NotFound w)
      else ret (w_Error "method not allowed" 405 w)
  end.

(** ** The server *)

Definition upstream_mux : Mux AnyHandler :=
  [("/metrics", promhttp_Handler); ("/healthz", handle_healthz); ("/cache", handle_endpoint "cache");
   ("/slow", handle_endpoint "slow"); ("/", handle_root); ("/api/items", handle_items);
   ("/api/items/", handle_item)].

Definition serve_mux (mux : Mux AnyHandler) : AnyHandler := fun W wr w r =>
  match mux_route mux (Method r) (Path (rURL r)) with
  | Serve h => h W wr w r
  | RedirectTo p => redirect p W wr w r
  | Unmatched => ret (w_NotFound w)
  | BadRequest => bad_request W wr w r
  end.

Definition withServerHeaders (next : AnyHandler) : AnyHandler := fun W wr w r =>
  next W wr (w_Set "Server" "upstream/0.1" w) r.
Definition withUpstreamHeader (upstreamID : string) (next : AnyHandler) : AnyHandler := fun W wr w r =>
  next W wr (w_Set "X-Upstream" upstreamID w) r.

Definition handlerChain (upstreamID : string) : AnyHandler :=
  WithRequestID env
    (WithRequestLogging env
      (withServerHeaders
        (withUpstreamHeader upstreamID (serve_mux upstream_mux)))).

(** The seeded store, and the address the server listens on: the given one, or where
    it is in use one of the same host with a port the system chooses. *)
Definition seeded (t1 t2 : Z) : Store :=
  (store_create "beta" 20 t2 (store_create "alpha" 10 t1 newStore).2).2.

Inductive listen_error := AddressInUse | ListenFailed (err : string).
Definition acquire_listener (listen : string -> result string listen_error) (listenAddr : string)
    : result string listen_error :=
  match listen listenAddr with
  | Err AddressInUse => listen (addrWithPortZero listenAddr)
  | r => r
  end.
End Server.

(** ** Facts: the store *)

Record store_ok (st : Store) : Prop := {
  so_next : 0 < nextID st;
  so_ids : forall id item, data st !! id = Some item -> ID item = id /\ 0 < id < nextID st;
}.

Lemma newStore_ok : store_ok newStore.
Proof. split; [done|]. intros id item H. cbn in H. by apply lookup_empty_Some in H. Qed.

Lemma store_fresh st : store_ok st -> data st !! nextID st = None.
Proof.
  intros [_ Hi]. destruct (data st !! nextID st) as [item|] eqn:Hd; [|done]. apply Hi in Hd as [_ ?]. lia.
Qed.

Lemma store_create_ok name value now st :
  store_ok st -> nextID st + 1 < two63 ->
  store_ok (store_create name value now st).2 /\ nextID (store_create name value now st).2 = nextID st + 1.
Proof.
  intros [Hn Hi] Hb. unfold store_create. cbn [snd nextID].
  rewrite wrap_i64_small by (unfold in_i64, two63 in *; lia).
  split; [|done]. split; cbn [nextID data]; [lia|]. intros id item [[<- <-]|[_ Hd]]%lookup_insert_Some.
  - cbn. lia.
  - apply Hi in Hd as [? ?]. split; [done|lia].
Qed.

Lemma store_update_ok id name value now st : store_ok st -> store_ok (store_update id name value now st).2.
Proof.
  intros Hs. unfold store_update. destruct (data st !! id) as [item|] eqn:Hd; [|done].
  destruct Hs as [Hn Hi]. split; cbn [snd nextID data]; [done|].
  intros id' item' [[<- <-]|[_ Hd']]%lookup_insert_Some; [|by apply Hi].
  cbn. by apply Hi in Hd.
Qed.

Lemma store_delete_ok id st : store_ok st -> store_ok (store_delete id st).2.
Proof.
  intros Hs. unfold store_delete. destruct (data st !! id) as [item|]; [|done].
  destruct Hs as [Hn Hi]. split; cbn [snd nextID data]; [done|].
  intros id' item' [_ Hd]%lookup_delete_Some. by apply Hi.
Qed.

(** *** Traces of operations *)

Inductive store_op :=
| Create (name : string) (value now : Z)
| Update (id : Z) (name : string) (value now : Z)
| Delete (id : Z).

(** One operation, and the identifier it hands out. *)
Definition apply_op (o : store_op) (st : Store) : list Z * Store :=
  match o with
  | Create name value now => let '(item, st') := store_create name value now st in ([ID item], st')
  | Update id name value now => ([], (store_update id name value now st).2)
  | Delete id => ([], (store_delete id st).2)
  end.
Fixpoint apply_ops (l : list store_op) (st : Store) : list Z * Store :=
  match l with
  | [] => ([], st)
  | o :: l' => let '(ids, st) := apply_op o st in let '(ids', st) := apply_ops l' st in (ids ++ ids', st)
  end.

Lemma store_update_next id name value now st : nextID (store_update id name value now st).2 = nextID st.
Proof. unfold store_update. by destruct (data st !! id). Qed.
Lemma store_delete_next id st : nextID (store_delete id st).2 = nextID st.
Proof. unfold store_delete. by destruct (data st !! id). Qed.

(** Item identifiers: whatever the store is asked to do, the identifiers it hands
    out are consecutive, so that none is ever given twice, not even after its item was
    deleted; every item is filed under its own positive identifier. *)
Theorem store_ids_consecutive (l : list store_op) (st : Store) :
  store_ok st -> nextID st + Z.of_nat (length l) < two63 ->
  let '(ids, st') := apply_ops l st in
  ids = seqZ (nextID st) (Z.of_nat (length ids)) /\ store_ok st' /\ nextID st' = nextID st + Z.of_nat (length ids).
Proof.
  revert st. induction l as [|o l IH]; intros st Hs Hb.
  - cbn. split_and!; [done|done|lia].
  - cbn [length apply_ops] in *. destruct (apply_op o st) as [ids st1] eqn:Ho.
    assert (H1 : ids = seqZ (nextID st) (Z.of_nat (length ids)) /\ store_ok st1
                 /\ nextID st1 = nextID st + Z.of_nat (length ids) /\ (length ids <= 1)%nat).
    { destruct o as [name value now|id name value now|id]; cbn in Ho; injection Ho as <- <-.
      - destruct (store_create_ok name value now st Hs ltac:(lia)) as [H1 H2].
        split_and!; [|exact H1|exact H2|done]. cbn. by rewrite seqZ_cons by lia.
      - split_and!; [done|by apply store_update_ok|rewrite store_update_next; cbn; lia|cbn; lia].
      - split_and!; [done|by apply store_delete_ok|rewrite store_delete_next; cbn; lia|cbn; lia]. }
    destruct H1 as (E1 & S1 & N1 & B1). specialize (IH st1 S1 ltac:(lia)).
    destruct (apply_ops l st1) as [ids' st2]. destruct IH as (E2 & S2 & N2).
    split_and!; [|done|rewrite length_app; lia].
    rewrite length_app, Nat2Z.inj_add, seqZ_app by lia. rewrite <- E1, <- N1, <- E2. done.
Qed.

(** ** Facts: routing *)

Definition item_path (id : Z) : string := "/api/items/" +:+ Itoa id.

Lemma digit_not_slash l : forallb is_digit l = true -> slash ∉ l.
Proof. intros Hd Hs. rewrite forallb_forall in Hd. apply list_elem_of_In, Hd in Hs. discriminate. Qed.

Lemma digits_segment id : 0 <= id ->
  (slash ∉ bytes (Itoa id)) /\ Itoa id <> "" /\ Itoa id <> "." /\ Itoa id <> "..".
Proof.
  intros Hid. destruct (Itoa_digits id Hid) as (Hd & _ & Hn).
  split; [by apply digit_not_slash|].
  split; [|split]; intros E; by rewrite E in Hd, Hn.
Qed.

Lemma HasSuffix_digits p id : 0 <= id -> HasSuffix (p +:+ Itoa id) "/" = false.
Proof.
  intros Hid. destruct (Itoa_digits id Hid) as (Hd & _ & Hn). unfold HasSuffix.
  destruct (exists_last Hn) as (l & c & Hl).
  assert (Hc : is_digit c = true).
  { rewrite forallb_forall in Hd. apply Hd. rewrite Hl. apply in_or_app. right. by left. }
  rewrite bytes_app, Hl, app_assoc, rev_app_distr. cbn. revert Hc. clear.
  destruct c as [[] [] [] [] [] [] [] []]; vm_compute; done.
Qed.

Lemma cleanPath_item id : 0 <= id -> cleanPath (item_path id) = item_path id.
Proof.
  intros Hid. destruct (digits_segment id Hid) as (Hs & H1 & H2 & H3).
  assert (Hsuf : HasSuffix (item_path id) "/" = false) by by apply HasSuffix_digits.
  assert (Hpre : HasPrefix (item_path id) "/" = true) by done.
  assert (Hsplit : Split (item_path id) slash = [""; "api"; "items"; Itoa id]).
  { change (item_path id) with (Join [""; "api"; "items"; Itoa id] (String slash "")).
    apply Split_Join; [done|]. repeat constructor; try done; by apply (bool_decide_unpack _). }
  unfold cleanPath. rewrite bool_decide_false by done. cbv zeta. rewrite Hpre, Hsuf. cbn [andb].
  unfold Clean. rewrite Hpre, Hsplit. cbn [foldl].
  change (clean_step true [] "") with (@nil string). change (clean_step true [] "api") with ["api"].
  change (clean_step true ["api"] "items") with ["items"; "api"].
  unfold clean_step. rewrite !bool_decide_false by done. reflexivity.
Qed.

Lemma parseID_item id : 0 < id < two63 -> parseID (TrimPrefix (item_path id) "/api/items/") = Some id.
Proof.
  intros Hid. destruct (Itoa_digits id ltac:(lia)) as (Hd & _ & _).
  assert (Ht : TrimPrefix (item_path id) "/api/items/" = Itoa id).
  { unfold TrimPrefix. change (HasPrefix (item_path id) "/api/items/") with true. cbv iota.
    unfold item_path. rewrite bytes_app, drop_app_length. apply str_bytes. }
  assert (Hp : forallb plain_byte (bytes (Itoa id)) = true)
    by (eapply forallb_impl; [|exact Hd]; intros; by apply is_digit_plain).
  unfold parseID. rewrite Ht, TrimSpace_all_plain by exact Hp. rewrite Atoi_Itoa by lia.
  destruct (Z.leb_spec id 0); [lia|done].
Qed.

Section Routing.
Context `{U : Unicode} `{F : Format}.
Variable env : AppEnv.
Variable codec : Codec.
Abbreviation AnyHandler := (@AnyHandler Store).
Variable promhttp_Handler : AnyHandler.
Variable redirect : string -> AnyHandler.
Variable bad_request : AnyHandler.
Abbreviation mux := (upstream_mux env codec promhttp_Handler).

Lemma item_path_unregistered id suffix : 0 <= id -> registered_at mux (item_path id +:+ suffix) = None.
Proof.
  intros Hid. destruct (digits_segment id Hid) as (_ & Hn & _).
  unfold upstream_mux. cbn [registered_at].
  rewrite !bool_decide_false; [done|..]; try (intros E; discriminate E).
  intros E. unfold item_path in E. rewrite append_assoc in E. change "/api/items/" with ("/api/items/" +:+ "") in E at 1.
  apply append_inj_l in E. destruct (Itoa id); [done|discriminate E].
Qed.

Lemma item_route method id : 0 <= id -> mux_route mux method (item_path id) = Serve (handle_item env codec).
Proof.
  intros Hid. unfold mux_route. rewrite (bool_decide_false (item_path id = "*")) by done.
  rewrite cleanPath_item by done.
  assert (Hc : (if bool_decide (method = "CONNECT") then item_path id else item_path id) = item_path id)
    by by destruct (bool_decide _).
  cbv zeta. rewrite Hc, item_path_unregistered by done. cbn [andb].
  rewrite (bool_decide_false (is_Some None)) by (by intros [? ?]). rewrite andb_false_r.
  rewrite (bool_decide_false (item_path id <> item_path id)) by (by intros ?).
  unfold mux_match. rewrite <- (append_nil_r (item_path id)) at 1. rewrite item_path_unregistered by done.
  reflexivity.
Qed.

Lemma items_route method : mux_route mux method "/api/items" = Serve (handle_items env codec).
Proof. unfold mux_route. cbn. by destruct (bool_decide (method = "CONNECT")). Qed.

Abbreviation serve := (serve_mux redirect bad_request mux ResponseWriter ResponseWriter_Writer newWriter).
Abbreviation World := (LogWorld Store).

(** Responses of the two ways a handler answers. *)
Definition answered (w : ResponseWriter) (code : Z) (body : string) : Prop :=
  wStatus w = Some code /\ wBody w = body /\ hGet (wSent w) "Cache-Control" = shared_for_10s.

Lemma answered_json code json (w : ResponseWriter) :
  wStatus w = None -> wBody w = "" -> hGet (wHeader w) "Cache-Control" = shared_for_10s ->
  informational code = false -> answered (writeJSON code json w) code json.
Proof.
  intros Hs Hb Hh Hi. unfold writeJSON, w_Set, answered. cbn. unfold WriteHeader. cbn. rewrite Hs, Hi. cbn.
  rewrite Hb. split_and!; [done|done|]. by rewrite hGet_hSet_ne by done.
Qed.

Lemma answered_error msg code (w : ResponseWriter) :
  wStatus w = None -> wBody w = "" -> hGet (wHeader w) "Cache-Control" = shared_for_10s ->
  informational code = false -> answered (w_Error msg code w) code (msg +:+ newline).
Proof.
  intros Hs Hb Hh Hi. unfold w_Error, answered. cbn. unfold WriteHeader. cbn. rewrite Hs, Hi. cbn.
  rewrite Hb. split_and!; [done|done|]. by rewrite !hGet_hSet_ne, hGet_hDel_ne by done.
Qed.

Lemma answered_empty code (w : ResponseWriter) :
  wStatus w = None -> wBody w = "" -> hGet (wHeader w) "Cache-Control" = shared_for_10s ->
  informational code = false -> answered (w_WriteHeader code w) code "".
Proof. intros Hs Hb Hh Hi. unfold answered. cbn. unfold WriteHeader. by rewrite Hs, Hi. Qed.

Lemma started_writer (w : ResponseWriter) :
  w = w_Set "Cache-Control" shared_for_10s newWriter ->
  wStatus w = None /\ wBody w = "" /\ hGet (wHeader w) "Cache-Control" = shared_for_10s.
Proof. intros ->. split_and!; [done|done|apply hGet_hSet]. Qed.

(** What a GET of an item path writes, whatever the writer. *)
Lemma item_get_writes W (wr : Writer W) (w : W) (r : Request) (s : World) (id : Z) :
  0 < id < two63 -> Path (rURL r) = item_path id -> Method r = "GET" ->
  let served := serve_mux redirect bad_request mux W wr w r s in
  app_state served.2 = app_state s
  /\ served.1 = match data (app_state s) !! id with
                | Some item => writeJSON 200 (encode_item codec item) (w_Set "Cache-Control" shared_for_10s w)
                | None => w_NotFound (w_Set "Cache-Control" shared_for_10s w)
                end.
Proof.
  intros Hid Hp Hm. unfold serve_mux. rewrite Hp, item_route by lia. unfold handle_item.
  rewrite Hp, parseID_item, Hm by done. rewrite bool_decide_true by done.
  unfold bind, log_req, log_Printf, on_log, on_store, ret, store_get. cbn. split; [done|].
  by destruct (data (app_state s) !! id).
Qed.

Lemma item_get (r : Request) (s : World) (id : Z) :
  0 < id < two63 -> Path (rURL r) = item_path id -> Method r = "GET" ->
  app_state (serve r s).2 = app_state s
  /\ match data (app_state s) !! id with
     | Some item => answered (serve r s).1 200 (encode_item codec item)
     | None => answered (serve r s).1 404 ("404 page not found" +:+ newline)
     end.
Proof.
  intros Hid Hp Hm. destruct (item_get_writes _ ResponseWriter_Writer newWriter r s id Hid Hp Hm) as [-> ->].
  destruct (started_writer _ eq_refl) as (W1 & W2 & W3). split; [done|].
  destruct (data (app_state s) !! id); [by apply answered_json|by apply answered_error].
Qed.

(** [C28] One item over HTTP: what each method on [/api/items/{id}] answers and does to
    the store, missing items, unreadable bodies and other methods included.  A PUT with
    a blank name keeps the name.  All of the answers, refusals too, invite shared
    caches to keep them for ten seconds. *)
Theorem item_requests (r : Request) (s : World) (id : Z) :
  0 < id < two63 -> Path (rURL r) = item_path id ->
  let '(w, s') := serve r s in
  let st := app_state s in
  let st' := app_state s' in
  if bool_decide (Method r = "GET") then
    st' = st /\ match data st !! id with
               | Some item => answered w 200 (encode_item codec item)
               | None => answered w 404 ("404 page not found" +:+ newline)
               end
  else if bool_decide (Method r = "PUT") then
    match decode_input codec (rBody r), data st !! id with
    | None, _ => st' = st /\ answered w 400 ("invalid JSON body" +:+ newline)
    | Some _, None => st' = st /\ answered w 404 ("404 page not found" +:+ newline)
    | Some (name, value), Some item => exists t,
        let item' := mkItem (ID item) (if bool_decide (TrimSpace name = "") then Name item else name) value t in
        st' = mkStore (nextID st) (<[id := item']> (data st)) /\ answered w 200 (encode_item codec item')
    end
  else if bool_decide (Method r = "DELETE") then
    match data st !! id with
    | Some _ => st' = mkStore (nextID st) (delete id (data st)) /\ answered w 204 ""
    | None => st' = st /\ answered w 404 ("404 page not found" +:+ newline)
    end
  else st' = st /\ answered w 405 ("method not allowed" +:+ newline).
Proof.
  intros Hid Hp. case_bool_decide as Hget.
  { destruct (item_get r s id Hid Hp Hget). by destruct (serve r s). }
  unfold serve_mux. rewrite Hp, item_route by lia. unfold handle_item.
  rewrite Hp, parseID_item, (bool_decide_false (Method r = "GET")) by done.
  destruct (started_writer _ eq_refl) as (W1 & W2 & W3).
  set (w0 := w_Set "Cache-Control" shared_for_10s newWriter) in *.
  clearbody w0. unfold bind at 1, log_req, log_Printf, on_log. cbv zeta.
  repeat case_bool_decide; try (split; [done|]; by apply answered_error).
  - destruct (decode_input codec (rBody r)) as [[name value]|]; [|split; [done|]; by apply answered_error].
    unfold bind, on_store, app_now, ret, store_update. cbn.
    destruct (data (app_state s) !! id) as [item|]; cbn; [|split; [done|]; by apply answered_error].
    eexists. split; [|].
    + do 3 f_equal. by repeat case_bool_decide.
    + replace (if bool_decide (TrimSpace name = "") then Name item else name)
        with (if bool_decide (TrimSpace name <> "") then name else Name item) by (by repeat case_bool_decide).
      by apply answered_json.
  - unfold bind, on_store, ret, store_delete. cbn.
    destruct (data (app_state s) !! id) as [item|]; cbn; (split; [done|]); [by apply answered_empty|by apply answered_error].
Qed.

(** [C29] Creating an item: a POST with a name is answered 201 with the item and its
    location, under an identifier that was free; a GET of that location, from then on
    until it is changed, is answered with the same item; and a request that is refused
    creates nothing. *)
Theorem item_creation (r r' : Request) (s : World) :
  store_ok (app_state s) -> nextID (app_state s) + 1 < two63 ->
  Path (rURL r) = "/api/items" -> Method r = "POST" -> Method r' = "GET" ->
  let '(w, s') := serve r s in
  match decode_input codec (rBody r) with
  | Some (name, value) =>
      if bool_decide (TrimSpace name = "") then
        app_state s' = app_state s /\ answered w 400 ("name is required" +:+ newline)
      else exists t location,
        let item := mkItem (nextID (app_state s)) name value t in
        answered w 201 (encode_item codec item) /\ hGet (wSent w) "Location" = location
        /\ data (app_state s) !! ID item = None
        /\ store_ok (app_state s') /\ data (app_state s') = <[ID item := item]> (data (app_state s))
        /\ (Path (rURL r') = location -> answered (serve r' s').1 200 (encode_item codec item))
  | None => app_state s' = app_state s /\ answered w 400 ("invalid JSON body" +:+ newline)
  end.
Proof.
  intros Hs Hb Hp Hm Hm'. unfold serve_mux at 1. rewrite Hp, items_route. unfold handle_items. rewrite Hm.
  unfold bind at 1, log_req, log_Printf, on_log. cbv zeta.
  rewrite bool_decide_false, (bool_decide_true ("POST" = "POST")) by done.
  destruct (started_writer _ eq_refl) as (W1 & W2 & W3).
  set (w0 := w_Set "Cache-Control" shared_for_10s newWriter) in *.
  clearbody w0. destruct (decode_input codec (rBody r)) as [[name value]|]; [|split; [done|]; by apply answered_error].
  case_bool_decide as Hn; [split; [done|]; by apply answered_error|].
  unfold bind, app_now, on_store, ret. cbn [store_create app_state app_ticks app_log app_counter app_metrics].
  eexists _, (item_path (nextID (app_state s))). cbv zeta. cbn [ID].
  destruct (store_create_ok name value (app_clock env (app_ticks s)) (app_state s) Hs Hb) as [Hok _].
  pose proof (so_next _ Hs).
  split_and!.
  - apply answered_json; try done. unfold w_Set. cbn. by rewrite hGet_hSet_ne.
  - unfold writeJSON, w_Set. cbn. unfold WriteHeader. cbn. rewrite W1. cbn.
    rewrite hGet_hSet_ne by done. apply hGet_hSet.
  - by apply store_fresh.
  - exact Hok.
  - done.
  - intros Hp'. match goal with |- context [serve r' ?s'] => destruct (item_get r' s' (nextID (app_state s))) as [_ Hg] end;
      [lia|done|done|].
    cbn in Hg. by rewrite lookup_insert_eq in Hg.
Qed.
End Routing.

(** ** The chain of wrappers *)

Section Chain.
Context `{U : Unicode} `{F : Format}.
Variable env : AppEnv.
Variable codec : Codec.
Abbreviation World := (LogWorld Store).
Abbreviation AnyHandler := (@AnyHandler Store).

Lemma wm_writeJSON `{H1 : Writer W1} `{H2 : Writer W2} (f : W1 -> W2) `{Hf : !WriterMorphism f} code json w :
  f (writeJSON code json w) = writeJSON code json (f w).
Proof. unfold writeJSON. by rewrite (wm_Write (f := f)), (wm_WriteHeader (f := f)), (wm_Set f). Qed.

(** Handlers built from the writer's operations do the same behind every view. *)
Ltac solve_natural :=
  intros W1 W2 H1 H2 f Hf w r s;
  unfold bind, log_req, log_Printf, on_log, on_store, app_now, ret; cbv zeta;
  repeat match goal with
    | |- context [if ?b then _ else _] => destruct b
    | |- context [match ?x with Some _ => _ | None => _ end] => destruct x
    | |- context [let '(_, _) := ?x in _] => destruct x
    end; cbn [fst snd];
  rewrite ?(wm_writeJSON f), ?(wm_Error f), ?(wm_NotFound f), ?(wm_Set f), ?(wm_Write (f := f)),
    ?(wm_WriteHeader (f := f)), ?(wm_Set f); try reflexivity.

Lemma natural_healthz : natural handle_healthz.
Proof. unfold handle_healthz. solve_natural. Qed.
Lemma natural_endpoint name : natural (handle_endpoint env codec name).
Proof. unfold handle_endpoint. solve_natural. Qed.
Lemma natural_root : natural handle_root.
Proof. unfold handle_root. solve_natural. Qed.
Lemma natural_items : natural (handle_items env codec).
Proof. unfold handle_items. solve_natural. Qed.
Lemma natural_item : natural (handle_item env codec).
Proof. unfold handle_item. solve_natural. Qed.

(** Handlers that send a response, leave the server's names in its header and measure
    nothing themselves. *)
Definition names : list string := ["Server"; "X-Upstream"].
Definition behaved (h : AnyHandler) : Prop :=
  forall (w : LoggingWriter ResponseWriter) r s, unsent w ->
    sent_from names w (h _ LoggingWriter_Writer w r s).1
    /\ app_metrics (h _ LoggingWriter_Writer w r s).2 = app_metrics s.

Lemma sent_json code json w :
  unsent w -> informational code = false -> code <> 0 -> sent_from names w (writeJSON code json w).
Proof.
  intros Hu Hi H0. unfold writeJSON.
  eapply (sent_Set names "Content-Type"); [reflexivity|]. apply sent_Write, sent_WriteHeader; [by apply unsent_Set|done|done].
Qed.

Ltac solve_sent :=
  repeat match goal with
    | |- sent_from names ?w0 ?X =>
        match X with context [w_Set ?k ?v w0] => apply (sent_Set names k v w0); [reflexivity|] end
    end;
  match goal with
  | |- sent_from _ _ (writeJSON _ _ _) => apply sent_json
  | |- sent_from _ _ (w_NotFound _) => apply sent_Error
  | |- sent_from _ _ (w_Error _ _ _) => apply sent_Error
  | |- sent_from _ _ (w_Write _ (w_WriteHeader _ _)) => apply sent_Write, sent_WriteHeader
  | |- sent_from _ _ (w_WriteHeader _ _) => apply sent_WriteHeader
  | |- sent_from _ _ (w_Write _ _) => apply sent_first_Write
  end; first [assumption | reflexivity | discriminate | (repeat apply unsent_Set; assumption)].
Ltac solve_behaved :=
  intros w r s Hu;
  unfold bind, log_req, log_Printf, on_log, on_store, app_now, ret; cbv zeta;
  repeat match goal with
    | |- context [if ?b then _ else _] => destruct b
    | |- context [match ?x with Some _ => _ | None => _ end] => destruct x
    | |- context [let '(_, _) := ?x in _] => destruct x
    end; cbn [fst snd]; (split; [|reflexivity]);
  solve_sent.

Lemma behaved_healthz : behaved handle_healthz.
Proof.
  unfold handle_healthz. solve_behaved.
Qed.
Lemma behaved_endpoint name : behaved (handle_endpoint env codec name).
Proof. unfold handle_endpoint. solve_behaved. Qed.
Lemma behaved_root : behaved handle_root.
Proof. unfold handle_root. solve_behaved. Qed.
Lemma behaved_items : behaved (handle_items env codec).
Proof. unfold handle_items. solve_behaved. Qed.
Lemma behaved_item : behaved (handle_item env codec).
Proof. unfold handle_item. solve_behaved. Qed.

Variable promhttp_Handler : AnyHandler.
Variable redirect : string -> AnyHandler.
Variable bad_request : AnyHandler.
Abbreviation mux := (upstream_mux env codec promhttp_Handler).

(** Only the path [/metrics] is the exporter's. *)
Lemma mux_match_cases path h :
  mux_match mux path = Some h ->
  path = "/metrics" \/ h = handle_healthz \/ (exists name, h = handle_endpoint env codec name) \/ h = handle_root
  \/ h = handle_items env codec \/ h = handle_item env codec.
Proof.
  unfold mux_match, upstream_mux. cbn [registered_at].
  repeat (case_bool_decide; [intros [= <-]; subst; eauto 10|]).
  cbn [foldl]. unfold longer. cbn [fst]. change (HasSuffix "/metrics" "/") with false.
  change (HasSuffix "/healthz" "/") with false. change (HasSuffix "/cache" "/") with false.
  change (HasSuffix "/slow" "/") with false. change (HasSuffix "/api/items" "/") with false.
  change (HasSuffix "/" "/") with true. change (HasSuffix "/api/items/" "/") with true. cbn [andb].
  destruct (HasPrefix path "/"), (HasPrefix path "/api/items/"); cbn; intros [= <-]; eauto 10.
Qed.

Lemma behaved_mux w r s :
  Path (rURL r) <> "/metrics" -> (forall p, behaved (redirect p)) -> behaved bad_request -> unsent w ->
  let serve := serve_mux redirect bad_request mux _ LoggingWriter_Writer w r s in
  sent_from names w serve.1 /\ app_metrics serve.2 = app_metrics s.
Proof.
  intros Hp Hr Hb Hu. cbv zeta. unfold serve_mux, mux_route.
  case_bool_decide; [by apply Hb|].
  set (q := if bool_decide (Method r = "CONNECT") then Path (rURL r) else cleanPath (Path (rURL r))). cbv zeta.
  match goal with |- context [if ?b then RedirectTo _ else _] => destruct b end; [by apply Hr|].
  destruct (decide (q = Path (rURL r))) as [Hq|Hq];
    [rewrite bool_decide_false by (by intros ?)|rewrite bool_decide_true by done; by apply Hr].
  rewrite Hq. destruct (mux_match mux (Path (rURL r))) as [h|] eqn:Hm.
  - apply mux_match_cases in Hm as [?|[->|[[name ->]|[->|[->| ->]]]]]; [done|..].
    + by apply behaved_healthz.
    + by apply behaved_endpoint.
    + by apply behaved_root.
    + by apply behaved_items.
    + by apply behaved_item.
  - unfold ret. cbn [fst snd]. split; [|done]. solve_sent.
Qed.

Lemma natural_mux :
  natural promhttp_Handler -> (forall p, natural (redirect p)) -> natural bad_request ->
  natural (serve_mux redirect bad_request mux).
Proof.
  intros Np Nr Nb W1 W2 H1 H2 f Hf w r s. unfold serve_mux, mux_route.
  case_bool_decide; [by apply Nb|]. cbv zeta.
  match goal with |- context [if ?b then RedirectTo _ else _] => destruct b end; [by apply Nr|].
  match goal with |- context [if ?b then RedirectTo _ else _] => destruct b end; [by apply Nr|].
  destruct (mux_match mux _) as [h|] eqn:Hm.
  - apply mux_match_elem in Hm as [p Hm]. unfold upstream_mux in Hm. rewrite !elem_of_cons in Hm.
    destruct Hm as [[= _ ->]|[[= _ ->]|[[= _ ->]|[[= _ ->]|[[= _ ->]|[[= _ ->]|[[= _ ->]|[]%elem_of_nil]]]]]]].
    + by apply Np.
    + by apply natural_healthz.
    + by apply natural_endpoint.
    + by apply natural_endpoint.
    + by apply natural_root.
    + by apply natural_items.
    + by apply natural_item.
  - unfold ret. cbn [fst snd]. by rewrite (wm_NotFound f).
Qed.

(** The response of the chain is the routed handler's, written after the server's names. *)
Definition named_writer (upstreamID : string) : ResponseWriter :=
  w_Set "X-Upstream" upstreamID (w_Set "Server" "upstream/0.1" newWriter).

Lemma chain_response (upstreamID : string) (r : Request) (s : World) :
  natural promhttp_Handler -> (forall p, natural (redirect p)) -> natural bad_request ->
  isMetricsScrape r = false ->
  exists s0 r', app_state s0 = app_state s /\ Method r' = Method r /\ rURL r' = rURL r
  /\ let chain := handlerChain env codec promhttp_Handler redirect bad_request upstreamID
                    ResponseWriter ResponseWriter_Writer newWriter r s in
     let served := serve_mux redirect bad_request mux ResponseWriter ResponseWriter_Writer (named_writer upstreamID) r' s0 in
     chain.1 = served.1 /\ app_state chain.2 = app_state served.2.
Proof.
  intros Np Nr Nb Hs. cbv zeta. unfold handlerChain.
  match goal with |- context [WithRequestID env ?next] =>
    destruct (request_id_spec env next _ ResponseWriter_Writer newWriter r s Hs) as (s0 & r' & s' & S0 & _ & (N1 & N2 & _ & N4 & _) & -> & S1 & _) end.
  match goal with |- context [WithRequestLogging env ?next] =>
    destruct (logging_spec env next _ ResponseWriter_Writer newWriter r' s0) as (s1 & lw & s2 & s3 & S2 & _ & Hn & Hw & S3 & _);
      [congruence|] end.
  rewrite Hw in S1. rewrite Hw. cbn [fst snd] in *.
  unfold withServerHeaders, withUpstreamHeader in Hn.
  match type of Hn with serve_mux _ _ _ _ _ ?w1 ?r1 _ = _ =>
    pose proof (natural_mux Np Nr Nb _ _ LoggingWriter_Writer ResponseWriter_Writer lw_inner _ w1 r1 s1) as Hc;
    exists s1, r1 end.
  rewrite Hn in Hc. cbn [fst snd] in Hc. split; [congruence|]. split; [done|]. split; [done|].
  change (named_writer upstreamID) with (lw_inner (w_Set "X-Upstream" upstreamID
    (w_Set "Server" "upstream/0.1" (mkLW newWriter 0 0 "" maxBodyPreview)))).
  rewrite Hc. cbn [fst snd]. split; [done|]. congruence.
Qed.

(** [C27] The server's chain: every request but a scrape is answered with the server's
    names in the header, and counted once with the status that was sent; the in-flight
    gauge is put back. *)
Theorem chain_measures (upstreamID : string) (r : Request) (s : World) :
  isMetricsScrape r = false -> (forall p, behaved (redirect p)) -> behaved bad_request ->
  let '(w, s') := handlerChain env codec promhttp_Handler redirect bad_request upstreamID
                    ResponseWriter ResponseWriter_Writer newWriter r s in
  exists code d, wStatus w = Some code
  /\ wSent w !! "Server" = Some ["upstream/0.1"] /\ wSent w !! "X-Upstream" = Some [upstreamID]
  /\ app_metrics s' = app_metrics s ++ UpstreamInflightInc ++ ObserveUpstreamResponse (Method r) code d ++ UpstreamInflightDec.
Proof.
  intros Hs Hr Hb. unfold handlerChain.
  match goal with |- context [WithRequestID env ?next] =>
    destruct (request_id_spec env next _ ResponseWriter_Writer newWriter r s Hs) as (s0 & r' & s' & _ & M0 & (N1 & N2 & _ & N4 & _) & -> & _ & M1) end.
  match goal with |- context [WithRequestLogging env ?next] =>
    destruct (logging_spec env next _ ResponseWriter_Writer newWriter r' s0) as (s1 & lw & s2 & s3 & _ & M2 & Hn & Hw & _ & M3);
      [congruence|] end.
  rewrite Hw in M1. rewrite Hw. cbn [fst snd] in *.
  unfold withServerHeaders, withUpstreamHeader in Hn.
  match type of Hn with serve_mux _ _ _ _ _ ?w1 ?r1 _ = _ =>
    destruct (behaved_mux w1 r1 s1) as [(code & C0 & C1 & C2 & C3) Hm]; [|done|done|done|] end.
  { cbn. rewrite N2. intros E. unfold isMetricsScrape in Hs. by rewrite E in Hs. }
  rewrite Hn in *. cbn [fst snd] in *. eexists code, _. split_and!; [done|..].
  - rewrite C3 by set_solver. done.
  - rewrite C3 by set_solver. done.
  - rewrite M1, M3, Hm, M2, M0, N1. unfold recorded_status. rewrite C2. destruct (Z.eqb_spec code 0); [done|]. by rewrite <- app_assoc.
Qed.
End Chain.

(** ** Instances *)

#[local] Existing Instance ascii_only.
#[local] Existing Instance sample_format.

Definition sample_app_env : AppEnv := mkAppEnv Z.of_nat sample_log_env "".
Definition sample_codec : Codec :=
  mkCodec (fun b => match b with BodyBytes s => if bool_decide (s = "") then None else Some (s, 7) | _ => None end)
    Name (fun l => Join (Name <$> l) ",") (fun name t => name +:+ t) Itoa map_to_list.
Definition sample_exporter : @AnyHandler Store := fun W wr w r => ret (w_Write "metrics" w).
Definition sample_redirect (p : string) : @AnyHandler Store :=
  fun W wr w r => ret (w_WriteHeader 301 (w_Set "Location" p w)).
Definition sample_bad_request : @AnyHandler Store := fun W wr w r => ret (w_WriteHeader 400 w).
Definition sample_state : LogWorld Store := mkLogWorld (seeded 0 0) log_init 0 [] 0%nat.
Definition item_request (method path : string) (b : Body) : Request :=
  mkRequest method (mkURL "" "" path "") "items" ∅ b "10.0.0.9:5000" false emptyCtx.

Lemma sample_state_ok : store_ok (app_state sample_state).
Proof. apply store_create_ok; [|done]. apply store_create_ok; [apply newStore_ok|done]. Qed.

Lemma sample_redirect_behaved p : behaved (sample_redirect p).
Proof.
  intros w r s Hu. split; [|done]. apply (sent_Set names "Location" p w); [reflexivity|].
  by apply sent_WriteHeader.
Qed.
Lemma sample_bad_request_behaved : behaved sample_bad_request.
Proof. intros w r s Hu. split; [|done]. by apply sent_WriteHeader. Qed.

Abbreviation sample_serve :=
  (serve_mux sample_redirect sample_bad_request (upstream_mux sample_app_env sample_codec sample_exporter)
     ResponseWriter ResponseWriter_Writer newWriter).

Lemma store_ids_consecutive_witness :
  (apply_ops [Create "a" 1 0; Delete 1; Create "b" 2 0] newStore).1 = [1; 2].
Proof.
  pose proof (store_ids_consecutive [Create "a" 1 0; Delete 1; Create "b" 2 0] newStore newStore_ok eq_refl) as H.
  destruct (apply_ops _ newStore) as [ids st] eqn:Ho. destruct H as (-> & _).
  vm_compute in Ho. injection Ho as <- _. reflexivity.
Defined.

Lemma item_requests_witness :
  let '(w, s') := sample_serve (item_request "DELETE" "/api/items/2" NoBody) sample_state in
  wStatus w = Some 204 /\ data (app_state s') !! 2 = None.
Proof.
  pose proof (item_requests sample_app_env sample_codec sample_exporter sample_redirect sample_bad_request
                (item_request "DELETE" "/api/items/2" NoBody) sample_state 2 ltac:(done) eq_refl) as H.
  destruct (sample_serve _ sample_state) as [w s']. cbv zeta in H.
  change (data (app_state sample_state) !! 2) with (Some (mkItem 2 "beta" 20 0)) in H. cbn in H.
  destruct H as [-> (H1 & _)]. split; [exact H1|apply lookup_delete_eq].
Defined.

Lemma item_creation_witness :
  exists location,
    let '(w, s') := sample_serve (item_request "POST" "/api/items" (BodyBytes "gamma")) sample_state in
    hGet (wSent w) "Location" = location
    /\ (location = "/api/items/3" -> wBody (sample_serve (item_request "GET" "/api/items/3" NoBody) s').1 = "gamma").
Proof.
  pose proof (item_creation sample_app_env sample_codec sample_exporter sample_redirect sample_bad_request
                (item_request "POST" "/api/items" (BodyBytes "gamma")) (item_request "GET" "/api/items/3" NoBody)
                sample_state sample_state_ok eq_refl eq_refl eq_refl eq_refl) as H.
  destruct (sample_serve _ sample_state) as [w s']. cbn in H.
  destruct H as (t & location & _ & H1 & _ & _ & _ & H2). exists location. split; [exact H1|].
  intros ->. destruct (H2 eq_refl) as (_ & H3 & _). exact H3.
Defined.

Lemma chain_measures_witness :
  let '(w, s') := handlerChain sample_app_env sample_codec sample_exporter sample_redirect sample_bad_request
                    "127.0.0.1:9000" ResponseWriter ResponseWriter_Writer newWriter
                    (item_request "PATCH" "/api/items" NoBody) sample_state in
  wSent w !! "X-Upstream" = Some ["127.0.0.1:9000"] /\ incs upRequestsTotal (app_metrics s') = 1
  /\ level upInflight [] (app_metrics s') = 0.
Proof.
  pose proof (chain_measures sample_app_env sample_codec sample_exporter sample_redirect sample_bad_request
                "127.0.0.1:9000" (item_request "PATCH" "/api/items" NoBody) sample_state
                eq_refl sample_redirect_behaved sample_bad_request_behaved) as H.
  destruct (handlerChain _ _ _ _ _ _ _ _ _ _ _) as [w s']. destruct H as (code & d & _ & _ & H1 & ->).
  split; [exact H1|]. split; reflexivity.
Defined.
