(* ===== verification/UpstreamMain.v ===== *)
(** * The example server's program: [cmd/upstream/main.go]

    The addresses the program listens on, from its file to the servers it starts.  The
    file system and [yaml.Unmarshal] are parameters; [upstream.Start] is [acquire_listener]
    and [handlerChain] of [Upstream]. *)
From S2P Require Import Prelude GoStrings GoNet Upstream.
#[local] Open Scope Z_scope.

Section Program.
Context `{U : Unicode}.
Variable exists_file : string -> bool.                            (* os.Stat without error *)
Variable ReadFile : string -> option string.                      (* os.ReadFile *)
Variable Unmarshal : string -> option (option (list string)).     (* upstream.listen, if there is an upstream section *)

Definition defaultAddresses : list string := [":8000"].
Definition candidates : list string := ["configs/config-upstream.yaml"; "configs/config-upstream.yml"].

Definition loadListenAddressesFromYAML : list string :=
  let configPath := head (filter (fun c => exists_file c = true) candidates) in
  match configPath with
  | None => defaultAddresses
  | Some path =>
      match ReadFile path with
      | None => defaultAddresses
      | Some b =>
          match Unmarshal b with
          | Some (Some (a :: l)) => a :: l
          | _ => defaultAddresses
          end
      end
  end.

(** The addresses a server is started on; a single one is started even if it is blank. *)
Definition started (listenAddrs : list string) : list string :=
  if (1 <? length listenAddrs)%nat then filter (fun addr => addr <> "") (TrimSpace <$> listenAddrs)
  else match listenAddrs with
       | addr :: _ => [TrimSpace addr]
       | [] => []
       end.

(** The address each server acquires, or the error it ends with. *)
Definition upstream_main (listen : string -> result string listen_error) : list (result string listen_error) :=
  acquire_listener listen <$> started loadListenAddressesFromYAML.

(** ** Properties *)

Lemma loadListenAddresses_nonempty : loadListenAddressesFromYAML <> [].
Proof.
  unfold loadListenAddressesFromYAML. destruct (head _) as [p|]; [|done].
  destruct (ReadFile p) as [b|]; [|done]. by destruct (Unmarshal b) as [[[|a l]|]|].
Qed.

Lemma started_not_blank l a : a ∈ started l -> a = "" -> length l = 1%nat.
Proof.
  unfold started. intros Ha ->. destruct (Nat.ltb_spec 1 (length l)) as [Hl|Hl].
  - by apply list_elem_of_filter in Ha as [? _].
  - destruct l as [|x l]; [by apply elem_of_nil in Ha|]. cbn in *. lia.
Qed.

(** The program reads at least one address.  Every address it starts a server on
    is one of them, trimmed; of several, each that is not blank is started, as often as
    it is listed and in this order, and the blank ones are skipped. *)
Theorem upstream_starts :
  let l := loadListenAddressesFromYAML in
  l <> [] /\ (forall a, a ∈ started l -> exists raw, raw ∈ l /\ a = TrimSpace raw)
  /\ ((length l > 1)%nat -> started l = filter (fun a => a <> "") (TrimSpace <$> l))
  /\ (length l = 1%nat -> started l = TrimSpace <$> l).
Proof.
  cbv zeta. split; [apply loadListenAddresses_nonempty|].
  set (l := loadListenAddressesFromYAML). clearbody l. unfold started. split_and!.
  - intros a Ha. destruct (Nat.ltb_spec 1 (length l)).
    + apply list_elem_of_filter in Ha as [_ (raw & -> & Hr)%list_elem_of_fmap]. eauto.
    + destruct l as [|x l]; [by apply elem_of_nil in Ha|]. apply list_elem_of_singleton in Ha as ->.
      exists x. split; [left|done].
  - intros Hl. destruct (Nat.ltb_spec 1 (length l)); [done|lia].
  - intros Hl. destruct l as [|x [|]]; done.
Qed.
End Program.
