(* ===== verification/System.v ===== *)
(** * The proxy in front of the example servers

    [ServeHTTP] of [Proxy] with [handlerChain] of [Upstream] behind it.  Each target's
    host is a server with a store of its own ([cmd/upstream/main.go] starts one per
    address), and a round trip is the answer of the server of the request's host.  The
    requests the proxy sent are what the servers are delivered.  The connection keeps
    requests and answers as they are: the fields that Go's client and server add on the
    way (User-Agent, Accept-Encoding, Date, Content-Length) are not here. *)
From S2P Require Import Prelude GoStrings GoTime GoNet GoMux Queue.
From S2P Require Import Headers CacheControl LruCache Balancer Metrics Log Proxy ProxyFacts ProxyProps.
From S2P Require Import Config Server Middleware Upstream.
#[local] Open Scope Z_scope.
#[local] Open Scope handler_scope.

Section System.
Context `{U : Unicode} `{F : Format}.
Variable app : AppEnv.
Variable codec : Codec.
Abbreviation AnyHandler := (@AnyHandler Store).
Variable promhttp_Handler : AnyHandler.
Variable redirect : string -> AnyHandler.
Variable bad_request : AnyHandler.
Variable proxy_addr : string.                (* the proxy's end of a connection *)
Variable listener_addr : string -> string.   (* the listening address of a host's server *)

(** The state of every server, by host. *)
Definition Servers : Type := string -> LogWorld Store.

(** A request as the server reads it: the target is the path and query only. *)
Definition received (r : Request) : Request :=
  mkRequest (Method r) (mkURL "" "" (Path (rURL r)) (RawQuery (rURL r))) (rHost r) (rHeader r) (rBody r)
    proxy_addr false emptyCtx.

Definition serve_at (st : Servers) (r : Request) : ResponseWriter * LogWorld Store :=
  let host := Host (rURL r) in
  handlerChain app codec promhttp_Handler redirect bad_request (listener_addr host)
    ResponseWriter ResponseWriter_Writer newWriter (received r) (st host).

(** The response of a handler: 200 if it set no status; a HEAD has no body. *)
Definition response_of (method : string) (w : ResponseWriter) : Upstream :=
  let w := match wStatus w with Some _ => w | None => WriteHeader 200 w end in
  mkUpstream (default 200 (wStatus w)) (wSent w)
    (if bool_decide (method = "HEAD") then NoBody else BodyBytes (wBody w)).

Definition server_answer (st : Servers) (r : Request) : Upstream := response_of (Method r) (serve_at st r).1.
Definition deliver (st : Servers) (r : Request) : Servers :=
  fun h => if bool_decide (h = Host (rURL r)) then (serve_at st r).2 else st h.

(** The proxy's environment with these servers behind it. *)
Definition system_env (base : Env) (st : Servers) : Env :=
  mkEnv (clock base) (http_get base) (fun _ r => Ok (server_answer st r)) (ctx_done base) (read_error base)
    (queue_outcome base).

(** *** One exchange of a client with the system *)

Context {C : Type} `{HC : Cache C} {B : Type} `{HB : Balancer B}.
Variable ParseTime : string -> option Z.
Abbreviation World := (World C B).

Definition exchange (base : Env) (req : Request) (p : World * Servers) : ResponseWriter * (World * Servers) :=
  let '(w, s') := ServeHTTP ParseTime (system_env base p.2) newWriter req p.1 in
  (w, (s', foldl deliver p.2 (drop (length (sent p.1)) (sent s')))).
End System.

(** ** Facts: what the proxy sends *)

Section Sends.
Context `{U : Unicode} {C : Type} `{HC : Cache C} {B : Type} `{HB : Balancer B}.
Variable ParseTime : string -> option Z.
Variable env : Env.
Abbreviation World := (World C B).

Definition sends {A} (n : nat) (m : M World A) : Prop :=
  forall s, exists l, sent (m s).2 = sent s ++ l /\ (length l <= n)%nat.

Lemma sends_quiet {A} n (m : M World A) : keeps (@sent C B) m -> sends n m.
Proof. intros Hk s. exists []. rewrite Hk, app_nil_r. cbn. split; [done|lia]. Qed.

Lemma sends_bind_l {A A'} n (m : M World A) (k : A -> M World A') :
  keeps (@sent C B) m -> (forall x, sends n (k x)) -> sends n (bind m k).
Proof.
  intros Hm Hk s. unfold bind. pose proof (Hm s) as Hs. destruct (m s) as [x s1]. cbn in Hs.
  destruct (Hk x s1) as (l & Hl & Hn). exists l. by rewrite Hl, Hs.
Qed.
Lemma sends_bind_r {A A'} n (m : M World A) (k : A -> M World A') :
  sends n m -> (forall x, keeps (@sent C B) (k x)) -> sends n (bind m k).
Proof.
  intros Hm Hk s. unfold bind. destruct (Hm s) as (l & Hl & Hn). destruct (m s) as [x s1]. cbn in Hl.
  exists l. by rewrite Hk, Hl.
Qed.

Lemma sends_round_trip r : sends 1 (round_trip (C:=C) (B:=B) env r).
Proof. intros s. exists [r]. split; [done|cbn; lia]. Qed.

Lemma sends_serveUpstream w req : sends 1 (serveUpstream (C:=C) (B:=B) ParseTime env w req).
Proof.
  unfold serveUpstream. apply sends_bind_l; [frame|]. intros t.
  apply sends_bind_l; [frame|]. intros [u|]; [|apply sends_quiet; frame].
  apply sends_bind_l; [frame|]. intros release. apply sends_bind_l; [frame|]. intros _.
  apply sends_bind_r; [|intros w'; frame]. unfold forward.
  apply sends_bind_r; [apply sends_round_trip|]. intros [up|err]; frame.
Qed.

Lemma sends_call_handler w req : sends 1 (call_handler (C:=C) (B:=B) ParseTime env w req).
Proof.
  unfold call_handler. apply sends_bind_l; [frame|]. intros [cfg|]; [|apply sends_serveUpstream].
  apply sends_bind_l; [frame|]. intros [| |]; try apply sends_serveUpstream; apply sends_quiet; frame.
Qed.

Lemma sends_serve w req : sends 1 (ServeHTTP (C:=C) (B:=B) ParseTime env w req).
Proof.
  unfold ServeHTTP. apply sends_bind_l; [frame|]. intros t.
  case_bool_decide; [apply sends_quiet; frame|]. apply sends_bind_l; [frame|]. intros allowed.
  destruct (method_refused _ _); [apply sends_quiet; frame|].
  apply sends_bind_l; [frame|]. intros preview. apply sends_bind_l; [frame|]. intros on.
  apply sends_bind_l; [destruct on; [apply keeps_sent_cache_phase|frame]|]. intros [req' [e|]].
  - apply sends_quiet, keeps_sent_hit.
  - unfold miss_phase. apply sends_bind_l; [frame|]. intros [u|]; [|apply sends_quiet; frame].
    apply sends_bind_l; [frame|]. intros idreq. apply sends_bind_l; [frame|]. intros _. apply sends_call_handler.
Qed.
End Sends.

(** ** Facts: an item read through the proxy *)

Section Items.
Context `{U : Unicode} `{F : Format}.
Variable app : AppEnv.
Variable codec : Codec.
Abbreviation AnyHandler := (@AnyHandler Store).
Variable promhttp_Handler : AnyHandler.
Variable redirect : string -> AnyHandler.
Variable bad_request : AnyHandler.
Variable proxy_addr : string.
Variable listener_addr : string -> string.
Hypothesis exporter_natural : natural promhttp_Handler.
Hypothesis redirect_natural : forall p, natural (redirect p).
Hypothesis bad_request_natural : natural bad_request.

Abbreviation answer := (server_answer app codec promhttp_Handler redirect bad_request proxy_addr listener_addr).
Abbreviation delivered := (deliver app codec promhttp_Handler redirect bad_request proxy_addr listener_addr).

(** The answer to a GET of an item: status and body. *)
Definition item_status (st : Store) (id : Z) : Z := match data st !! id with Some _ => 200 | None => 404 end.
Definition item_body (st : Store) (id : Z) : string :=
  match data st !! id with
  | Some item => encode_item codec item
  | None => "404 page not found" +:+ newline
  end.
Definition item_response (addr : string) (st : Store) (id : Z) : ResponseWriter :=
  let w := w_Set "Cache-Control" shared_for_10s (named_writer addr) in
  match data st !! id with
  | Some item => writeJSON 200 (encode_item codec item) w
  | None => w_NotFound w
  end.

Lemma item_response_answered addr st id :
  answered (item_response addr st id) (item_status st id) (item_body st id).
Proof.
  unfold item_response, item_status, item_body.
  destruct (data st !! id); [apply answered_json|apply answered_error]; try done; apply hGet_hSet.
Qed.

Lemma reqGet_received r k : reqGet (received proxy_addr r) k = reqGet r k.
Proof. done. Qed.

(** A request that is not a scrape is not one after rewriting either, unless its path becomes so. *)
Lemma scrape_received r u :
  isMetricsScrape r = false -> singleJoiningSlash (Path u) (Path (rURL r)) <> "/metrics" ->
  isMetricsScrape (received proxy_addr (directRequest r u)) = false.
Proof.
  unfold isMetricsScrape. rewrite !reqGet_received. intros Hs Hp.
  destruct (directRequest_frame r u) as (_ & _ & Hu). cbn [received rURL Path]. rewrite Hu. cbn [Path].
  rewrite bool_decide_false by done.
  rewrite !directRequest_get by (apply not_rewritten; vm_compute; reflexivity).
  by destruct (bool_decide (Path (rURL r) = "/metrics")).
Qed.

Lemma item_answer st (r : Request) (u : URL) (id : Z) :
  0 < id < two63 -> singleJoiningSlash (Path u) (Path (rURL r)) = item_path id ->
  Method r = "GET" -> isMetricsScrape r = false ->
  let w := item_response (listener_addr (Host u)) (app_state (st (Host u))) id in
  answer st (directRequest r u) = mkUpstream (default 200 (wStatus w)) (wSent w) (BodyBytes (wBody w))
  /\ app_state (delivered st (directRequest r u) (Host u)) = app_state (st (Host u)).
Proof.
  intros Hid Hp Hm Hs. cbv zeta.
  assert (Hscrape : isMetricsScrape (received proxy_addr (directRequest r u)) = false)
    by (apply scrape_received; [done|by rewrite Hp]).
  destruct (directRequest_frame r u) as (F1 & _ & F3).
  assert (Hhost : Host (rURL (directRequest r u)) = Host u) by by rewrite F3.
  unfold server_answer, deliver, serve_at. cbv zeta. rewrite Hhost, (bool_decide_true (Host u = Host u)) by done.
  destruct (chain_response app codec promhttp_Handler redirect bad_request (listener_addr (Host u))
              (received proxy_addr (directRequest r u)) (st (Host u))
              exporter_natural redirect_natural bad_request_natural Hscrape)
    as (s0 & r' & S0 & M0 & U0 & Hc). cbv zeta in Hc. destruct Hc as [-> ->].
  destruct (item_get_writes app codec promhttp_Handler redirect bad_request _ ResponseWriter_Writer
              (named_writer (listener_addr (Host u))) r' s0 id Hid) as [-> ->].
  { rewrite U0. cbn [received rURL Path]. by rewrite F3. }
  { rewrite M0. cbn [received Method]. by rewrite F1. }
  rewrite S0. split; [|done]. rewrite F1, Hm.
  change (response_of "GET" (item_response (listener_addr (Host u)) (app_state (st (Host u))) id)
          = let w := item_response (listener_addr (Host u)) (app_state (st (Host u))) id in
            mkUpstream (default 200 (wStatus w)) (wSent w) (BodyBytes (wBody w))).
  unfold response_of. cbv zeta.
  destruct (item_response_answered (listener_addr (Host u)) (app_state (st (Host u))) id) as (E & _ & _).
  rewrite E. cbv iota. by rewrite E.
Qed.

Lemma shared_for_10s_cacheable ParseTime cell t1 t2 code h :
  cacheable_status code = true -> hGet h "Cache-Control" = shared_for_10s ->
  isCacheableResponse ParseTime cell t1 t2 (respWithBody code h) = (10 * second, true).
Proof.
  intros Hs Hh. unfold isCacheableResponse, respWithBody. cbn [StatusCode respHeader]. rewrite Hs, Hh. reflexivity.
Qed.
End Items.

(** ** Properties *)

Section Properties.
Context `{U : Unicode} `{F : Format}.
Variable app : AppEnv.
Variable codec : Codec.
Abbreviation AnyHandler := (@AnyHandler Store).
Variable promhttp_Handler : AnyHandler.
Variable redirect : string -> AnyHandler.
Variable bad_request : AnyHandler.
Variable proxy_addr : string.
Variable listener_addr : string -> string.
Context {C : Type} `{HL : CacheLaws C} {B : Type} `{BL : BalancerLaws B}.
Variable ParseTime : string -> option Z.
Abbreviation World := (World C B).
Abbreviation delivered := (deliver app codec promhttp_Handler redirect bad_request proxy_addr listener_addr).
Abbreviation exchanged :=
  (exchange app codec promhttp_Handler redirect bad_request proxy_addr listener_addr (C:=C) (B:=B) ParseTime).
Abbreviation env_of := (system_env app codec promhttp_Handler redirect bad_request proxy_addr listener_addr).

(** An exchange reaches at most one server, and the others do not notice it. *)
Lemma exchange_delivers (base : Env) (req : Request) (s : World) (st : Servers) :
  let '(w, (s', st')) := exchanged base req (s, st) in
  exists l, sent s' = sent s ++ l /\ st' = foldl delivered st l /\ (length l <= 1)%nat
  /\ forall h, (forall r, r ∈ l -> h <> Host (rURL r)) -> st' h = st h.
Proof.
  unfold exchange. cbn [fst snd].
  destruct (sends_serve ParseTime (env_of base st) newWriter req s) as (l & Hl & Hn).
  destruct (ServeHTTP _ _ _ _ _) as [w s']. cbn [snd] in Hl. exists l. rewrite Hl, drop_app_length.
  split_and!; [done|done|done|]. intros h Hh.
  destruct l as [|r [|]]; [done| |cbn in Hn; lia]. cbn. unfold deliver.
  rewrite bool_decide_false; [done|]. apply Hh. by left.
Qed.

(** The system is ready for requests to its one server [u]. *)
Record ready (base : Env) (s : World) (u : URL) : Prop := {
  rd_cache : clean_cache (cache_of s);
  rd_balancer : bal_ok (bal_of s);
  rd_target : Targets (bal_of s) = [u];
  rd_steady : steady (bal_of s);
  rd_healthy n : isTargetHealthy (http_get base n) u = true;
  rd_admitted n : exists d waited, queue_outcome base n = Served d waited;
}.

(** A client's request for the item [id] of the server [u]. *)
Record item_read (u : URL) (s : World) (req : Request) (id : Z) : Prop := {
  ir_id : 0 < id < two63;
  ir_path : singleJoiningSlash (Path u) (Path (rURL req)) = item_path id;
  ir_method : Method req = "GET";
  ir_allowed : method_refused (allowedMethods (proxy s)) (Method req) = false;
  ir_scrape : isMetricsScrape req = false;
  ir_health : Path (rURL req) <> "/healthz";
  ir_ctx : rCtx req = emptyCtx;
}.

Lemma same_request_scrape req r : same_request req r -> isMetricsScrape r = isMetricsScrape req.
Proof.
  intros (_ & Hu & _ & _ & Hh). unfold isMetricsScrape, reqGet, hGet. by rewrite Hu, !Hh by done.
Qed.

Hypothesis exporter_natural : natural promhttp_Handler.
Hypothesis redirect_natural : forall p, natural (redirect p).
Hypothesis bad_request_natural : natural bad_request.

Lemma ready_answers base s st u req id :
  ready base s u -> item_read u s req id ->
  let w := item_response codec (listener_addr (Host u)) (app_state (st (Host u))) id in
  answers (env_of base st) s req (mkUpstream (default 200 (wStatus w)) (wSent w) (BodyBytes (wBody w))) (wBody w).
Proof.
  intros [_ _ Ht Hst Hh Ha] [Hid Hp Hm _ Hs _ _]. cbv zeta. constructor.
  - by rewrite Ht.
  - done.
  - intros n v Hv. rewrite Ht in Hv. apply list_elem_of_singleton in Hv as ->. apply Hh.
  - done.
  - intros n v r Hv Hr. rewrite Ht in Hv. apply list_elem_of_singleton in Hv as ->. cbn [system_env RoundTrip].
    f_equal. pose proof Hr as (M & P & _). apply item_answer; try done; [by rewrite P|by rewrite M|].
    by rewrite (same_request_scrape req r).
  - done.
Qed.

Lemma preview_single (e1 e2 : Env) (s1 s2 : World) u :
  Targets (bal_of s1) = [u] -> Targets (bal_of s2) = [u] -> bal_ok (bal_of s1) -> bal_ok (bal_of s2) ->
  preview_of e1 s1 <> None -> preview_of e2 s2 <> None -> preview_of e2 s2 = preview_of e1 s1.
Proof.
  intros T1 T2 B1 B2 P1 P2.
  destruct (preview_of e1 s1) as [v1|] eqn:E1; [|done]. destruct (preview_of e2 s2) as [v2|] eqn:E2; [|done].
  apply law_preview_some in E1; [|done]. apply law_preview_some in E2; [|done].
  rewrite T1 in E1. rewrite T2 in E2. apply list_elem_of_singleton in E1, E2. congruence.
Qed.

Lemma item_status_plain st id :
  informational (item_status st id) = false /\ cacheable_status (item_status st id) = true.
Proof. unfold item_status. by destruct (data st !! id). Qed.

(** The answer to a read, what it leaves in the servers and what it leaves in the cache. *)
Lemma item_exchange (base : Env) (s : World) (st : Servers) (u : URL) (req : Request) (id : Z) :
  ready base s u -> item_read u s req id -> hit_of (env_of base st) s req = None ->
  let db := app_state (st (Host u)) in
  let '(w, (s', st')) := exchanged base req (s, st) in
  wStatus w = Some (item_status db id) /\ wBody w = item_body codec db id
  /\ (forall h, app_state (st' h) = app_state (st h))
  /\ (caching s req = true -> exists header storedAt m rid, canonical header
        /\ Spec.find (key_of (env_of base st) s req) (cache_view (cache_of s')) =
        Some (mkCached (item_status db id) header (item_body codec db id) storedAt (clock base m + 10 * second) rid)).
Proof.
  intros Hrd Hir Hhit. cbv zeta.
  pose proof (ready_answers base s st u req id Hrd Hir) as Han. cbv zeta in Han.
  destruct Hrd as [Hc Hb Ht _ _ _], Hir as [Hid Hp Hm Hal Hsc Hhp Hctx].
  set (db := app_state (st (Host u))) in *.
  destruct (item_response_answered codec (listener_addr (Host u)) db id) as (E1 & E2 & E3).
  set (w0 := item_response codec _ db id) in *. rewrite E1, E2 in Han. cbn [default] in Han.
  destruct (item_status_plain db id) as [Hinf Hcst].
  pose proof (exchange_delivers base req s st) as Hex. unfold exchange in *. cbn [fst snd] in *.
  pose proof (forwards_spec ParseTime (env_of base st) req s _ _ (proj1 Hc) Hb Han Hctx Hhp Hal Hhit Hinf) as Hf.
  destruct (ServeHTTP _ _ _ _ _) as [w s']. destruct Hf as (F1 & F2 & _ & F4 & F5).
  split; [exact F1|]. split; [exact F2|]. split.
  - destruct F4 as (v & r & Hv & Hsent & Hr). rewrite Ht in Hv. apply list_elem_of_singleton in Hv as ->.
    rewrite Hsent, drop_app_length. cbn [foldl]. intros h. unfold deliver at 1.
    case_bool_decide as Hh; [|done].
    destruct (directRequest_frame r u) as (_ & _ & Hu). rewrite Hu in Hh. cbn in Hh. subst h.
    assert (Hr' : same_request req r) by exact Hr. destruct Hr as (M & P & _).
    destruct (item_answer app codec promhttp_Handler redirect bad_request proxy_addr listener_addr
                exporter_natural redirect_natural bad_request_natural st r u id) as [_ Hd];
      [done|by rewrite P|by rewrite M|by rewrite (same_request_scrape req r)|].
    unfold deliver in Hd. rewrite Hu in Hd. by rewrite bool_decide_true in Hd by done.
  - intros Hcg. destruct F5 as (n & Hst). unfold storable in Hst. unfold caching in Hcg. rewrite Hcg in Hst.
    cbn [up_status up_header] in Hst. rewrite shared_for_10s_cacheable in Hst by done.
    destruct Hst as (m & storedAt & rid & Hhead). eexists _, storedAt, m, rid.
    split; [|exact (Spec_find_head _ _ _ Hhead)]. apply sanitize_canonical.
Qed.


End Properties.

(** ** From the file to the answer *)

Section Start.
Context `{U : Unicode} `{F : Format}.
Variable app : AppEnv.
Variable codec : Codec.
Abbreviation AnyHandler := (@AnyHandler Store).
Variable promhttp_Handler : AnyHandler.
Variable redirect : string -> AnyHandler.
Variable bad_request : AnyHandler.
Variable proxy_addr : string.
Variable listener_addr : string -> string.
Variable ParseTime : string -> option Z.
Variable ParseURL : string -> option URL.
Variable exists_file : string -> bool.
Variable ReadFile : string -> result string string.
Variable Unmarshal : string -> result yamlRoot string.

Lemma started_ready (cell cell' : TTLCell) (cfg : Config) (u : URL) (base : Env) :
  Load ParseURL exists_file ReadFile Unmarshal cell = (Ok cfg, cell') -> TargetURLs cfg = [u] ->
  (forall n, isTargetHealthy (http_get base n) u = true) ->
  (forall n, exists d waited, queue_outcome base n = Served d waited) ->
  exists s, start_world (Ok cfg, cell') = Some s /\ ready base s u /\ cache_view (cache_of s) = []
  /\ allowedMethods (proxy s) = SetAllowedMethods (AllowedMethods cfg) /\ cacheOn (proxy s) = Enabled (cfg_Cache cfg).
Proof.
  intros Hl Hu Hh Ha.
  destruct (startup_facts _ _ _ _ _ _ _ Hl) as (s & Hs & Hw).
  { by rewrite Hu. }
  destruct Hw. exists s. split_and!; try done. constructor; try done. congruence.
Qed.

(** [C7] From the file to the answer: with a configuration file of one target, any method
    list that admits GET, and a server behind the target that passes its probe, the
    first GET of an item after the start is answered with the server's item or its 404,
    and - caching enabled and allowed by the request - kept for ten seconds. *)
Theorem started_system_serves (cell cell' : TTLCell) (cfg : Config) (u : URL) (base : Env) (st : Servers)
    (req : Request) (id : Z) :
  natural promhttp_Handler -> (forall p, natural (redirect p)) -> natural bad_request ->
  Load ParseURL exists_file ReadFile Unmarshal cell = (Ok cfg, cell') -> TargetURLs cfg = [u] ->
  (forall n, isTargetHealthy (http_get base n) u = true) ->
  (forall n, exists d waited, queue_outcome base n = Served d waited) ->
  0 < id < two63 -> singleJoiningSlash (Path u) (Path (rURL req)) = item_path id -> Method req = "GET" ->
  method_refused (SetAllowedMethods (AllowedMethods cfg)) "GET" = false ->
  isMetricsScrape req = false -> Path (rURL req) <> "/healthz" -> rCtx req = emptyCtx ->
  exists s, start_world (Ok cfg, cell') = Some s /\
  let db := app_state (st (Host u)) in
  let env := system_env app codec promhttp_Handler redirect bad_request proxy_addr listener_addr base st in
  let '(w, (s', st')) := exchange app codec promhttp_Handler redirect bad_request proxy_addr listener_addr
                           ParseTime base req (s, st) in
  wStatus w = Some (item_status db id) /\ wBody w = item_body codec db id
  /\ (forall h, app_state (st' h) = app_state (st h))
  /\ (Enabled (cfg_Cache cfg) = true -> request_eligible req = true -> exists header storedAt m rid,
        Spec.find (key_of env s req) (cache_view (cache_of s')) =
        Some (mkCached (item_status db id) header (item_body codec db id) storedAt (clock base m + 10 * second) rid)).
Proof.
  intros N1 N2 N3 Hl Hu Hh Ha Hid Hp Hm Hal Hsc Hhp Hctx.
  destruct (started_ready cell cell' cfg u base Hl Hu Hh Ha) as (s & Hs & Hrd & Hcv & Hmeth & Hon).
  exists s. split; [done|]. cbv zeta.
  assert (Hir : item_read u s req id) by (constructor; try done; by rewrite Hmeth, Hm).
  pose proof (item_exchange app codec promhttp_Handler redirect bad_request proxy_addr listener_addr ParseTime
                N1 N2 N3 base s st u req id Hrd Hir) as Hx.
  assert (Hhit : hit_of (system_env app codec promhttp_Handler redirect bad_request proxy_addr listener_addr base st) s req = None).
  { unfold hit_of, fresh_entry. rewrite Hcv. by destruct (caching s req). }
  specialize (Hx Hhit). cbv zeta in Hx.
  destruct (exchange _ _ _ _ _ _ _ _ _ _ _) as [w [s' st']]. destruct Hx as (H1 & H2 & H3 & H4).
  split_and!; [done..|]. intros He Hel. destruct H4 as (header & storedAt & m & rid & _ & Hf).
  { unfold caching. by rewrite Hon, He. }
  eauto.
Qed.
End Start.

(** ** Instances *)

#[local] Existing Instance ascii_only.
#[local] Existing Instance sample_format.

(** One server, seeded, behind a proxy with a cache and round robin. *)
Definition sample_server : URL := mkURL "http" "items:9000" "" "".
Definition sample_servers : Servers := fun _ => sample_state.
Definition front : World lruCache balancer :=
  mkWorld (mkProxy sample_server [sample_server] (NewLRUCache 8) true None None
             (newBalancer "rr" [sample_server] false) "rr" false) defaultCacheTTL_init 0 [] [] [] 0%nat.
Definition front_env (t : Z) : Env :=
  mkEnv (fun _ => t) (fun _ _ => Some 200) (fun _ _ => Err "") (fun _ => None) (fun _ => "") (fun _ => Served 1 0).
Definition client_request (method path : string) (b : Body) : Request :=
  mkRequest method (mkURL "" "" path "") "shop.example" {["Accept" := ["*/*"]]} b "192.0.2.1:4711" false emptyCtx.
Abbreviation sample_exchange :=
  (exchange sample_app_env sample_codec sample_exporter sample_redirect sample_bad_request "10.0.0.1:40000" id
     (C:=lruCache) (B:=balancer) no_dates).

Lemma sample_exporter_natural : natural sample_exporter.
Proof.
  intros W1 W2 H1 H2 f Hf w r s. unfold sample_exporter, ret. cbn [fst snd]. by rewrite (wm_Write (f := f)).
Qed.
Lemma sample_redirect_natural p : natural (sample_redirect p).
Proof.
  intros W1 W2 H1 H2 f Hf w r s. unfold sample_redirect, ret. cbn [fst snd].
  by rewrite (wm_WriteHeader (f := f)), (wm_Set f).
Qed.
Lemma sample_bad_request_natural : natural sample_bad_request.
Proof.
  intros W1 W2 H1 H2 f Hf w r s. unfold sample_bad_request, ret. cbn [fst snd].
  by rewrite (wm_WriteHeader (f := f)).
Qed.

Lemma front_ready t : ready (front_env t) front sample_server.
Proof.
  constructor; [|split; vm_compute; split; discriminate || reflexivity|reflexivity| |done|by exists 1, 0].
  - split; [apply NewLRUCache_wf|]. intros p Hp. by apply not_elem_of_nil in Hp.
  - left. vm_compute. discriminate.
Qed.
Lemma front_read : item_read sample_server front (client_request "GET" "/api/items/2" NoBody) 2.
Proof. constructor; try reflexivity; try done. Qed.



(** Even a change made through the proxy is not seen: the entry of the GET stays. *)
Example read_write_read :
  let get := client_request "GET" "/api/items/2" NoBody in
  let put := client_request "PUT" "/api/items/2" (BodyBytes "gamma") in
  let '(w1, x1) := sample_exchange (front_env 0) get (front, sample_servers) in
  let '(w2, x2) := sample_exchange (front_env second) put x1 in
  let '(w3, x3) := sample_exchange (front_env (2 * second)) get x2 in
  wBody w1 = "beta" /\ wBody w2 = "gamma" /\ wBody w3 = "beta"
  /\ Name <$> data (app_state (x3.2 "items:9000")) !! 2 = Some "gamma".
Proof. vm_compute. repeat split. Qed.

Definition one_target : yamlProxy := mkYamlProxy None ["http://items:9000"] None None [] None None None.

Lemma started_system_serves_witness :
  exists cfg cell' s, sample_load one_target = (Ok cfg, cell') /\ start_world (Ok cfg, cell') = Some s
  /\ wBody (sample_exchange (front_env 0) (client_request "GET" "/api/items/1" NoBody) (s, sample_servers)).1 = "alpha".
Proof.
  destruct (sample_load one_target) as [[cfg|e] cell'] eqn:Hl; [|vm_compute in Hl; discriminate].
  assert (Hu : TargetURLs cfg = [sample_server]) by (vm_compute in Hl; injection Hl as <- _; reflexivity).
  assert (Hm : method_refused (SetAllowedMethods (AllowedMethods cfg)) "GET" = false)
    by (vm_compute in Hl; injection Hl as <- _; vm_compute; reflexivity).
  destruct (started_system_serves sample_app_env sample_codec sample_exporter sample_redirect sample_bad_request
    "10.0.0.1:40000" id no_dates _ _ _ _ _ cell' cfg sample_server (front_env 0) sample_servers
    (client_request "GET" "/api/items/1" NoBody) 1 sample_exporter_natural sample_redirect_natural
    sample_bad_request_natural Hl Hu) as (s & Hs & H); try done; [by exists 1, 0|].
  exists cfg, cell', s. split; [reflexivity|]. split; [exact Hs|]. cbv zeta in H.
  destruct (sample_exchange _ _ _) as [w [s' st']]. destruct H as (_ & H & _). cbn [fst]. rewrite H. vm_compute. reflexivity.
Defined.
